(* ===== verification/_CoqProject ===== *)
-Q . S2P
Prelude.v
JsNum.v
Helpers.v
Float64.v
Matrix.v
Batch.v
Parsers.v
Json.v
Collate.v
App.v
Importer.v
Icu.v
Phpcpd.v
Compare.v
Fs.v
ImporterIo.v
AppIo.v
