(* ===== verification/Prelude.v ===== *)
(** * A verification development of version-comparison-heatmap

    The repository (src/) is a small Node.js tool that compares successive
    versions of a code base.  [src/main.js] builds an [App]
    ([src/src/App.js]) whose [run] method

    - lists the version directories and sorts them ([getVersions]),
    - maps every version to its directory ([version_dir_map]) and to its
      lines of code ([version_loc_map], from a cloc CSV: [parseClocCsv]),
    - builds the strictly lower-triangular comparison matrix
      ([createRichMatrix]),
    - runs the external similarity tool on every populated cell, at most
      ten processes at a time ([augmentComparisonMatrix], with
      [compareVersionsJavaScript] / [compareVersionsPHP] as comparators),
    - normalises every cell's ratio, colour, width and height
      ([augmentHeatmapMatrix], using [findMinMaxMatrix], [findMeanMatrix]
      and the helpers [round], [minmax], [percentageToColor] of
      [src/src/helpers.js]),
    - and writes [cloc.csv], [barchart.html], [heatmap.json] and
      [heatmap.html] into the output directory (the two HTML files
      rendered by pug templates).

    [src/import.js] and [src/src/Importer.js] are a separate tool that
    clones git tags.  Both programs change the working directory to the
    project root and create their output directory first.

    ** Files of the development (in dependency order)

    - [Prelude] (this file): the notation scope [heatmap_scope], the
      reflexive-transitive closure [star] of a step relation and the
      accessibility predicate [terminates] with their lemmas, the hint
      database [heatmap], the tactics [invc] and [case_bool], and generic
      list lemmas shared by the components.
    - [JsNum]: the semantics of JavaScript numbers the code relies on.
      A number is [JFin q] (a finite value, kept as an exact rational
      [q : Q]), [JInf b] (+Infinity when [b = true]) or [JNaN].  It gives
      [+ - * /], [<], truthiness ([!x], [x || y]), [Math.floor],
      [Math.round], [Math.pow(10, n)], ToNumber of [undefined] and the
      printing of integral numbers ([int_to_string]), with the notations
      of [js_scope], the equivalence [jeq] (Qeq on finite values) and its
      [Proper] instances for setoid rewriting.
    - [Helpers]: [src/src/helpers.js]: [round], [minmax], [normalize],
      the colour stops [percentColors], the stop search [color_index] and
      [percentageToColor] (through [percentageToRGB]).
    - [Float64]: IEEE 754 binary64 rounding ([round64]: nearest, ties
      to even, subnormals, overflow) and the operators and [round] of
      the helpers on doubles.
    - [Matrix]: the cell record and the matrix of [App.js]:
      [createRichMatrix], [findMinMaxMatrix] (loop body [minmax_step]),
      [findMeanMatrix], [augmentHeatmapMatrix] (passes [with_ratio] and
      [finish_cell]).
    - [Batch]: [augmentComparisonMatrix] as the step relation [bstep]
      over an explicit state [bstate] (matrix, loop positions still to
      visit, the [promises] array, the pending callbacks, [processed],
      the progress log, the point of the code: running, awaiting inside
      the loop, awaiting the last batch, returned), with the comparator
      given by the interface (type class) [Comparator]; [sched_step] and
      [run_sched] are one executable schedule (FIFO completion).
    - [Parsers]: the text parsers of [App.js]: ES [parseInt] (module
      [ParseInt]), the version regex of [parseClocCsv] (module
      [VersionRegex]), the row fold of [parseClocCsv] (module [Cloc]) and
      the count of [compareVersionsJavaScript] (module [JsInspect]).
    - [Collate]: the numeric collator as the class [Collator] with the
      laws of a consistent comparator, and [Array.prototype.sort] as the
      stable [merge_sort] of stdpp.
    - [App]: [App.run]: [getVersions], the [version_dir_map] loop,
      [total_comparisons], [srcPath], the barchart data, [run_setup]
      (everything before the comparison, a function) and [run] (a
      relation whose comparison is any finished run of [bstep]); the file
      system, [path.join], cloc, the CSV and JSON decoders and the two
      comparators are the class [AppEnv].
    - [Importer]: [src/src/Importer.js]: [parseTags], [import],
      [listTags] and [run], with the spawned git command lines as result.
    - [Icu]: the collator the code builds, [new Intl.Collator(undefined,
      {numeric: true, sensitivity: 'base'})], as ICU's root collation at
      primary strength on ASCII: every string becomes its primary
      collation elements ([icu_keys]: white space and punctuation in the
      root order, digit runs as numbers, letters without case) and
      strings compare lexicographically ([icu_compare]); [icu_collator]
      is an instance of [Collator] and its laws are proved.
    - [Phpcpd]: the text parse of [compareVersionsPHP]: ECMAScript
      [StringToNumber] (module [ToNumber]), the regex
      [/(.*?)% duplicated lines.*?(\d+)/] (module [PhpRegex]) and
      [php_count]; the two comparators of [App.js] as instances of
      [Comparator] built on the tools' reports ([php_comparator],
      [js_comparator]).
    - [Json]: the heatmap cache [heatmap.json] of [App.run] (lines 80-87):
      [JSON.stringify] of the matrix as [serialize] of the JSON value
      [matrix_json] ([QuoteJSONString] escapes, cell properties in
      creation order, [undefined] omitted, NaN and Infinity as [null]),
      [JSON.parse] as the recursive-descent parser [parse_value] /
      [parse_elems] / [parse_member] / [parse_members] with fuel, and
      the decoding of the parsed cells the heatmap pass reads
      ([read_heatmap_cache]).
    - [Compare]: [compareVersions] as the step relation [tstep] over a
      [task] (writes of the tool still in the pipe, the temporary
      file's text, whether it still exists, the text the ['exit']
      callback read, the callback's outcome), the pipe flush and the
      ['exit'] event interleaved in any order; the callbacks of
      [compareVersionsPHP] ([php_callback]) and
      [compareVersionsJavaScript] ([js_callback]: [JSON.parse], the
      forEach loops with their throws, in the result monad [jsres]);
      the command lines of jsinspect, phpcpd and cloc and [debug].
    - [Fs]: the Node.js runtime the programs act on: a [world] of
      directories (a [gset] of absolute paths), files (a [gmap] from path
      to text), the working directory and the spawned processes;
      [path.join] as [posix_join] with Node's [normalizeString]
      ([norm_step], [norm_segs]), path resolution ([resolve]); the calls
      [process.cwd], [process.chdir], [fs.existsSync], [fs.mkdirSync]
      (recursive), [fs.readdir] (its failure), [fs.readFileSync],
      [fs.writeFileSync] and [cp.spawn]
      as operations of the state and error monad [io] (an error keeps the
      state reached), with the invariant [world_wf] and its preservation
      ([io_wf]).
    - [ImporterIo]: [import.js] as an [io] program: the [Importer]
      constructor, [parseTags] with its file read and [chdir(cwd)],
      [import] with its [chdir] into the output directory and one spawn
      per tag, [listTags], [run] and [importer_main].
    - [AppIo]: [main.js] as an [io] program: the [chdir]s of [App.js] and
      its constructor, [run] with the [mkdir], the [readdir] of
      [getVersions], [calculateLinesOfCode]
      (the cloc spawn and the [cloc.csv] it writes), the barchart write,
      the heatmap cache read or [heatmap.json] write, and the heatmap
      write; csv-parse, cloc's report and pug are the class [IoEnv], and
      [io_env] gives [App]'s [AppEnv] on the current world.

    How they interact: [App.run] ([App]) calls the line counts
    ([Parsers]), the matrix builder ([Matrix]), the batch runner
    ([Batch]) on a [Comparator] instance (the abstract class in [Batch],
    instantiated by [Phpcpd] on the tools' reports and by [Compare] on
    the tasks of [compareVersions]), or the cache ([Json]) instead of
    the batch runner, and the heatmap pass ([Matrix], [Helpers]).
    [AppIo] runs [App]'s [run_setup] on the world it has reached and
    threads the world through the file reads and writes of [App.run];
    [ImporterIo] does the same for [Importer]; both are built on [Fs].

    ** What the theorems show

    The claims are numbered C1, C2, ... in the doc comment of their
    theorem, most important first.  The comparator of [Batch] is
    abstract and always settles, while a comparison of the code can
    never settle (C23): the claims on the runs are partial correctness,
    about every run that returns, and no claim states that a run
    returns.
    - Batch comparator (C1, C2): every run that returns has filled every
      populated cell with its comparator result, whatever the completion
      order (a refinement of the specification
      [augmentComparisonMatrix_spec]), left the other cells and every
      [ratio] alone (the method's doc comment promises a [ratio]),
      counted [processed] up to the number of populated cells and logged
      1, 2, ..., N in order; at most ten comparisons are in flight in
      every reachable state.
    - Pipeline (C3): a run of [App.run] that compares ends with the
      heatmap of the specified comparison matrix and with [processed]
      equal to [total_comparisons].
    - Heatmap pass and statistics (C4-C6): with positive counts every
      ratio ends in [0,1], every width and height in [10,30];
      [findMinMaxMatrix] is exact when no selected value is 0 or NaN and
      forgets a minimum of 0 followed by positive values (the falsy test
      [!min]).
    - Parsers (C7, C25): [parseClocCsv] sums the rows of each version;
      the jsinspect count is the sum of the instance lengths.
    - Helpers (C8, C9, C28): [percentageToColor] maps [0,1] to channels
      in [0,255]; [minmax] maps [min,max] into [0,1] within half a unit
      of the last place, and gives an infinity when [min = max] and
      [value <> min].
    - Heatmap cache (C10-C12): a second run with [--use-heatmap-cache]
      on the first run's [heatmap.json] leaves every file as it was,
      whatever the comparators would give; a matrix with integral counts
      survives the cache ([JSON.parse] reads back what [JSON.stringify]
      writes, proved Cheerios-style with an arbitrary tail after the
      value); NaN and the infinities do not: they come back as 0.
    - The programs on the file system (C13-C18): a run of [main.js]
      without caches writes exactly its four output files; with another
      [--output-dir] the default cache path is not the file the first
      run wrote and the second run throws [ENOENT]; [import.js] spawns
      exactly the git processes of [Importer], in the output directory;
      with an absolute [--output-dir] it creates the directory and then
      throws [ENOENT] at the [chdir] into [path.join(process.cwd(),
      outputDir)]; without tags it throws only after creating the output
      directory; without the input directory [main.js] throws [ENOENT]
      at [getVersions]' [readdir], after the [mkdir] and before cloc.
    - Version collation (C19-C21): the ICU collator of [Icu] compares
      dotted numeric versions as the lexicographic order of their
      numbers, so [getVersions] returns such directories sorted
      numerically ([1.0], [1.2], [1.10], the specification's example);
      a version sorts before its [-tag] extensions, the opposite of
      Semantic Versioning's pre-release order.
    - compareVersions (C22, C23): for every report, the outcomes a
      comparison can reach are exactly what its callback makes of the
      first [k] writes of the tool, for each [k], since ['exit'] may
      fire before the pipe has drained: the PHP count can be 0 whatever
      the report, and the JavaScript callback can throw on the empty
      text, keep its temporary file and never settle.
    - Matrix builder (C24): an [N x N] matrix whose cell [(i, j)] holds
      versions [i] and [j] and their line counts exactly when [j < i].
    - phpcpd comparator (C26): the report line [P% duplicated lines out
      of N ...] gives [Math.round(N / 100 * P)].
    - CLI (C27): [import.js --list-tags <url> ...] takes [--list-tags]
      as the URL, whatever the URL and the rest of the command line.
    Further theorems of the files, without a claim id, state the
    remaining behaviours: that every run of the batch runner and of a
    comparison task terminates and never sticks before the end with an
    always-settling comparator ([batch_terminates], [batch_finishes],
    [run_returns], [task_terminates]), that every task reads a prefix of
    the tool's output ([task_reads_prefix]) and the PHP callback removes
    its file, that every program keeps the file system well formed
    ([programs_keep_world_wf]), the IEEE results of [Float64] (the
    operators exact on safe integers, [helpers.round(1.005, 2)] is 1),
    the JSON round trip of every value with integral numbers
    ([json_parse_serialize]) and the fuel of [json_parse], the sample
    zero match count with ratio -1 and colour rgb(1275,255,255), the
    sample NaN line count that changes the cached heatmap, the anchors,
    the missing clamp and the non-strict interpolation of
    [percentageToColor], the identity fields
    kept by the heatmap pass, the NaN mean of an empty matrix, the throw
    of [parseClocCsv] on a row without a file name, the phpcpd report
    without [%] and with a decimal comma, the spaced [--tags], the width
    of the [debug] title, [parseInt(String(z)) = z], the directory of a
    cloc row, the exact git command lines, the count of
    [createRichMatrix], the pure cache rerun of [App.run], the values of
    [percentageToColor] between two anchors, the leftmost segment the
    version regex returns, the restart
    of [parseClocCsv] from 0 after a row that does not parse, the pure
    [Importer] failing exactly without tags, [getVersions] as a sorted
    permutation for every consistent collator, the trimmed,
    nonempty and sorted tags of a tag file, and in [Fs]
    that [path.join] and [path.normalize] do not change the file a path
    resolves to ([resolve_join], [resolve_normalize]).

    ** Modelling choices, bounds and fuel

    - Finite JavaScript numbers are modelled as exact rationals in every
      component.  IEEE binary64 rounding is modelled in [Float64]
      ([round64]) and shown to change nothing on safe integers, the
      counts and line sums of the code; on fractions it can differ
      ([helpers.round(1.005, 2)] is 1 on doubles and 1.01 here), so the
      theorems on ratios, colours and sizes hold for exact arithmetic.
      Signed zero is
      not modelled: every zero divisor the code can produce is [+0]
      ([x - x], sums of non-negative counts, the constant stop ranges).
    - [undefined] (a missing map entry, a cell field not yet set, a
      column missing from a CSV row) is [None] in the records, and
      ToNumber([undefined]) is [JNaN], which is what every arithmetic,
      comparison and [!] of the code does with it.
    - Strings are Rocq strings (bytes); [parseInt], [trim], [split] and
      the JSON text are modelled on ASCII, where the text of the tools'
      reports and of the cache lies ([\uXXXX] escapes above 255 are
      rejected).
    - [JSON.stringify] of a non-integral number is outside the model
      ([serialize] gives [None]): printing the shortest round-tripping
      decimal of a double needs the IEEE model left out above.  The
      cache round trip is therefore stated for integral counts, the
      counts the comparators and cloc produce.
    - [augmentComparisonMatrix] and [compareVersions] are concurrent:
      their models let every pending event happen, in any order,
      whenever the code is suspended; the theorems hold for all
      interleavings.  In [compareVersions] the ['exit'] event is enabled
      before the pipe has drained because Node.js emits it when the
      child ends, with its stdio streams possibly still open, and the
      write stream flushes asynchronously.
    - Fuel: [run_sched] takes its fuel as a parameter; [bmeasure]
      (three per matrix position, plus the pending callbacks, plus two)
      decreases at every step, so with a comparator that always settles
      the fuel [bmeasure (binit m)] suffices ([batch_finishes],
      [run_returns]); the sample runs use
      110 = 3 * 36 + 2 for six versions.  [json_parse] runs the parser
      with fuel [length + 1]: every nested call consumes at least one
      character ([parse_shorter]), so any fuel above the length gives
      the same answer ([parse_fuel], [json_parse_fuel]).
    - The file system of [Fs] is POSIX without permissions, symbolic
      links or other processes acting on it; [readdir] keeps its order
      as a parameter of [AppEnv] (the order is the file system's), so
      [getVersions] is proved for every order.  A spawned process is
      recorded with its working directory; what cloc writes is the
      report of [IoEnv], what git clones is not modelled.  The comparison
      inside [AppIo] is a parameter (the matrix a finished run of [Batch]
      gives, [App.run_compared_result]): the temporary files of the
      comparators are modelled in [Compare], not in the world.
    - Not modelled: the external processes themselves (cloc, jsinspect,
      phpcpd, git: their command lines and reports are modelled), the
      CSV library, pug (the data handed to it only) and [console.log];
      [normalize] is modelled but unused by the code.  The collator is
      modelled on ASCII, where version names and tags lie: the root
      collation's weights for other characters (UTF-16 in JavaScript)
      are not in the model, nor ICU's split of digit runs longer than
      254 digits.  The sample runs use [length_collator], a simpler
      consistent comparator, since their theorems hold for every
      collator. *)

From stdpp Require Import base list.
From Stdlib Require String.

Declare Scope heatmap_scope.
Delimit Scope heatmap_scope with heatmap.

Create HintDb heatmap.

(** Inversion that cleans up after itself. *)
Ltac invc H := inversion H; subst; clear H.

(** Case analysis on a boolean test of the goal, remembering its value. *)
Ltac case_bool b := let E := fresh "E" in destruct b eqn:E.

(** ** Runs of a step relation *)

Section Star.
Context {S : Type} (step : S -> S -> Prop).

Inductive star : S -> S -> Prop :=
| star_refl s : star s s
| star_step s1 s2 s3 : step s1 s2 -> star s2 s3 -> star s1 s3.

(** Termination from a state: every run from it is finite. *)
Inductive terminates (s : S) : Prop :=
| terminates_intro : (forall s', step s s' -> terminates s') -> terminates s.

Lemma star_one s1 s2 : step s1 s2 -> star s1 s2.
Proof. intros H. econstructor; [exact H | constructor]. Qed.

Lemma star_trans s1 s2 s3 : star s1 s2 -> star s2 s3 -> star s1 s3.
Proof. induction 1; eauto using star. Qed.

(** A property preserved by every step holds along every run. *)
Lemma star_invariant (P : S -> Prop) :
  (forall s s', P s -> step s s' -> P s') ->
  forall s s', star s s' -> P s -> P s'.
Proof. intros Hpres s s' Hs. induction Hs; eauto. Qed.

(** A measure that decreases along every step from a set closed under
    steps gives termination. *)
Lemma measure_terminates (P : S -> Prop) (m : S -> nat) :
  (forall s s', P s -> step s s' -> P s') ->
  (forall s s', P s -> step s s' -> m s' < m s) ->
  forall s, P s -> terminates s.
Proof.
  intros Hpres Hdec s. remember (m s) as n eqn:Hn. revert s Hn.
  induction n as [n IH] using lt_wf_ind.
  intros s -> Hs. constructor. intros s' Hstep.
  eapply IH; [| reflexivity |]; eauto.
Qed.
End Star.

#[export] Hint Constructors star : heatmap.
#[export] Hint Resolve star_one star_trans : heatmap.

Notation "s '~>*' s'" := (star _ s s') (at level 70) : heatmap_scope.

(** ** Generic lemmas on lists *)

Lemma fold_left_ext_in {A B} (f g : A -> B -> A) (l : list B) (a : A) :
  (forall acc x, In x l -> f acc x = g acc x) ->
  fold_left f l a = fold_left g l a.
Proof.
  revert a. induction l as [|x l IH]; intros a H; simpl; [done|].
  rewrite H by (left; done). apply IH. intros acc y Hy. apply H. by right.
Qed.

Lemma fold_left_concat {A B} (f : A -> B -> A) (ls : list (list B)) (a : A) :
  fold_left (fun acc l => fold_left f l acc) ls a = fold_left f (concat ls) a.
Proof.
  revert a. induction ls as [|l ls IH]; intros a; simpl; [done|].
  by rewrite fold_left_app, IH.
Qed.

(** A loop over a row that skips the [null] entries is a loop over the
    row's non-null entries. *)
Lemma fold_left_omap {A B} (f : A -> B -> A) (row : list (option B)) (a : A) :
  fold_left (fun acc c => match c with Some x => f acc x | None => acc end) row a =
  fold_left f (omap id row) a.
Proof.
  revert a. induction row as [|[x|] row IH]; intros a; simpl; [done | apply IH | apply IH].
Qed.

Lemma length_concat_sum {A} (ls : list (list A)) :
  length (concat ls) = sum_list (map length ls).
Proof. induction ls as [|l ls IH]; simpl; [done|]. by rewrite length_app, IH. Qed.

(** Gauss: [0 + 1 + ... + (n - 1)], shifted by [k]. *)
Lemma sum_imap_index {A} (l : list A) (k : nat) :
  2 * sum_list (imap (fun m _ => k + m) l) = length l * (2 * k + length l - 1).
Proof.
  revert k. induction l as [|x l IH]; intros k; simpl; [done|].
  rewrite (imap_ext _ (fun m _ => S k + m)) by (intros; simpl; lia).
  specialize (IH (S k)). nia.
Qed.

Lemma omap_id_some {A} (x : A) (l : list (option A)) : omap id (Some x :: l) = x :: omap id l.
Proof. reflexivity. Qed.

Lemma omap_id_none {A} (l : list (option A)) : omap id (None :: l) = omap id l.
Proof. reflexivity. Qed.

Lemma map_imap {A B C} (g : B -> C) (f : nat -> A -> B) (l : list A) :
  map g (imap f l) = imap (fun n x => g (f n x)) l.
Proof.
  revert f. induction l as [|x l IH]; intros f; [done|].
  rewrite !imap_cons. simpl. by rewrite IH.
Qed.

Lemma lookup_map {A B} (f : A -> B) (l : list A) (i : nat) :
  map f l !! i = option_map f (l !! i).
Proof. revert i. induction l as [|x l IH]; intros [|i]; simpl; auto. Qed.

Lemma fold_left_map' {A B C} (f : A -> C -> A) (g : B -> C) (l : list B) (a : A) :
  fold_left f (map g l) a = fold_left (fun acc x => f acc (g x)) l a.
Proof. revert a. induction l as [|x l IH]; intros a; simpl; auto. Qed.

(** A row-by-row loop that skips [null] entries is one loop over the
    non-null entries in row-major order. *)
Lemma fold_left_rows {A B} (f : A -> B -> A) (m : list (list (option B))) (a : A) :
  fold_left (fun acc row =>
    fold_left (fun acc c => match c with Some x => f acc x | None => acc end) row acc) m a =
  fold_left f (concat (map (omap id) m)) a.
Proof.
  revert a. induction m as [|row m IH]; intros a; simpl; [done|].
  by rewrite fold_left_app, fold_left_omap, IH.
Qed.

Lemma omap_id_map {A B} (g : A -> B) (row : list (option A)) :
  omap id (map (option_map g) row) = map g (omap id row).
Proof.
  induction row as [|[x|] row IH]; [done| |]; cbn [map option_map];
    rewrite ?omap_id_some, ?omap_id_none; [|exact IH].
  cbn [map]. by rewrite IH.
Qed.

Lemma length_filter_map {A B} (P : B -> Prop) `{!forall x, Decision (P x)} (f : A -> B) (l : list A) :
  length (filter P (map f l)) = length (filter (fun x => P (f x)) l).
Proof.
  induction l as [|x l IH]; [done|]. simpl. rewrite !filter_cons.
  case_decide; simpl; by rewrite IH.
Qed.

(** The indices [k < length row] at which a row holds a value are as many
    as the row's values. *)
Lemma count_somes {A} (row : list (option A)) :
  length (filter (fun k => match row !! k with Some (Some _) => true | _ => false end = true)
            (seq 0 (length row))) = length (omap id row).
Proof.
  induction row as [|x row IH]; [done|].
  cbn [length]. rewrite <- cons_seq, <- seq_shift, filter_cons.
  destruct x as [x|].
  - rewrite decide_True by done. rewrite omap_id_some. cbn [length].
    rewrite length_filter_map. simpl. by rewrite IH.
  - rewrite decide_False by done. rewrite omap_id_none.
    rewrite length_filter_map. simpl. by rewrite IH.
Qed.

Lemma if_bool_decide_iff {A} (P Q : Prop) `{Decision P} `{Decision Q} (x y : A) :
  (P <-> Q) -> (if bool_decide P then x else y) = (if bool_decide Q then x else y).
Proof. intros HPQ. by rewrite (bool_decide_ext P Q HPQ). Qed.

Lemma forallb_Forall {A} (f : A -> bool) (l : list A) :
  forallb f l = true -> Forall (fun x => f x = true) l.
Proof.
  induction l as [|x l IH]; cbn; [constructor|].
  intros [Hx Hl]%andb_true_iff. constructor; auto.
Qed.

Lemma Forall_forallb {A} (f : A -> bool) (l : list A) :
  Forall (fun x => f x = true) l -> forallb f l = true.
Proof. induction 1; cbn; [done|]. by apply andb_true_iff. Qed.

Lemma Forall_mp {A} (P Q : A -> Prop) (l : list A) :
  Forall (fun x => P x -> Q x) l -> Forall P l -> Forall Q l.
Proof. intros HPQ HP. induction HPQ; inversion HP; subst; constructor; auto. Qed.

(** An invariant of the accumulator of a left fold. *)
Lemma foldl_Forall {A B} (P : A -> Prop) (Q : B -> Prop) (f : list A -> B -> list A) acc l :
  (forall st x, Forall P st -> Q x -> Forall P (f st x)) ->
  Forall P acc -> Forall Q l -> Forall P (foldl f acc l).
Proof.
  intros Hf. induction l as [|x l IH] in acc |- *; intros Hacc Hl; [done|].
  inversion Hl; subst. cbn. apply IH; auto.
Qed.

(** Strings: [String.append] and [String.length] by their equations
    (stdpp makes [String.append] opaque to [simpl]). *)
Lemma append_cons_str x (a b : String.string) :
  String.append (String.String x a) b = String.String x (String.append a b).
Proof. reflexivity. Qed.

Lemma append_assoc_str (a b c : String.string) :
  String.append a (String.append b c) = String.append (String.append a b) c.
Proof. induction a as [|x a IH]; [done|]. by rewrite !append_cons_str, IH. Qed.

Lemma append_nil_str (a : String.string) : String.append a String.EmptyString = a.
Proof. induction a as [|x a IH]; [done|]. by rewrite append_cons_str, IH. Qed.

Lemma length_append_str (a b : String.string) :
  String.length (String.append a b) = String.length a + String.length b.
Proof. induction a as [|x a IH]; [done|]. rewrite append_cons_str. cbn. by rewrite IH. Qed.

Lemma length_string_of_list_ascii l : String.length (String.string_of_list_ascii l) = length l.
Proof. induction l as [|x l IH]; cbn; [done|]. by rewrite IH. Qed.
