(* ===== verification/JsNum.v ===== *)
(** * JavaScript numbers, as the code of the repository uses them

    A JavaScript number is finite, an infinity or NaN.  Finite values are
    exact rationals ([Q]); IEEE rounding is modelled apart, in [Float64],
    and signed zero is not modelled (see the header of [Prelude]).  This file gives the operators and
    built-ins that [src/src/helpers.js] and [src/src/App.js] apply to
    numbers: [+ - * /], [<] and [>], [!x] and [x || y], [Math.floor],
    [Math.round], [Math.pow(10, n)], ToNumber of [undefined], and
    [Number.prototype.toString] on integral values.  [Math.floor] and
    [Math.round] return a [jsint], a number known to be integral, so that
    printing it is total and exact. *)

From Stdlib Require Import QArith Qround Lqa ZArith DecimalString String.
From stdpp Require Import base list.
From S2P Require Import Prelude.

Local Open Scope Q_scope.

(** Keep [x == y] folded under [simpl]. *)
#[global] Arguments Qeq : simpl never.
#[global] Arguments Qfloor : simpl never.

Inductive number : Type :=
| JFin (q : Q)
| JInf (positive : bool)
| JNaN.

(** An integral number: the result of [Math.floor] and [Math.round]. *)
Inductive jsint : Type :=
| IFin (z : Z)
| IInf (positive : bool)
| INaN.

Definition of_int (i : jsint) : number :=
  match i with
  | IFin z => JFin (inject_Z z)
  | IInf p => JInf p
  | INaN => JNaN
  end.

(** [Qltb x y] is the boolean [x < y]. *)
Definition Qltb (x y : Q) : bool := negb (Qle_bool y x).

Definition js_neg (a : number) : number :=
  match a with
  | JFin x => JFin (- x)
  | JInf p => JInf (negb p)
  | JNaN => JNaN
  end.

Definition js_add (a b : number) : number :=
  match a, b with
  | JNaN, _ | _, JNaN => JNaN
  | JInf p, JInf q => if Bool.eqb p q then JInf p else JNaN
  | JInf p, JFin _ => JInf p
  | JFin _, JInf q => JInf q
  | JFin x, JFin y => JFin (x + y)
  end.

Definition js_sub (a b : number) : number := js_add a (js_neg b).

Definition js_mul (a b : number) : number :=
  match a, b with
  | JNaN, _ | _, JNaN => JNaN
  | JInf p, JInf q => JInf (Bool.eqb p q)
  | JInf p, JFin y | JFin y, JInf p =>
      if Qeq_bool y 0 then JNaN else JInf (Bool.eqb p (Qltb 0 y))
  | JFin x, JFin y => JFin (x * y)
  end.

(** Division; a zero divisor is [+0]. *)
Definition js_div (a b : number) : number :=
  match a, b with
  | JNaN, _ | _, JNaN => JNaN
  | JInf _, JInf _ => JNaN
  | JInf p, JFin y => if Qltb y 0 then JInf (negb p) else JInf p
  | JFin _, JInf _ => JFin 0
  | JFin x, JFin y =>
      if Qeq_bool y 0 then (if Qeq_bool x 0 then JNaN else JInf (Qltb 0 x))
      else JFin (x / y)
  end.

(** [a < b]; every comparison with NaN is false. *)
Definition js_lt (a b : number) : bool :=
  match a, b with
  | JNaN, _ | _, JNaN => false
  | JFin x, JFin y => Qltb x y
  | JInf p, JInf q => negb p && q
  | JInf p, JFin _ => negb p
  | JFin _, JInf q => q
  end.

Definition js_gt (a b : number) : bool := js_lt b a.

(** ToBoolean: [0] and [NaN] are falsy. *)
Definition truthy (a : number) : bool :=
  match a with
  | JFin x => negb (Qeq_bool x 0)
  | JInf _ => true
  | JNaN => false
  end.

(** [a || b] on numbers. *)
Definition js_or (a b : number) : number := if truthy a then a else b.

(** ToNumber of a property that may be [undefined]. *)
Definition num_of (o : option number) : number :=
  match o with Some a => a | None => JNaN end.

Definition math_floor (a : number) : jsint :=
  match a with
  | JFin x => IFin (Qfloor x)
  | JInf p => IInf p
  | JNaN => INaN
  end.

(** [Math.round]: the nearest integer, halves rounded towards +Infinity. *)
Definition math_round (a : number) : jsint :=
  match a with
  | JFin x => IFin (Qfloor (x + (1 # 2)))
  | JInf p => IInf p
  | JNaN => INaN
  end.

(** [Math.pow(10, n)] for a non-negative integer [n]. *)
Definition pow10 (n : nat) : number := JFin (inject_Z (10 ^ Z.of_nat n)).

(** [String(i)] for an integral number (exact below 10^21, where
    JavaScript switches to exponent notation). *)
Definition int_to_string (i : jsint) : string :=
  match i with
  | IFin z => NilZero.string_of_int (Z.to_int z)
  | IInf true => "Infinity"
  | IInf false => "-Infinity"
  | INaN => "NaN"
  end.

Declare Scope js_scope.
Delimit Scope js_scope with js.
Infix "⊕" := js_add (at level 50, left associativity) : js_scope.
Infix "⊖" := js_sub (at level 50, left associativity) : js_scope.
Infix "⊗" := js_mul (at level 40, left associativity) : js_scope.
Infix "⊘" := js_div (at level 40, left associativity) : js_scope.

(** Equivalence of numbers: [Qeq] on finite values, equality elsewhere. *)
Definition jeq (a b : number) : Prop :=
  match a, b with
  | JFin x, JFin y => x == y
  | JInf p, JInf q => p = q
  | JNaN, JNaN => True
  | _, _ => False
  end.

Infix "≐" := jeq (at level 70, no associativity) : js_scope.

(** ** Boolean tests on rationals *)

Lemma Qltb_iff x y : Qltb x y = true <-> x < y.
Proof.
  unfold Qltb. rewrite negb_true_iff.
  split; intros H.
  - apply Qnot_le_lt. intros Hle. apply Qle_bool_iff in Hle. congruence.
  - destruct (Qle_bool y x) eqn:E; [|done]. apply Qle_bool_iff in E. lra.
Qed.

Lemma Qltb_false x y : Qltb x y = false <-> y <= x.
Proof.
  unfold Qltb. rewrite negb_false_iff. apply Qle_bool_iff.
Qed.

Lemma Qeq_bool_false x y : Qeq_bool x y = false <-> ~ x == y.
Proof.
  split; intros H.
  - intros He. apply Qeq_bool_iff in He. congruence.
  - destruct (Qeq_bool x y) eqn:E; [|done]. apply Qeq_bool_iff in E. done.
Qed.

(** Turn the boolean tests of a goal and its hypotheses into
    propositions about rationals. *)
Ltac qbool :=
  repeat match goal with
  | H : Qeq_bool _ _ = true |- _ => apply Qeq_bool_iff in H
  | H : Qeq_bool _ _ = false |- _ => apply Qeq_bool_false in H
  | H : Qltb _ _ = true |- _ => apply Qltb_iff in H
  | H : Qltb _ _ = false |- _ => apply Qltb_false in H
  | |- context [Qeq_bool ?x ?y] => case_bool (Qeq_bool x y)
  | |- context [Qltb ?x ?y] => case_bool (Qltb x y)
  end.

(** ** Equivalence of numbers: [Qeq] on finite values *)

#[export] Instance jeq_equiv : Equivalence jeq.
Proof.
  split.
  - intros []; simpl; done.
  - intros [] []; simpl; done.
  - intros [x| |] [y| |] [z| |]; simpl; try done.
    + intros H1 H2. by rewrite H1.
    + congruence.
Qed.

Ltac jeq_cases :=
  let H := fresh "E" in
  intros [?x| ?p |] [?y| ?q |] H; cbn [jeq] in H; try done; subst.

#[export] Instance js_neg_proper : Proper (jeq ==> jeq) js_neg.
Proof. jeq_cases; simpl; try done. by apply Qopp_comp. Qed.

#[export] Instance js_add_proper : Proper (jeq ==> jeq ==> jeq) js_add.
Proof.
  jeq_cases; jeq_cases; simpl; try done;
    try (destruct (Bool.eqb _ _); done). by apply Qplus_comp.
Qed.

#[export] Instance js_sub_proper : Proper (jeq ==> jeq ==> jeq) js_sub.
Proof. intros a a' Ha b b' Hb. unfold js_sub. by rewrite Ha, Hb. Qed.

#[export] Instance truthy_proper : Proper (jeq ==> eq) truthy.
Proof. jeq_cases; simpl; try done. qbool; try done; exfalso; lra. Qed.

#[export] Instance js_lt_proper : Proper (jeq ==> jeq ==> eq) js_lt.
Proof.
  jeq_cases; jeq_cases; simpl; try done; qbool; try done; exfalso; lra.
Qed.

#[export] Instance js_mul_proper : Proper (jeq ==> jeq ==> jeq) js_mul.
Proof.
  jeq_cases; jeq_cases; cbn [js_mul js_div jeq]; try done; qbool; cbn [jeq]; try done;
    try (exfalso; lra); by apply Qmult_comp.
Qed.

#[export] Instance js_div_proper : Proper (jeq ==> jeq ==> jeq) js_div.
Proof.
  jeq_cases; jeq_cases; cbn [js_mul js_div jeq]; try done; qbool; cbn [jeq]; try done;
    try (exfalso; lra). by apply Qdiv_comp.
Qed.

#[export] Instance js_or_proper : Proper (jeq ==> jeq ==> jeq) js_or.
Proof.
  intros a a' Ha b b' Hb. unfold js_or. rewrite Ha. by destruct (truthy a').
Qed.

#[export] Instance math_floor_proper : Proper (jeq ==> eq) math_floor.
Proof. jeq_cases; simpl; try done. f_equal. by apply Qfloor_comp. Qed.

#[export] Instance math_round_proper : Proper (jeq ==> eq) math_round.
Proof. jeq_cases; cbn [math_round]; try done. f_equal. apply Qfloor_comp. by apply Qplus_comp. Qed.

(** ** Computation lemmas *)

Lemma js_sub_fin x y : js_sub (JFin x) (JFin y) = JFin (x - y).
Proof. reflexivity. Qed.

Lemma js_div_fin x y : ~ y == 0 -> js_div (JFin x) (JFin y) = JFin (x / y).
Proof. intros H. cbn [js_div]. apply Qeq_bool_false in H. by rewrite H. Qed.

(** [0 / 0] is NaN. *)
Lemma js_div_zero_zero x y : x == 0 -> y == 0 -> js_div (JFin x) (JFin y) = JNaN.
Proof.
  intros Hx Hy. cbn [js_div].
  apply Qeq_bool_iff in Hx, Hy. by rewrite Hx, Hy.
Qed.

(** A non-zero number over [+0] is an infinity of its sign. *)
Lemma js_div_by_zero x y :
  ~ x == 0 -> y == 0 -> js_div (JFin x) (JFin y) = JInf (Qltb 0 x).
Proof.
  intros Hx Hy. cbn [js_div].
  apply Qeq_bool_false in Hx. apply Qeq_bool_iff in Hy. by rewrite Hx, Hy.
Qed.

Lemma js_or_truthy a b : truthy a = true -> js_or a b = a.
Proof. unfold js_or. by intros ->. Qed.

Lemma js_or_falsy a b : truthy a = false -> js_or a b = b.
Proof. unfold js_or. by intros ->. Qed.

Lemma truthy_fin x : truthy (JFin x) = false <-> x == 0.
Proof.
  cbn [truthy]. rewrite negb_false_iff. apply Qeq_bool_iff.
Qed.

(** [x || 0] on a finite [x] is [x] up to [Qeq]. *)
Lemma js_or_zero_fin x : jeq (js_or (JFin x) (JFin 0)) (JFin x).
Proof.
  unfold js_or. destruct (truthy (JFin x)) eqn:E; [done|].
  apply truthy_fin in E. cbn [jeq]. by rewrite E.
Qed.

Lemma pow10_pos n : 0 < inject_Z (10 ^ Z.of_nat n).
Proof.
  change 0 with (inject_Z 0). rewrite <- Zlt_Qlt.
  apply Z.pow_pos_nonneg; lia.
Qed.

Lemma Qfloor_bounds x : inject_Z (Qfloor x) <= x < inject_Z (Qfloor x) + 1.
Proof.
  split; [apply Qfloor_le|].
  pose proof (Qlt_floor x) as H. rewrite inject_Z_plus in H. exact H.
Qed.

(** [Math.round] of a finite number is the integer at most one half
    away, rounding halves up. *)
Lemma math_round_bounds x :
  exists z, math_round (JFin x) = IFin z /\
    inject_Z z - (1 # 2) <= x < inject_Z z + (1 # 2).
Proof.
  exists (Qfloor (x + (1 # 2))). split; [done|].
  pose proof (Qfloor_bounds (x + (1 # 2))). lra.
Qed.

(** [Math.floor] and [Math.round] keep integral bounds. *)
Lemma Qfloor_between (lo hi : Z) x :
  inject_Z lo <= x <= inject_Z hi -> (lo <= Qfloor x <= hi)%Z.
Proof.
  intros [Hlo Hhi]. split.
  - rewrite <- (Qfloor_Z lo). by apply Qfloor_resp_le.
  - rewrite <- (Qfloor_Z hi). by apply Qfloor_resp_le.
Qed.

#[export] Hint Resolve Qfloor_between pow10_pos : heatmap.
