(* ===== verification/Helpers.v ===== *)
(** * [src/src/helpers.js]: rounding, min-max scaling and the colour map

    [round], [minmax] and [normalize] are the three numeric helpers of the
    [helpers] object; [percentColors] is the literal table of five colour
    stops of [percentageToColor], whose stop search (the [for] loop with
    its [break]) is [color_search].  [percentageToRGB] is the body up to
    the [color] object and [percentageToColor] the string it returns.

    Theorems: the anchors, the range of the stop search, the channel
    bounds on [0,1] and between anchors, the rounding bounds of [round],
    and the behaviour of [minmax] on every branch (proper range, equal
    bounds with the value at or away from them). *)

From Stdlib Require Import QArith Qround Qabs Lqa ZArith String.
From stdpp Require Import base list.
From S2P Require Import Prelude JsNum.

Local Open Scope js_scope.

(** [round(value, places = 0)]: multiply by [Math.pow(10, places)], round,
    divide back. *)
Definition round (value : number) (places : nat) : number :=
  let multiplier := pow10 places in
  of_int (math_round (value ⊗ multiplier)) ⊘ multiplier.

(** [minmax(value, min, max, round = 3)]. *)
Definition minmax (value min max : number) (places : nat) : number :=
  round (js_or ((value ⊖ min) ⊘ (max ⊖ min)) (JFin 0)) places.

(** [normalize(value, min, max, mean, round = 3)] (exported, unused). *)
Definition normalize (value min max mean : number) (places : nat) : number :=
  round (js_or ((value ⊖ mean) ⊘ (max ⊖ min)) (JFin 0)) places.

(** A colour [{r, g, b}] and a stop [{pct, color}] of the table. *)
Record rgb := mkColor { r : number; g : number; b : number }.
Record percentColor := mkStop { pct : number; stop_color : rgb }.

Definition chan (z : Z) : number := JFin (inject_Z z).

Definition percentColors : list percentColor :=
  [ mkStop (JFin 0) (mkColor (chan 255) (chan 255) (chan 255));   (* White *)
    mkStop (JFin (1 # 4)) (mkColor (chan 0) (chan 255) (chan 255)); (* Cyan *)
    mkStop (JFin (1 # 2)) (mkColor (chan 0) (chan 255) (chan 0));   (* Green *)
    mkStop (JFin (3 # 4)) (mkColor (chan 255) (chan 255) (chan 0)); (* Yellow *)
    mkStop (JFin 1) (mkColor (chan 255) (chan 0) (chan 0)) ].       (* Red *)

(** [for (var i = 1; i < percentColors.length - 1; i++)
       if (pct < percentColors[i].pct) break;]
    run from index [i] with at most [fuel] iterations left. *)
Fixpoint color_search (p : number) (stops : list percentColor) (i fuel : nat) : nat :=
  match fuel with
  | O => i
  | S fuel' =>
      if Nat.ltb i (length stops - 1) then
        match stops !! i with
        | Some s => if js_lt p (pct s) then i else color_search p stops (S i) fuel'
        | None => i
        end
      else i
  end.

(** The loop starts at [i = 1]; it runs at most [length] times. *)
Definition color_index (p : number) : nat :=
  color_search p percentColors 1 (length percentColors).

Definition white_stop : percentColor := mkStop (JFin 0) (mkColor (chan 255) (chan 255) (chan 255)).

(** The three floored channels: [lower.color.r * pctLower +
    upper.color.r * pctUpper], and likewise for [g] and [b]. *)
Definition percentageToRGB (p : number) : jsint * jsint * jsint :=
  let i := color_index p in
  let lower := nth (i - 1) percentColors white_stop in
  let upper := nth i percentColors white_stop in
  let range := pct upper ⊖ pct lower in
  let rangePct := (p ⊖ pct lower) ⊘ range in
  let pctLower := JFin 1 ⊖ rangePct in
  let pctUpper := rangePct in
  let mix (f : rgb -> number) :=
    math_floor (f (stop_color lower) ⊗ pctLower ⊕ f (stop_color upper) ⊗ pctUpper) in
  (mix r, mix g, mix b).

(** [percentageToColor(pct)]: ['rgb(' + [r, g, b].join(',') + ')']. *)
Definition percentageToColor (p : number) : string :=
  let '(cr, cg, cb) := percentageToRGB p in
  ("rgb(" ++ String.concat "," [int_to_string cr; int_to_string cg; int_to_string cb] ++ ")")%string.

(** ** Specification predicates *)

(** A channel is an integer in [[lo, hi]]. *)
Definition chan_in (lo hi : Z) (c : jsint) : Prop :=
  exists z, c = IFin z /\ (lo <= z <= hi)%Z.

Definition rgb_in (lo hi : Z * Z * Z) (c : jsint * jsint * jsint) : Prop :=
  chan_in (Z.min lo.1.1 hi.1.1) (Z.max lo.1.1 hi.1.1) c.1.1 /\
  chan_in (Z.min lo.1.2 hi.1.2) (Z.max lo.1.2 hi.1.2) c.1.2 /\
  chan_in (Z.min lo.2 hi.2) (Z.max lo.2 hi.2) c.2.

(** The finite value of a table entry, and the table read as integers. *)
Definition qv (a : number) : Q := match a with JFin x => x | _ => 0%Q end.
Definition stop_pct (k : nat) : Q := qv (pct (nth k percentColors white_stop)).
Definition anchor_rgb (k : nat) : Z * Z * Z :=
  let c := stop_color (nth k percentColors white_stop) in
  (Qfloor (qv (r c)), Qfloor (qv (g c)), Qfloor (qv (b c))).

(** ** [round] *)

Section Rounding.
Local Open Scope Q_scope.

Lemma js_mul_fin x y : js_mul (JFin x) (JFin y) = JFin (x * y).
Proof. reflexivity. Qed.

Lemma round_fin x p :
  round (JFin x) p =
  JFin (inject_Z (Qfloor (x * inject_Z (10 ^ Z.of_nat p) + (1 # 2)))
        / inject_Z (10 ^ Z.of_nat p)).
Proof.
  unfold round, pow10. rewrite js_mul_fin. cbn [math_round of_int].
  apply js_div_fin. pose proof (pow10_pos p). lra.
Qed.

#[export] Instance round_proper : Proper (jeq ==> eq ==> jeq) round.
Proof.
  intros a a' Ha p ? <-. unfold round. by rewrite Ha.
Qed.

(** [round] keeps every interval with integral end points. *)
Lemma round_between (lo hi : Z) x p :
  inject_Z lo <= x <= inject_Z hi ->
  exists q, round (JFin x) p = JFin q /\ inject_Z lo <= q <= inject_Z hi.
Proof.
  intros Hx. rewrite round_fin. eexists; split; [reflexivity|].
  set (m := inject_Z (10 ^ Z.of_nat p)). pose proof (pow10_pos p) as Hm.
  fold m in Hm. set (y := x * m + (1 # 2)).
  assert (Hint : (lo * 10 ^ Z.of_nat p <= Qfloor y <= hi * 10 ^ Z.of_nat p)%Z).
  { pose proof (Qfloor_bounds y) as Hy. split.
    - rewrite <- (Qfloor_Z (lo * 10 ^ Z.of_nat p)). apply Qfloor_resp_le.
      rewrite inject_Z_mult. fold m. subst y.
      assert (inject_Z lo * m <= x * m) by (apply Qmult_le_compat_r; lra). lra.
    - apply Zlt_succ_le. rewrite Zlt_Qlt, <- Z.add_1_r, inject_Z_plus, inject_Z_mult. fold m.
      change (inject_Z 1) with 1. subst y.
      assert (x * m <= inject_Z hi * m) by (apply Qmult_le_compat_r; lra). lra. }
  destruct Hint as [Hlo Hhi]. rewrite Zle_Qle in Hlo, Hhi.
  rewrite inject_Z_mult in Hlo, Hhi. fold m in Hlo, Hhi.
  split; [apply Qle_shift_div_l | apply Qle_shift_div_r]; lra.
Qed.

(** [round x p] is within half a unit of the [p]-th decimal place. *)
Lemma round_close x p :
  exists q, round (JFin x) p = JFin q /\
    x - 1 / (2 * inject_Z (10 ^ Z.of_nat p)) < q <= x + 1 / (2 * inject_Z (10 ^ Z.of_nat p)).
Proof.
  rewrite round_fin. eexists; split; [reflexivity|].
  set (m := inject_Z (10 ^ Z.of_nat p)). pose proof (pow10_pos p) as Hm. fold m in Hm.
  pose proof (Qfloor_bounds (x * m + (1 # 2))) as Hf.
  split.
  - apply Qlt_shift_div_l; [lra|].
    setoid_replace ((x - 1 / (2 * m)) * m) with (x * m - (1 # 2)) using relation Qeq by (field; lra).
    lra.
  - apply Qle_shift_div_r; [lra|].
    setoid_replace ((x + 1 / (2 * m)) * m) with (x * m + (1 # 2)) using relation Qeq by (field; lra).
    lra.
Qed.
End Rounding.

(** ** [minmax] *)

Section MinMaxScaling.
Local Open Scope Q_scope.

Lemma round_inf s p : round (JInf s) p = JInf s.
Proof.
  pose proof (pow10_pos p) as Hm.
  unfold round, pow10. cbn [js_mul]. qbool; try (exfalso; lra).
  cbn [math_round of_int js_div]. qbool; try (exfalso; lra).
  by destruct s.
Qed.

Lemma round_zero p : jeq (round (JFin 0) p) (JFin 0).
Proof.
  assert (H0 : inject_Z 0 <= 0 <= inject_Z 0) by (unfold inject_Z; lra).
  destruct (round_between 0 0 0 p H0) as (q & -> & Hq).
  cbn [jeq]. unfold inject_Z in Hq. lra.
Qed.

(** With distinct bounds, [minmax] rounds the scaled value (the [|| 0]
    only replaces a zero by a zero). *)
Lemma minmax_as_round v mn mx p :
  ~ mx == mn ->
  exists a, minmax (JFin v) (JFin mn) (JFin mx) p = round (JFin a) p /\
            a == (v - mn) / (mx - mn).
Proof.
  intros H. unfold minmax. rewrite !js_sub_fin, js_div_fin by lra.
  unfold js_or. destruct (truthy _) eqn:E.
  - by eexists.
  - apply truthy_fin in E. exists 0. split; [done|]. by rewrite E.
Qed.

(** Equal bounds, value at the bound: [0 / 0] is NaN and [NaN || 0] is 0. *)
Lemma minmax_equal_at v mn mx p :
  mx == mn -> v == mn -> jeq (minmax (JFin v) (JFin mn) (JFin mx) p) (JFin 0).
Proof.
  intros Hb Hv. unfold minmax. rewrite !js_sub_fin, js_div_zero_zero by lra.
  apply round_zero.
Qed.
End MinMaxScaling.

(** ** The stop search *)

Section StopSearch.
Context (p : number) (stops : list percentColor).

(** The [for] loop stops at the first index from [i] whose [pct]
    exceeds [p], or at [length - 1]. *)
Lemma color_search_spec i fuel :
  length stops - 1 <= i + fuel ->
  let k := color_search p stops i fuel in
  i <= k <= Nat.max i (length stops - 1) /\
  (forall j s, i <= j < k -> stops !! j = Some s -> js_lt p (pct s) = false) /\
  (k < length stops - 1 -> exists s, stops !! k = Some s /\ js_lt p (pct s) = true).
Proof.
  revert i. induction fuel as [|fuel IH]; intros i Hfuel; cbn [color_search].
  - split_and!; [lia | lia | intros; lia | intros; lia].
  - destruct (Nat.ltb_spec i (length stops - 1)) as [Hi|Hi].
    + destruct (stops !! i) as [s|] eqn:Hs.
      * destruct (js_lt p (pct s)) eqn:Hlt.
        { split_and!; [lia | lia | intros; lia | eauto]. }
        destruct (IH (S i)) as (Hk & Hbefore & Hat); [lia|].
        split_and!; [lia | lia | | done].
        intros j s' Hj Hs'. destruct (decide (j = i)) as [->|]; [congruence|].
        apply (Hbefore j); [lia|done].
      * apply lookup_ge_None in Hs. lia.
    + split_and!; [lia | lia | intros; lia | intros; lia].
Qed.
End StopSearch.

(** ** The colour map on finite inputs *)

Lemma seg_t_unit (lo hi q : Q) :
  (lo < hi -> lo <= q <= hi -> 0 <= (q + - lo) / (hi + - lo) <= 1)%Q.
Proof.
  intros Hlh [Hl Hh]. split.
  - apply Qle_shift_div_l; lra.
  - apply Qle_shift_div_r; lra.
Qed.

(** Evaluate [percentageToRGB (JFin q)] along every branch of the stop
    search, name the position [t] inside the segment with its bounds and
    its defining equation, and prove each channel's integral bounds
    through [Math.floor]. *)
Ltac rgb_solve :=
  unfold percentageToRGB, color_index; simpl;
  qbool; simpl; try (exfalso; lra);
  match goal with |- context [((?q + - ?lo) / (?hi + - ?lo))%Q] =>
    let t := fresh "t" in
    assert (0 <= (q + - lo) / (hi + - lo) <= 1)%Q by (apply seg_t_unit; lra);
    assert ((q + - lo) / (hi + - lo) * (hi + - lo) == q + - lo)%Q by (field; lra);
    set (t := ((q + - lo) / (hi + - lo))%Q) in * end;
  repeat split;
  (eexists; split; [reflexivity | apply Qfloor_between; unfold inject_Z; lra]).

(** Read the colour table as rationals and integers. *)
Ltac table_values :=
  cbv [rgb_in anchor_rgb stop_pct nth percentColors stop_color pct qv chan r g b Nat.sub] in *;
  rewrite ?Qfloor_Z; cbn [fst snd];
  repeat match goal with
  | |- context [Z.min ?a ?b] => let v := eval vm_compute in (Z.min a b) in change (Z.min a b) with v
  | |- context [Z.max ?a ?b] => let v := eval vm_compute in (Z.max a b) in change (Z.max a b) with v
  end.

Lemma Qltb_sub_zero (x y : Q) : Qltb 0 (x - y) = Qltb y x.
Proof.
  apply Bool.eq_true_iff_eq. rewrite !Qltb_iff. unfold Qminus. lra.
Qed.

(** [minmax] of a value in [[min, max]] is a number in [[0, 1]], also
    when [min = max]. *)
Lemma minmax_unit_total (v mn mx : Q) (p : nat) :
  (mn <= mx -> mn <= v <= mx ->
   exists q, minmax (JFin v) (JFin mn) (JFin mx) p = JFin q /\ 0 <= q <= 1)%Q.
Proof.
  intros Hb Hv. destruct (Qeq_dec mx mn) as [He|Hne].
  - unfold minmax. rewrite !js_sub_fin, js_div_zero_zero by (unfold Qminus; lra).
    assert (H0 : (inject_Z 0 <= 0 <= inject_Z 1)%Q) by (unfold inject_Z; lra).
    destruct (round_between 0 1 0 p H0) as (q & Hq & Hq01).
    exists q. split; [exact Hq | unfold inject_Z in Hq01; lra].
  - destruct (minmax_as_round v mn mx p Hne) as (a & -> & Ha).
    assert (Hu : (inject_Z 0 <= a <= inject_Z 1)%Q).
    { rewrite Ha. unfold inject_Z, Qminus. apply seg_t_unit; lra. }
    destruct (round_between 0 1 a p Hu) as (q & Hq & Hq01).
    exists q. split; [exact Hq | unfold inject_Z in Hq01; lra].
Qed.

(** ** Theorems *)

(** At the five anchor percentages (0, 0.25, 0.5, 0.75, 1) the colour
    is the anchor's: white, cyan, green, yellow and red. *)
Theorem percentageToColor_anchors :
  percentageToColor (JFin 0) = "rgb(255,255,255)"%string /\
  percentageToColor (JFin (1 # 4)) = "rgb(0,255,255)"%string /\
  percentageToColor (JFin (1 # 2)) = "rgb(0,255,0)"%string /\
  percentageToColor (JFin (3 # 4)) = "rgb(255,255,0)"%string /\
  percentageToColor (JFin 1) = "rgb(255,0,0)"%string.
Proof. split_and!; vm_compute; reflexivity. Qed.

(** The stop search of [percentageToColor] always ends at an index
    [k] with [1 <= k <= 4], so both [percentColors[k-1]] and
    [percentColors[k]] exist (an input of 1 or more uses the last
    segment); no stop before [k] exceeds the input, and when [k < 4] the
    stop [k] does. *)
Theorem color_index_spec (p : number) :
  let k := color_index p in
  1 <= k <= length percentColors - 1 /\
  (forall j s, 1 <= j < k -> percentColors !! j = Some s -> js_lt p (pct s) = false) /\
  (k < length percentColors - 1 ->
     exists s, percentColors !! k = Some s /\ js_lt p (pct s) = true).
Proof.
  cbv zeta. unfold color_index.
  destruct (color_search_spec p percentColors 1 (length percentColors))
    as (Hk & Hbefore & Hat); [simpl; lia|].
  rewrite Nat.max_r in Hk by (simpl; lia).
  split_and!; [apply Hk | apply Hk | exact Hbefore | exact Hat].
Qed.

(** C8: every input in [[0, 1]] gives three integral channels in
    [[0, 255]]. *)
Theorem percentageToRGB_unit (q : Q) :
  (0 <= q <= 1)%Q ->
  rgb_in (0, 0, 0)%Z (255, 255, 255)%Z (percentageToRGB (JFin q)).
Proof. intros Hq. table_values. rgb_solve. Qed.

Lemma percentageToRGB_unit_witness :
  rgb_in (0, 0, 0)%Z (255, 255, 255)%Z (percentageToRGB (JFin (3 # 10))).
Proof. apply percentageToRGB_unit. split; vm_compute; intro; discriminate. Defined.

(** an input between two consecutive anchors [k-1] and [k] gives
    every channel between the two anchors' channels, bounds included. *)
Theorem percentageToRGB_between (k : nat) (q : Q) :
  1 <= k <= 4 -> (stop_pct (k - 1) <= q <= stop_pct k)%Q ->
  rgb_in (anchor_rgb (k - 1)) (anchor_rgb k) (percentageToRGB (JFin q)).
Proof.
  intros Hk Hq. destruct k as [|[|[|[|[|k]]]]]; try lia; table_values; rgb_solve.
Qed.

Lemma percentageToRGB_between_witness :
  rgb_in (anchor_rgb 1) (anchor_rgb 2) (percentageToRGB (JFin (3 # 10))).
Proof.
  apply (percentageToRGB_between 2); [lia | split; vm_compute; intro; discriminate].
Defined.

(** "strictly between" does not hold.  The input 0.4999 lies strictly
    between the cyan (0.25) and green (0.5) anchors, whose blue channels
    differ (255 and 0), yet [Math.floor] gives it the blue channel of
    green exactly. *)
Example percentageToRGB_not_strict :
  (stop_pct 1 < 4999 # 10000 < stop_pct 2)%Q /\
  (anchor_rgb 1).2 <> (anchor_rgb 2).2 /\
  (percentageToRGB (JFin (4999 # 10000))).2 = IFin (anchor_rgb 2).2.
Proof. split_and!; vm_compute; congruence. Qed.

(** Inputs outside [[0, 1]] are not clamped: below 0 the first
    segment is extrapolated (a red channel of 510), above 1 the last one
    (a green channel of -1020), and NaN gives NaN channels. *)
Example percentageToColor_out_of_range :
  percentageToColor (JFin (-1 # 4)) = "rgb(510,255,255)"%string /\
  percentageToColor (JFin 2) = "rgb(255,-1020,0)"%string /\
  percentageToColor JNaN = "rgb(NaN,NaN,NaN)"%string.
Proof. split_and!; vm_compute; reflexivity. Qed.

(** C9: with [min < max] and [value] in [[min, max]], [minmax] returns a
    number in [[0, 1]] within half a unit of the [places]-th decimal of
    [(value - min) / (max - min)]. *)
Theorem minmax_in_unit (v mn mx : Q) (p : nat) :
  (mn < mx)%Q -> (mn <= v <= mx)%Q ->
  exists q, minmax (JFin v) (JFin mn) (JFin mx) p = JFin q /\ (0 <= q <= 1)%Q /\
    (Qabs (q - (v - mn) / (mx - mn)) <= 1 / (2 * inject_Z (10 ^ Z.of_nat p)))%Q.
Proof.
  intros Hb Hv.
  destruct (minmax_as_round v mn mx p) as (a & -> & Ha); [lra|].
  assert (Hu : (inject_Z 0 <= a <= inject_Z 1)%Q).
  { rewrite Ha. unfold inject_Z, Qminus. apply seg_t_unit; lra. }
  destruct (round_between 0 1 a p Hu) as (q & Hq & Hq01).
  destruct (round_close a p) as (q' & Hq' & Hclose).
  rewrite Hq in Hq' |- *. injection Hq' as <-.
  exists q. split_and!; [done | unfold inject_Z in Hq01; lra..|].
  apply Qabs_Qle_condition. rewrite <- Ha. lra.
Qed.

Lemma minmax_in_unit_witness :
  exists q, minmax (JFin 2) (JFin 1) (JFin 5) 3 = JFin q /\ (0 <= q <= 1)%Q.
Proof.
  destruct (minmax_in_unit 2 1 5 3) as (q & Hq & H01 & _).
  - vm_compute. reflexivity.
  - split; vm_compute; congruence.
  - exists q. split; [exact Hq | exact H01].
Defined.

(** C28: with [min = max], [minmax] returns 0 only when [value = min]
    (from [0 / 0 = NaN] and [NaN || 0]); any other value gives an
    infinity of the sign of [value - min], not 0. *)
Theorem minmax_equal_bounds (v mn mx : Q) (p : nat) :
  (mx == mn)%Q ->
  ((v == mn)%Q -> minmax (JFin v) (JFin mn) (JFin mx) p ≐ JFin 0) /\
  (~ (v == mn)%Q -> minmax (JFin v) (JFin mn) (JFin mx) p = JInf (Qltb mn v)).
Proof.
  intros Hb. split; intros Hv; [by apply minmax_equal_at|].
  unfold minmax. rewrite !js_sub_fin, js_div_by_zero by (unfold Qminus; lra).
  rewrite js_or_truthy by done. rewrite round_inf. by rewrite Qltb_sub_zero.
Qed.

Lemma minmax_equal_bounds_witness :
  minmax (JFin 0) (JFin 5) (JFin 5) 3 = JInf false.
Proof.
  destruct (minmax_equal_bounds 0 5 5 3) as [_ H].
  - vm_compute. reflexivity.
  - rewrite H; [reflexivity|]. vm_compute. congruence.
Defined.
