(* ===== verification/Float64.v ===== *)
(** * IEEE 754 binary64 rounding of JavaScript numbers

    [JsNum] keeps finite numbers as exact rationals.  A JavaScript number
    is a binary64 double: every literal and every result of [+ - * /] is
    the exact value rounded to the nearest double, ties to the one with
    an even significand, with gradual underflow below [2^-1022] and
    overflow to an infinity from [2^1024 - 2^970] on.  This file gives
    that rounding ([round64]), the operators with it ([ieee_add],
    [ieee_sub], [ieee_mul], [ieee_div]) and [helpers.round] computed with
    them ([ieee_round]).

    Theorems: on integers whose results lie within the safe range
    [|z| <= 2^53] the IEEE operators are the exact ones of [JsNum], so
    the counts and line sums of the code, and every theorem about them,
    are exact as modelled; just past the range [2^53 + 1] becomes
    [2^53]; and [helpers.round(1.005, 2)] is [1], where the exact model
    gives [1.01].  Signed zero is not modelled. *)

From Stdlib Require Import QArith Qreduction Qround Qpower Lqa ZArith Lia.
From stdpp Require Import base tactics.
From S2P Require Import Prelude JsNum Helpers.

Local Open Scope Z_scope.

(** [floor (log2 (a / b))] for positive [a] and [b]. *)
Definition floor_log2 (a b : Z) : Z :=
  let k := Z.log2 a - Z.log2 b in
  if 0 <=? k then (if b * 2 ^ k <=? a then k else k - 1)
  else (if b <=? a * 2 ^ (- k) then k else k - 1).

(** [n / d] rounded to an integer, ties to even ([d > 0], [n >= 0]). *)
Definition round_half_even (n d : Z) : Z :=
  let fl := n / d in
  match Z.compare (2 * (n mod d)) d with
  | Lt => fl
  | Gt => fl + 1
  | Eq => if Z.even fl then fl else fl + 1
  end.

(** The exponent of the last bit of the significand of [a / b]: 52 bits
    below the leading one, and never below [2^-1074] (subnormals). *)
Definition ulp_exp (a b : Z) : Z := Z.max (floor_log2 a b - 52) (-1074).

(** [a / b * 2^-e] as a numerator and a positive denominator. *)
Definition scale (a b e : Z) : Z * Z :=
  if 0 <=? e then (a, b * 2 ^ e) else (a * 2 ^ (- e), b).

(** The double nearest to [q]. *)
Definition round64 (q : Q) : number :=
  let a := Z.abs (Qnum q) in
  let b := Zpos (Qden q) in
  if a =? 0 then JFin 0 else
  let e := ulp_exp a b in
  let '(n, d) := scale a b e in
  let m := round_half_even n d in
  if (0 <=? e) && (2 ^ 1024 <=? m * 2 ^ e) then JInf (0 <? Qnum q)
  else JFin (Qred (inject_Z (Z.sgn (Qnum q) * m) * inject_Z 2 ^ e)%Q).

Definition round_number (x : number) : number :=
  match x with JFin q => round64 q | _ => x end.

(** The operators of the code on doubles: the exact result, rounded. *)
Definition ieee_add (x y : number) : number := round_number (js_add x y).
Definition ieee_sub (x y : number) : number := round_number (js_sub x y).
Definition ieee_mul (x y : number) : number := round_number (js_mul x y).
Definition ieee_div (x y : number) : number := round_number (js_div x y).

(** [helpers.round(value, places)] on doubles: [Math.pow(10, places)],
    the product, [Math.round] (exact on a double) and the quotient. *)
Definition ieee_round (value : number) (places : nat) : number :=
  let multiplier := round_number (pow10 places) in
  ieee_div (of_int (math_round (ieee_mul value multiplier))) multiplier.

(** ** Rounding of safe integers *)

Section SafeIntegers.

Lemma floor_log2_int a : 1 <= a -> floor_log2 a 1 = Z.log2 a.
Proof.
  intros Ha. unfold floor_log2. rewrite Z.log2_1, Z.sub_0_r.
  pose proof (Z.log2_nonneg a). pose proof (Z.log2_spec a ltac:(lia)) as [Hl _].
  destruct (Z.leb_spec 0 (Z.log2 a)); [|lia]. destruct (Z.leb_spec (1 * 2 ^ Z.log2 a) a); lia.
Qed.

Lemma round_half_even_exact n d : 0 < d -> n mod d = 0 -> round_half_even n d = n / d.
Proof. intros Hd Hm. unfold round_half_even. rewrite Hm. by destruct (Z.compare_spec (2 * 0) d); try lia. Qed.

(** A numerator [a] whose last significant bit is at or above [2^e]
    scales and rounds back to itself. *)
Lemma scale_round_exact a e :
  0 <= a -> (e < 0 \/ a mod 2 ^ e = 0) ->
  let '(n, d) := scale a 1 e in
  round_half_even n d * 2 ^ Z.max e 0 = a * 2 ^ Z.max (- e) 0 /\
  (inject_Z (round_half_even n d) * inject_Z 2 ^ e == inject_Z a)%Q.
Proof.
  intros Ha He. unfold scale. destruct (Z.leb_spec 0 e) as [He0|He0].
  - destruct He as [|Hm]; [lia|]. rewrite Z.mul_1_l, round_half_even_exact by (lia || done).
    assert (2 ^ e * (a / 2 ^ e) = a) as Hd by (symmetry; apply Z_div_exact_full_2; lia || done).
    rewrite Z.max_l, Z.max_r by lia. split; [lia|].
    rewrite <- Zpower_Qpower by done. rewrite <- inject_Z_mult, Z.mul_comm, Hd. reflexivity.
  - rewrite round_half_even_exact, Z.div_1_r by (lia || apply Z.mod_1_r).
    rewrite Z.max_r, Z.max_l by lia. split; [lia|].
    assert (e = - (- e)) as -> by lia. rewrite Qpower_opp, <- Zpower_Qpower by lia.
    assert (0 < 2 ^ (- e)) as Hp by (apply Z.pow_pos_nonneg; lia).
    rewrite inject_Z_mult, Z.opp_involutive. field. unfold Qeq; cbn. lia.
Qed.

(** Every integer of the safe range is a double. *)
Lemma round64_int z : Z.abs z <= 2 ^ 53 -> jeq (round64 (inject_Z z)) (JFin (inject_Z z)).
Proof.
  intros Hz. unfold round64. cbn [Qnum Qden inject_Z].
  destruct (Z.eqb_spec (Z.abs z) 0) as [H0|H0]; [by assert (z = 0) as -> by lia|].
  set (a := Z.abs z) in *. change (Z.pos 1) with 1.
  assert (Z.log2 a <= 53) as Hl by (rewrite <- (Z.log2_pow2 53) by lia; apply Z.log2_le_mono; lia).
  pose proof (Z.log2_nonneg a). pose proof (Z.log2_spec a ltac:(lia)) as [Hlo _].
  unfold ulp_exp. rewrite floor_log2_int by lia. rewrite Z.max_l by lia.
  assert (Z.log2 a - 52 < 0 \/ a mod 2 ^ (Z.log2 a - 52) = 0) as He.
  { destruct (Z.ltb_spec (Z.log2 a - 52) 0) as [|He]; [by left|right].
    destruct (Z.eq_dec (Z.log2 a) 52) as [H52|H52].
    - replace (Z.log2 a - 52) with 0 by lia. apply Z.mod_1_r.
    - assert (Z.log2 a = 53) as H53 by lia. rewrite H53 in Hlo |- *.
      assert (a = 2 ^ 53) as -> by lia. reflexivity. }
  set (e := Z.log2 a - 52) in *.
  pose proof (scale_round_exact a e ltac:(lia) He) as Hs.
  destruct (scale a 1 e) as [n d]. destruct Hs as [HZ HQ].
  assert ((0 <=? e) && (2 ^ 1024 <=? round_half_even n d * 2 ^ e) = false) as ->.
  { destruct (Z.leb_spec 0 e); [|done]. rewrite Z.max_l, Z.max_r in HZ by lia. rewrite HZ.
    apply Z.leb_gt. assert (2 ^ 53 < 2 ^ 1024) by (apply Z.pow_lt_mono_r; lia). lia. }
  cbn [jeq]. rewrite Qred_correct, inject_Z_mult, <- Qmult_assoc, HQ, <- inject_Z_mult.
  subst a. by rewrite Z.mul_comm, Z.abs_sgn.
Qed.

(** An operation whose exact result is a safe integer is exact on
    doubles. *)
Lemma round_number_int (r : number) z :
  r = JFin (inject_Z z) -> Z.abs z <= 2 ^ 53 -> jeq (round_number r) r.
Proof. intros -> Hz. by apply round64_int. Qed.

End SafeIntegers.

(** On integers whose sum, difference and product stay within the
    safe range [|z| <= 2^53], the IEEE [+], [-] and [*] of JavaScript
    give the exact results of [JsNum]: the counts, line sums and
    products of the code are computed exactly as the model computes
    them. *)
Theorem ieee_safe_integer_ops (x y : Z) :
  Z.abs (x + y) <= 2 ^ 53 -> Z.abs (x - y) <= 2 ^ 53 -> Z.abs (x * y) <= 2 ^ 53 ->
  jeq (ieee_add (JFin (inject_Z x)) (JFin (inject_Z y))) (js_add (JFin (inject_Z x)) (JFin (inject_Z y))) /\
  jeq (ieee_sub (JFin (inject_Z x)) (JFin (inject_Z y))) (js_sub (JFin (inject_Z x)) (JFin (inject_Z y))) /\
  jeq (ieee_mul (JFin (inject_Z x)) (JFin (inject_Z y))) (js_mul (JFin (inject_Z x)) (JFin (inject_Z y))).
Proof.
  intros Ha Hs Hm. unfold ieee_add, ieee_sub, ieee_mul. split_and!.
  - apply (round_number_int _ (x + y)); [cbn; by rewrite inject_Z_plus|done].
  - apply (round_number_int _ (x - y)); [cbn; by rewrite <- inject_Z_opp, <- inject_Z_plus|done].
  - apply (round_number_int _ (x * y)); [cbn; by rewrite inject_Z_mult|done].
Qed.

(** [helpers.round(1.005, 2)] is [1] on doubles, not [1.01]: the
    literal [1.005] is the double just below it, the product by [100]
    rounds to the double just below [100.5], and [Math.round] gives
    [100]; the exact model gives [1.01].  [round] does not round a
    decimal half up. *)
Theorem ieee_round_1005 :
  jeq (ieee_round (round64 (1005 # 1000)) 2) (JFin 1) /\ jeq (round (JFin (1005 # 1000)) 2) (JFin (101 # 100)).
Proof. split; vm_compute; reflexivity. Qed.

(** The safe range is tight: [2^53 + 1] is not a double. *)
Remark safe_integer_bound_tight : jeq (round64 (inject_Z (2 ^ 53 + 1))) (JFin (inject_Z (2 ^ 53))).
Proof. vm_compute. reflexivity. Qed.

Lemma ieee_safe_integer_ops_witness :
  jeq (ieee_add (JFin (inject_Z (2 ^ 26))) (JFin (inject_Z (2 ^ 26)))) (js_add (JFin (inject_Z (2 ^ 26))) (JFin (inject_Z (2 ^ 26)))) /\
  jeq (ieee_sub (JFin (inject_Z (2 ^ 26))) (JFin (inject_Z (2 ^ 26)))) (js_sub (JFin (inject_Z (2 ^ 26))) (JFin (inject_Z (2 ^ 26)))) /\
  jeq (ieee_mul (JFin (inject_Z (2 ^ 26))) (JFin (inject_Z (2 ^ 26)))) (js_mul (JFin (inject_Z (2 ^ 26))) (JFin (inject_Z (2 ^ 26)))).
Proof.
  apply (ieee_safe_integer_ops (2 ^ 26) (2 ^ 26)); vm_compute; try discriminate.
Defined.
