(* ===== verification/Matrix.v ===== *)
(** * The comparison matrix of [src/src/App.js]

    A cell is the object built by [createRichMatrix] and extended in place
    by [augmentComparisonMatrix] ([matches]) and [augmentHeatmapMatrix]
    ([ratio], [color], [width], [height]); a property not yet set is
    [None] ([undefined]).  The matrix is a list of rows of cells or
    [null] ([None]).  [version_loc_map] is a [gmap] from version to lines
    of code.

    Operations: [createRichMatrix], [findMinMaxMatrix] (with its loop body
    [minmax_step]), [findMeanMatrix], and [augmentHeatmapMatrix] as its two
    passes [with_ratio] and [finish_cell].

    Theorems: the shape and the number of populated cells of the built
    matrix; the exact minimum and maximum when no selected value is 0 or
    NaN, and the wrong minimum otherwise; the mean of an empty matrix;
    the fields the heatmap pass keeps; the ranges of its results when all
    counts are positive; and a matrix whose zero match count ends with a
    ratio of -1. *)

From Stdlib Require Import QArith Qround Qabs Lqa ZArith String.
From stdpp Require Import base list gmap strings.
From S2P Require Import Prelude JsNum Helpers.

Local Open Scope js_scope.

Record cell := mkCell {
  c_left : string;               (* left *)
  c_right : string;              (* right *)
  loc_left : option number;
  loc_right : option number;
  matches : option number;
  ratio : option number;
  color : option string;
  width : option number;
  height : option number
}.

Abbreviation matrix := (list (list (option cell))).

(** [column.matches = count]. *)
Definition set_matches (c : cell) (n : number) : cell :=
  mkCell (c_left c) (c_right c) (loc_left c) (loc_right c) (Some n)
         (ratio c) (color c) (width c) (height c).

(** The object literal of [createRichMatrix]. *)
Definition new_cell (version_loc_map : gmap string number) (left right : string) : cell :=
  mkCell left right (version_loc_map !! left) (version_loc_map !! right)
         None None None None None.

(** [versions.forEach((left, m) => ... versions.forEach((right, n) =>
    vector.push(n < m ? {...} : null)))]. *)
Definition createRichMatrix (version_loc_map : gmap string number)
    (versions : list string) : matrix :=
  imap (fun m left =>
    imap (fun n right =>
      if decide (n < m) then Some (new_cell version_loc_map left right) else None)
      versions) versions.

(** One iteration of the scan of [findMinMaxMatrix]:
    [min = (!min || el < min) ? el : min;
     max = (!max || el > max) ? el : max;]. *)
Definition minmax_step (acc : number * number) (el : number) : number * number :=
  let '(min, max) := acc in
  (if negb (truthy min) || js_lt el min then el else min,
   if negb (truthy max) || js_gt el max then el else max).

(** [findMinMaxMatrix(matrix, fn)], returning [(min, max)]. *)
Definition findMinMaxMatrix (matrix : matrix) (fn : cell -> number) : number * number :=
  fold_left (fun acc row =>
    fold_left (fun acc column =>
      match column with Some col => minmax_step acc (fn col) | None => acc end)
      row acc) matrix (JFin 0, JFin 0).

(** [findMeanMatrix(matrix, fn)]: [sum / count]. *)
Definition findMeanMatrix (matrix : matrix) (fn : cell -> number) : number :=
  let '(sum, count) :=
    fold_left (fun acc row =>
      fold_left (fun acc column =>
        match column with Some col => (acc.1 ⊕ fn col, S acc.2) | None => acc end)
        row acc) matrix (JFin 0, 0%nat) in
  sum ⊘ JFin (inject_Z (Z.of_nat count)).

(** First pass: [column.ratio = (column.matches / (column.loc_left +
    column.loc_right) || 0)]. *)
Definition with_ratio (c : cell) : cell :=
  mkCell (c_left c) (c_right c) (loc_left c) (loc_right c) (matches c)
    (Some (js_or (num_of (matches c) ⊘ (num_of (loc_left c) ⊕ num_of (loc_right c))) (JFin 0)))
    (color c) (width c) (height c).

(** Second pass on one cell, given the three [(min, max)] pairs. *)
Definition finish_cell (mmRatio mmLocL mmLocR : number * number) (c : cell) : cell :=
  let ratio' := minmax (num_of (ratio c)) mmRatio.1 mmRatio.2 3 in
  let color' := percentageToColor ratio' in
  let w := minmax (num_of (loc_right c)) mmLocR.1 mmLocR.2 3 in
  let h := minmax (num_of (loc_left c)) mmLocL.1 mmLocL.2 3 in
  mkCell (c_left c) (c_right c) (loc_left c) (loc_right c) (matches c)
    (Some ratio') (Some color')
    (Some (round (w ⊗ JFin 20 ⊕ JFin 10) 3))
    (Some (round (h ⊗ JFin 20 ⊕ JFin 10) 3)).

(** [augmentHeatmapMatrix(matrix)]; [mean] is computed and not used, as
    in the source. *)
Definition augmentHeatmapMatrix (matrix : matrix) : list (list (option cell)) :=
  let m1 := map (map (option_map with_ratio)) matrix in
  let minMaxRatio := findMinMaxMatrix m1 (fun column => num_of (ratio column)) in
  let minMaxLocL := findMinMaxMatrix m1 (fun column => num_of (loc_left column)) in
  let minMaxLocR := findMinMaxMatrix m1 (fun column => num_of (loc_right column)) in
  let _mean := findMeanMatrix m1 (fun column => num_of (ratio column)) in
  map (map (option_map (finish_cell minMaxRatio minMaxLocL minMaxLocR))) m1.

(** ** Views used by the statements *)

(** The cell at row [i], column [j]. *)
Definition cell_at (m : matrix) (i j : nat) : option (option cell) :=
  m !! i ≫= fun row => row !! j.

(** The populated cells in row-major order. *)
Definition populated (m : matrix) : list cell := concat (map (omap id) m).

(** The fields [augmentHeatmapMatrix] must not change. *)
Definition cell_key (c : cell) :=
  (c_left c, c_right c, loc_left c, loc_right c, matches c).

(** Every count of a cell is a positive finite number. *)
Definition counts_positive (c : cell) : Prop :=
  exists a l1 l2, matches c = Some (JFin a) /\ loc_left c = Some (JFin l1) /\
    loc_right c = Some (JFin l2) /\ (0 < a)%Q /\ (0 < l1)%Q /\ (0 < l2)%Q.

(** The displayed properties of a cell are in range. *)
Definition heatmap_cell_ok (c : cell) : Prop :=
  exists q w h, ratio c = Some (JFin q) /\ (0 <= q <= 1)%Q /\
    color c = Some (percentageToColor (JFin q)) /\
    width c = Some (JFin w) /\ (10 <= w <= 30)%Q /\
    height c = Some (JFin h) /\ (10 <= h <= 30)%Q.

(** ** A sample run: three versions of 50 lines each, compared with 0,
    25 and 50 matching lines *)

Definition sample_versions : list string := ["1"; "2"; "3"]%string.

Definition sample_loc_map : gmap string number :=
  list_to_map [("1"%string, JFin 50); ("2"%string, JFin 50); ("3"%string, JFin 50)].

Definition sample_count (left right : string) : number :=
  if decide (left = "2"%string) then JFin 0
  else if decide (right = "1"%string) then JFin 25 else JFin 50.

Definition sample_compared : matrix :=
  map (map (option_map (fun c => set_matches c (sample_count (c_left c) (c_right c)))))
    (createRichMatrix sample_loc_map sample_versions).

(** The same versions compared with 10, 25 and 50 matching lines. *)
Definition sample_positive : matrix :=
  map (map (option_map (fun c =>
    set_matches c (if decide (c_left c = "2"%string) then JFin 10 else sample_count (c_left c) (c_right c)))))
    (createRichMatrix sample_loc_map sample_versions).

(** The state of the min/max scan over finite nonzero values: both
    bounds nonzero, seen, and bounding what was seen. *)
Definition scan_inv (mn mx : Q) (seen : list Q) : Prop :=
  (~ mn == 0 /\ ~ mx == 0 /\ In mn seen /\ In mx seen /\
   Forall (fun y => mn <= y <= mx) seen)%Q.

(** ** The matrix builder *)

Section Builder.
Context (lm : gmap string number) (versions : list string).

Lemma createRichMatrix_lookup i j vi vj :
  versions !! i = Some vi -> versions !! j = Some vj ->
  cell_at (createRichMatrix lm versions) i j =
    Some (if decide (j < i) then Some (new_cell lm vi vj) else None).
Proof.
  intros Hi Hj. unfold cell_at, createRichMatrix.
  rewrite list_lookup_imap, Hi. simpl. by rewrite list_lookup_imap, Hj.
Qed.

(** Row [m] has [min m N] cells. *)
Lemma row_populated {A B} (l : list A) (m : nat) (f : nat -> A -> B) :
  length (omap id (imap (fun n x => if decide (n < m) then Some (f n x) else None) l)) =
  Nat.min m (length l).
Proof.
  revert m f. induction l as [|x l IH]; intros m f; [simpl; lia|].
  rewrite imap_cons. destruct m as [|m].
  - rewrite decide_False by lia. rewrite omap_id_none.
    rewrite (imap_ext _ (fun n x => if decide (n < 0) then Some (f (S n) x) else None))
      by (intros; simpl; by repeat case_decide; try lia).
    rewrite IH. simpl. lia.
  - rewrite decide_True by lia. rewrite omap_id_some.
    rewrite (imap_ext _ (fun n x => if decide (n < m) then Some (f (S n) x) else None))
      by (intros; simpl; by repeat case_decide; try lia).
    cbn [length]. rewrite IH. lia.
Qed.

Lemma createRichMatrix_populated_length :
  length (populated (createRichMatrix lm versions)) =
  sum_list (imap (fun m _ => 0 + m) versions).
Proof.
  unfold populated, createRichMatrix. rewrite length_concat_sum, !map_imap.
  f_equal. apply imap_ext. intros m x Hm. simpl.
  rewrite row_populated. apply lookup_lt_Some in Hm. lia.
Qed.

(** Twice the number of populated cells is [N (N - 1)]. *)
Lemma createRichMatrix_populated_double :
  2 * length (populated (createRichMatrix lm versions)) = length versions * (length versions - 1).
Proof.
  rewrite createRichMatrix_populated_length, (sum_imap_index versions 0). lia.
Qed.
End Builder.

(** ** The views of the matrix under its passes *)

Lemma populated_map (g : cell -> cell) (m : matrix) :
  populated (map (map (option_map g)) m) = map g (populated m).
Proof.
  unfold populated. induction m as [|row m IH]; simpl; [done|].
  by rewrite map_app, omap_id_map, IH.
Qed.

Lemma cell_at_map (g : cell -> cell) (m : matrix) i j :
  cell_at (map (map (option_map g)) m) i j = option_map (option_map g) (cell_at m i j).
Proof.
  unfold cell_at. rewrite lookup_map.
  destruct (m !! i) as [row|]; simpl; [|done]. by rewrite lookup_map.
Qed.

Lemma findMinMaxMatrix_scan (m : matrix) (fn : cell -> number) :
  findMinMaxMatrix m fn = fold_left minmax_step (map fn (populated m)) (JFin 0, JFin 0).
Proof.
  unfold findMinMaxMatrix, populated.
  rewrite (fold_left_rows (fun acc c => minmax_step acc (fn c))).
  by rewrite fold_left_map'.
Qed.

(** ** The min/max scan on finite values *)

Section Scan.
Local Open Scope Q_scope.

Lemma minmax_step_fst acc x :
  (minmax_step acc x).1 = if negb (truthy acc.1) || js_lt x acc.1 then x else acc.1.
Proof. by destruct acc. Qed.

(** Away from 0, the step is the usual minimum and maximum update. *)
Lemma minmax_step_nz mn mx x :
  ~ mn == 0 -> ~ mx == 0 ->
  minmax_step (JFin mn, JFin mx) (JFin x) =
  (JFin (if Qltb x mn then x else mn), JFin (if Qltb mx x then x else mx)).
Proof.
  intros Hmn Hmx. cbn [minmax_step truthy js_gt js_lt].
  apply Qeq_bool_false in Hmn, Hmx. rewrite Hmn, Hmx. simpl.
  by destruct (Qltb x mn), (Qltb mx x).
Qed.

Lemma scan_inv_step mn mx seen x :
  scan_inv mn mx seen -> ~ x == 0 ->
  scan_inv (if Qltb x mn then x else mn) (if Qltb mx x then x else mx) (seen ++ [x]).
Proof.
  intros (Hmn & Hmx & Inmn & Inmx & Hall) Hx.
  destruct (Qltb x mn) eqn:E1, (Qltb mx x) eqn:E2; qbool;
    split_and!; try done; rewrite ?in_app_iff; simpl; auto;
    apply Forall_app; split; try (constructor; [lra|constructor]);
    eapply Forall_impl; eauto; simpl; intros; lra.
Qed.

Lemma scan_fold xs : forall mn mx seen,
  scan_inv mn mx seen -> Forall (fun x => ~ x == 0) xs ->
  exists mn' mx', fold_left minmax_step (map JFin xs) (JFin mn, JFin mx) = (JFin mn', JFin mx') /\
                  scan_inv mn' mx' (seen ++ xs).
Proof.
  induction xs as [|x xs IH]; intros mn mx seen Hinv Hxs; cbn [map fold_left].
  - exists mn, mx. by rewrite app_nil_r.
  - inversion Hxs as [|? ? Hx Hxs']; subst.
    rewrite minmax_step_nz by apply Hinv.
    destruct (IH _ _ _ (scan_inv_step mn mx seen x Hinv Hx) Hxs') as (mn' & mx' & -> & Hinv').
    exists mn', mx'. by rewrite <- app_assoc in Hinv'.
Qed.

(** With no zero among finite values, the scan returns the true
    minimum and maximum. *)
Lemma scan_exact x xs :
  Forall (fun y => ~ y == 0) (x :: xs) ->
  exists mn mx, fold_left minmax_step (map JFin (x :: xs)) (JFin 0, JFin 0) = (JFin mn, JFin mx) /\
    scan_inv mn mx (x :: xs).
Proof.
  intros Hall. inversion Hall as [|? ? Hx Hxs]; subst. cbn [map fold_left].
  replace (minmax_step (JFin 0, JFin 0) (JFin x)) with (JFin x, JFin x) by reflexivity.
  apply (scan_fold xs x x [x]); [|done].
  split_and!; try done; simpl; auto. constructor; [lra|constructor].
Qed.

(** The first component of the scan stays among values satisfying any
    property that the start and every value satisfy. *)
Lemma scan_fst_closed (P : Q -> Prop) xs : forall acc a,
  acc.1 = JFin a -> P a -> Forall P xs ->
  exists a', (fold_left minmax_step (map JFin xs) acc).1 = JFin a' /\ P a'.
Proof.
  induction xs as [|x xs IH]; intros acc a Ha HPa Hxs; cbn [map fold_left]; [eauto|].
  inversion Hxs as [|? ? Hx Hxs']; subst.
  destruct (negb (truthy acc.1) || js_lt (JFin x) acc.1) eqn:E.
  - apply (IH _ x); [by rewrite minmax_step_fst, E | done | done].
  - apply (IH _ a); [by rewrite minmax_step_fst, E | done | done].
Qed.
End Scan.

(** ** The heatmap pass on positive counts *)

Section HeatmapPass.
Local Open Scope Q_scope.

Lemma with_ratio_pos c :
  counts_positive c -> exists x, ratio (with_ratio c) = Some (JFin x) /\ 0 < x.
Proof.
  intros (a & l1 & l2 & Ha & Hl1 & Hl2 & Pa & Pl1 & Pl2).
  exists (a / (l1 + l2)). cbn [with_ratio ratio]. rewrite Ha, Hl1, Hl2. cbn [num_of js_add].
  assert (Hpos : 0 < a / (l1 + l2)) by (apply Qlt_shift_div_l; lra).
  rewrite js_div_fin by lra. rewrite js_or_truthy; [done|].
  cbn [truthy]. qbool; [lra|done].
Qed.

(** The selected values are positive and finite: the scan returns
    bounds of every value. *)
Lemma selector_bounds (fn : cell -> number) (l : list cell) :
  Forall (fun c => exists x, fn c = JFin x /\ 0 < x) l -> l <> [] ->
  exists mn mx, fold_left minmax_step (map fn l) (JFin 0, JFin 0) = (JFin mn, JFin mx) /\
    Forall (fun c => exists x, fn c = JFin x /\ mn <= x <= mx) l.
Proof.
  intros Hall Hne.
  assert (exists xs, map fn l = map JFin xs /\ Forall (fun x => 0 < x) xs) as (xs & Hxs & Hpos).
  { clear Hne. induction Hall as [|c l (x & Hc & Hx) _ (xs & Hxs & Hpos)].
    - by exists [].
    - exists (x :: xs). simpl. rewrite Hc, Hxs. split; [done | by constructor]. }
  destruct xs as [|x xs]; [destruct l; simpl in Hxs; congruence|].
  destruct (scan_exact x xs) as (mn & mx & Hscan & _ & _ & _ & _ & Hb).
  { eapply Forall_impl; [exact Hpos|]. simpl. intros y Hy Hy0. lra. }
  exists mn, mx. rewrite Hxs. split; [exact Hscan|].
  apply Forall_forall. intros c Hc.
  assert (Hm : In (fn c) (map JFin (x :: xs))) by (rewrite <- Hxs; apply in_map; by apply list_elem_of_In).
  apply in_map_iff in Hm as (y & Hy & Hin).
  exists y. split; [done|]. apply (proj1 (Forall_forall _ _) Hb). by apply list_elem_of_In.
Qed.

(** [round(w * 20 + 10, 3)] of a [w] in [[0, 1]] lies in [[10, 30]]. *)
Lemma scale_cell_size w :
  0 <= w <= 1 -> exists s, round (JFin w ⊗ JFin 20 ⊕ JFin 10) 3 = JFin s /\ 10 <= s <= 30.
Proof.
  intros Hw. cbn [js_mul js_add].
  destruct (round_between 10 30 (w * 20 + 10) 3) as (s & Hs & Hb); [unfold inject_Z; lra|].
  exists s. split; [exact Hs | unfold inject_Z in Hb; lra].
Qed.
(** The second pass on one cell whose three selected values lie within
    their scanned bounds. *)
Lemma finish_cell_ok c mnR mxR mnL mxL mnW mxW :
  (exists x, num_of (ratio c) = JFin x /\ mnR <= x <= mxR) ->
  (exists x, num_of (loc_left c) = JFin x /\ mnL <= x <= mxL) ->
  (exists x, num_of (loc_right c) = JFin x /\ mnW <= x <= mxW) ->
  heatmap_cell_ok (finish_cell (JFin mnR, JFin mxR) (JFin mnL, JFin mxL) (JFin mnW, JFin mxW) c).
Proof.
  intros (r & Hr & Br) (l & Hl & Bl) (w & Hw & Bw).
  destruct (minmax_unit_total r mnR mxR 3) as (q & Hq & Hq01); [lra | lra |].
  destruct (minmax_unit_total w mnW mxW 3) as (w' & Hw' & Hw01); [lra | lra |].
  destruct (minmax_unit_total l mnL mxL 3) as (h' & Hh' & Hh01); [lra | lra |].
  destruct (scale_cell_size w' Hw01) as (ws & Hws & Bws).
  destruct (scale_cell_size h' Hh01) as (hs & Hhs & Bhs).
  exists q, ws, hs. unfold finish_cell. cbn [ratio color width height fst snd].
  rewrite Hr, Hl, Hw, Hq, Hw', Hh', Hws, Hhs. split_and!; first [reflexivity | lra].
Qed.
End HeatmapPass.

(** ** Theorems *)

(** C24: [createRichMatrix] builds an [N x N] matrix whose cell [(i, j)]
    is a new cell for [versions[i]] (left) and [versions[j]] (right),
    with their line counts and nothing else set, when [j < i], and
    [null] otherwise (the diagonal and above). *)
Theorem createRichMatrix_shape (lm : gmap string number) (versions : list string) :
  length (createRichMatrix lm versions) = length versions /\
  Forall (fun row => length row = length versions) (createRichMatrix lm versions) /\
  (forall i j vi vj, versions !! i = Some vi -> versions !! j = Some vj ->
     cell_at (createRichMatrix lm versions) i j =
       Some (if decide (j < i) then Some (new_cell lm vi vj) else None)).
Proof.
  split_and!.
  - apply length_imap.
  - apply Forall_lookup. intros i row Hrow.
    apply list_lookup_imap_Some in Hrow as (v & _ & ->). apply length_imap.
  - apply createRichMatrix_lookup.
Qed.

(** the built matrix has exactly [N (N - 1) / 2] populated cells,
    the [total_comparisons] of [run]. *)
Theorem createRichMatrix_count (lm : gmap string number) (versions : list string) :
  length (populated (createRichMatrix lm versions)) =
  length versions * (length versions - 1) / 2.
Proof.
  pose proof (createRichMatrix_populated_double lm versions).
  apply Nat.div_unique_exact; lia.
Qed.

(** C6: when the selected values of the populated cells are finite and
    none is 0, [findMinMaxMatrix] returns their true minimum and maximum. *)
Theorem findMinMaxMatrix_exact (m : matrix) (fn : cell -> number) (x : Q) (xs : list Q) :
  map fn (populated m) = map JFin (x :: xs) ->
  Forall (fun y => ~ (y == 0)%Q) (x :: xs) ->
  exists mn mx, findMinMaxMatrix m fn = (JFin mn, JFin mx) /\
    In mn (x :: xs) /\ In mx (x :: xs) /\ Forall (fun y => (mn <= y <= mx)%Q) (x :: xs).
Proof.
  intros Hvals Hnz. rewrite findMinMaxMatrix_scan, Hvals.
  destruct (scan_exact x xs Hnz) as (mn & mx & -> & _ & _ & Hin1 & Hin2 & Hall).
  by exists mn, mx.
Qed.

Lemma findMinMaxMatrix_exact_witness :
  exists mn mx, findMinMaxMatrix sample_compared (fun c => num_of (loc_left c)) = (JFin mn, JFin mx) /\
    Forall (fun y => (mn <= y <= mx)%Q) [50; 50; 50]%Q.
Proof.
  destruct (findMinMaxMatrix_exact sample_compared (fun c => num_of (loc_left c)) 50 [50; 50]%Q)
    as (mn & mx & H & _ & _ & Hall).
  - vm_compute. reflexivity.
  - repeat constructor; vm_compute; congruence.
  - exists mn, mx. split; [exact H | exact Hall].
Defined.

(** C5: the scan of [findMinMaxMatrix] tests [!min] for "no minimum
    yet", so a genuine minimum of 0 is replaced by the next value: when
    the selected values, in row-major order, are non-negative values,
    then a 0, then a positive value and only positive values after it,
    the returned minimum is positive although 0 is one of the values (a
    0 that comes last, as in [5, 0], is kept). *)
Theorem findMinMaxMatrix_forgets_zero (m : matrix) (fn : cell -> number)
    (pre : list Q) (y : Q) (post : list Q) :
  map fn (populated m) = map JFin (pre ++ 0%Q :: y :: post) ->
  Forall (fun x => (0 <= x)%Q) pre -> (0 < y)%Q -> Forall (fun x => (0 < x)%Q) post ->
  exists mn, (findMinMaxMatrix m fn).1 = JFin mn /\ (0 < mn)%Q.
Proof.
  intros Hvals Hpre Hy Hpost.
  rewrite findMinMaxMatrix_scan, Hvals, map_app, fold_left_app.
  destruct (scan_fst_closed (fun a => 0 <= a)%Q pre (JFin 0, JFin 0) 0)
    as (a & Ha & Ha0); [done | apply Qle_refl | done |].
  set (acc := fold_left minmax_step (map JFin pre) (JFin 0, JFin 0)) in *.
  cbn [map fold_left].
  assert (H0 : (minmax_step acc (JFin 0)).1 = JFin 0).
  { rewrite minmax_step_fst, Ha. cbn [truthy js_lt]. qbool; simpl; try done; exfalso; lra. }
  assert (Hy' : (minmax_step (minmax_step acc (JFin 0)) (JFin y)).1 = JFin y).
  { rewrite minmax_step_fst, H0. reflexivity. }
  exact (scan_fst_closed (fun a => 0 < a)%Q post _ y Hy' Hy Hpost).
Qed.

Lemma findMinMaxMatrix_forgets_zero_witness :
  exists mn, (findMinMaxMatrix sample_compared (fun c => num_of (matches c))).1 = JFin mn /\
             (0 < mn)%Q.
Proof.
  apply (findMinMaxMatrix_forgets_zero _ _ [] 25%Q [50%Q]).
  - vm_compute. reflexivity.
  - constructor.
  - vm_compute. reflexivity.
  - constructor; [vm_compute; reflexivity | constructor].
Defined.

(** [findMeanMatrix] of a matrix without populated cells is NaN
    ([0 / 0]); it does not fail. *)
Theorem findMeanMatrix_empty (m : matrix) (fn : cell -> number) :
  populated m = [] -> findMeanMatrix m fn = JNaN.
Proof.
  intros H. unfold findMeanMatrix.
  rewrite (fold_left_rows (fun acc c => (acc.1 ⊕ fn c, S acc.2))).
  change (concat (map (omap id) m)) with (populated m). by rewrite H.
Qed.

Lemma findMeanMatrix_empty_witness :
  findMeanMatrix (createRichMatrix sample_loc_map ["1"%string]) (fun c => num_of (ratio c)) = JNaN.
Proof. apply findMeanMatrix_empty. vm_compute. reflexivity. Defined.

(** [augmentHeatmapMatrix] keeps the shape of the matrix ([null]
    entries stay [null]) and, in every cell, the versions, the line
    counts and the match count. *)
Theorem augmentHeatmapMatrix_keeps (m : matrix) (i j : nat) :
  option_map (option_map cell_key) (cell_at (augmentHeatmapMatrix m) i j) =
  option_map (option_map cell_key) (cell_at m i j).
Proof.
  unfold augmentHeatmapMatrix. cbv zeta. rewrite !cell_at_map.
  by destruct (cell_at m i j) as [[c|]|].
Qed.

(** C4: when every populated cell has positive finite match and line
    counts, the heatmap pass leaves every populated cell with a ratio in
    [[0, 1]], the colour of that ratio, and a width and height in
    [[10, 30]]. *)
Theorem augmentHeatmapMatrix_ranges (m : matrix) :
  Forall counts_positive (populated m) ->
  Forall heatmap_cell_ok (populated (augmentHeatmapMatrix m)).
Proof.
  intros Hpos. unfold augmentHeatmapMatrix. cbv zeta.
  rewrite !findMinMaxMatrix_scan, !populated_map.
  set (P := populated m) in *.
  destruct (decide (P = [])) as [->|Hne]; [constructor|].
  assert (Hne' : map with_ratio P <> []) by (intros Hnil; apply map_eq_nil in Hnil; done).
  destruct (selector_bounds (fun c => num_of (ratio c)) (map with_ratio P)) as (mnR & mxR & HR & HbR);
    [|done|].
  { apply Forall_forall. intros c' Hc'. apply list_elem_of_In, in_map_iff in Hc' as (c & <- & Hc).
    apply list_elem_of_In, (proj1 (Forall_forall _ _) Hpos), with_ratio_pos in Hc as (x & -> & Hx).
    by exists x. }
  destruct (selector_bounds (fun c => num_of (loc_left c)) (map with_ratio P)) as (mnL & mxL & HL & HbL);
    [|done|].
  { apply Forall_forall. intros c' Hc'. apply list_elem_of_In, in_map_iff in Hc' as (c & <- & Hc).
    cbn [with_ratio loc_left].
    apply list_elem_of_In, (proj1 (Forall_forall _ _) Hpos) in Hc as (a & l1 & l2 & _ & -> & _ & _ & Pl1 & _).
    by exists l1. }
  destruct (selector_bounds (fun c => num_of (loc_right c)) (map with_ratio P)) as (mnW & mxW & HW & HbW);
    [|done|].
  { apply Forall_forall. intros c' Hc'. apply list_elem_of_In, in_map_iff in Hc' as (c & <- & Hc).
    cbn [with_ratio loc_right].
    apply list_elem_of_In, (proj1 (Forall_forall _ _) Hpos) in Hc as (a & l1 & l2 & _ & _ & -> & _ & _ & Pl2).
    by exists l2. }
  rewrite HR, HL, HW.
  apply Forall_forall. intros c' Hc'. apply list_elem_of_In, in_map_iff in Hc' as (c & <- & Hc).
  apply list_elem_of_In in Hc.
  apply finish_cell_ok;
    [apply (proj1 (Forall_forall _ _) HbR) | apply (proj1 (Forall_forall _ _) HbL)
    | apply (proj1 (Forall_forall _ _) HbW)]; exact Hc.
Qed.

(** A zero match count breaks the range.  In the sample run (match
    counts 0, 25 and 50 over 100 lines), the raw ratios are 0, 0.25 and
    0.5; the scan forgets the minimum 0 and returns 0.25, so the cell
    with no match gets the ratio -1 and the colour rgb(1275,255,255),
    outside both [[0, 1]] and the channel range. *)
Example augmentHeatmapMatrix_zero_match :
  exists c, cell_at (augmentHeatmapMatrix sample_compared) 1 0 = Some (Some c) /\
    matches c = Some (JFin 0) /\ (qv (num_of (ratio c)) == -1)%Q /\
    color c = Some "rgb(1275,255,255)"%string.
Proof. vm_compute. eexists. split_and!; reflexivity. Qed.

Lemma augmentHeatmapMatrix_ranges_witness :
  Forall heatmap_cell_ok (populated (augmentHeatmapMatrix sample_positive)).
Proof.
  apply augmentHeatmapMatrix_ranges. vm_compute.
  repeat constructor; eexists _, _, _; split_and!; reflexivity.
Defined.
