(* ===== verification/Batch.v ===== *)
(** * [augmentComparisonMatrix] of [src/src/App.js]: the batch runner

    The method walks the matrix row by row; for every populated cell it
    calls the comparator [fn] (which spawns an external process and
    returns a promise) and pushes the promise; when ten promises are in
    the array it awaits all of them ([Promise.all]) and empties the
    array; after the loop it awaits the last batch.  Each promise's
    callback sets [column.matches], increments [this.processed] and
    logs [processed/total].

    JavaScript runs the loop and the callbacks on one thread: a callback
    runs only while the loop is suspended at an [await].  The state
    [bstate] makes this explicit:
    - [bmatrix]: the matrix (the cells are updated in place);
    - [todo]: the positions the two [for] loops have still to visit;
    - [promises]: the positions whose promises are in the array;
    - [pending]: the comparisons issued and not yet completed, each with
      the [column] object its callback captured and the count its
      process will report;
    - [processed] and [log]: the counter and the reported values;
    - [bmode]: [Running] (the loop runs), [Barrier] (suspended at the
      [await] inside the loop), [Draining] (at the final [await]) or
      [Finished] (the method returned).
    [bstep] has one rule per transition; completions can happen in any
    order while the loop is suspended.

    The comparator is the interface [Comparator]: a function of the two
    version directories ([version_dir_map[column.left]],
    [version_dir_map[column.right]]) to the duplicated-line count. *)

From Stdlib Require Import QArith ZArith String.
From stdpp Require Import base list gmap strings.
From S2P Require Import Prelude JsNum Helpers Matrix.

(** What the batch runner needs of [compareVersionsJavaScript] and
    [compareVersionsPHP]: the count reported for two directories
    ([undefined] when a version has no directory).  Every comparison
    here settles with a count; in the code a comparison can also never
    settle (the JavaScript callback may throw in the ['exit'] handler,
    [Compare.js_task_exit_race]), and the loop then waits forever at its
    [await].  The theorems of this file are therefore about the runs
    that return and the states that are reached (partial correctness);
    that the runs of the model end holds of the model's comparator, not
    of the code's. *)
Class Comparator := compare_dirs : option string -> option string -> number.

Inductive mode := Running | Barrier | Draining | Finished.

#[export] Instance mode_eq_dec : EqDecision mode.
Proof. solve_decision. Defined.

(** A comparison in flight: its cell position, the captured [column]
    and the count its promise resolves to. *)
Record pending_cmp := mkPending {
  pc_row : nat;
  pc_col : nat;
  pc_column : cell;
  pc_count : number
}.

Record bstate := mkB {
  bmatrix : matrix;
  todo : list (nat * nat);
  promises : list (nat * nat);
  pending : list pending_cmp;
  processed : nat;
  log : list nat;
  bmode : mode
}.

(** The positions visited by [for (let rowIndex = 0; rowIndex <
    matrix.length; rowIndex++) for (let columnIndex = 0; columnIndex <
    matrix[rowIndex].length; columnIndex++)], from row [i] on (no step
    changes the length of a row). *)
Fixpoint positions_from (i : nat) (m : matrix) : list (nat * nat) :=
  match m with
  | [] => []
  | row :: m' => map (pair i) (seq 0 (length row)) ++ positions_from (S i) m'
  end.

Definition positions (m : matrix) : list (nat * nat) := positions_from 0 m.

(** The cell at a position holds a comparison. *)
Definition is_populated (m : matrix) (p : nat * nat) : bool :=
  match cell_at m p.1 p.2 with Some (Some _) => true | _ => false end.

(** [matrix[rowIndex][columnIndex] = column]. *)
Definition set_cell (m : matrix) (i j : nat) (x : option cell) : matrix :=
  alter (fun row => <[j := x]> row) i m.

Section Runner.
Context `{Comparator} (version_dir_map : gmap string string).

(** The count for a cell: [fn(version_dir_map[column.left],
    version_dir_map[column.right])]. *)
Definition compare_cell (c : cell) : number :=
  compare_dirs (version_dir_map !! c_left c) (version_dir_map !! c_right c).

(** The state in which the method starts ([processed] is 0 and the
    [promises] array empty). *)
Definition binit (m : matrix) : bstate :=
  mkB m (positions m) [] [] 0 [] Running.

Inductive bstep : bstate -> bstate -> Prop :=
(** [if (column)] fails: [null] (or no cell). *)
| step_skip m i j rest ps pd n l :
    (forall c, cell_at m i j <> Some (Some c)) ->
    bstep (mkB m ((i, j) :: rest) ps pd n l Running) (mkB m rest ps pd n l Running)
(** [promises.push(fn(...).then(...))], then the test
    [promises.length >= 10]. *)
| step_issue m i j rest ps pd n l c :
    cell_at m i j = Some (Some c) ->
    bstep (mkB m ((i, j) :: rest) ps pd n l Running)
          (mkB m rest (ps ++ [(i, j)]) (pd ++ [mkPending i j c (compare_cell c)]) n l
               (if decide (10 <= length (ps ++ [(i, j)])) then Barrier else Running))
(** A callback runs while the loop is suspended:
    [column.matches = count; matrix[rowIndex][columnIndex] = column;
     this.processed++; debug(processed/total)]. *)
| step_complete m td ps pd1 p pd2 n l md :
    md = Barrier \/ md = Draining ->
    bstep (mkB m td ps (pd1 ++ p :: pd2) n l md)
          (mkB (set_cell m (pc_row p) (pc_col p) (Some (set_matches (pc_column p) (pc_count p))))
               td ps (pd1 ++ pd2) (S n) (l ++ [S n]) md)
(** [await Promise.all(promises); promises = [];]. *)
| step_resume m td ps n l :
    bstep (mkB m td ps [] n l Barrier) (mkB m td [] [] n l Running)
(** The loops end: [await Promise.all(promises)] for the last batch. *)
| step_drain m ps pd n l :
    bstep (mkB m [] ps pd n l Running) (mkB m [] ps pd n l Draining)
(** [return matrix]. *)
| step_finish m ps n l :
    bstep (mkB m [] ps [] n l Draining) (mkB m [] ps [] n l Finished).

(** A cell with its count. *)
Definition fill_cell (c : cell) : cell := set_matches c (compare_cell c).

(** What the method computes, by its [.then((count) => column.matches =
    count)] (and what the specification asks of the batch comparator):
    every populated cell with its count in [matches], every [null] left
    alone.  The doc comment of the method (App.js, lines 320-325) also
    promises a [ratio] per cell; the method never sets one (the heatmap
    pass does, [Matrix.with_ratio]), and [batch_refines_spec] shows the
    [ratio] of every cell left as it was. *)
Definition augmentComparisonMatrix_spec (m : matrix) : matrix :=
  map (map (option_map fill_cell)) m.
End Runner.

(** One schedule among those [bstep] allows: the loop runs until it
    blocks, and the oldest pending comparison completes first. *)
Definition sched_step `{Comparator} (version_dir_map : gmap string string) (s : bstate) : option bstate :=
  let '(mkB m td ps pd n l md) := s in
  match md with
  | Running =>
      match td with
      | (i, j) :: rest =>
          match cell_at m i j with
          | Some (Some c) =>
              let ps' := ps ++ [(i, j)] in
              Some (mkB m rest ps' (pd ++ [mkPending i j c (compare_cell version_dir_map c)]) n l
                      (if decide (10 <= length ps') then Barrier else Running))
          | _ => Some (mkB m rest ps pd n l Running)
          end
      | [] => Some (mkB m [] ps pd n l Draining)
      end
  | Barrier | Draining =>
      match pd, td, md with
      | p :: pd', _, _ =>
          Some (mkB (set_cell m (pc_row p) (pc_col p) (Some (set_matches (pc_column p) (pc_count p))))
                    td ps pd' (S n) (l ++ [S n]) md)
      | [], _, Barrier => Some (mkB m td [] [] n l Running)
      | [], [], _ => Some (mkB m [] ps [] n l Finished)
      | [], _ :: _, _ => None
      end
  | Finished => None
  end.

Fixpoint run_sched `{Comparator} (version_dir_map : gmap string string) (fuel : nat) (s : bstate) : bstate :=
  match fuel with
  | O => s
  | S fuel' => match sched_step version_dir_map s with
               | Some s' => run_sched version_dir_map fuel' s'
               | None => s
               end
  end.

(** A sample run: six versions (fifteen comparisons, so one barrier),
    their directories, and a comparator that reports the total length of
    the two directory names. *)
Definition batch_versions : list string := ["1"; "2"; "3"; "4"; "5"; "6"]%string.

Definition batch_matrix : matrix := createRichMatrix sample_loc_map batch_versions.

Definition batch_dir_map : gmap string string :=
  list_to_map (map (fun v => (v, ("input/" ++ v ++ "/src")%string)) batch_versions).

Definition batch_comparator : Comparator := fun l r =>
  match l, r with
  | Some a, Some b => JFin (inject_Z (Z.of_nat (String.length a + String.length b)))
  | _, _ => JNaN
  end.

Definition pc_pos (p : pending_cmp) : nat * nat := (pc_row p, pc_col p).

(** The comparison at [(i, j)] has completed: its position was visited
    and it is no longer pending. *)
Definition completed (V : list (nat * nat)) (pd : list pending_cmp) (i j : nat) : Prop :=
  (i, j) ∈ V /\ (i, j) ∉ map pc_pos pd.

(** The measure of the runner: every step visits a position, completes a
    comparison or moves the loop past an [await]. *)
Definition mode_weight (md : mode) : nat :=
  match md with Barrier => 3 | Running => 2 | Draining => 1 | Finished => 0 end.

Definition bmeasure (s : bstate) : nat :=
  3 * length (todo s) + length (pending s) + mode_weight (bmode s).

(** The shape facts of the counters that every reachable state has. *)
Definition inflight_inv (s : bstate) : Prop :=
  length (pending s) <= length (promises s) /\ length (promises s) <= 10 /\
  (bmode s = Running -> length (promises s) < 10) /\
  (bmode s = Draining \/ bmode s = Finished -> todo s = []) /\
  (bmode s = Finished -> pending s = []).

(** The run invariant of [augmentComparisonMatrix] on the matrix [m]:
    a prefix [V] of the loop positions is visited, the pending
    comparisons carry their cell and count, the matrix is the
    specification on the completed cells and the input elsewhere, and
    [processed] and the log count the completed cells. *)
Definition run_inv `{Comparator} (version_dir_map : gmap string string) (m : matrix) (s : bstate) : Prop :=
  exists V,
    positions m = V ++ todo s /\
    Forall (fun p => pc_pos p ∈ V /\ cell_at m (pc_row p) (pc_col p) = Some (Some (pc_column p)) /\
                     pc_count p = compare_cell version_dir_map (pc_column p)) (pending s) /\
    NoDup (map pc_pos (pending s)) /\
    (forall i j, cell_at (bmatrix s) i j =
       if bool_decide (completed V (pending s) i j)
       then option_map (option_map (fill_cell version_dir_map)) (cell_at m i j) else cell_at m i j) /\
    (forall i, option_map length (bmatrix s !! i) = option_map length (m !! i)) /\
    processed s + length (pending s) = length (filter (fun p => is_populated m p = true) V) /\
    log s = seq 1 (processed s).

(** ** The loop positions and the in-place updates *)

Section Positions.
Lemma cell_at_cons row m i j : cell_at (row :: m) (S i) j = cell_at m i j.
Proof. reflexivity. Qed.

Lemma positions_from_shift i m :
  positions_from (S i) m = map (fun p => (S p.1, p.2)) (positions_from i m).
Proof.
  revert i. induction m as [|row m IH]; intros i; simpl; [done|].
  rewrite map_app, IH, map_map. f_equal.
Qed.

Lemma elem_of_positions m i j :
  (i, j) ∈ positions m <-> is_Some (cell_at m i j).
Proof.
  unfold positions. revert i. induction m as [|row m IH]; intros i; simpl.
  - unfold cell_at. simpl. split; [intros Hin; by apply list_elem_of_In in Hin | by intros []].
  - rewrite positions_from_shift, elem_of_app. split.
    + intros [Hin | Hin].
      * apply list_elem_of_In, in_map_iff in Hin as (k & Hk & Hs). injection Hk as <- <-.
        apply list_elem_of_In, elem_of_seq in Hs. unfold cell_at. simpl.
        apply lookup_lt_is_Some. lia.
      * apply list_elem_of_In, in_map_iff in Hin as ([a b] & Hab & Hin). injection Hab as <- <-.
        rewrite cell_at_cons. apply IH, list_elem_of_In, Hin.
    + intros Hs. destruct i as [|i].
      * left. unfold cell_at in Hs. simpl in Hs. apply lookup_lt_is_Some in Hs.
        apply list_elem_of_In, in_map_iff. exists j. split; [done|].
        apply list_elem_of_In, elem_of_seq. lia.
      * right. rewrite cell_at_cons in Hs. apply IH, list_elem_of_In in Hs.
        apply list_elem_of_In, in_map_iff. by exists (i, j).
Qed.

Lemma positions_from_fst i m a b : (a, b) ∈ positions_from i m -> i <= a.
Proof.
  revert i. induction m as [|row m IH]; intros i Hin; simpl in Hin;
    [by apply list_elem_of_In in Hin|].
  apply elem_of_app in Hin as [Hin | Hin].
  - by apply list_elem_of_In, in_map_iff in Hin as (k & [= <- <-] & _).
  - apply IH in Hin. lia.
Qed.

Lemma NoDup_positions m : NoDup (positions m).
Proof.
  unfold positions. generalize 0. induction m as [|row m IH]; intros i; simpl; [constructor|].
  apply NoDup_app. split_and!.
  - apply NoDup_ListNoDup, Finite.Injective_map_NoDup; [by intros a b [= ->]|].
    apply NoDup_ListNoDup, NoDup_seq.
  - intros [a b] Hin1 Hin2.
    apply list_elem_of_In, in_map_iff in Hin1 as (k & [= <- <-] & _).
    apply positions_from_fst in Hin2. lia.
  - apply IH.
Qed.
Lemma positions_populated_count m :
  length (filter (fun p => is_populated m p = true) (positions m)) = length (populated m).
Proof.
  unfold positions, populated. induction m as [|row m IH]; [done|].
  cbn [positions_from concat map]. rewrite positions_from_shift, filter_app, !length_app.
  rewrite !length_filter_map.
  rewrite (list_filter_iff _ (fun k => match row !! k with Some (Some _) => true | _ => false end = true))
    by (intros; reflexivity).
  rewrite (list_filter_iff _ (fun p => is_populated m p = true)) by (intros; reflexivity).
  rewrite count_somes. f_equal. exact IH.
Qed.

Lemma cell_at_set_cell_eq m i j x x0 :
  cell_at m i j = Some x0 -> cell_at (set_cell m i j x) i j = Some x.
Proof.
  unfold cell_at, set_cell. rewrite list_lookup_alter_eq.
  destruct (m !! i) as [row|]; simpl; [|done]. intros Hj.
  apply list_lookup_insert_eq. by apply lookup_lt_Some in Hj.
Qed.

Lemma cell_at_set_cell_ne m i j x i' j' :
  (i', j') <> (i, j) -> cell_at (set_cell m i j x) i' j' = cell_at m i' j'.
Proof.
  intros Hne. unfold cell_at, set_cell. destruct (decide (i' = i)) as [->|Hi].
  - rewrite list_lookup_alter_eq. destruct (m !! i) as [row|]; simpl; [|done].
    apply list_lookup_insert_ne. congruence.
  - by rewrite list_lookup_alter_ne by congruence.
Qed.

Lemma set_cell_lengths m i j x k :
  option_map length (set_cell m i j x !! k) = option_map length (m !! k).
Proof.
  unfold set_cell. destruct (decide (k = i)) as [->|Hk].
  - rewrite list_lookup_alter_eq. destruct (m !! i); simpl; [|done]. by rewrite length_insert.
  - by rewrite list_lookup_alter_ne by congruence.
Qed.

(** Two matrices with the same row lengths and the same cells are equal. *)
Lemma matrix_ext (a b : matrix) :
  (forall i, option_map length (a !! i) = option_map length (b !! i)) ->
  (forall i j, cell_at a i j = cell_at b i j) -> a = b.
Proof.
  intros Hlen Hcell. apply list_eq. intros i. specialize (Hlen i).
  destruct (a !! i) as [ra|] eqn:Ha, (b !! i) as [rb|] eqn:Hb; simpl in Hlen; try done.
  f_equal. apply list_eq. intros j. specialize (Hcell i j). unfold cell_at in Hcell.
  by rewrite Ha, Hb in Hcell.
Qed.
End Positions.

(** ** Termination, the in-flight bound and progress *)

Section RunnerProps.
Context `{Comparator} (version_dir_map : gmap string string).

Abbreviation step := (bstep version_dir_map).

Lemma bstep_measure s s' : step s s' -> bmeasure s' < bmeasure s.
Proof.
  intros Hs; destruct Hs; unfold bmeasure; cbn [todo pending bmode length];
    rewrite ?length_app; simpl; try case_decide; simpl; lia.
Qed.

Lemma inflight_inv_init m : inflight_inv (binit m).
Proof. unfold inflight_inv, binit; simpl. split_and!; [lia | lia | lia | intros [? | ?]; done | done]. Qed.

Lemma inflight_inv_step s s' : inflight_inv s -> step s s' -> inflight_inv s'.
Proof.
  intros (Hle & H10 & Hrun & Hdr & Hfin) Hs; destruct Hs;
    try match goal with Hmd : _ = Barrier \/ _ = Draining |- _ => destruct Hmd as [-> | ->] end;
    unfold inflight_inv in *; simpl in *;
    rewrite ?length_app in *; simpl in *; try case_decide;
    try specialize (Hrun eq_refl); split_and!; try lia; try (intros; done);
    try (intros [Hm|Hm]; first [discriminate | by apply Hdr; auto]);
    try (intros Hm; first [discriminate | specialize (Hrun Hm); lia | lia]).
Qed.

Lemma inflight_inv_reachable m s :
  star step (binit m) s -> inflight_inv s.
Proof.
  intros Hrun. eapply star_invariant; [apply inflight_inv_step | exact Hrun |].
  apply inflight_inv_init.
Qed.
End RunnerProps.

(** ** The run invariant: the matrix is the specification on completed
    cells and the input elsewhere *)

Section RunInvariant.
Context `{Comparator} (version_dir_map : gmap string string) (m : matrix).

Abbreviation step := (bstep version_dir_map).
Abbreviation fill := (fill_cell version_dir_map).

Local Abbreviation run_inv := (run_inv version_dir_map m).

Lemma run_inv_init : run_inv (binit m).
Proof.
  exists []. unfold binit; cbn [bmatrix todo pending processed log].
  split_and!; [done | constructor | constructor | | done | done | done].
  intros i j. rewrite bool_decide_false; [done|]. intros [Hin _]. by apply list_elem_of_In in Hin.
Qed.

(** The next position of the loop is not among the visited ones. *)
Lemma next_not_visited V p rest : positions m = V ++ p :: rest -> p ∉ V.
Proof.
  intros Hpos Hin. pose proof (NoDup_positions m) as Hnd. rewrite Hpos in Hnd.
  apply NoDup_app in Hnd as (_ & Hdis & _). apply (Hdis p Hin). by left.
Qed.

Lemma pending_visited (P : pending_cmp -> Prop) (V : list (nat * nat)) (pd : list pending_cmp) (p : nat * nat) :
  Forall (fun p => pc_pos p ∈ V /\ P p) pd -> p ∈ map pc_pos pd -> p ∈ V.
Proof.
  intros Hall Hin. apply list_elem_of_In, in_map_iff in Hin as (q & <- & Hq).
  apply list_elem_of_In in Hq. by apply (proj1 (Forall_forall _ _) Hall) in Hq as [? _].
Qed.

(** Visiting a position that is not pending afterwards completes it. *)
Lemma completed_visit V pd i j i' j' :
  completed (V ++ [(i, j)]) pd i' j' <->
  completed V pd i' j' \/ ((i', j') = (i, j) /\ (i, j) ∉ map pc_pos pd).
Proof.
  unfold completed. rewrite elem_of_app, list_elem_of_singleton. naive_solver.
Qed.
(** The cells the loop skips are not changed by the fill. *)
Lemma fill_not_cell (x : option (option cell)) :
  (forall c, x <> Some (Some c)) -> option_map (option_map fill) x = x.
Proof. intros Hx. destruct x as [[c|]|]; [by destruct (Hx c) | done | done]. Qed.

Lemma is_populated_cell M i j c : cell_at M i j = Some (Some c) -> is_populated M (i, j) = true.
Proof. unfold is_populated. simpl. by intros ->. Qed.

Lemma is_populated_not M i j : (forall c, cell_at M i j <> Some (Some c)) -> is_populated M (i, j) = false.
Proof.
  unfold is_populated. simpl. intros Hx.
  destruct (cell_at M i j) as [[c|]|]; [by destruct (Hx c) | done | done].
Qed.

Lemma run_inv_skip M i j rest ps pd n l :
  run_inv (mkB M ((i, j) :: rest) ps pd n l Running) ->
  (forall c, cell_at M i j <> Some (Some c)) ->
  run_inv (mkB M rest ps pd n l Running).
Proof.
  intros (V & Hpos & Hpd & Hnd & Hcell & Hlen & Hcnt & Hlog) Hskip.
  cbn [todo pending bmatrix processed log] in *.
  pose proof (next_not_visited _ _ _ Hpos) as Hnew.
  assert (Hij : cell_at M i j = cell_at m i j).
  { rewrite Hcell, bool_decide_false; [done|]. by intros [? _]. }
  exists (V ++ [(i, j)]). cbn [todo pending bmatrix processed log]. split_and!.
  - by rewrite <- app_assoc.
  - eapply Forall_impl; [exact Hpd|]. intros p [Hp Hr]. split; [apply elem_of_app; by left | exact Hr].
  - exact Hnd.
  - intros i' j'. rewrite (Hcell i' j').
    destruct (decide ((i', j') = (i, j))) as [[= -> ->]|Hne].
    + rewrite bool_decide_false by (by intros [? _]). rewrite Hij in Hskip.
      rewrite (fill_not_cell _ Hskip). by case_bool_decide.
    + apply if_bool_decide_iff. rewrite completed_visit. naive_solver.
  - exact Hlen.
  - rewrite filter_app, length_app, filter_cons_False, filter_nil; [simpl; lia|].
    rewrite Hij in Hskip. by rewrite is_populated_not.
  - exact Hlog.
Qed.

Lemma run_inv_issue M i j rest ps pd n l c :
  run_inv (mkB M ((i, j) :: rest) ps pd n l Running) ->
  cell_at M i j = Some (Some c) ->
  run_inv (mkB M rest (ps ++ [(i, j)])
    (pd ++ [mkPending i j c (compare_cell version_dir_map c)]) n l
    (if decide (10 <= length (ps ++ [(i, j)])) then Barrier else Running)).
Proof.
  intros (V & Hpos & Hpd & Hnd & Hcell & Hlen & Hcnt & Hlog) Hc.
  cbn [todo pending bmatrix processed log] in *.
  pose proof (next_not_visited _ _ _ Hpos) as Hnew.
  assert (Hij : cell_at M i j = cell_at m i j).
  { rewrite Hcell, bool_decide_false; [done|]. by intros [? _]. }
  assert (Hnp : (i, j) ∉ map pc_pos pd) by (intros Hin; by eapply Hnew, (pending_visited _ V pd); [exact Hpd|]).
  exists (V ++ [(i, j)]). cbn [todo pending bmatrix processed log]. split_and!.
  - by rewrite <- app_assoc.
  - apply Forall_app. split.
    + eapply Forall_impl; [exact Hpd|]. intros p [Hp Hr]. split; [apply elem_of_app; by left | exact Hr].
    + constructor; [|constructor]. cbn [pc_pos pc_row pc_col pc_column pc_count].
      split_and!; [apply elem_of_app; right; by left | by rewrite <- Hij | done].
  - rewrite map_app. apply NoDup_app. split_and!; [done | | by apply NoDup_singleton].
    intros x Hx Hx'. apply list_elem_of_singleton in Hx'. subst x. done.
  - intros i' j'. rewrite (Hcell i' j'). apply if_bool_decide_iff.
    unfold completed. rewrite map_app, !elem_of_app, !list_elem_of_singleton. split.
    + intros [HV Hn]. split; [by left|]. intros [Hin | Heq]; [done|].
      apply list_elem_of_In in Heq as [Heq | []]. injection Heq as -> ->. by apply Hnew.
    + intros [[HV | Heq] Hn].
      * split; [done|]. intros Hin. apply Hn. by left.
      * exfalso. apply Hn. right. rewrite Heq. apply list_elem_of_In. by left.
  - exact Hlen.
  - rewrite filter_app, length_app, filter_cons_True, filter_nil, length_app; [simpl; lia|].
    apply (is_populated_cell _ _ _ c). by rewrite <- Hij.
  - exact Hlog.
Qed.
Lemma NoDup_remove_mid {A} (l1 l2 : list A) (x : A) :
  NoDup (l1 ++ x :: l2) -> NoDup (l1 ++ l2) /\ x ∉ l1 ++ l2.
Proof.
  intros Hnd. apply NoDup_app in Hnd as (Hnd1 & Hdis & Hnd2).
  apply NoDup_cons in Hnd2 as [Hx Hnd2]. split.
  - apply NoDup_app. split_and!; [done | | done].
    intros y Hy1 Hy2. apply (Hdis y Hy1). by right.
  - rewrite elem_of_app. intros [Hx1 | Hx2]; [|done]. apply (Hdis x Hx1). by left.
Qed.

Lemma run_inv_complete M td ps pd1 p pd2 n l md :
  run_inv (mkB M td ps (pd1 ++ p :: pd2) n l md) ->
  run_inv (mkB (set_cell M (pc_row p) (pc_col p) (Some (set_matches (pc_column p) (pc_count p))))
               td ps (pd1 ++ pd2) (S n) (l ++ [S n]) md).
Proof.
  intros (V & Hpos & Hpd & Hnd & Hcell & Hlen & Hcnt & Hlog).
  cbn [todo pending bmatrix processed log] in *.
  apply Forall_app in Hpd as [Hpd1 Hpd2'].
  apply Forall_cons in Hpd2' as [(HpV & Hpm & Hpc) Hpd2].
  rewrite map_app in Hnd. cbn [map] in Hnd.
  apply NoDup_remove_mid in Hnd as [Hnd Hnotin]. rewrite <- map_app in Hnd, Hnotin.
  destruct p as [r k col cnt]. unfold pc_pos in *. cbn [pc_row pc_col pc_column pc_count] in *.
  assert (HM : cell_at M r k = Some (Some col)).
  { rewrite Hcell, bool_decide_false; [done|]. intros [_ Hn]. apply Hn.
    rewrite map_app, elem_of_app. right. by left. }
  exists V. cbn [todo pending bmatrix processed log]. split_and!.
  - exact Hpos.
  - by apply Forall_app.
  - exact Hnd.
  - intros i' j'. destruct (decide ((i', j') = (r, k))) as [[= -> ->]|Hne].
    + rewrite (cell_at_set_cell_eq _ _ _ _ _ HM), bool_decide_true by done.
      rewrite Hpm. cbn [option_map]. unfold fill_cell. by rewrite Hpc.
    + rewrite cell_at_set_cell_ne by done. rewrite Hcell. apply if_bool_decide_iff.
      unfold completed. rewrite !map_app, !elem_of_app. cbn [map].
      rewrite elem_of_cons. naive_solver.
  - intros i. rewrite set_cell_lengths. apply Hlen.
  - rewrite length_app in *. cbn [length] in Hcnt. lia.
  - rewrite Hlog. by rewrite seq_S.
Qed.
Lemma run_inv_step s s' : run_inv s -> step s s' -> run_inv s'.
Proof.
  intros Hinv Hs. destruct Hs.
  - by eapply run_inv_skip.
  - by eapply run_inv_issue.
  - by apply run_inv_complete.
  - exact Hinv.
  - exact Hinv.
  - exact Hinv.
Qed.

Lemma run_inv_reachable s : star step (binit m) s -> run_inv s.
Proof.
  intros Hrun. eapply star_invariant; [apply run_inv_step | exact Hrun | apply run_inv_init].
Qed.

(** At the end, the matrix is the specification. *)
Lemma run_inv_final s :
  run_inv s -> todo s = [] -> pending s = [] ->
  bmatrix s = augmentComparisonMatrix_spec version_dir_map m /\
  processed s = length (populated m) /\ log s = seq 1 (length (populated m)).
Proof.
  intros (V & Hpos & _ & _ & Hcell & Hlen & Hcnt & Hlog) Htd Hpd.
  rewrite Htd, app_nil_r in Hpos. rewrite Hpd in Hcell, Hcnt. subst V.
  rewrite <- positions_populated_count. cbn [length] in Hcnt.
  split_and!; [| lia | rewrite Hlog; f_equal; lia].
  apply matrix_ext.
  - intros i. rewrite Hlen. unfold augmentComparisonMatrix_spec. rewrite lookup_map.
    destruct (m !! i); simpl; [by rewrite length_map | done].
  - intros i j. rewrite Hcell. unfold augmentComparisonMatrix_spec. rewrite cell_at_map.
    case_bool_decide as Hc; [done|].
    destruct (cell_at m i j) as [x|] eqn:E; [|done]. exfalso. apply Hc. split.
    + apply elem_of_positions. by rewrite E.
    + intros Hin. by apply list_elem_of_In in Hin.
Qed.
End RunInvariant.

(** The comparison sets [matches] only: the [ratio] the doc comment
    promises is not written. *)
Lemma spec_keeps_ratio `{Comparator} (version_dir_map : gmap string string) (m : matrix) :
  map ratio (populated (augmentComparisonMatrix_spec version_dir_map m)) = map ratio (populated m).
Proof. unfold augmentComparisonMatrix_spec. rewrite populated_map, map_map. by apply map_ext. Qed.

(** ** The schedule of [run_sched] *)

Section Schedule.
Context `{Comparator} (version_dir_map : gmap string string).

Abbreviation step := (bstep version_dir_map).

Ltac sched_inj := let Hs := fresh "Hs" in
  intros Hs; cbv iota beta zeta in Hs; first [discriminate | injection Hs as <-].

Lemma sched_step_sound s s' : sched_step version_dir_map s = Some s' -> step s s'.
Proof.
  destruct s as [m td ps pd n l md]. unfold sched_step. cbv iota beta.
  destruct md.
  - destruct td as [|[i j] rest].
    + sched_inj. apply step_drain.
    + destruct (cell_at m i j) as [[c|]|] eqn:E; sched_inj.
      * by apply step_issue.
      * apply step_skip. by rewrite E.
      * apply step_skip. by rewrite E.
  - destruct pd as [|p pd]; [destruct td|]; sched_inj.
    + apply step_resume.
    + apply step_resume.
    + apply (step_complete _ _ _ _ []). by left.
  - destruct pd as [|p pd]; [destruct td|]; sched_inj.
    + apply step_finish.
    + apply (step_complete _ _ _ _ []). by right.
  - sched_inj.
Qed.

Lemma run_sched_star fuel s : star step s (run_sched version_dir_map fuel s).
Proof.
  revert s. induction fuel as [|fuel IH]; intros s; simpl; [constructor|].
  destruct (sched_step version_dir_map s) as [s'|] eqn:E; [|constructor].
  econstructor; [by apply sched_step_sound | apply IH].
Qed.

(** The schedule only stops at the end. *)
Lemma sched_step_some s :
  inflight_inv s -> bmode s <> Finished -> exists s', sched_step version_dir_map s = Some s'.
Proof.
  destruct s as [m td ps pd n l md]. intros (_ & _ & _ & Hdr & _) Hnf. cbn [bmode todo] in *.
  unfold sched_step. destruct md; try done.
  - destruct td as [|[i j] rest]; [by eexists|]. by destruct (cell_at m i j) as [[c|]|]; eexists.
  - by destruct pd, td; eexists.
  - rewrite Hdr by auto. by destruct pd; eexists.
Qed.

(** Enough fuel: the measure of the start state. *)
Lemma run_sched_finished fuel s :
  inflight_inv s -> bmeasure s <= fuel -> bmode (run_sched version_dir_map fuel s) = Finished.
Proof.
  revert s. induction fuel as [|fuel IH]; intros s Hinv Hle.
  - simpl. unfold bmeasure in Hle. destruct (bmode s) eqn:E; simpl in Hle; try lia; done.
  - simpl. destruct (decide (bmode s = Finished)) as [Hf|Hnf].
    + destruct s as [m td ps pd n l md]. cbn [bmode] in Hf. subst md. done.
    + destruct (sched_step_some s Hinv Hnf) as (s' & Hs'). rewrite Hs'.
      pose proof (sched_step_sound _ _ Hs') as Hstep.
      apply IH; [by eapply inflight_inv_step | pose proof (bstep_measure _ _ _ Hstep); lia].
Qed.
End Schedule.

(** ** Theorems *)

(** C2: in every state reachable from the start of
    [augmentComparisonMatrix], at most ten comparisons are pending (at
    most ten external processes run) and the [promises] array holds at
    most ten promises. *)
Theorem batch_at_most_ten `{Comparator} (version_dir_map : gmap string string)
    (m : matrix) (s : bstate) :
  star (bstep version_dir_map) (binit m) s ->
  length (pending s) <= 10 /\ length (promises s) <= 10.
Proof.
  intros Hrun. destruct (inflight_inv_reachable version_dir_map m s Hrun) as (H1 & H2 & _). lia.
Qed.

Lemma batch_at_most_ten_witness :
  length (pending (run_sched (H := batch_comparator) batch_dir_map 28 (binit batch_matrix))) <= 10 /\
  length (promises (run_sched (H := batch_comparator) batch_dir_map 28 (binit batch_matrix))) <= 10.
Proof. apply (batch_at_most_ten (H := batch_comparator) batch_dir_map batch_matrix). apply run_sched_star. Defined.

(** at the barrier ([await Promise.all] inside the loop) the only
    steps are completions, which start nothing new, and, once nothing is
    pending, the resumption of the loop with an empty [promises] array: a
    completed comparison does not free a slot before the whole batch has
    completed. *)
Theorem batch_barrier_steps `{Comparator} (version_dir_map : gmap string string) (s s' : bstate) :
  bstep version_dir_map s s' -> bmode s = Barrier ->
  (bmode s' = Barrier /\ todo s' = todo s /\ promises s' = promises s /\
   S (length (pending s')) = length (pending s)) \/
  (pending s = [] /\ bmode s' = Running /\ todo s' = todo s /\ promises s' = []).
Proof.
  intros Hs Hb. destruct Hs; cbn [bmode todo promises pending] in *; try discriminate.
  - left. subst md. rewrite !length_app. cbn [length]. split_and!; auto; lia.
  - right. auto.
Qed.

Lemma batch_barrier_steps_witness :
  bmode (run_sched (H := batch_comparator) batch_dir_map 28 (binit batch_matrix)) = Barrier /\
  bstep (H := batch_comparator) batch_dir_map
    (run_sched (H := batch_comparator) batch_dir_map 28 (binit batch_matrix))
    (run_sched (H := batch_comparator) batch_dir_map 29 (binit batch_matrix)) /\
  bmode (run_sched (H := batch_comparator) batch_dir_map 29 (binit batch_matrix)) = Barrier.
Proof.
  assert (Hb : bmode (run_sched (H := batch_comparator) batch_dir_map 28 (binit batch_matrix)) = Barrier)
    by (vm_compute; reflexivity).
  assert (Hs : bstep (H := batch_comparator) batch_dir_map
    (run_sched (H := batch_comparator) batch_dir_map 28 (binit batch_matrix))
    (run_sched (H := batch_comparator) batch_dir_map 29 (binit batch_matrix)))
    by (apply sched_step_sound; vm_compute; reflexivity).
  destruct (batch_barrier_steps (H := batch_comparator) batch_dir_map _ _ Hs Hb)
    as [(Hb' & _) | (Hpd & _)].
  - split_and!; [exact Hb | exact Hs | exact Hb'].
  - exfalso. revert Hpd. vm_compute. discriminate.
Defined.

(** Every run of the batch runner is finite, from any state: each
    step visits a position, completes a comparison or passes an [await]. *)
Theorem batch_terminates `{Comparator} (version_dir_map : gmap string string) (s : bstate) :
  terminates (bstep version_dir_map) s.
Proof.
  apply (measure_terminates _ (fun _ => True) bmeasure); [done | | done].
  intros s1 s2 _. apply bstep_measure.
Qed.

(** No reachable state is stuck before the method returns, and the
    schedule [run_sched] returns within [bmeasure (binit m)] steps (three
    per matrix position, plus two). *)
Theorem batch_finishes `{Comparator} (version_dir_map : gmap string string) (m : matrix) :
  (forall s, star (bstep version_dir_map) (binit m) s -> bmode s <> Finished ->
     exists s', bstep version_dir_map s s') /\
  let s := run_sched version_dir_map (bmeasure (binit m)) (binit m) in
  star (bstep version_dir_map) (binit m) s /\ bmode s = Finished.
Proof.
  split.
  - intros s Hrun Hnf.
    destruct (sched_step_some version_dir_map s) as (s' & Hs');
      [by eapply inflight_inv_reachable | done |].
    exists s'. by apply sched_step_sound.
  - split; [apply run_sched_star|].
    apply run_sched_finished; [apply inflight_inv_init | done].
Qed.

(** C1: every run that returns, whatever the order in which the
    comparisons complete, leaves the matrix of the specification (each
    populated cell with the count for its two directories, every [null]
    unchanged), the [ratio] of every cell as it was (the doc comment's
    promise of a [ratio] is not kept), [processed] equal to the number
    of populated cells and the progress log [1, 2, ..., N] in order. *)
Theorem batch_refines_spec `{Comparator} (version_dir_map : gmap string string)
    (m : matrix) (s : bstate) :
  star (bstep version_dir_map) (binit m) s -> bmode s = Finished ->
  bmatrix s = augmentComparisonMatrix_spec version_dir_map m /\
  map ratio (populated (bmatrix s)) = map ratio (populated m) /\
  processed s = length (populated m) /\ log s = seq 1 (length (populated m)).
Proof.
  intros Hrun Hfin.
  destruct (inflight_inv_reachable version_dir_map m s Hrun) as (_ & _ & _ & Htd & Hpd).
  destruct (run_inv_final version_dir_map m s) as (Hm & Hn & Hl);
    [by apply run_inv_reachable | by apply Htd; right | by apply Hpd |].
  split_and!; [done| |done|done]. rewrite Hm. apply spec_keeps_ratio.
Qed.

Lemma batch_refines_spec_witness :
  let s := run_sched (H := batch_comparator) batch_dir_map 110 (binit batch_matrix) in
  bmatrix s = augmentComparisonMatrix_spec (H := batch_comparator) batch_dir_map batch_matrix /\
  processed s = 15.
Proof.
  cbv zeta.
  destruct (batch_refines_spec (H := batch_comparator) batch_dir_map batch_matrix
              (run_sched (H := batch_comparator) batch_dir_map 110 (binit batch_matrix)))
    as (Hm & _ & Hn & _).
  - apply run_sched_star.
  - vm_compute. reflexivity.
  - split; [exact Hm | rewrite Hn; vm_compute; reflexivity].
Defined.
