(* ===== verification/Parsers.v ===== *)
(** * The text parsers of [src/src/App.js]

    [parseClocCsv] turns the rows of a cloc CSV report into the map from
    version to lines of code: it extracts the version from the file name
    with the regular expression [/\/([^\/]+)\//] (backslashes on Windows)
    and adds [parseInt(row.code) + parseInt(row.comment) +
    parseInt(row.blank)] to [map[key] || 0].  [compareVersionsJavaScript]
    sums [lines[1] - lines[0] + 1] over the instances of a jsinspect JSON
    report.  The CSV and JSON decoding are done by libraries
    ([csv-parse], [JSON.parse]); their results are the input here: a row
    is a record of optional strings (a column missing from a short row is
    [undefined]), an instance a list of numbers.

    This file holds the ES [parseInt] with no radix (whitespace trimming,
    sign, the [0x] prefix, the longest digit prefix, NaN without digits)
    over ASCII text, the leftmost-match semantics of the version regex,
    the row fold of [parseClocCsv] with its [TypeError] when a row has no
    file name, and the jsinspect count.  Theorems: [parseInt] reads a
    decimal literal (a round trip with the digits), the regex returns the
    leftmost segment between two separators, the fold sums the rows of
    each version, a row that does not parse makes the version NaN and the
    next row of the same version starts again from 0, and the jsinspect
    count is the sum of the instance lengths. *)

From Stdlib Require Import QArith Lqa ZArith String Ascii DecimalString DecimalZ.
From stdpp Require Import base list gmap strings.
From S2P Require Import Prelude JsNum.

Local Open Scope js_scope.

Module ParseInt.

(** The ASCII part of the ECMAScript white space and line terminators. *)
Definition is_ws (c : ascii) : bool :=
  match nat_of_ascii c with
  | 9 | 10 | 11 | 12 | 13 | 32 => true
  | _ => false
  end.

(** [TrimString(S, start)]. *)
Fixpoint trim_start (l : list ascii) : list ascii :=
  match l with
  | c :: l' => if is_ws c then trim_start l' else l
  | [] => []
  end.

(** The value of a digit of radix up to 36: [0-9], then [a-z] or [A-Z]. *)
Definition digit_val (c : ascii) : option nat :=
  let n := nat_of_ascii c in
  if (48 <=? n) && (n <=? 57) then Some (n - 48)
  else if (97 <=? n) && (n <=? 122) then Some (n - 87)
  else if (65 <=? n) && (n <=? 90) then Some (n - 55)
  else None.

Definition radix_digit (R : nat) (c : ascii) : option nat :=
  match digit_val c with
  | Some d => if d <? R then Some d else None
  | None => None
  end.

(** The longest prefix of radix-[R] digits (step 11 of [parseInt]). *)
Fixpoint digits_prefix (R : nat) (l : list ascii) : list nat :=
  match l with
  | c :: l' =>
      match radix_digit R c with
      | Some d => d :: digits_prefix R l'
      | None => []
      end
  | [] => []
  end.

Definition digits_value (R : nat) (ds : list nat) : Z :=
  fold_left (fun acc d => acc * Z.of_nat R + Z.of_nat d)%Z ds 0%Z.

(** Steps 3-5: [-] makes the sign negative, [+] or [-] is removed. *)
Definition sign_prefix (l : list ascii) : bool * list ascii :=
  match l with
  | c :: l' =>
      if Ascii.eqb c "-" then (true, l')
      else if Ascii.eqb c "+" then (false, l')
      else (false, l)
  | [] => (false, [])
  end.

(** Steps 6-10 with [radix] undefined: radix 10, or 16 after [0x]/[0X]. *)
Definition strip_hex (l : list ascii) : nat * list ascii :=
  match l with
  | c0 :: c1 :: l' =>
      if Ascii.eqb c0 "0" && (Ascii.eqb c1 "x" || Ascii.eqb c1 "X")
      then (16, l') else (10, l)
  | _ => (10, l)
  end.

(** [parseInt(s)]; the argument is [undefined] ([None]) for a column
    missing from a row, whose [ToString] is ["undefined"]. *)
Definition parseInt (s : option string) : number :=
  let l := trim_start (list_ascii_of_string (default "undefined"%string s)) in
  let '(neg, l) := sign_prefix l in
  let '(R, l) := strip_hex l in
  match digits_prefix R l with
  | [] => JNaN
  | ds => JFin (inject_Z ((if neg then -1 else 1) * digits_value R ds))
  end.

(** The character of a decimal digit. *)
Definition digit_char (d : nat) : ascii := ascii_of_nat (48 + d).
#[global] Arguments digit_char : simpl never.

Definition sign_chars (neg : bool) : list ascii := if neg then ["-"%char] else [].

(** A character that ends a number: no digit of any radix. *)
Definition ends_number (rest : list ascii) : Prop :=
  match rest with c :: _ => digit_val c = None | [] => True end.

End ParseInt.

Module VersionRegex.

(** [[^\/]+] matched greedily: the longest run without the separator, and
    what follows it. *)
Fixpoint span_seg (sep : ascii) (l : list ascii) : list ascii * list ascii :=
  match l with
  | c :: l' =>
      if Ascii.eqb c sep then ([], l)
      else let '(s, r) := span_seg sep l' in (c :: s, r)
  | [] => ([], [])
  end.

(** [filename.match(/\/([^\/]+)\//)]: the match starts at the leftmost
    separator that is followed by a nonempty run without separator and
    then a separator; the greedy run cannot backtrack to a shorter one,
    since the character after a shorter run is not a separator.  The
    result is group 1, or [None] for [null]. *)
Fixpoint match_segment (sep : ascii) (l : list ascii) : option (list ascii) :=
  match l with
  | [] => None
  | c :: l' =>
      if Ascii.eqb c sep then
        match span_seg sep l' with
        | ((_ :: _) as seg, _ :: _) => Some seg
        | _ => match_segment sep l'
        end
      else match_segment sep l'
  end.

(** [/^win/.test(process.platform)]. *)
Definition is_win (platform : string) : bool := String.prefix "win" platform.

(** Backslash on Windows, slash elsewhere. *)
Definition separator (platform : string) : ascii :=
  if is_win platform then "\"%char else "/"%char.

(** [matches[1]] when [matches && matches.length >= 2]: a match of this
    regex always has its one group. *)
Definition version_of (platform filename : string) : option string :=
  string_of_list_ascii <$> match_segment (separator platform) (list_ascii_of_string filename).

End VersionRegex.

Module Cloc.
Import ParseInt VersionRegex.

(** A row of [parse(..., {columns: true, relax_column_count: true})]: the
    columns the code reads, [undefined] when the row is short. *)
Record csv_row := mkRow {
  filename : option string;
  code : option string;
  comment : option string;
  blank : option string
}.

(** The body of [parsed.forEach]: [None] is the [TypeError] of
    [row.filename.match] when the row has no file name. *)
Definition clocRowStep (platform : string) (map : gmap string number) (row : csv_row)
    : option (gmap string number) :=
  match filename row with
  | None => None
  | Some f =>
      match version_of platform f with
      | Some key =>
          Some (<[key := ((js_or (num_of (map !! key)) (JFin 0) ⊕ parseInt (code row))
                            ⊕ parseInt (comment row)) ⊕ parseInt (blank row)]> map)
      | None => Some map
      end
  end.

Fixpoint clocRows (platform : string) (map : gmap string number) (rows : list csv_row)
    : option (gmap string number) :=
  match rows with
  | [] => Some map
  | row :: rows' =>
      match clocRowStep platform map row with
      | Some map' => clocRows platform map' rows'
      | None => None
      end
  end.

(** [parseClocCsv] after the CSV decoding: [const map = {}], the rows in
    order, [return map]. *)
Definition parseClocCsv (platform : string) (rows : list csv_row) : option (gmap string number) :=
  clocRows platform ∅ rows.

(** The version of a row, when it has a file name. *)
Definition row_key (platform : string) (row : csv_row) : option string :=
  filename row ≫= version_of platform.

(** The lines of a row whose three columns are integers. *)
Definition row_total (row : csv_row) : option Z :=
  match parseInt (code row), parseInt (comment row), parseInt (blank row) with
  | JFin a, JFin b, JFin c =>
      if decide (Qden a = 1%positive /\ Qden b = 1%positive /\ Qden c = 1%positive)
      then Some (Qnum a + Qnum b + Qnum c)%Z else None
  | _, _, _ => None
  end.

End Cloc.

Module JsInspect.

(** An instance of a jsinspect match: its [lines] array. *)
Record instance := mkInstance { lines : list number }.

(** A match of the JSON report: its [instances]. *)
Record jmatch := mkMatch { instances : list instance }.

(** [instance.lines[1] - instance.lines[0] + 1]. *)
Definition instance_lines (i : instance) : number :=
  (num_of (lines i !! 1) ⊖ num_of (lines i !! 0)) ⊕ JFin 1.

(** The callback of [compareVersionsJavaScript] after [JSON.parse]:
    [let count = 0], [count += ...] for every instance of every match. *)
Definition jsinspect_count (parsed : list jmatch) : number :=
  fold_left (fun count m => fold_left (fun c i => c ⊕ instance_lines i) (instances m) count)
            parsed (JFin 0).

End JsInspect.

(** The digits of a decimal numeral of the Standard Library, most
    significant first (the printer of [JsNum.int_to_string]). *)
Fixpoint uint_digits (d : Decimal.uint) : list nat :=
  match d with
  | Decimal.Nil => []
  | Decimal.D0 d => 0 :: uint_digits d
  | Decimal.D1 d => 1 :: uint_digits d
  | Decimal.D2 d => 2 :: uint_digits d
  | Decimal.D3 d => 3 :: uint_digits d
  | Decimal.D4 d => 4 :: uint_digits d
  | Decimal.D5 d => 5 :: uint_digits d
  | Decimal.D6 d => 6 :: uint_digits d
  | Decimal.D7 d => 7 :: uint_digits d
  | Decimal.D8 d => 8 :: uint_digits d
  | Decimal.D9 d => 9 :: uint_digits d
  end.

(** A decomposition [p ++ sep :: seg ++ sep :: rest] of a file name: a
    place where the version regex can match, with group [seg]. *)
Definition seg_at (sep : ascii) (l p seg rest : list ascii) : Prop :=
  l = p ++ sep :: (seg ++ sep :: rest) /\ seg <> [] /\ sep ∉ seg.

(** The number a map holds for a version, 0 when it holds none. *)
Definition mval (map : gmap string number) (k : string) : Q :=
  match map !! k with Some (JFin q) => q | _ => 0%Q end.

(** The lines of the rows of version [k]. *)
Definition key_total (platform k : string) (rows : list Cloc.csv_row) : Z :=
  foldr (fun row acc =>
           match Cloc.row_key platform row, Cloc.row_total row with
           | Some k', Some t => if decide (k' = k) then (t + acc)%Z else acc
           | _, _ => acc
           end) 0%Z rows.

(** Sample cloc rows: two files of version 1.0, one of 2.0 (the report's
    [SUM] row has an empty file name, which the regex skips). *)
Definition sample_rows : list Cloc.csv_row := [
  Cloc.mkRow (Some "input/1.0/src/core.js") (Some "100") (Some "20") (Some "5");
  Cloc.mkRow (Some "input/1.0/src/ajax.js") (Some "40") (Some "8") (Some "2");
  Cloc.mkRow (Some "input/2.0/src/core.js") (Some "120") (Some "30") (Some "10");
  Cloc.mkRow (Some "") (Some "260") (Some "58") (Some "17")]%string.

(** Rows of version 1.0 where the second does not parse. *)
Definition nan_rows : list Cloc.csv_row := [
  Cloc.mkRow (Some "input/1.0/a.js") (Some "10") (Some "3") (Some "2");
  Cloc.mkRow (Some "input/1.0/b.js") (Some "n/a") (Some "0") (Some "0");
  Cloc.mkRow (Some "input/1.0/c.js") (Some "7") (Some "0") (Some "0")]%string.

(** [instance.lines[k]] of an instance whose lines are finite. *)
Definition line_q (i : JsInspect.instance) (k : nat) : Q :=
  match JsInspect.lines i !! k with Some (JFin q) => q | _ => 0%Q end.

(** The lines the instances of a report span, [lines[1] - lines[0] + 1]
    each. *)
Definition span_sum (parsed : list JsInspect.jmatch) : Q :=
  foldr (fun i acc => line_q i 1 - line_q i 0 + 1 + acc)%Q 0%Q
        (concat (map JsInspect.instances parsed)).

(** A jsinspect report: two matches, of two and three instances. *)
Definition sample_report : list JsInspect.jmatch := [
  JsInspect.mkMatch [JsInspect.mkInstance [JFin 10; JFin 24]; JsInspect.mkInstance [JFin 110; JFin 124]];
  JsInspect.mkMatch [JsInspect.mkInstance [JFin 5; JFin 9]; JsInspect.mkInstance [JFin 50; JFin 54];
                     JsInspect.mkInstance [JFin 70; JFin 74]]].

Section ParseIntProps.
Import ParseInt.

Lemma digit_val_char d : d < 10 -> digit_val (digit_char d) = Some d.
Proof. intros Hd. do 10 (destruct d as [|d]; [reflexivity|]). lia. Qed.

Lemma digits_prefix_app ds rest :
  Forall (fun d => d < 10) ds -> ends_number rest ->
  digits_prefix 10 (map digit_char ds ++ rest) = ds.
Proof.
  intros Hds Hrest. induction Hds as [|d ds Hd _ IH].
  - destruct rest as [|c rest]; [done|]. cbn [ends_number] in Hrest.
    cbn [map app digits_prefix]. unfold radix_digit. by rewrite Hrest.
  - cbn [map app digits_prefix]. unfold radix_digit. rewrite digit_val_char; [|done].
    destruct (Nat.ltb_spec d 10); [by rewrite IH | lia].
Qed.

Lemma trim_start_app ws l :
  Forall (fun c => is_ws c = true) ws ->
  (match l with c :: _ => is_ws c = false | [] => True end) ->
  trim_start (ws ++ l) = l.
Proof.
  intros Hws Hl. induction Hws as [|c ws Hc _ IH]; cbn [app trim_start]; [|by rewrite Hc].
  destruct l as [|c l]; [done|]. cbn [trim_start]. by rewrite Hl.
Qed.

(** A second character that is no [x] or [X] keeps radix 10. *)
Lemma strip_hex_dec c0 c1 l :
  digit_val c1 <> Some 33 -> strip_hex (c0 :: c1 :: l) = (10, c0 :: c1 :: l).
Proof.
  intros Hc1. unfold strip_hex.
  destruct (Ascii.eqb_spec c1 "x") as [->|_]; [by vm_compute in Hc1|].
  destruct (Ascii.eqb_spec c1 "X") as [->|_]; [by vm_compute in Hc1|].
  by rewrite andb_false_r.
Qed.

Lemma digit_char_not_sign d : d < 10 ->
  Ascii.eqb (digit_char d) "-" = false /\ Ascii.eqb (digit_char d) "+" = false /\
  is_ws (digit_char d) = false.
Proof. intros Hd. do 10 (destruct d as [|d]; [vm_compute; done|]). lia. Qed.

(** [parseInt] of white space, an optional [-], decimal digits and text
    that starts with no digit: the signed value of the digits. *)
Lemma parseInt_digits ws neg ds rest :
  Forall (fun c => is_ws c = true) ws -> ds <> [] ->
  Forall (fun d => d < 10) ds -> ends_number rest ->
  parseInt (Some (string_of_list_ascii (ws ++ sign_chars neg ++ map digit_char ds ++ rest))) =
  JFin (inject_Z ((if neg then -1 else 1) * digits_value 10 ds)).
Proof.
  intros Hws Hne Hds Hrest.
  destruct ds as [|d ds]; [done|]. pose proof (Forall_inv Hds) as Hd.
  destruct (digit_char_not_sign d Hd) as (Hm & Hp & Hw).
  unfold parseInt. cbn [default from_option id]. rewrite list_ascii_of_string_of_list_ascii.
  rewrite trim_start_app; [|done|destruct neg; cbn [sign_chars app map]; [done|exact Hw]].
  assert (sign_prefix (sign_chars neg ++ map digit_char (d :: ds) ++ rest) =
          (neg, map digit_char (d :: ds) ++ rest)) as ->.
  { destruct neg; cbn [sign_chars app map sign_prefix]; [done|]. by rewrite Hm, Hp. }
  assert (strip_hex (map digit_char (d :: ds) ++ rest) = (10, map digit_char (d :: ds) ++ rest)) as ->.
  { destruct ds as [|d1 ds]; cbn [map app].
    - destruct rest as [|c rest]; [done|]. apply strip_hex_dec. cbn [ends_number] in Hrest.
      by rewrite Hrest.
    - apply strip_hex_dec. inversion Hds as [|? ? _ Hds']. inversion Hds'.
      rewrite digit_val_char; [|done]. intros [= ?]. lia. }
  rewrite digits_prefix_app; done.
Qed.

Lemma string_of_uint_chars d :
  list_ascii_of_string (NilEmpty.string_of_uint d) = map digit_char (uint_digits d).
Proof.
  induction d; cbn [NilEmpty.string_of_uint list_ascii_of_string map uint_digits];
    rewrite ?IHd; reflexivity.
Qed.

Lemma uint_digits_small d : Forall (fun k => k < 10) (uint_digits d).
Proof. induction d; cbn [uint_digits]; constructor; auto; lia. Qed.

Lemma pos_of_uint_acc d acc :
  Zpos (Pos.of_uint_acc d acc) =
  fold_left (fun a k => a * Z.of_nat 10 + Z.of_nat k)%Z (uint_digits d) (Zpos acc).
Proof.
  revert acc. induction d; intros acc; cbn [Pos.of_uint_acc uint_digits fold_left];
    rewrite ?IHd; try reflexivity; f_equal; lia.
Qed.

Lemma z_of_uint_digits d : Z.of_uint d = digits_value 10 (uint_digits d).
Proof.
  unfold Z.of_uint, digits_value.
  induction d; cbn [Pos.of_uint uint_digits fold_left Z.of_N]; try done;
    rewrite pos_of_uint_acc; f_equal; lia.
Qed.

(** The printer of [int_to_string] writes decimal digits, with ["0"] for
    the empty numeral. *)
Lemma nilzero_digits d :
  exists ds, NilZero.string_of_uint d = string_of_list_ascii (map digit_char ds) /\
    ds <> [] /\ Forall (fun k => k < 10) ds /\ digits_value 10 ds = Z.of_uint d.
Proof.
  destruct d eqn:Ed;
    [exists [0]; split_and!; [reflexivity|done|repeat constructor; lia|reflexivity]|..];
    rewrite <- Ed; exists (uint_digits d);
    (split_and!;
     [ unfold NilZero.string_of_uint; rewrite Ed, <- Ed, <- string_of_uint_chars;
       by rewrite string_of_list_ascii_of_string
     | by subst d
     | apply uint_digits_small
     | by rewrite z_of_uint_digits ]).
Qed.

End ParseIntProps.

(** [parseInt] reads back what [String] prints: for every integer
    [z], [parseInt(String(z))] is [z], negative numbers and 0 included. *)
Theorem parseInt_int_to_string (z : Z) :
  ParseInt.parseInt (Some (int_to_string (IFin z))) = JFin (inject_Z z).
Proof.
  transitivity (JFin (inject_Z (Z.of_int (Z.to_int z)))); [|by rewrite DecimalZ.of_to].
  unfold int_to_string.
  destruct (Z.to_int z) as [d|d]; destruct (nilzero_digits d) as (ds & Hs & Hne & Hds & Hv);
    unfold NilZero.string_of_int; rewrite Hs.
  - pose proof (parseInt_digits [] false ds [] (Forall_nil_2 _) Hne Hds I) as Hp.
    cbn [ParseInt.sign_chars app] in Hp. rewrite app_nil_r in Hp.
    rewrite Hp. cbn [Z.of_int]. rewrite <- Hv. do 2 f_equal; lia.
  - pose proof (parseInt_digits [] true ds [] (Forall_nil_2 _) Hne Hds I) as Hp.
    cbn [ParseInt.sign_chars app] in Hp. rewrite app_nil_r in Hp.
    change (String "-" (string_of_list_ascii (map ParseInt.digit_char ds)))
      with (string_of_list_ascii ("-"%char :: map ParseInt.digit_char ds)).
    rewrite Hp. cbn [Z.of_int]. rewrite <- Hv. do 2 f_equal; lia.
Qed.

Section RegexProps.
Import VersionRegex.
Context (sep : ascii).
Local Abbreviation seg_at := (seg_at sep).


Lemma span_seg_sound l :
  l = (span_seg sep l).1 ++ (span_seg sep l).2 /\ (sep ∉ (span_seg sep l).1) /\
  match (span_seg sep l).2 with c :: _ => c = sep | [] => True end.
Proof.
  induction l as [|c l IH]; cbn [span_seg]; [split_and!; [done|apply not_elem_of_nil|done]|].
  destruct (Ascii.eqb_spec c sep) as [->|Hc]; [split_and!; [done|apply not_elem_of_nil|done]|].
  destruct (span_seg sep l) as [s r]; cbn in *. destruct IH as (-> & Hs & Hr).
  split_and!; [done| |done]. rewrite elem_of_cons. intros [->|?]; auto.
Qed.

Lemma span_seg_app seg rest :
  sep ∉ seg -> span_seg sep (seg ++ sep :: rest) = (seg, sep :: rest).
Proof.
  induction seg as [|c seg IH]; intros Hseg; cbn [app span_seg].
  - by rewrite Ascii.eqb_refl.
  - rewrite elem_of_cons in Hseg.
    destruct (Ascii.eqb_spec c sep) as [->|_]; [tauto|].
    rewrite IH; [done|]. intros ?; tauto.
Qed.




Lemma seg_at_head_span l s r :
  seg_at (sep :: l) [] s r -> span_seg sep l = (s, sep :: r).
Proof. intros (Hl & _ & Hs). cbn [app] in Hl. injection Hl as ->. by apply span_seg_app. Qed.

Lemma seg_at_cons c l p s r :
  seg_at (c :: l) (c :: p) s r <-> seg_at l p s r.
Proof. unfold seg_at. cbn [app]. split; intros (Hl & ?); [injection Hl as ->|subst l]; done. Qed.

(** One character of the search: the regex matches at the head, or
    nothing matches there and the search goes on with the tail. *)
Lemma match_segment_step c l :
  (exists s r, seg_at (c :: l) [] s r /\ match_segment sep (c :: l) = Some s) \/
  ((forall s r, ~ seg_at (c :: l) [] s r) /\ match_segment sep (c :: l) = match_segment sep l).
Proof.
  cbn [match_segment]. destruct (Ascii.eqb_spec c sep) as [->|Hc].
  - destruct (span_seg_sound l) as (Hl & Hs & Hr).
    destruct (span_seg sep l) as [[|x s] [|y r]] eqn:E; cbn [fst snd] in *;
      try (right; split; [|done]; intros s' r' Hat;
           pose proof (seg_at_head_span _ _ _ Hat) as Hsp; rewrite E in Hsp;
           destruct Hat as (_ & Hne & _); congruence).
    left. subst y. exists (x :: s), r. split; [|done].
    split_and!; [by rewrite Hl | done | done].
  - right. split; [|done]. intros s r (Hl & _). cbn [app] in Hl. congruence.
Qed.

Lemma seg_at_head_unique l s r s' r' :
  seg_at l [] s r -> seg_at l [] s' r' -> s = s'.
Proof.
  intros (Hl & _ & Hs) (Hl' & _ & Hs'). cbn [app] in Hl, Hl'. rewrite Hl in Hl'.
  injection Hl' as Hl'. apply (f_equal (span_seg sep)) in Hl'.
  rewrite !span_seg_app in Hl' by done. congruence.
Qed.

Lemma seg_at_cons_inv c l c' p s r :
  seg_at (c :: l) (c' :: p) s r -> c' = c /\ seg_at l p s r.
Proof. intros (Hl & Hrest). cbn [app] in Hl. injection Hl as -> ->. done. Qed.

End RegexProps.

(** [filename.match(/\/([^\/]+)\//)] returns group [seg] exactly
    when the file name is [p ++ sep :: seg ++ sep :: rest] with [seg]
    nonempty and free of separators, at the leftmost such [p]: the
    regex's leftmost-match semantics. *)
Theorem match_segment_spec (sep : ascii) (l seg : list ascii) :
  VersionRegex.match_segment sep l = Some seg <->
  exists p rest, seg_at sep l p seg rest /\
    (forall p' seg' rest', seg_at sep l p' seg' rest' -> length p <= length p').
Proof.
  revert seg. induction l as [|c l IH]; intros seg.
  - split; [done|]. intros (p & rest & (Hl & _) & _). destruct p; discriminate.
  - destruct (match_segment_step sep c l) as [(s & r & Hat & ->)|(Hno & ->)].
    + split.
      * intros [= <-]. exists [], r. split; [done|]. intros; cbn; lia.
      * intros (p & rest & Hat' & Hleft). specialize (Hleft _ _ _ Hat). cbn in Hleft.
        destruct p; [|cbn in Hleft; lia].
        by rewrite (seg_at_head_unique _ _ _ _ _ _ Hat Hat').
    + split.
      * intros Hm. apply IH in Hm as (p & rest & Hat & Hleft).
        exists (c :: p), rest. split; [by apply seg_at_cons|].
        intros p' seg' rest' Hat'. destruct p' as [|c' p']; [by destruct (Hno _ _ Hat')|].
        apply seg_at_cons_inv in Hat' as (-> & Hat'). specialize (Hleft _ _ _ Hat'). cbn; lia.
      * intros (p & rest & Hat & Hleft). destruct p as [|c' p]; [by destruct (Hno _ _ Hat)|].
        apply seg_at_cons_inv in Hat as (-> & Hat). apply IH. exists p, rest. split; [done|].
        intros p' seg' rest' Hat'.
        assert (length (c :: p) <= length (c :: p')) by (apply (Hleft _ seg' rest'); by apply seg_at_cons).
        cbn in *; lia.
Qed.

Lemma match_segment_first_dir sep d v rest :
  sep ∉ d -> v <> [] -> sep ∉ v ->
  VersionRegex.match_segment sep (d ++ sep :: (v ++ sep :: rest)) = Some v.
Proof.
  intros Hd Hv Hsv. induction d as [|c d IH]; cbn [app].
  - assert (Hat : seg_at sep (sep :: (v ++ sep :: rest)) [] v rest) by done.
    destruct (match_segment_step sep sep (v ++ sep :: rest)) as [(s & r & Hat' & ->)|(Hno & _)].
    + by rewrite (seg_at_head_unique _ _ _ _ _ _ Hat' Hat).
    + by destruct (Hno _ _ Hat).
  - rewrite elem_of_cons in Hd.
    destruct (match_segment_step sep c (d ++ sep :: (v ++ sep :: rest)))
      as [(s & r & (Hl & _) & _)|(_ & ->)].
    + cbn [app] in Hl. injection Hl as ->. tauto.
    + apply IH. intros ?; tauto.
Qed.

(** the version of a cloc row is the directory right under the first
    level: for a file name [d/v/rest] (with the platform's separator)
    where [d] and [v] have no separator and [v] is nonempty, the version
    is [v]. *)
Theorem version_of_first_dir (platform : string) (d v rest : list ascii) :
  VersionRegex.separator platform ∉ d -> v <> [] -> VersionRegex.separator platform ∉ v ->
  VersionRegex.version_of platform
    (string_of_list_ascii (d ++ VersionRegex.separator platform ::
                             (v ++ VersionRegex.separator platform :: rest))) =
  Some (string_of_list_ascii v).
Proof.
  intros Hd Hv Hsv. unfold VersionRegex.version_of.
  rewrite list_ascii_of_string_of_list_ascii, match_segment_first_dir; done.
Qed.

Lemma version_of_first_dir_witness :
  VersionRegex.version_of "linux"
    (string_of_list_ascii (list_ascii_of_string "input" ++ "/"%char ::
                             (list_ascii_of_string "3.5.1" ++ "/"%char :: list_ascii_of_string "src/core.js"))) =
  Some "3.5.1"%string.
Proof.
  apply (version_of_first_dir "linux" (list_ascii_of_string "input") (list_ascii_of_string "3.5.1")
           (list_ascii_of_string "src/core.js")).
  - apply (bool_decide_unpack _). vm_compute. reflexivity.
  - discriminate.
  - apply (bool_decide_unpack _). vm_compute. reflexivity.
Defined.

Section ClocProps.
Import ParseInt VersionRegex Cloc.
Context (platform : string).

Lemma den1_inject a : Qden a = 1%positive -> a = inject_Z (Qnum a).
Proof. destruct a as [n d]; cbn. by intros ->. Qed.

Lemma row_total_sum row t :
  row_total row = Some t ->
  exists a b c, parseInt (code row) = JFin (inject_Z a) /\ parseInt (comment row) = JFin (inject_Z b) /\
    parseInt (blank row) = JFin (inject_Z c) /\ t = (a + b + c)%Z.
Proof.
  unfold row_total.
  destruct (parseInt (code row)) as [a| |] eqn:Ea, (parseInt (comment row)) as [b| |] eqn:Eb,
    (parseInt (blank row)) as [c| |] eqn:Ec; try done.
  case_decide as Hd; [|done]. intros [= <-]. destruct Hd as (Ha & Hb & Hc).
  exists (Qnum a), (Qnum b), (Qnum c). by rewrite <- !den1_inject.
Qed.

(** [map[key] || 0] on a map of finite numbers is the number [mval]. *)
Lemma js_or_mval M k :
  map_Forall (fun _ x => exists q, x = JFin q) M ->
  exists v, js_or (num_of (M !! k)) (JFin 0) = JFin v /\ (v == mval M k)%Q.
Proof.
  intros HM. unfold mval. destruct (M !! k) as [x|] eqn:E; [|by exists 0%Q].
  destruct (HM k x E) as [q ->]. cbn [num_of]. unfold js_or.
  destruct (truthy (JFin q)) eqn:Et; [by exists q|].
  exists 0%Q. split; [done|]. apply truthy_fin in Et. by rewrite Et.
Qed.

Lemma key_total_cons k row rows :
  key_total platform k (row :: rows) = (key_total platform k [row] + key_total platform k rows)%Z.
Proof.
  unfold key_total. cbn [foldr].
  destruct (row_key platform row), (row_total row); try lia. case_decide; lia.
Qed.

(** One row: the map gains the row's lines at its version. *)
Lemma clocRowStep_ok M row :
  map_Forall (fun _ x => exists q, x = JFin q) M ->
  is_Some (filename row) -> (is_Some (row_key platform row) -> is_Some (row_total row)) ->
  exists M', clocRowStep platform M row = Some M' /\
    map_Forall (fun _ x => exists q, x = JFin q) M' /\
    forall k, (M' !! k = None <-> M !! k = None /\ row_key platform row <> Some k) /\
              (mval M' k == mval M k + inject_Z (key_total platform k [row]))%Q.
Proof.
  intros HM [f Hf] Htot. unfold clocRowStep, row_key in *. rewrite Hf in Htot |- *.
  cbn [mbind option_bind] in Htot |- *.
  unfold key_total. cbn [foldr]. unfold row_key. rewrite Hf. cbn [mbind option_bind].
  destruct (version_of platform f) as [k0|] eqn:Ek.
  - destruct (Htot ltac:(by eexists)) as [t Ht]. rewrite Ht.
    destruct (row_total_sum row t Ht) as (a & b & c & -> & -> & -> & ->).
    destruct (js_or_mval M k0 HM) as (v & -> & Hv). cbn [js_add].
    eexists. split; [done|]. split.
    + apply map_Forall_insert_2; [by eexists|done].
    + intros k. unfold mval in *. destruct (decide (k0 = k)) as [<-|Hne].
      * rewrite lookup_insert_eq.
        split; [split; [discriminate|intros [_ Hn]; by destruct Hn]|].
        rewrite !inject_Z_plus. change (inject_Z 0) with 0%Q. lra.
      * rewrite lookup_insert_ne by done.
        split; [split; [intros; split; [done|congruence]|tauto]|].
        unfold inject_Z. lra.
  - eexists. split; [done|]. split; [done|]. intros k.
    split; [split; [intros; split; [done|discriminate]|tauto]|]. unfold inject_Z. lra.
Qed.

Lemma clocRows_sums M rows :
  map_Forall (fun _ x => exists q, x = JFin q) M ->
  Forall (fun row => is_Some (filename row) /\
            (is_Some (row_key platform row) -> is_Some (row_total row))) rows ->
  exists M', clocRows platform M rows = Some M' /\ map_Forall (fun _ x => exists q, x = JFin q) M' /\
    forall k, (M' !! k = None <-> M !! k = None /\ Forall (fun row => row_key platform row <> Some k) rows) /\
              (mval M' k == mval M k + inject_Z (key_total platform k rows))%Q.
Proof.
  revert M. induction rows as [|row rows IH]; intros M HM Hrows.
  - exists M. split_and!; [done|done|]. intros k.
    split; [split; [intros; split; [done|constructor]|tauto]|].
    unfold key_total; cbn [foldr]. change (inject_Z 0) with 0%Q. lra.
  - apply Forall_cons in Hrows as ((Hf & Ht) & Hrows).
    destruct (clocRowStep_ok M row HM Hf Ht) as (M1 & Hs & HM1 & H1).
    destruct (IH M1 HM1 Hrows) as (M' & Hr & HM' & H').
    exists M'. cbn [clocRows]. rewrite Hs. split_and!; [done|done|]. intros k.
    destruct (H1 k) as (Hn1 & Hv1), (H' k) as (Hn' & Hv'). split.
    + rewrite Hn', Hn1, Forall_cons. tauto.
    + rewrite key_total_cons, inject_Z_plus. lra.
Qed.

Lemma clocRows_no_filename M rows :
  Exists (fun row => filename row = None) rows -> clocRows platform M rows = None.
Proof.
  intros Hex. revert M. induction Hex as [row rows Hf|row rows _ IH]; intros M; cbn [clocRows].
  - unfold clocRowStep. by rewrite Hf.
  - destruct (clocRowStep platform M row); [apply IH|done].
Qed.

End ClocProps.

(** C7: when every row has a file name and every row with a version has
    integral [code], [comment] and [blank] columns, [parseClocCsv]
    returns a map that holds exactly the versions of the rows, each with
    the sum of the lines of its rows. *)
Theorem parseClocCsv_sums (platform : string) (rows : list Cloc.csv_row) :
  Forall (fun row => is_Some (Cloc.filename row) /\
            (is_Some (Cloc.row_key platform row) -> is_Some (Cloc.row_total row))) rows ->
  exists map, Cloc.parseClocCsv platform rows = Some map /\
    forall k, (map !! k = None <-> Forall (fun row => Cloc.row_key platform row <> Some k) rows) /\
              (forall x, map !! k = Some x -> x ≐ JFin (inject_Z (key_total platform k rows))).
Proof.
  intros Hrows.
  destruct (clocRows_sums platform ∅ rows) as (M & Hr & HM & Hk); [apply map_Forall_empty|done|].
  exists M. split; [done|]. intros k. destruct (Hk k) as (Hn & Hv). split.
  - rewrite Hn, lookup_empty. tauto.
  - intros x Hx. destruct (HM k x Hx) as [q ->]. cbn [jeq].
    unfold mval in Hv. rewrite Hx, lookup_empty in Hv. cbn in Hv. lra.
Qed.

Lemma parseClocCsv_sums_witness :
  exists map, Cloc.parseClocCsv "linux" sample_rows = Some map /\
    forall k, (map !! k = None <-> Forall (fun row => Cloc.row_key "linux" row <> Some k) sample_rows) /\
              (forall x, map !! k = Some x -> x ≐ JFin (inject_Z (key_total "linux" k sample_rows))).
Proof. apply parseClocCsv_sums. apply (bool_decide_unpack _). vm_compute. reflexivity. Defined.

(** A row without a file name makes [parseClocCsv] throw: the
    [TypeError] of [row.filename.match] ends the whole parse, whatever
    the other rows hold. *)
Theorem parseClocCsv_no_filename (platform : string) (rows : list Cloc.csv_row) :
  Exists (fun row => Cloc.filename row = None) rows -> Cloc.parseClocCsv platform rows = None.
Proof. apply clocRows_no_filename. Qed.

Lemma parseClocCsv_no_filename_witness :
  Cloc.parseClocCsv "linux" (sample_rows ++ [Cloc.mkRow None None None None]) = None.
Proof.
  apply parseClocCsv_no_filename. apply Exists_app. right. by constructor.
Defined.

(** a row whose counts do not parse makes its version NaN, and the
    next row of that version restarts from 0 ([NaN || 0]): with 15
    lines, a row whose code column is [n/a], then 7 lines, the version
    ends with 7 lines, neither NaN nor a sum of its parsable rows. *)
Example parseClocCsv_nan_restart :
  (Cloc.parseClocCsv "linux" nan_rows ≫= fun map => map !! "1.0"%string) = Some (JFin 7).
Proof. vm_compute. reflexivity. Qed.

Section JsInspectProps.
Import JsInspect.

Lemma instance_lines_fin i a b :
  lines i !! 0 = Some (JFin a) -> lines i !! 1 = Some (JFin b) ->
  instance_lines i = JFin (b - a + 1).
Proof. intros Ha Hb. unfold instance_lines. by rewrite Ha, Hb. Qed.

Lemma count_fold (l : list instance) (q : Q) :
  Forall (fun i => exists a b, lines i !! 0 = Some (JFin a) /\ lines i !! 1 = Some (JFin b)) l ->
  fold_left (fun c i => c ⊕ instance_lines i) l (JFin q) ≐
  JFin (q + foldr (fun i acc => line_q i 1 - line_q i 0 + 1 + acc)%Q 0%Q l).
Proof.
  intros Hl. revert q. induction Hl as [|i l (a & b & Ha & Hb) _ IH]; intros q; cbn [fold_left foldr].
  - cbn [jeq]. lra.
  - rewrite (instance_lines_fin i a b Ha Hb). cbn [js_add]. rewrite IH. cbn [jeq].
    unfold line_q. rewrite Ha, Hb. lra.
Qed.

End JsInspectProps.

(** C25: when every instance of the report has finite [lines[0]] and
    [lines[1]], the count of [compareVersionsJavaScript] is the sum of
    [lines[1] - lines[0] + 1] over all instances of all matches. *)
Theorem jsinspect_count_sum (parsed : list JsInspect.jmatch) :
  Forall (fun i => exists a b, JsInspect.lines i !! 0 = Some (JFin a) /\ JsInspect.lines i !! 1 = Some (JFin b))
         (concat (map JsInspect.instances parsed)) ->
  JsInspect.jsinspect_count parsed ≐ JFin (span_sum parsed).
Proof.
  intros Hl. unfold JsInspect.jsinspect_count, span_sum.
  rewrite <- (fold_left_map' (fun acc l => fold_left _ l acc) JsInspect.instances), fold_left_concat.
  rewrite count_fold by done. cbn [jeq]. lra.
Qed.

Lemma jsinspect_count_sum_witness :
  JsInspect.jsinspect_count sample_report ≐ JFin (span_sum sample_report).
Proof.
  apply jsinspect_count_sum. repeat constructor; eexists _, _; split; reflexivity.
Defined.
