(* ===== verification/Json.v ===== *)
(** * The heatmap cache: [JSON.stringify] and [JSON.parse] (src/src/App.js)

    [run] writes the compared matrix with
    [fs.writeFileSync(path.join(outputDir, 'heatmap.json'), JSON.stringify(matrix))]
    and, with [--use-heatmap-cache], reads it back with
    [JSON.parse(fs.readFileSync(heatmapCacheFile).toString())] instead of
    running the comparisons.

    This file holds the JSON values ([json]), the serializer of
    ECMAScript's [JSON.stringify] ([serialize], with [QuoteJSONString]:
    [quote]), the parser of [JSON.parse] ([parse_value] and its loops,
    with fuel, and [json_parse]), the JSON structure [JSON.stringify]
    builds from a cell and from a matrix ([cell_json], [matrix_json]:
    [undefined] properties omitted, non-finite numbers as [null]), and
    the reading of a parsed value as a matrix ([matrix_of_json]).

    Strings are sequences of code units below 256 (the characters of
    [ascii]); a [\uXXXX] escape above [\u00ff] is outside the model
    ([None]).  Numbers are exact rationals as in [JsNum]; a finite
    number whose value is not an integer is printed by [Number::toString]
    with the shortest decimal of its double, which is not modelled:
    [serialize] returns [None] on it.  Integral values print as
    [int_to_string] does (exact below 10^21). *)

From Stdlib Require Import QArith ZArith String Ascii DecimalString DecimalZ DecimalPos DecimalFacts.
From stdpp Require Import base list gmap strings.
From S2P Require Import Prelude JsNum Parsers Matrix.

#[local] Set Warnings "-register-all".

Inductive json :=
| JSNull
| JSBool (b : bool)
| JSNum (q : Q)
| JSStr (s : string)
| JSArr (vs : list json)
| JSObj (kvs : list (string * json)).

(** ** [JSON.stringify] *)

(** A lowercase hexadecimal digit ([UnicodeEscape]). *)
Definition hex_digit (n : nat) : ascii :=
  if n <? 10 then ascii_of_nat (48 + n) else ascii_of_nat (87 + n).

(** One code unit of [QuoteJSONString]. *)
Definition quote_char (c : ascii) : list ascii :=
  let n := nat_of_ascii c in
  if n =? 8 then ["\"; "b"]%char
  else if n =? 9 then ["\"; "t"]%char
  else if n =? 10 then ["\"; "n"]%char
  else if n =? 12 then ["\"; "f"]%char
  else if n =? 13 then ["\"; "r"]%char
  else if n =? 34 then ["\"; "034"]%char
  else if n =? 92 then ["\"; "\"]%char
  else if n <? 32 then ["\"; "u"; "0"; "0"; hex_digit (n / 16); hex_digit (n mod 16)]%char
  else [c].

(** [QuoteJSONString(s)]. *)
Definition quote (s : string) : list ascii :=
  "034"%char :: flat_map quote_char (list_ascii_of_string s) ++ ["034"%char].

(** [Number::toString] of a finite number, when it is an integer. *)
Definition number_text (q : Q) : option (list ascii) :=
  if (Qnum q mod Zpos (Qden q) =? 0)%Z
  then Some (list_ascii_of_string (int_to_string (IFin (Qnum q / Zpos (Qden q)))))
  else None.

(** The elements of an array or the members of an object, separated by
    commas. *)
Fixpoint commas (ts : list (list ascii)) : list ascii :=
  match ts with
  | [] => []
  | [t] => t
  | t :: ts' => t ++ ","%char :: commas ts'
  end.

(** [SerializeJSONProperty] on a JSON value. *)
Fixpoint serialize (v : json) : option (list ascii) :=
  match v with
  | JSNull => Some (list_ascii_of_string "null")
  | JSBool true => Some (list_ascii_of_string "true")
  | JSBool false => Some (list_ascii_of_string "false")
  | JSNum q => number_text q
  | JSStr s => Some (quote s)
  | JSArr vs => ts ← mapM serialize vs; Some ("["%char :: commas ts ++ ["]"%char])
  | JSObj kvs =>
      ts ← mapM (fun '(k, v) => t ← serialize v; Some (quote k ++ ":"%char :: t)) kvs;
      Some ("{"%char :: commas ts ++ ["}"%char])
  end.

(** The values [serialize] prints exactly and [JSON.parse] reads back
    with the same representation: every number an integer kept with
    denominator 1. *)
Fixpoint canonb (v : json) : bool :=
  match v with
  | JSNum q => Pos.eqb (Qden q) 1
  | JSArr vs => forallb canonb vs
  | JSObj kvs => forallb (fun kv => canonb kv.2) kvs
  | _ => true
  end.

(** A number property: [null] unless finite. *)
Definition num_json (n : number) : json :=
  match n with JFin q => JSNum q | _ => JSNull end.

(** A property that may be [undefined]: omitted then. *)
Definition opt_field {A} (k : string) (f : A -> json) (o : option A) : list (string * json) :=
  match o with Some a => [(k, f a)] | None => [] end.

(** A cell as [JSON.stringify] sees it: its own properties in the order
    they were created ([left], [right], [loc_left], [loc_right] by
    [createRichMatrix], [matches] by [augmentComparisonMatrix], then the
    four of [augmentHeatmapMatrix]). *)
Definition cell_json (c : cell) : json :=
  JSObj ([("left"%string, JSStr (c_left c)); ("right"%string, JSStr (c_right c))] ++
         opt_field "loc_left" num_json (loc_left c) ++
         opt_field "loc_right" num_json (loc_right c) ++
         opt_field "matches" num_json (matches c) ++
         opt_field "ratio" num_json (ratio c) ++
         opt_field "color" JSStr (color c) ++
         opt_field "width" num_json (width c) ++
         opt_field "height" num_json (height c)).

Definition matrix_json (m : matrix) : json :=
  JSArr (map (fun row => JSArr (map (fun col => match col with
                                                 | Some c => cell_json c
                                                 | None => JSNull
                                                 end) row)) m).

(** [JSON.stringify(matrix)]. *)
Definition json_stringify (m : matrix) : option string :=
  string_of_list_ascii <$> serialize (matrix_json m).

(** ** [JSON.parse] *)

(** JSON white space: tab, line feed, carriage return, space. *)
Definition is_json_ws (c : ascii) : bool :=
  let n := nat_of_ascii c in (n =? 9) || (n =? 10) || (n =? 13) || (n =? 32).

Fixpoint skip_ws (s : list ascii) : list ascii :=
  match s with c :: s' => if is_json_ws c then skip_ws s' else s | [] => [] end.

(** The rest of [s] after the literal [lit]. *)
Fixpoint strip_prefix (lit s : list ascii) : option (list ascii) :=
  match lit, s with
  | [], _ => Some s
  | a :: lit', c :: s' => if Ascii.eqb a c then strip_prefix lit' s' else None
  | _ :: _, [] => None
  end.

Definition hex_val (c : ascii) : option nat :=
  let n := nat_of_ascii c in
  if (48 <=? n) && (n <=? 57) then Some (n - 48)
  else if (97 <=? n) && (n <=? 102) then Some (n - 87)
  else if (65 <=? n) && (n <=? 70) then Some (n - 55)
  else None.

(** The character a one-letter escape stands for. *)
Definition escape_char (e : ascii) : option ascii :=
  let n := nat_of_ascii e in
  if n =? 34 then Some e
  else if n =? 92 then Some e
  else if n =? 47 then Some e
  else if n =? 98 then Some (ascii_of_nat 8)
  else if n =? 102 then Some (ascii_of_nat 12)
  else if n =? 110 then Some (ascii_of_nat 10)
  else if n =? 114 then Some (ascii_of_nat 13)
  else if n =? 116 then Some (ascii_of_nat 9)
  else None.

(** The characters of a string literal after its opening quote, up to
    the closing quote, and the rest. *)
Fixpoint parse_chars (s : list ascii) : option (list ascii * list ascii) :=
  match s with
  | [] => None
  | c :: r =>
      if Ascii.eqb c "034" then Some ([], r)
      else if Ascii.eqb c "\" then
        match r with
        | e :: r' =>
            match escape_char e with
            | Some c' => '(cs, r'') ← parse_chars r'; Some (c' :: cs, r'')
            | None =>
                if Ascii.eqb e "u" then
                  match r' with
                  | h1 :: h2 :: h3 :: h4 :: r'' =>
                      d1 ← hex_val h1; d2 ← hex_val h2; d3 ← hex_val h3; d4 ← hex_val h4;
                      let code := ((d1 * 16 + d2) * 16 + d3) * 16 + d4 in
                      if code <? 256 then '(cs, r3) ← parse_chars r''; Some (ascii_of_nat code :: cs, r3)
                      else None
                  | _ => None
                  end
                else None
            end
        | [] => None
        end
      else if nat_of_ascii c <? 32 then None
      else '(cs, r') ← parse_chars r; Some (c :: cs, r')
  end.

(** [0-9]. *)
Definition is_dec_digit (c : ascii) : bool :=
  match ParseInt.radix_digit 10 c with Some _ => true | None => false end.

(** The longest run of decimal digits at the head of [s]. *)
Definition dec_digits (s : list ascii) : list nat * list ascii :=
  let ds := ParseInt.digits_prefix 10 s in (ds, drop (length ds) s).

(** An optional minus sign. *)
Definition sign_part (s : list ascii) : bool * list ascii :=
  match s with
  | c :: r => if Ascii.eqb c "-" then (true, r) else (false, s)
  | [] => (false, s)
  end.

(** [0] or [[1-9][0-9]*]. *)
Definition int_part (s : list ascii) : option (list nat * list ascii) :=
  match s with
  | c :: r => if Ascii.eqb c "0" then Some ([0], r)
              else if is_dec_digit c then Some (dec_digits s) else None
  | [] => None
  end.

(** An optional [.] and at least one digit. *)
Definition frac_part (s : list ascii) : option (list nat * list ascii) :=
  match s with
  | c :: r => if Ascii.eqb c "." then
                match dec_digits r with ([], _) => None | dr => Some dr end
              else Some ([], s)
  | [] => Some ([], s)
  end.

(** The optional sign of an exponent. *)
Definition exp_sign (s : list ascii) : bool * list ascii :=
  match s with
  | c :: r => if Ascii.eqb c "-" then (true, r) else if Ascii.eqb c "+" then (false, r) else (false, s)
  | [] => (false, s)
  end.

(** An optional [e] or [E], an optional sign and at least one digit. *)
Definition exp_part (s : list ascii) : option (Z * list ascii) :=
  match s with
  | c :: r =>
      if Ascii.eqb c "e" || Ascii.eqb c "E" then
        let '(eneg, r') := exp_sign r in
        match dec_digits r' with
        | ([], _) => None
        | (de, r'') => Some ((if eneg then -1 else 1) * ParseInt.digits_value 10 de, r'')%Z
        end
      else Some (0%Z, s)
  | [] => Some (0%Z, s)
  end.

(** [JSONNumber] and its mathematical value. *)
Definition parse_number (s : list ascii) : option (Q * list ascii) :=
  let '(neg, s1) := sign_part s in
  '(ds1, r1) ← int_part s1;
  '(ds2, r2) ← frac_part r1;
  '(e, r3) ← exp_part r2;
  let v := (inject_Z (ParseInt.digits_value 10 (ds1 ++ ds2)) /
            inject_Z (10 ^ Z.of_nat (length ds2)) * Qpower (inject_Z 10) e)%Q in
  Some ((if neg then - v else v)%Q, r3).

(** A JSON value after optional white space, and the rest; the fuel
    bounds the number of nested calls ([json_parse] gives one more than
    the length of the text, and every call consumes a character). *)
Fixpoint parse_value (fuel : nat) (s : list ascii) : option (json * list ascii) :=
  match fuel with
  | O => None
  | S f =>
      let t := skip_ws s in
      match t with
      | c :: r =>
          if Ascii.eqb c "[" then
            match skip_ws r with
            | c' :: r' =>
                if Ascii.eqb c' "]" then Some (JSArr [], r')
                else '(v, r1) ← parse_value f r; '(vs, r2) ← parse_elems f r1; Some (JSArr (v :: vs), r2)
            | [] => None
            end
          else if Ascii.eqb c "{" then
            match skip_ws r with
            | c' :: r' =>
                if Ascii.eqb c' "}" then Some (JSObj [], r')
                else '(kv, r1) ← parse_member f r; '(kvs, r2) ← parse_members f r1; Some (JSObj (kv :: kvs), r2)
            | [] => None
            end
          else if Ascii.eqb c "034" then
            '(cs, r') ← parse_chars r; Some (JSStr (string_of_list_ascii cs), r')
          else match strip_prefix (list_ascii_of_string "null") t with
               | Some r' => Some (JSNull, r')
               | None =>
                 match strip_prefix (list_ascii_of_string "true") t with
                 | Some r' => Some (JSBool true, r')
                 | None =>
                   match strip_prefix (list_ascii_of_string "false") t with
                   | Some r' => Some (JSBool false, r')
                   | None => '(q, r') ← parse_number t; Some (JSNum q, r')
                   end
                 end
               end
      | [] => None
      end
  end
(** [(, value)* ]] after the first element of an array. *)
with parse_elems (fuel : nat) (s : list ascii) : option (list json * list ascii) :=
  match fuel with
  | O => None
  | S f =>
      match skip_ws s with
      | c :: r =>
          if Ascii.eqb c "]" then Some ([], r)
          else if Ascii.eqb c "," then
            '(v, r1) ← parse_value f r; '(vs, r2) ← parse_elems f r1; Some (v :: vs, r2)
          else None
      | [] => None
      end
  end
(** [string : value]. *)
with parse_member (fuel : nat) (s : list ascii) : option ((string * json) * list ascii) :=
  match fuel with
  | O => None
  | S f =>
      match skip_ws s with
      | c :: r =>
          if Ascii.eqb c "034" then
            '(k, r1) ← parse_chars r;
            match skip_ws r1 with
            | c' :: r2 => if Ascii.eqb c' ":" then '(v, r3) ← parse_value f r2;
                                                  Some ((string_of_list_ascii k, v), r3)
                          else None
            | [] => None
            end
          else None
      | [] => None
      end
  end
(** [(, member)* }] after the first member of an object. *)
with parse_members (fuel : nat) (s : list ascii) : option (list (string * json) * list ascii) :=
  match fuel with
  | O => None
  | S f =>
      match skip_ws s with
      | c :: r =>
          if Ascii.eqb c "}" then Some ([], r)
          else if Ascii.eqb c "," then
            '(kv, r1) ← parse_member f r; '(kvs, r2) ← parse_members f r1; Some (kv :: kvs, r2)
          else None
      | [] => None
      end
  end.

(** [JSON.parse(text)]: one value between white space; [None] is the
    [SyntaxError]. *)
Definition json_parse (text : string) : option json :=
  let s := list_ascii_of_string text in
  '(v, r) ← parse_value (S (length s)) s;
  match skip_ws r with [] => Some v | _ => None end.

(** ** Reading the parsed cache as a matrix *)

(** [obj[k]] on a parsed object: the last member named [k] wins. *)
Definition obj_get (k : string) (kvs : list (string * json)) : option json :=
  fold_left (fun acc '(k', v) => if String.eqb k k' then Some v else acc) kvs None.

(** A numeric property: absent is [undefined]; [null] is read as [+0],
    which is what every use of the property in [augmentHeatmapMatrix]
    makes of it ([ToNumber(null)], [!null]); another type is outside the
    model. *)
Definition num_field (k : string) (kvs : list (string * json)) : option (option number) :=
  match obj_get k kvs with
  | None => Some None
  | Some (JSNum q) => Some (Some (JFin q))
  | Some JSNull => Some (Some (JFin 0))
  | Some _ => None
  end.

Definition str_field (k : string) (kvs : list (string * json)) : option (option string) :=
  match obj_get k kvs with
  | None => Some None
  | Some (JSStr s) => Some (Some s)
  | Some _ => None
  end.

Definition cell_of_json (v : json) : option cell :=
  match v with
  | JSObj kvs =>
      l ← str_field "left" kvs; l ← l;
      r ← str_field "right" kvs; r ← r;
      ll ← num_field "loc_left" kvs; lr ← num_field "loc_right" kvs;
      mt ← num_field "matches" kvs; ra ← num_field "ratio" kvs;
      co ← str_field "color" kvs; w ← num_field "width" kvs; h ← num_field "height" kvs;
      Some (mkCell l r ll lr mt ra co w h)
  | _ => None
  end.

(** A row: [null] or a cell object per column. *)
Definition row_of_json (v : json) : option (list (option cell)) :=
  match v with
  | JSArr cols =>
      mapM (fun col => match col with
                       | JSNull => Some None
                       | _ => Some <$> cell_of_json col
                       end) cols
  | _ => None
  end.

Definition matrix_of_json (v : json) : option matrix :=
  match v with JSArr rows => mapM row_of_json rows | _ => None end.

(** [JSON.parse] of the cache file, read as a matrix. *)
Definition read_heatmap_cache (text : string) : option matrix :=
  json_parse text ≫= matrix_of_json.

(** ** Views used by the statements *)

(** What may follow a value inside a JSON text: the end, a comma, or
    the end of an array or object. *)
Definition delim (rest : list ascii) : Prop :=
  match rest with c :: _ => c = ","%char \/ c = "]"%char \/ c = "}"%char | [] => True end.

(** The characters that start a printed value. *)
Definition value_start (c : ascii) : bool :=
  Ascii.eqb c "[" || Ascii.eqb c "{" || Ascii.eqb c "034" || Ascii.eqb c "n" || Ascii.eqb c "t" ||
  Ascii.eqb c "f" || Ascii.eqb c "-" || is_dec_digit c.

(** The printed elements (or members) after the first, and the closing
    bracket. *)
Definition tail_text (close : ascii) (ts : list (list ascii)) : list ascii :=
  flat_map (fun t => ","%char :: t) ts ++ [close].

(** A numeric property [JSON.parse] reads back as it was: [undefined]
    or an integer kept with denominator 1. *)
Definition num_canonb (o : option number) : bool :=
  match o with None => true | Some (JFin q) => Pos.eqb (Qden q) 1 | Some _ => false end.

Definition cell_canonb (c : cell) : bool :=
  num_canonb (loc_left c) && num_canonb (loc_right c) && num_canonb (matches c) &&
  num_canonb (ratio c) && num_canonb (width c) && num_canonb (height c).

Definition matrix_canonb (m : matrix) : bool :=
  forallb (forallb (fun col => match col with Some c => cell_canonb c | None => true end)) m.

(** A numeric property [JSON.stringify] can write: an integer, or a
    value it writes as [null] (NaN and the infinities). *)
Definition num_cacheb (o : option number) : bool :=
  match o with Some (JFin q) => Pos.eqb (Qden q) 1 | _ => true end.

Definition cell_cacheb (c : cell) : bool :=
  num_cacheb (loc_left c) && num_cacheb (loc_right c) && num_cacheb (matches c) &&
  num_cacheb (ratio c) && num_cacheb (width c) && num_cacheb (height c).

Definition matrix_cacheb (m : matrix) : bool :=
  forallb (forallb (fun col => match col with Some c => cell_cacheb c | None => true end)) m.

(** What a number becomes through the cache: [null] for NaN and the
    infinities, read back as 0. *)
Definition num_cache (o : option number) : option number :=
  match o with Some (JFin q) => Some (JFin q) | Some _ => Some (JFin 0) | None => None end.

Definition cell_cache (c : cell) : cell :=
  mkCell (c_left c) (c_right c) (num_cache (loc_left c)) (num_cache (loc_right c))
    (num_cache (matches c)) (num_cache (ratio c)) (color c) (num_cache (width c)) (num_cache (height c)).

(** Induction on JSON values with the hypothesis on every element of an
    array and every member of an object. *)
Section JsonInd.
Variable P : json -> Prop.
Hypothesis Hnull : P JSNull.
Hypothesis Hbool : forall b, P (JSBool b).
Hypothesis Hnum : forall q, P (JSNum q).
Hypothesis Hstr : forall s, P (JSStr s).
Hypothesis Harr : forall vs, Forall P vs -> P (JSArr vs).
Hypothesis Hobj : forall kvs, Forall (fun kv => P kv.2) kvs -> P (JSObj kvs).

Fixpoint json_ind' (v : json) : P v :=
  match v with
  | JSNull => Hnull
  | JSBool b => Hbool b
  | JSNum q => Hnum q
  | JSStr s => Hstr s
  | JSArr vs => Harr vs ((fix go (vs : list json) : Forall P vs :=
                            match vs with
                            | [] => @List.Forall_nil _ P
                            | v :: vs' => @List.Forall_cons _ P v vs' (json_ind' v) (go vs')
                            end) vs)
  | JSObj kvs => Hobj kvs ((fix go (kvs : list (string * json)) : Forall (fun kv => P kv.2) kvs :=
                              match kvs with
                              | [] => @List.Forall_nil _ _
                              | kv :: kvs' => @List.Forall_cons _ (fun kv => P kv.2) kv kvs' (json_ind' kv.2) (go kvs')
                              end) kvs)
  end.

End JsonInd.

(** A value with nesting, an escaped quote, control characters and a
    negative number. *)
Definition sample_json : json :=
  JSArr [JSObj [(String "a" (String "034" "b"), JSNum (-12)); ("c"%string, JSArr [JSNull; JSBool true; JSBool false])];
         JSStr (String "009" (String "010" "x\y")); JSArr []; JSObj []].

(** Three versions whose middle one has a line count that is NaN (a
    cloc row [parseInt] could not read), every pair with 10 matching
    lines. *)
Definition nan_loc_map : gmap string number :=
  <["1" := JFin 50]> (<["2" := JNaN]> (<["3" := JFin 50]> ∅)).

Definition nan_compared : matrix :=
  map (map (option_map (fun c => set_matches c (JFin 10)))) (createRichMatrix nan_loc_map sample_versions).


Section NumberText.
Import ParseInt.

Lemma pos_to_uint_head p d : Pos.to_uint p <> Decimal.D0 d.
Proof.
  intros E.
  assert (Hn : Decimal.unorm (Pos.to_uint p) = Pos.to_uint p).
  { rewrite <- DecimalPos.Unsigned.to_of, DecimalPos.Unsigned.of_to. reflexivity. }
  rewrite E, unorm_D0 in Hn.
  destruct (Decimal.nzhead d) eqn:Ez;
    [ apply (DecimalPos.Unsigned.to_uint_nonzero p); rewrite E;
      rewrite (proj2 (unorm_0 d) Ez) in Hn; by injection Hn as ->
    | rewrite unorm_nzhead in Hn by (rewrite Ez; discriminate); by apply (nzhead_nonzero d d)
    | rewrite unorm_nzhead, Ez in Hn by (rewrite Ez; discriminate); discriminate .. ].
Qed.

Lemma nilzero_pos p : NilZero.string_of_uint (Pos.to_uint p) = NilEmpty.string_of_uint (Pos.to_uint p).
Proof.
  pose proof (DecimalPos.Unsigned.to_uint_nonnil p) as Hn.
  unfold NilZero.string_of_uint. by destruct (Pos.to_uint p).
Qed.

Lemma pos_digits_lead p : exists d ds', uint_digits (Pos.to_uint p) = d :: ds' /\ d <> 0.
Proof.
  pose proof (DecimalPos.Unsigned.to_uint_nonnil p) as Hn. pose proof (pos_to_uint_head p) as Hh.
  destruct (Pos.to_uint p); [done|by destruct (Hh u)|cbn; eexists _, _; split; [reflexivity|lia] ..].
Qed.

Lemma pos_digits_value p : Zpos p = digits_value 10 (uint_digits (Pos.to_uint p)).
Proof. rewrite <- z_of_uint_digits. unfold Z.of_uint. by rewrite DecimalPos.Unsigned.of_to. Qed.

(** The printed integer: an optional [-] and decimal digits without a
    leading zero. *)
Lemma int_text_digits z :
  exists neg ds, list_ascii_of_string (int_to_string (IFin z)) = sign_chars neg ++ map digit_char ds /\
    Forall (fun d => d < 10) ds /\ (ds = [0] \/ exists d ds', ds = d :: ds' /\ d <> 0) /\
    z = ((if neg then -1 else 1) * digits_value 10 ds)%Z.
Proof.
  destruct z as [|p|p]; [exists false, [0]; split_and!; [reflexivity|repeat constructor; lia|by left|reflexivity]|..];
    [exists false|exists true]; exists (uint_digits (Pos.to_uint p));
    unfold int_to_string, NilZero.string_of_int; cbn [Z.to_int];
    (split_and!; [ rewrite nilzero_pos; cbn [sign_chars app list_ascii_of_string]; by rewrite string_of_uint_chars
                 | apply uint_digits_small | right; apply pos_digits_lead
                 | rewrite <- pos_digits_value; lia ]).
Qed.

Lemma delim_ends rest : delim rest -> ends_number rest.
Proof. destruct rest as [|c rest]; [done|]. intros [-> | [-> | ->]]; reflexivity. Qed.

Lemma digit_char_nonzero d : d < 10 -> d <> 0 -> Ascii.eqb (digit_char d) "0" = false.
Proof. intros Hd Hz. do 10 (destruct d as [|d]; [done || reflexivity|]). lia. Qed.

Lemma is_dec_digit_char d : d < 10 -> is_dec_digit (digit_char d) = true.
Proof.
  intros Hd. unfold is_dec_digit, radix_digit. rewrite digit_val_char by done.
  by destruct (Nat.ltb_spec d 10); [|lia].
Qed.

Lemma digits_app ds rest :
  Forall (fun d => d < 10) ds -> delim rest -> dec_digits (map digit_char ds ++ rest) = (ds, rest).
Proof.
  intros Hds Hr. unfold dec_digits. rewrite digits_prefix_app by (done || by apply delim_ends).
  f_equal. by rewrite <- (length_map digit_char ds), drop_app_length.
Qed.

Lemma Q_of_digits_eq (x : Z) (neg : bool) :
  (if neg then - (inject_Z x / inject_Z 1 * 1) else inject_Z x / inject_Z 1 * 1)%Q =
  inject_Z ((if neg then -1 else 1) * x).
Proof. unfold inject_Z, Qdiv, Qmult, Qinv, Qopp; destruct neg; cbn; f_equal; lia. Qed.

(** [JSONNumber] reads back a printed integer followed by a delimiter. *)
Lemma parse_number_digits neg ds rest :
  Forall (fun d => d < 10) ds -> (ds = [0] \/ exists d ds', ds = d :: ds' /\ d <> 0) -> delim rest ->
  parse_number (sign_chars neg ++ map digit_char ds ++ rest) =
  Some (inject_Z ((if neg then -1 else 1) * digits_value 10 ds), rest).
Proof.
  intros Hds Hlead Hr. rewrite <- Q_of_digits_eq.
  destruct Hlead as [->|(d & ds' & -> & Hd)].
  - destruct neg, rest as [|c rest]; try destruct Hr as [-> | [-> | ->]]; reflexivity.
  - pose proof (Forall_inv Hds) as Hd10.
    pose proof (digits_app (d :: ds') rest Hds Hr) as Hdig.
    unfold parse_number, sign_part, int_part. destruct neg; cbn [sign_chars app map] in *;
      rewrite ?Ascii.eqb_refl, ?(proj1 (digit_char_not_sign d Hd10)); cbv beta iota;
      rewrite digit_char_nonzero, is_dec_digit_char, Hdig by done; cbv beta iota;
      (destruct rest as [|c rest]; [|destruct Hr as [-> | [-> | ->]]]); cbn -[Qpower digits_value];
      by rewrite app_nil_r.
Qed.

End NumberText.

Section ValueText.
Import ParseInt.

Lemma value_start_props c :
  value_start c = true -> is_json_ws c = false /\ Ascii.eqb c "]" = false /\ Ascii.eqb c "}" = false.
Proof. intros H. destruct c as [[] [] [] [] [] [] [] []]; vm_compute in H; try discriminate H; auto. Qed.

Lemma parse_value_number f c s :
  (Ascii.eqb c "-" || is_dec_digit c) = true ->
  parse_value (S f) (c :: s) = '(q, r) ← parse_number (c :: s); Some (JSNum q, r).
Proof. intros H. destruct c as [[] [] [] [] [] [] [] []]; vm_compute in H; try discriminate H; reflexivity. Qed.

Lemma parse_chars_quote_char c rest :
  parse_chars (quote_char c ++ rest) = '(cs, r) ← parse_chars rest; Some (c :: cs, r).
Proof. destruct c as [[] [] [] [] [] [] [] []]; reflexivity. Qed.

Lemma parse_chars_quote l rest : parse_chars (flat_map quote_char l ++ "034"%char :: rest) = Some (l, rest).
Proof.
  induction l as [|c l IH]; [reflexivity|]. cbn [flat_map].
  by rewrite <- app_assoc, parse_chars_quote_char, IH.
Qed.

Lemma quote_app s rest : quote s ++ rest = "034"%char :: flat_map quote_char (list_ascii_of_string s) ++ "034"%char :: rest.
Proof. unfold quote. cbn [app]. by rewrite <- app_assoc. Qed.

Lemma commas_tail t ts close : commas (t :: ts) ++ [close] = t ++ tail_text close ts.
Proof.
  revert t. induction ts as [|t' ts IH]; intros t.
  { reflexivity. }
  change (commas (t :: t' :: ts)) with (t ++ ","%char :: commas (t' :: ts)).
  rewrite <- app_assoc. cbn [app]. rewrite IH. unfold tail_text. cbn [flat_map app]. by rewrite <- app_assoc.
Qed.

Lemma tail_text_delim close ts rest :
  close = "]"%char \/ close = "}"%char -> delim (tail_text close ts ++ rest).
Proof. intros Hc. destruct ts; cbn; [destruct Hc as [-> | ->]; auto|auto]. Qed.

Lemma tail_text_cons close t ts : tail_text close (t :: ts) = ","%char :: t ++ tail_text close ts.
Proof. unfold tail_text. cbn [flat_map app]. by rewrite <- app_assoc. Qed.

Lemma length_tail_text close t ts :
  length (tail_text close (t :: ts)) = S (length t + length (tail_text close ts)).
Proof. by rewrite tail_text_cons; cbn [length]; rewrite length_app. Qed.

Lemma length_tail_text_pos close ts : 1 <= length (tail_text close ts).
Proof. unfold tail_text. rewrite length_app. cbn. lia. Qed.

Lemma parse_elems_comma f s :
  parse_elems (S f) (","%char :: s) = '(v, r1) ← parse_value f s; '(vs, r2) ← parse_elems f r1; Some (v :: vs, r2).
Proof. reflexivity. Qed.

(** The elements after the first, as [serialize] prints them. *)
Lemma parse_elems_tail vs ts rest f :
  Forall2 (fun v t => forall f rest, length t < f -> delim rest -> parse_value f (t ++ rest) = Some (v, rest)) vs ts ->
  length (tail_text "]" ts) <= f -> parse_elems f (tail_text "]" ts ++ rest) = Some (vs, rest).
Proof.
  intros Hvs. revert f. induction Hvs as [|v t vs ts Hv Hvs IH]; intros f Hf.
  - destruct f as [|f]; [cbn in Hf; lia|reflexivity].
  - rewrite length_tail_text in Hf. pose proof (length_tail_text_pos "]" ts).
    destruct f as [|f]; [lia|].
    rewrite tail_text_cons. cbn [app]. rewrite <- app_assoc, parse_elems_comma.
    rewrite Hv by (lia || (apply tail_text_delim; auto)). cbn [mbind option_bind]. by rewrite IH by lia.
Qed.

Lemma parse_members_comma f s :
  parse_members (S f) (","%char :: s) =
  '(kv, r1) ← parse_member f s; '(kvs, r2) ← parse_members f r1; Some (kv :: kvs, r2).
Proof. reflexivity. Qed.

Lemma parse_member_quote f s :
  parse_member (S f) ("034"%char :: s) =
  '(k, r1) ← parse_chars s;
  match skip_ws r1 with
  | c' :: r2 => if Ascii.eqb c' ":" then '(v, r3) ← parse_value f r2; Some ((string_of_list_ascii k, v), r3)
                else None
  | [] => None
  end.
Proof. reflexivity. Qed.

Lemma length_quote k : 2 <= length (quote k).
Proof. unfold quote. cbn [length]. rewrite length_app. cbn. lia. Qed.

(** A member [key:value] as [serialize] prints it. *)
Lemma parse_member_text k v t rest f :
  (forall f rest, length t < f -> delim rest -> parse_value f (t ++ rest) = Some (v, rest)) ->
  length (quote k ++ ":"%char :: t) < f -> delim rest ->
  parse_member f ((quote k ++ ":"%char :: t) ++ rest) = Some ((k, v), rest).
Proof.
  intros Hv Hf Hr. rewrite length_app in Hf. cbn [length] in Hf. pose proof (length_quote k).
  destruct f as [|f]; [lia|].
  rewrite <- app_assoc, quote_app, parse_member_quote, parse_chars_quote. cbn [mbind option_bind app skip_ws].
  rewrite (eq_refl : is_json_ws ":" = false), Ascii.eqb_refl. cbv beta iota.
  rewrite Hv by (lia || done). by rewrite string_of_list_ascii_of_string.
Qed.

Lemma parse_members_tail kvs ms rest f :
  Forall2 (fun kv m => forall f rest, length m < f -> delim rest -> parse_member f (m ++ rest) = Some (kv, rest)) kvs ms ->
  length (tail_text "}" ms) <= f -> parse_members f (tail_text "}" ms ++ rest) = Some (kvs, rest).
Proof.
  intros Hkvs. revert f. induction Hkvs as [|kv m kvs ms Hkv Hkvs IH]; intros f Hf.
  - destruct f as [|f]; [cbn in Hf; lia|reflexivity].
  - rewrite length_tail_text in Hf. pose proof (length_tail_text_pos "}" ms).
    destruct f as [|f]; [lia|].
    rewrite tail_text_cons. cbn [app]. rewrite <- app_assoc, parse_members_comma.
    rewrite Hkv by (lia || (apply tail_text_delim; auto)). cbn [mbind option_bind]. by rewrite IH by lia.
Qed.

Lemma int_text_head z :
  exists c t', list_ascii_of_string (int_to_string (IFin z)) = c :: t' /\ (Ascii.eqb c "-" || is_dec_digit c) = true.
Proof.
  destruct (int_text_digits z) as (neg & ds & -> & Hds & Hlead & _).
  destruct neg; [by eexists _, _|].
  destruct Hlead as [->|(d & ds' & -> & _)]; [by eexists _, _|].
  exists (digit_char d), (map digit_char ds'). split; [done|].
  rewrite is_dec_digit_char by exact (Forall_inv Hds). apply orb_true_r.
Qed.

Lemma serialize_head v t : serialize v = Some t -> exists c t', t = c :: t' /\ value_start c = true.
Proof.
  destruct v as [| [] | q | s | vs | kvs]; cbn [serialize]; intros Ht.
  1-3: injection Ht as <-; by eexists _, _.
  - unfold number_text in Ht. destruct (_ =? _)%Z; [|done]. injection Ht as <-.
    lazymatch goal with |- context [Z.to_int ?z] =>
      destruct (int_text_head z) as (c & t' & Ht & Hc); unfold int_to_string in Ht; rewrite Ht end.
    exists c, t'. split; [done|].
    unfold value_start. apply orb_true_iff in Hc as [Hc|Hc]; rewrite Hc, ?orb_true_r; done.
  - injection Ht as <-. by eexists _, _.
  - destruct (mapM serialize vs); [|done]. injection Ht as <-. by eexists _, _.
  - destruct (mapM _ kvs); [|done]. injection Ht as <-. by eexists _, _.
Qed.

Lemma parse_value_open_value f t R :
  (exists c t', t = c :: t' /\ value_start c = true) ->
  parse_value (S f) ("["%char :: t ++ R) =
  '(v, r1) ← parse_value f (t ++ R); '(vs, r2) ← parse_elems f r1; Some (JSArr (v :: vs), r2).
Proof.
  intros (c & t' & -> & Hc). destruct (value_start_props c Hc) as (Hws & Hb & _).
  change (parse_value (S f) ("["%char :: (c :: t') ++ R)) with
    (match skip_ws ((c :: t') ++ R) with
     | c' :: r' => if Ascii.eqb c' "]" then Some (JSArr [], r')
                   else '(v, r1) ← parse_value f ((c :: t') ++ R); '(vs, r2) ← parse_elems f r1;
                        Some (JSArr (v :: vs), r2)
     | [] => None
     end).
  cbn [app skip_ws]. by rewrite Hws, Hb.
Qed.

Lemma parse_value_brace_member f k m R :
  parse_value (S f) ("{"%char :: (quote k ++ m) ++ R) =
  '(kv, r1) ← parse_member f ((quote k ++ m) ++ R); '(kvs, r2) ← parse_members f r1; Some (JSObj (kv :: kvs), r2).
Proof. unfold quote. reflexivity. Qed.

Lemma Forall2_serialize_ih (Q : json -> list ascii -> Prop) vs ts :
  Forall (fun v => forall t, serialize v = Some t -> Q v t) vs ->
  Forall2 (fun v t => serialize v = Some t) vs ts -> Forall2 Q vs ts.
Proof.
  intros Hall Hvs. induction Hvs as [|v t vs ts Hv _ IH]; constructor.
  - by apply (Forall_inv Hall).
  - exact (IH (Forall_inv_tail Hall)).
Qed.

Lemma members_ih kvs ms :
  Forall (fun kv => forall t, serialize kv.2 = Some t -> forall f rest, length t < f -> delim rest ->
                    parse_value f (t ++ rest) = Some (kv.2, rest)) kvs ->
  Forall2 (fun kv m => (let '(k, v) := kv in t ← serialize v; Some (quote k ++ ":"%char :: t)) = Some m) kvs ms ->
  Forall2 (fun kv m => forall f rest, length m < f -> delim rest -> parse_member f (m ++ rest) = Some (kv, rest))
          kvs ms.
Proof.
  intros Hall Hms. induction Hms as [|[k v] m kvs ms Hm _ IH]; constructor.
  - destruct (serialize v) as [t|] eqn:Et; cbn in Hm; [|done]. injection Hm as <-.
    intros f rest Hf Hr. apply parse_member_text; [|done|done]. exact (Forall_inv Hall t Et).
  - exact (IH (Forall_inv_tail Hall)).
Qed.

(** [JSON.parse] reads back every value [serialize] prints, before a
    delimiter, with enough fuel. *)
Lemma serialize_parse_value v :
  canonb v = true -> forall t, serialize v = Some t ->
  forall f rest, length t < f -> delim rest -> parse_value f (t ++ rest) = Some (v, rest).
Proof.
  induction v as [| [] | q | s | vs IH | kvs IH] using json_ind';
    intros Hc t Ht f rest Hf Hr; cbn [serialize] in Ht.
  1-3: injection Ht as <-; destruct f as [|f]; [cbn in Hf; lia|reflexivity].
  - (* number *)
    cbn [canonb] in Hc. apply Pos.eqb_eq in Hc. unfold number_text in Ht. rewrite Hc, Z.mod_1_r, Z.div_1_r in Ht.
    cbn [Z.eqb] in Ht. injection Ht as <-.
    destruct (int_text_digits (Qnum q)) as (neg & ds & Ht & Hds & Hlead & Hq).
    destruct (int_text_head (Qnum q)) as (c & t' & Ht' & Hch). unfold int_to_string in Ht, Ht'.
    rewrite Ht' in Hf |- *.
    destruct f as [|f]; [cbn in Hf; lia|]. rewrite <- app_comm_cons, parse_value_number, app_comm_cons, <- Ht', Ht by done.
    rewrite <- app_assoc, parse_number_digits by done. cbn. rewrite <- Hq.
    by destruct q as [n d]; cbn in Hc |- *; subst d.
  - (* string *)
    injection Ht as <-. destruct f as [|f]; [cbn in Hf; lia|].
    rewrite quote_app. change (parse_value (S f) ("034"%char :: ?s)) with
      ('(cs, r') ← parse_chars s; Some (JSStr (string_of_list_ascii cs), r')).
    rewrite parse_chars_quote. cbn [mbind option_bind]. by rewrite string_of_list_ascii_of_string.
  - (* array *)
    destruct (mapM serialize vs) as [ts|] eqn:Ets; [|done]. injection Ht as <-.
    apply mapM_Some in Ets. cbn [canonb] in Hc. apply forallb_Forall in Hc.
    destruct ts as [|t1 ts].
    { apply Forall2_nil_inv_r in Ets as ->. destruct f as [|f]; [cbn in Hf; lia|reflexivity]. }
    destruct vs as [|v1 vs]; [by apply Forall2_nil_inv_l in Ets|].
    apply Forall2_cons in Ets as [Hv1 Ets].
    cbn [app] in Hf |- *. rewrite commas_tail in Hf |- *. rewrite <- app_assoc.
    cbn [length] in Hf. rewrite length_app in Hf. cbn [length] in Hf. pose proof (length_tail_text_pos "]" ts).
    destruct f as [|f]; [lia|].
    rewrite parse_value_open_value by (by apply (serialize_head v1)).
    rewrite (Forall_inv IH (Forall_inv Hc) t1 Hv1) by (lia || (apply tail_text_delim; auto)).
    cbn [mbind option_bind]. rewrite (parse_elems_tail vs ts); [done| |lia].
    apply (Forall2_serialize_ih _ vs ts); [|done].
    exact (Forall_mp _ _ vs (Forall_inv_tail IH) (Forall_inv_tail Hc)).
  - (* object *)
    destruct (mapM _ kvs) as [ms|] eqn:Ems; [|done]. injection Ht as <-.
    apply mapM_Some in Ems. cbn [canonb] in Hc. apply forallb_Forall in Hc.
    pose proof (members_ih kvs ms (Forall_mp _ _ kvs IH Hc) Ems) as Hms.
    destruct ms as [|m1 ms].
    { apply Forall2_nil_inv_r in Ems as ->. destruct f as [|f]; [cbn in Hf; lia|reflexivity]. }
    destruct kvs as [|[k1 v1] kvs]; [by apply Forall2_nil_inv_l in Ems|].
    apply Forall2_cons in Ems as [Hm1 _]. apply Forall2_cons in Hms as [Hp1 Hms].
    destruct (serialize v1) as [t1|] eqn:Et1; cbn [mbind option_bind] in Hm1; [|done].
    assert (m1 = quote k1 ++ ":"%char :: t1) as -> by congruence.
    rewrite <- (app_comm_cons _ rest "{"%char), commas_tail, <- app_assoc.
    cbn [length] in Hf. rewrite commas_tail, length_app in Hf. pose proof (length_tail_text_pos "}" ms).
    destruct f as [|f]; [lia|].
    rewrite parse_value_brace_member, Hp1 by (lia || (apply tail_text_delim; auto)).
    cbn [mbind option_bind]. by rewrite (parse_members_tail kvs ms) by (done || lia).
Qed.

End ValueText.

Section CacheDecoding.

Lemma obj_get_acc k kvs acc :
  fold_left (fun acc '(k', v) => if String.eqb k k' then Some v else acc) kvs acc =
  match obj_get k kvs with Some v => Some v | None => acc end.
Proof.
  unfold obj_get. revert acc. induction kvs as [|[k' v] kvs IH]; intros acc; [done|].
  cbn [fold_left]. rewrite (IH (if String.eqb k k' then Some v else acc)), (IH (if String.eqb k k' then Some v else None)).
  destruct (fold_left _ kvs None); [done|]. by destruct (String.eqb k k').
Qed.

Lemma obj_get_app k l1 l2 :
  obj_get k (l1 ++ l2) = match obj_get k l2 with Some v => Some v | None => obj_get k l1 end.
Proof. unfold obj_get at 1. by rewrite fold_left_app, obj_get_acc. Qed.

Lemma obj_get_opt_field {A} k k' (f : A -> json) o :
  obj_get k (opt_field k' f o) = if String.eqb k k' then f <$> o else None.
Proof. destruct o; cbn; by destruct (String.eqb k k'). Qed.

Lemma str_field_of k kvs o : obj_get k kvs = JSStr <$> o -> str_field k kvs = Some o.
Proof. unfold str_field. intros ->. by destruct o. Qed.

Lemma num_field_cache k kvs o :
  obj_get k kvs = num_json <$> o -> num_cacheb o = true -> num_field k kvs = Some (num_cache o).
Proof. unfold num_field. intros -> Ho. by destruct o as [[q| |]|]. Qed.

Lemma cell_of_json_cache c : cell_cacheb c = true -> cell_of_json (cell_json c) = Some (cell_cache c).
Proof.
  unfold cell_cacheb. intros Hc. repeat apply andb_true_iff in Hc as [Hc ?].
  unfold cell_of_json, cell_json.
  rewrite (str_field_of "left" _ (Some (c_left c))), (str_field_of "right" _ (Some (c_right c))),
    (num_field_cache "loc_left" _ (loc_left c)), (num_field_cache "loc_right" _ (loc_right c)),
    (num_field_cache "matches" _ (matches c)), (num_field_cache "ratio" _ (ratio c)),
    (str_field_of "color" _ (color c)), (num_field_cache "width" _ (width c)),
    (num_field_cache "height" _ (height c)); try done.
  all: rewrite ?obj_get_app, ?obj_get_opt_field; cbn;
    first [reflexivity | match goal with |- context [_ <$> ?o] => by destruct o end].
Qed.

Lemma matrix_of_json_cache m :
  matrix_cacheb m = true -> matrix_of_json (matrix_json m) = Some (map (map (option_map cell_cache)) m).
Proof.
  unfold matrix_cacheb, matrix_of_json, matrix_json. intros Hm%forallb_Forall.
  induction Hm as [|row m Hrow _ IH]; [done|]. cbn [map mapM]. rewrite IH.
  assert (row_of_json (JSArr (map (fun col => match col with Some c => cell_json c | None => JSNull end) row)) =
          Some (map (option_map cell_cache) row)) as ->; [|done].
  apply forallb_Forall in Hrow. cbn [row_of_json]. induction Hrow as [|[c|] row Hc _ IHr]; [done| |];
    cbn [map mapM]; rewrite IHr; [|done].
  cbn [cell_json]. fold (cell_json c). by rewrite cell_of_json_cache.
Qed.

Lemma canonb_matrix_json_cache m : matrix_cacheb m = true -> canonb (matrix_json m) = true.
Proof.
  unfold matrix_cacheb, matrix_json. intros Hm%forallb_Forall. cbn [canonb].
  induction Hm as [|row m Hrow _ IH]; [done|]. cbn [map forallb canonb]. rewrite IH, andb_true_r.
  apply forallb_Forall in Hrow. induction Hrow as [|[c|] row Hc _ IHr]; [done| |];
    cbn [map forallb]; rewrite IHr, andb_true_r; [|done]. unfold cell_cacheb in Hc.
  repeat apply andb_true_iff in Hc as [Hc ?]. unfold cell_json. cbn [canonb forallb].
  repeat match goal with H : num_cacheb ?o = true |- _ => destruct o as [[]|]; cbn [num_cacheb] in H; try done end;
    destruct (color c); cbn; repeat (apply andb_true_iff; split); done.
Qed.

(** The integral matrices are the ones the cache keeps as they are. *)
Lemma num_canonb_cacheb o : num_canonb o = true -> num_cacheb o = true.
Proof. by destruct o as [[]|]. Qed.

Lemma canonb_cacheb m : matrix_canonb m = true -> matrix_cacheb m = true.
Proof.
  unfold matrix_canonb, matrix_cacheb. intros Hm%forallb_Forall. apply Forall_forallb.
  eapply Forall_impl; [exact Hm|]. intros row Hr%forallb_Forall. apply Forall_forallb.
  eapply Forall_impl; [exact Hr|]. intros [c|]; [|done]. unfold cell_canonb, cell_cacheb.
  rewrite !andb_true_iff. intros [[[[[]]]]]. rewrite !num_canonb_cacheb; done.
Qed.

Lemma cache_canon_id m : matrix_canonb m = true -> map (map (option_map cell_cache)) m = m.
Proof.
  unfold matrix_canonb. intros Hm%forallb_Forall. induction Hm as [|row m Hrow _ IH]; [done|].
  cbn [map]. rewrite IH. f_equal. apply forallb_Forall in Hrow.
  induction Hrow as [|[c|] row Hc _ IHr]; [done| |]; cbn [map]; rewrite IHr; [|done].
  f_equal. f_equal. unfold cell_canonb in Hc. repeat apply andb_true_iff in Hc as [Hc ?].
  destruct c as [l r ll lr mt ra co w h]; cbn in *.
  repeat match goal with H : num_canonb ?o = true |- _ => destruct o as [[]|]; cbn [num_canonb] in H; try done end.
Qed.

Lemma matrix_of_json_matrix m : matrix_canonb m = true -> matrix_of_json (matrix_json m) = Some m.
Proof. intros Hm. by rewrite matrix_of_json_cache, cache_canon_id by (done || by apply canonb_cacheb). Qed.

Lemma canonb_matrix_json m : matrix_canonb m = true -> canonb (matrix_json m) = true.
Proof. intros Hm. by apply canonb_matrix_json_cache, canonb_cacheb. Qed.

Lemma serialize_canon v : canonb v = true -> is_Some (serialize v).
Proof.
  induction v as [| [] | q | s | vs IH | kvs IH] using json_ind'; cbn [canonb serialize]; intros Hc;
    try by eexists.
  - apply Pos.eqb_eq in Hc. unfold number_text. rewrite Hc, Z.mod_1_r. by eexists.
  - apply forallb_Forall in Hc. destruct (mapM_is_Some_2 serialize vs) as [ts ->]; [|by eexists].
    exact (Forall_mp _ _ vs IH Hc).
  - apply forallb_Forall in Hc.
    destruct (mapM_is_Some_2 (fun '(k, v) => t ← serialize v; Some (quote k ++ ":"%char :: t)) kvs) as [ts ->];
      [|by eexists].
    apply (Forall_mp (fun kv => is_Some (serialize kv.2))); [|exact (Forall_mp _ _ kvs IH Hc)].
    apply Forall_forall. intros [k v] _ [t Ht]. cbn in Ht |- *. rewrite Ht. by eexists.
Qed.

End CacheDecoding.

Section Fuel.
Import ParseInt.

Lemma skip_ws_length s : length (skip_ws s) <= length s.
Proof. induction s as [|c s IH]; cbn; [done|]. destruct (is_json_ws c); cbn; lia. Qed.

Lemma strip_prefix_length lit s r : strip_prefix lit s = Some r -> length r + length lit = length s.
Proof.
  revert s. induction lit as [|a lit IH]; intros [|c s] H; cbn in H.
  - injection H as <-. cbn. lia.
  - injection H as <-. cbn. lia.
  - done.
  - destruct (Ascii.eqb a c); [|done]. specialize (IH s H). cbn. lia.
Qed.

Lemma parse_chars_length s cs r : parse_chars s = Some (cs, r) -> length r < length s.
Proof.
  revert cs. induction s as [s IH] using (induction_ltof1 _ (@length _)); unfold ltof in IH.
  intros cs. destruct s as [|c s]; cbn [parse_chars]; [done|].
  destruct (Ascii.eqb c "034"); [intros [= _ <-]; cbn; lia|].
  destruct (Ascii.eqb c "\").
  - destruct s as [|e s]; [done|]. destruct (escape_char e).
    + destruct (parse_chars s) as [[cs' r']|] eqn:E; cbn; [|done]. intros [= _ <-].
      specialize (IH s ltac:(cbn; lia) _ E). cbn. lia.
    + destruct (Ascii.eqb e "u"); [|done].
      destruct s as [|h1 [|h2 [|h3 [|h4 s]]]]; try done.
      destruct (hex_val h1), (hex_val h2), (hex_val h3), (hex_val h4); cbn; try done.
      match goal with |- context [if ?b then _ else _] => destruct b end; [|done].
      destruct (parse_chars s) as [[cs' r']|] eqn:E; cbn; [|done]. intros [= _ <-].
      specialize (IH s ltac:(cbn; lia) _ E). cbn. lia.
  - destruct (nat_of_ascii c <? 32); [done|].
    destruct (parse_chars s) as [[cs' r']|] eqn:E; cbn; [|done]. intros [= _ <-].
    specialize (IH s ltac:(cbn; lia) _ E). cbn. lia.
Qed.

Lemma digits_length s : length (dec_digits s).2 <= length s.
Proof. unfold dec_digits. cbn. rewrite length_drop. lia. Qed.

Lemma digits_cons c s : is_dec_digit c = true -> length (dec_digits (c :: s)).2 < length (c :: s).
Proof.
  unfold dec_digits, is_dec_digit. cbn [digits_prefix]. destruct (radix_digit 10 c); [|done].
  intros _. cbn. rewrite length_drop. lia.
Qed.

Lemma sign_part_length s : length (sign_part s).2 <= length s.
Proof. destruct s as [|c s]; cbn; [done|]. destruct (Ascii.eqb c "-"); cbn; lia. Qed.

Lemma int_part_length s ds r : int_part s = Some (ds, r) -> length r < length s.
Proof.
  destruct s as [|c s]; cbn; [done|]. destruct (Ascii.eqb c "0"); [intros [= _ <-]; lia|].
  destruct (is_dec_digit c) eqn:Ec; [|done]. pose proof (digits_cons c s Ec) as Hl.
  destruct (dec_digits (c :: s)) as [ds' r'] eqn:E. intros [= <- <-]. exact Hl.
Qed.

Lemma frac_part_length s ds r : frac_part s = Some (ds, r) -> length r <= length s.
Proof.
  unfold frac_part. destruct s as [|c s]; [by intros [= _ <-]|].
  destruct (Ascii.eqb c "."); [|by intros [= _ <-]].
  pose proof (digits_length s) as Hl. destruct (dec_digits s) as [[|d ds'] r']; [discriminate|]. intros [= _ <-].
  cbn in Hl |- *. lia.
Qed.

Lemma exp_part_length s e r : exp_part s = Some (e, r) -> length r <= length s.
Proof.
  unfold exp_part. destruct s as [|c s]; [by intros [= _ <-]|]. destruct (_ || _); [|by intros [= _ <-]].
  assert (Hs : length (exp_sign s).2 <= length s).
  { destruct s as [|c' s]; cbn; [done|]. destruct (Ascii.eqb c' "-"); [cbn; lia|].
    destruct (Ascii.eqb c' "+"); cbn; lia. }
  destruct (exp_sign s) as [neg s']. cbn in Hs.
  pose proof (digits_length s') as Hl. destruct (dec_digits s') as [[|d ds'] r']; [discriminate|]. intros [= _ <-].
  cbn in Hl |- *. lia.
Qed.

Lemma parse_number_length s q r : parse_number s = Some (q, r) -> length r < length s.
Proof.
  unfold parse_number. pose proof (sign_part_length s) as Hs. destruct (sign_part s) as [neg s1].
  destruct (int_part s1) as [[ds1 r1]|] eqn:E1; cbn; [|done]. apply int_part_length in E1.
  destruct (frac_part r1) as [[ds2 r2]|] eqn:E2; cbn; [|done]. apply frac_part_length in E2.
  destruct (exp_part r2) as [[e r3]|] eqn:E3; cbn; [|done]. apply exp_part_length in E3.
  intros [= _ <-]. cbn in Hs. lia.
Qed.

Lemma parse_shorter f :
  (forall s v r, parse_value f s = Some (v, r) -> length r < length s) /\
  (forall s vs r, parse_elems f s = Some (vs, r) -> length r < length s) /\
  (forall s kv r, parse_member f s = Some (kv, r) -> length r < length s) /\
  (forall s kvs r, parse_members f s = Some (kvs, r) -> length r < length s).
Proof.
  induction f as [|f (IHv & IHe & IHm & IHms)]; [done|]. split_and!.
  - intros s v r. cbn [parse_value]. pose proof (skip_ws_length s) as Hs.
    destruct (skip_ws s) as [|c t]; [done|]. cbn in Hs.
    destruct (Ascii.eqb c "[").
    { pose proof (skip_ws_length t) as Ht. destruct (skip_ws t) as [|c' r']; [done|].
      destruct (Ascii.eqb c' "]"); [intros [= _ <-]; cbn in Ht; lia|].
      destruct (parse_value f t) as [[v1 r1]|] eqn:E1; cbn; [|done]. apply IHv in E1.
      destruct (parse_elems f r1) as [[vs r2]|] eqn:E2; cbn; [|done]. apply IHe in E2.
      intros [= _ <-]. lia. }
    destruct (Ascii.eqb c "{").
    { pose proof (skip_ws_length t) as Ht. destruct (skip_ws t) as [|c' r']; [done|].
      destruct (Ascii.eqb c' "}"); [intros [= _ <-]; cbn in Ht; lia|].
      destruct (parse_member f t) as [[kv r1]|] eqn:E1; cbn; [|done]. apply IHm in E1.
      destruct (parse_members f r1) as [[kvs r2]|] eqn:E2; cbn; [|done]. apply IHms in E2.
      intros [= _ <-]. lia. }
    destruct (Ascii.eqb c "034").
    { destruct (parse_chars t) as [[cs r1]|] eqn:E1; cbn; [|done]. apply parse_chars_length in E1. cbn in E1.
      intros [= _ <-]. lia. }
    destruct (strip_prefix (list_ascii_of_string "null") (c :: t)) as [r1|] eqn:E1;
      [apply strip_prefix_length in E1; cbn in E1; intros; simplify_eq; lia|].
    destruct (strip_prefix (list_ascii_of_string "true") (c :: t)) as [r2|] eqn:E2;
      [apply strip_prefix_length in E2; cbn in E2; intros; simplify_eq; lia|].
    destruct (strip_prefix (list_ascii_of_string "false") (c :: t)) as [r3|] eqn:E3;
      [apply strip_prefix_length in E3; cbn in E3; intros; simplify_eq; lia|].
    destruct (parse_number (c :: t)) as [[q r4]|] eqn:E4; cbn; [|done].
    apply parse_number_length in E4. cbn in E4. intros [= _ <-]. lia.
  - intros s vs r. cbn [parse_elems]. pose proof (skip_ws_length s) as Hs.
    destruct (skip_ws s) as [|c t]; [done|]. cbn in Hs.
    destruct (Ascii.eqb c "]"); [intros [= _ <-]; lia|]. destruct (Ascii.eqb c ","); [|done].
    destruct (parse_value f t) as [[v1 r1]|] eqn:E1; cbn; [|done]. apply IHv in E1.
    destruct (parse_elems f r1) as [[vs' r2]|] eqn:E2; cbn; [|done]. apply IHe in E2.
    intros [= _ <-]. lia.
  - intros s kv r. cbn [parse_member]. pose proof (skip_ws_length s) as Hs.
    destruct (skip_ws s) as [|c t]; [done|]. cbn in Hs. destruct (Ascii.eqb c "034"); [|done].
    destruct (parse_chars t) as [[k r1]|] eqn:E1; cbn; [|done]. apply parse_chars_length in E1.
    pose proof (skip_ws_length r1) as Hr1. destruct (skip_ws r1) as [|c' r2]; [done|]. cbn in Hr1.
    destruct (Ascii.eqb c' ":"); [|done].
    destruct (parse_value f r2) as [[v r3]|] eqn:E3; cbn; [|done]. apply IHv in E3.
    intros [= _ <-]. lia.
  - intros s kvs r. cbn [parse_members]. pose proof (skip_ws_length s) as Hs.
    destruct (skip_ws s) as [|c t]; [done|]. cbn in Hs.
    destruct (Ascii.eqb c "}"); [intros [= _ <-]; lia|]. destruct (Ascii.eqb c ","); [|done].
    destruct (parse_member f t) as [[kv r1]|] eqn:E1; cbn; [|done]. apply IHm in E1.
    destruct (parse_members f r1) as [[kvs' r2]|] eqn:E2; cbn; [|done]. apply IHms in E2.
    intros [= _ <-]. lia.
Qed.

(** More fuel than the length of the input changes nothing. *)
Lemma parse_fuel f :
  (forall s f', length s < f -> f <= f' -> parse_value f' s = parse_value f s) /\
  (forall s f', length s < f -> f <= f' -> parse_elems f' s = parse_elems f s) /\
  (forall s f', length s < f -> f <= f' -> parse_member f' s = parse_member f s) /\
  (forall s f', length s < f -> f <= f' -> parse_members f' s = parse_members f s).
Proof.
  induction f as [|f (IHv & IHe & IHm & IHms)].
  { split_and!; intros; lia. }
  destruct (parse_shorter f) as (Sv & Se & Sm & Sms).
  split_and!; intros s [|f'] Hs Hf; try lia.
  - cbn [parse_value]. pose proof (skip_ws_length s) as Hw.
    destruct (skip_ws s) as [|c t]; [done|]. cbn in Hw.
    destruct (Ascii.eqb c "[").
    { destruct (skip_ws t) as [|c' r']; [done|]. destruct (Ascii.eqb c' "]"); [done|].
      rewrite (IHv t f') by lia. destruct (parse_value f t) as [[v1 r1]|] eqn:E1; cbn; [|done].
      apply Sv in E1. by rewrite (IHe r1 f') by lia. }
    destruct (Ascii.eqb c "{").
    { destruct (skip_ws t) as [|c' r']; [done|]. destruct (Ascii.eqb c' "}"); [done|].
      rewrite (IHm t f') by lia. destruct (parse_member f t) as [[kv r1]|] eqn:E1; cbn; [|done].
      apply Sm in E1. by rewrite (IHms r1 f') by lia. }
    done.
  - cbn [parse_elems]. pose proof (skip_ws_length s) as Hw.
    destruct (skip_ws s) as [|c t]; [done|]. cbn in Hw.
    destruct (Ascii.eqb c "]"); [done|]. destruct (Ascii.eqb c ","); [|done].
    rewrite (IHv t f') by lia. destruct (parse_value f t) as [[v1 r1]|] eqn:E1; cbn; [|done].
    apply Sv in E1. by rewrite (IHe r1 f') by lia.
  - cbn [parse_member]. pose proof (skip_ws_length s) as Hw.
    destruct (skip_ws s) as [|c t]; [done|]. cbn in Hw. destruct (Ascii.eqb c "034"); [|done].
    destruct (parse_chars t) as [[k r1]|] eqn:E1; cbn; [|done]. apply parse_chars_length in E1.
    pose proof (skip_ws_length r1) as Hr1. destruct (skip_ws r1) as [|c' r2]; [done|]. cbn in Hr1.
    destruct (Ascii.eqb c' ":"); [|done]. by rewrite (IHv r2 f') by lia.
  - cbn [parse_members]. pose proof (skip_ws_length s) as Hw.
    destruct (skip_ws s) as [|c t]; [done|]. cbn in Hw.
    destruct (Ascii.eqb c "}"); [done|]. destruct (Ascii.eqb c ","); [|done].
    rewrite (IHm t f') by lia. destruct (parse_member f t) as [[kv r1]|] eqn:E1; cbn; [|done].
    apply Sm in E1. by rewrite (IHms r1 f') by lia.
Qed.

End Fuel.

Section CacheProps.

Lemma parse_serialize v t :
  canonb v = true -> serialize v = Some t -> json_parse (string_of_list_ascii t) = Some v.
Proof.
  intros Hc Ht. unfold json_parse. rewrite list_ascii_of_string_of_list_ascii.
  pose proof (serialize_parse_value v Hc t Ht (S (length t)) [] ltac:(lia) I) as H.
  rewrite app_nil_r in H. by rewrite H.
Qed.

(** The cache round trip, for [App]. *)
Lemma cache_roundtrip m :
  matrix_canonb m = true -> exists text, json_stringify m = Some text /\ read_heatmap_cache text = Some m.
Proof.
  intros Hm. destruct (serialize_canon _ (canonb_matrix_json m Hm)) as [t Ht].
  exists (string_of_list_ascii t). unfold json_stringify, read_heatmap_cache. rewrite Ht. split; [done|].
  rewrite (parse_serialize _ t (canonb_matrix_json m Hm) Ht). cbn. by apply matrix_of_json_matrix.
Qed.

End CacheProps.

(** [JSON.parse] reads back what [JSON.stringify] writes: for every
    JSON value whose numbers are integers, parsing its serialization
    gives the value itself (strings with quotes, backslashes and control
    characters, nested arrays and objects included). *)
Theorem json_parse_serialize (v : json) (t : list ascii) :
  canonb v = true -> serialize v = Some t -> json_parse (string_of_list_ascii t) = Some v.
Proof. apply parse_serialize. Qed.

Lemma json_parse_serialize_witness :
  json_parse (string_of_list_ascii (default [] (serialize sample_json))) = Some sample_json.
Proof. apply json_parse_serialize; vm_compute; reflexivity. Defined.

(** C11: the heatmap cache round trip: a matrix whose line counts and
    match counts are integers (or undefined) is written by
    [JSON.stringify] and read back by [JSON.parse] as the same matrix,
    cell by cell and field by field. *)
Theorem heatmap_cache_roundtrip (m : matrix) :
  matrix_canonb m = true -> exists text, json_stringify m = Some text /\ read_heatmap_cache text = Some m.
Proof. apply cache_roundtrip. Qed.

Lemma heatmap_cache_roundtrip_witness :
  matrix_canonb sample_compared = true /\
  exists text, json_stringify sample_compared = Some text /\ read_heatmap_cache text = Some sample_compared.
Proof. split; [vm_compute; reflexivity|apply heatmap_cache_roundtrip; vm_compute; reflexivity]. Defined.

(** [JSON.parse] never runs out of fuel: with any fuel above the
    length of the text, the parser gives the same answer as
    [json_parse], so its [None] is a [SyntaxError] and not a fuel
    artefact. *)
Theorem json_parse_fuel (text : string) (f : nat) :
  length (list_ascii_of_string text) < f ->
  json_parse text = '(v, r) ← parse_value f (list_ascii_of_string text);
                    match skip_ws r with [] => Some v | _ => None end.
Proof.
  intros Hf. unfold json_parse.
  by rewrite ((proj1 (parse_fuel (S (length (list_ascii_of_string text))))) _ f) by lia.
Qed.

Lemma json_parse_fuel_witness :
  json_parse " [1, [true, null, -2.5e1]] " =
  '(v, r) ← parse_value 100 (list_ascii_of_string " [1, [true, null, -2.5e1]] ");
                                       match skip_ws r with [] => Some v | _ => None end.
Proof. apply json_parse_fuel. vm_compute. lia. Defined.

(** A NaN line count does not survive the cache: for the sample, the
    heatmap built from the cache differs from the one of the run that
    wrote it (the ratios of the three cells are inverted and one cell gets
    the height -Infinity). *)
Example heatmap_cache_nan_loc :
  exists text m', json_stringify nan_compared = Some text /\ read_heatmap_cache text = Some m' /\
    augmentHeatmapMatrix m' <> augmentHeatmapMatrix nan_compared.
Proof.
  eexists _, _. split; [vm_compute; reflexivity|]. split; [vm_compute; reflexivity|].
  vm_compute. discriminate.
Qed.

(** C12: the cache does not keep NaN and the infinities: for every
    compared matrix whose finite numbers are integers, [JSON.stringify]
    succeeds and [readFileSync] with [JSON.parse] of what it wrote gives
    the same matrix with every NaN, [Infinity] and [-Infinity] (written
    as [null]) replaced by 0, the value the heatmap pass reads for
    [null]; every other field comes back unchanged. *)
Theorem heatmap_cache_nonfinite (m : matrix) :
  matrix_cacheb m = true ->
  exists text, json_stringify m = Some text /\
    read_heatmap_cache text = Some (map (map (option_map cell_cache)) m).
Proof.
  intros Hm. destruct (serialize_canon _ (canonb_matrix_json_cache m Hm)) as [t Ht].
  exists (string_of_list_ascii t). unfold json_stringify, read_heatmap_cache. rewrite Ht. split; [done|].
  rewrite (parse_serialize _ t (canonb_matrix_json_cache m Hm) Ht). cbn. by apply matrix_of_json_cache.
Qed.

Lemma heatmap_cache_nonfinite_witness :
  matrix_cacheb nan_compared = true /\
  exists text, json_stringify nan_compared = Some text /\
    read_heatmap_cache text = Some (map (map (option_map cell_cache)) nan_compared).
Proof. split; [vm_compute; reflexivity|apply heatmap_cache_nonfinite; vm_compute; reflexivity]. Defined.
