(* ===== verification/Collate.v ===== *)
(** * The numeric-aware collator and [Array.prototype.sort]

    [getVersions] (src/src/App.js) and [parseTags] (src/src/Importer.js)
    sort strings with [new Intl.Collator(undefined, {numeric: true,
    sensitivity: 'base'}).compare].  The collator belongs to the
    JavaScript runtime (ICU); it is the class [Collator] here, with the
    laws ECMA-262 asks of a consistent comparator ([CollatorLaws]):
    [compare(a, a) = 0], antisymmetry of the sign, and transitivity.

    [Array.prototype.sort] is stable (ECMA-262 since 2019), so with a
    consistent comparator its result is the unique stable sorted
    permutation of its input: the one stdpp's [merge_sort] computes
    ([js_sort]).  The collator the code builds is modelled in [Icu]
    ([icu_collator]).  Theorems: the result is a permutation of the input,
    sorted for the collator. *)

From Stdlib Require Import ZArith String.
From stdpp Require Import base list sorting.
From S2P Require Import Prelude.

(** [collator.compare]: negative, zero or positive. *)
Class Collator := collator_compare : string -> string -> Z.

(** A consistent comparator (ECMA-262, [SortCompare]). *)
Class CollatorLaws `{Collator} := {
  compare_refl a : collator_compare a a = 0%Z;
  compare_antisym a b : Z.sgn (collator_compare b a) = (- Z.sgn (collator_compare a b))%Z;
  compare_trans a b c :
    (collator_compare a b <= 0 -> collator_compare b c <= 0 -> collator_compare a c <= 0)%Z
}.

(** [a] sorts no later than [b]. *)
Definition coll_le `{Collator} (a b : string) : Prop := (collator_compare a b <= 0)%Z.

#[export] Instance coll_le_dec `{Collator} : RelDecision coll_le :=
  fun a b => Z_le_dec (collator_compare a b) 0.

(** [array.sort(collator.compare)]. *)
Definition js_sort `{Collator} (l : list string) : list string := merge_sort coll_le l.

(** A collator that orders by length: a consistent comparator for the
    examples. *)
Definition length_collator : Collator :=
  fun a b => (Z.of_nat (String.length a) - Z.of_nat (String.length b))%Z.

Section CollateProps.
Context `{CollatorLaws}.

#[export] Instance coll_le_total : Total coll_le.
Proof.
  intros a b. unfold coll_le. pose proof (compare_antisym a b) as Hs.
  destruct (Z_le_gt_dec (collator_compare a b) 0) as [|Hgt]; [by left|right].
  rewrite (Z.sgn_pos (collator_compare a b)) in Hs by lia. destruct (Z.sgn_spec (collator_compare b a)) as [[? ?]|[[? ?]|[? ?]]]; lia.
Qed.

#[export] Instance coll_le_trans : Transitive coll_le.
Proof. intros a b c. apply compare_trans. Qed.

Lemma js_sort_Permutation l : js_sort l ≡ₚ l.
Proof. apply merge_sort_Permutation. Qed.

Lemma js_sort_sorted l : StronglySorted coll_le (js_sort l).
Proof. apply StronglySorted_merge_sort; apply _. Qed.

End CollateProps.

#[export] Instance length_collator_laws : CollatorLaws (H := length_collator).
Proof.
  split; unfold collator_compare, length_collator; intros; [lia| |lia].
  rewrite <- Z.sgn_opp. f_equal. lia.
Qed.
