(* ===== verification/App.v ===== *)
(** * The pipeline of [App.run] (src/src/App.js)

    [run] lists the version directories ([getVersions]: [fs.readdir],
    drop a leading [.gitkeep], sort with the numeric collator), maps
    every version to its directory ([path.join(inputDir, version,
    inputSubDir)]), sets [total_comparisons = N (N - 1) / 2], reads the
    line counts ([parseClocCsv] of the cache file, or of the report cloc
    writes for [srcPath]), renders the barchart of [(version, lines)],
    then builds the comparison matrix ([createRichMatrix], then
    [augmentComparisonMatrix], or the cached JSON), writes it, runs
    [augmentHeatmapMatrix] and renders the heatmap.

    The file system, [path.join], the CSV and JSON decoders, cloc and the
    two comparators are the class [AppEnv]; the collator is
    [Collate.Collator].  [run_setup] is everything before the comparison
    (a function: [None] is the [TypeError] of [parseClocCsv]), and [run]
    is a relation: the comparison is any finished run of the batch step
    relation [Batch.bstep].  Rendering ([pug]) and the files written are
    outputs, not modelled beyond the data handed to them. *)

From Stdlib Require Import QArith Lqa ZArith String.
From stdpp Require Import base list gmap sorting strings.
From S2P Require Import Prelude JsNum Helpers Matrix Batch Parsers Json Collate.

Local Open Scope js_scope.

(** The options of [main.js] that [run] reads ([this.options]). *)
Record options := mkOptions {
  language : string;
  inputDir : string;
  inputSubDir : string;
  outputDir : string;
  useClocCache : bool;
  clocCacheFile : string;
  useHeatmapCache : bool;
  heatmapCacheFile : string
}.

(** What [run] takes from the runtime, the file system and the external
    tools. *)
Class AppEnv := {
  platform : string;                        (* process.platform *)
  readdir : string -> list string;          (* util.promisify(fs.readdir) *)
  path_join : list string -> string;        (* path.join *)
  read_csv : string -> list Cloc.csv_row;   (* parse(fs.readFileSync(file), {columns: true, ...}) *)
  cloc_rows : string -> list Cloc.csv_row;  (* the rows of output/cloc.csv once cloc ran on a source path *)
  read_json_matrix : string -> matrix;      (* JSON.parse(fs.readFileSync(file).toString()) *)
  compare_php : Comparator;                 (* compareVersionsPHP *)
  compare_js : Comparator                   (* compareVersionsJavaScript *)
}.

(** [getVersions] after [readdir]: [if (versions[0] === '.gitkeep')
    versions.shift()], then [versions.sort(collator.compare)]. *)
Definition getVersions `{Collator} (entries : list string) : list string :=
  js_sort (match entries with
           | v :: rest => if String.eqb v ".gitkeep" then rest else entries
           | [] => []
           end).

(** [this.versions.forEach(version => this.version_dir_map[version] =
    path.join(inputDir, version, inputSubDir))]. *)
Definition set_version_dirs `{AppEnv} (o : options) (dirs : gmap string string)
    (versions : list string) : gmap string string :=
  foldl (fun m v => <[v := path_join [inputDir o; v; inputSubDir o]]> m) dirs versions.

(** [(this.versions.length * (this.versions.length - 1)) / 2]. *)
Definition total_of (n : nat) : number :=
  let len := JFin (inject_Z (Z.of_nat n)) in (len ⊗ (len ⊖ JFin 1)) ⊘ JFin 2.

(** [inputDir + (inputSubDir ? `/**/${inputSubDir}/**` : '')]. *)
Definition srcPath (o : options) : string :=
  inputDir o ++ (if String.eqb (inputSubDir o) "" then "" else "/**/" ++ inputSubDir o ++ "/**").

(** A row of [chartData]: the header, or [[version, version_loc_map[version]]]. *)
Inductive chart_row :=
| ChartHeader (a b : string)
| ChartRow (version : string) (loc : option number).

(** The data [viewBarchart] hands to the template. *)
Definition viewBarchart_data (versions : list string) (loc_map : gmap string number) : list chart_row :=
  ChartHeader "jQuery version" "Lines of Code" :: map (fun v => ChartRow v (loc_map !! v)) versions.

(** [fn] of [augmentComparisonMatrix]: PHP or JavaScript by [language]. *)
Definition comparator_for `{AppEnv} (o : options) : Comparator :=
  if String.eqb (language o) "php" then compare_php else compare_js.

(** The fields of the [App] object once the line counts are read. *)
Record setup := mkSetup {
  versions : list string;
  version_dir_map : gmap string string;
  total_comparisons : number;
  version_loc_map : gmap string number;
  chart : list chart_row
}.

(** [run] up to [viewBarchart]; [None] when [parseClocCsv] throws. *)
Definition run_setup `{AppEnv} `{Collator} (o : options) : option setup :=
  let vs := getVersions (readdir (path_join ["./"; inputDir o])) in
  let dirs := set_version_dirs o ∅ vs in
  let rows := if useClocCache o then read_csv (clocCacheFile o) else cloc_rows (srcPath o) in
  loc ← Cloc.parseClocCsv platform rows;
  Some (mkSetup vs dirs (total_of (length vs)) loc (viewBarchart_data vs loc)).

(** What a run leaves: its setup, the matrix written to [heatmap.json]
    (none when it was read from the cache), the matrix handed to the
    heatmap view, and [this.processed]. *)
Record run_result := mkResult {
  run_state : setup;
  heatmap_json : option matrix;
  heatmap : matrix;
  processed_count : nat
}.

(** [run]: the comparison is any finished run of the batch runner. *)
Inductive run `{AppEnv} `{Collator} (o : options) : run_result -> Prop :=
| run_from_cache st :
    run_setup o = Some st -> useHeatmapCache o = true ->
    run o (mkResult st None (augmentHeatmapMatrix (read_json_matrix (heatmapCacheFile o))) 0)
| run_comparing st s :
    run_setup o = Some st -> useHeatmapCache o = false ->
    star (bstep (H := comparator_for o) (version_dir_map st))
         (binit (createRichMatrix (version_loc_map st) (versions st))) s ->
    bmode s = Finished ->
    run o (mkResult st (Some (bmatrix s)) (augmentHeatmapMatrix (bmatrix s)) (processed s)).

(** A sample environment: three directories and a [.gitkeep], the sample
    cloc rows of [Parsers], the sample comparator of [Batch]. *)
Definition sample_env : AppEnv := {|
  platform := "linux";
  readdir := fun _ => [".gitkeep"; "2.0"; "1.0"; "3.0.1"]%string;
  path_join := fun parts => String.concat "/" parts;
  read_csv := fun _ => sample_rows;
  cloc_rows := fun _ => sample_rows;
  read_json_matrix := fun _ => [];
  compare_php := batch_comparator;
  compare_js := batch_comparator
|}.

Definition sample_options : options :=
  mkOptions "php" "input" "src" "output" true "output/cloc.csv" false "output/heatmap.json".

(** The setup of the sample run. *)
Definition sample_setup : setup :=
  default (mkSetup [] ∅ (JFin 0) ∅ []) (@run_setup sample_env length_collator sample_options).

(** The batch run of the sample, under the FIFO schedule. *)
Definition sample_batch : bstate :=
  let m := createRichMatrix (version_loc_map sample_setup) (versions sample_setup) in
  @run_sched (@comparator_for sample_env sample_options) (version_dir_map sample_setup)
             (bmeasure (binit m)) (binit m).

Definition sample_run : run_result :=
  mkResult sample_setup (Some (bmatrix sample_batch)) (augmentHeatmapMatrix (bmatrix sample_batch))
           (processed sample_batch).

(** The options of [node main.js] without flags: commander's defaults
    ([--use-cloc-cache] and [--use-heatmap-cache] are [undefined],
    falsy). *)
Definition main_defaults : options :=
  mkOptions "php" "input" "input" "output" false "output/cloc.csv" false "output/heatmap.json".

(** The options of a second run that reads [heatmap.json] back
    ([--use-heatmap-cache]). *)
Definition with_heatmap_cache (o : options) : options :=
  mkOptions (language o) (inputDir o) (inputSubDir o) (outputDir o) (useClocCache o) (clocCacheFile o)
            true (heatmapCacheFile o).

(** The sample environment whose [heatmap.json] holds what the sample run
    wrote, read with [JSON.parse]. *)
Definition cache_env : AppEnv := {|
  platform := "linux";
  readdir := fun _ => [".gitkeep"; "2.0"; "1.0"; "3.0.1"]%string;
  path_join := fun parts => String.concat "/" parts;
  read_csv := fun _ => sample_rows;
  cloc_rows := fun _ => sample_rows;
  read_json_matrix := fun _ => default [] (json_stringify (bmatrix sample_batch) ≫= read_heatmap_cache);
  compare_php := batch_comparator;
  compare_js := batch_comparator
|}.

Definition cache_setup : setup :=
  default (mkSetup [] ∅ (JFin 0) ∅ []) (@run_setup cache_env length_collator sample_options).

Definition cache_batch : bstate :=
  let m := createRichMatrix (version_loc_map cache_setup) (versions cache_setup) in
  @run_sched (@comparator_for cache_env sample_options) (version_dir_map cache_setup)
             (bmeasure (binit m)) (binit m).

(** The first run, which compares and writes [heatmap.json]. *)
Definition cache_first_run : run_result :=
  mkResult cache_setup (Some (bmatrix cache_batch)) (augmentHeatmapMatrix (bmatrix cache_batch))
           (processed cache_batch).

(** The second run, which reads it back. *)
Definition cache_second_run : run_result :=
  mkResult cache_setup None
    (augmentHeatmapMatrix (@read_json_matrix cache_env (heatmapCacheFile (with_heatmap_cache sample_options)))) 0.

Section AppProps.

Lemma total_of_count (n p : nat) :
  2 * p = n * (n - 1) -> total_of n ≐ JFin (inject_Z (Z.of_nat p)).
Proof.
  intros Hp. unfold total_of.
  rewrite js_sub_fin, js_mul_fin, js_div_fin by (unfold Qeq; cbn; lia). cbn [jeq].
  assert (HZ : (2 * Z.of_nat p = Z.of_nat n * (Z.of_nat n - 1))%Z) by (destruct n; nia).
  unfold Qeq. cbn. nia.
Qed.

Lemma run_setup_fields `{AppEnv} `{Collator} (o : options) (st : setup) :
  run_setup o = Some st ->
  version_dir_map st = set_version_dirs o ∅ (versions st) /\
  total_comparisons st = total_of (length (versions st)).
Proof.
  unfold run_setup. destruct (Cloc.parseClocCsv _ _); cbn; [|done]. by intros [= <-].
Qed.

Lemma set_version_dirs_lookup `{AppEnv} (o : options) (dirs : gmap string string) (vs : list string) v :
  set_version_dirs o dirs vs !! v =
  if decide (v ∈ vs) then Some (path_join [inputDir o; v; inputSubDir o]) else dirs !! v.
Proof.
  revert dirs. induction vs as [|x vs IH]; intros dirs; cbn [set_version_dirs foldl].
  - rewrite decide_False; [done|apply not_elem_of_nil].
  - unfold set_version_dirs in IH. rewrite IH.
    destruct (decide (v ∈ vs)); [rewrite decide_True; [done|by apply elem_of_cons; right]|].
    destruct (decide (x = v)) as [<-|Hne].
    + rewrite lookup_insert_eq, decide_True; [done|apply elem_of_cons; by left].
    + rewrite lookup_insert_ne, decide_False by (done || rewrite elem_of_cons; intros [|]; congruence).
      done.
Qed.

(** Without [--input-sub-dir], cloc counts the subdirectories named
    [input] of every version ([input/**/input/**]), not its sources. *)
Lemma main_defaults_src_path : srcPath main_defaults = "input/**/input/**"%string.
Proof. reflexivity. Qed.

Lemma run_setup_with_heatmap_cache `{AppEnv} `{Collator} (o : options) :
  run_setup (with_heatmap_cache o) = run_setup o.
Proof. reflexivity. Qed.

End AppProps.

(** C3: a run that compares (no heatmap cache) ends, whatever the order
    in which the comparisons complete, with the heatmap of the
    specification's comparison matrix: every pair of versions with its
    count, through [augmentHeatmapMatrix]; [heatmap.json] holds that
    comparison matrix; and [this.processed] equals [total_comparisons],
    so the last progress line reads [N(N-1)/2 / N(N-1)/2]. *)
Theorem run_compared_result `{AppEnv} `{Collator} (o : options) (res : run_result) :
  run o res -> useHeatmapCache o = false ->
  exists st, run_setup o = Some st /\ run_state res = st /\
    heatmap_json res = Some (augmentComparisonMatrix_spec (H := comparator_for o) (version_dir_map st)
                               (createRichMatrix (version_loc_map st) (versions st))) /\
    heatmap res = augmentHeatmapMatrix (augmentComparisonMatrix_spec (H := comparator_for o)
                    (version_dir_map st) (createRichMatrix (version_loc_map st) (versions st))) /\
    total_comparisons st ≐ JFin (inject_Z (Z.of_nat (processed_count res))).
Proof.
  intros Hrun Hno. destruct Hrun as [st Hst Hc|st s Hst Hc Hstar Hfin]; [congruence|].
  exists st. cbn [run_state heatmap_json heatmap processed_count].
  destruct (inflight_inv_reachable _ _ s Hstar) as (_ & _ & _ & Htd & Hpd).
  destruct (run_inv_final _ _ s (run_inv_reachable _ _ s Hstar) (Htd (or_intror Hfin)) (Hpd Hfin))
    as (Hm & Hn & _).
  rewrite Hm, Hn. split_and!; try done.
  destruct (run_setup_fields o st Hst) as (_ & ->).
  apply total_of_count, createRichMatrix_populated_double.
Qed.

Lemma run_compared_result_witness :
  total_comparisons sample_setup ≐ JFin (inject_Z (Z.of_nat (processed_count sample_run))).
Proof.
  destruct (@run_compared_result sample_env length_collator sample_options sample_run)
    as (st & _ & Hst & _ & _ & Htot).
  - apply run_comparing; [vm_compute; reflexivity | reflexivity | apply run_sched_star | ].
    vm_compute. reflexivity.
  - reflexivity.
  - cbn [run_state sample_run] in Hst. by rewrite Hst.
Defined.

(** [run] returns: once the line counts are read, a run with this
    setup exists, with the heatmap cache or with the comparisons (the
    batch runner's FIFO schedule reaches its end). *)
Theorem run_returns `{AppEnv} `{Collator} (o : options) (st : setup) :
  run_setup o = Some st -> exists res, run o res /\ run_state res = st.
Proof.
  intros Hst. destruct (useHeatmapCache o) eqn:Hc.
  - eexists. split; [by apply run_from_cache|done].
  - set (m := createRichMatrix (version_loc_map st) (versions st)).
    set (s := run_sched (H := comparator_for o) (version_dir_map st) (bmeasure (binit m)) (binit m)).
    exists (mkResult st (Some (bmatrix s)) (augmentHeatmapMatrix (bmatrix s)) (processed s)).
    split; [|done]. apply run_comparing; [done|done|apply run_sched_star|].
    apply run_sched_finished; [apply inflight_inv_init|done].
Qed.

Lemma run_returns_witness :
  exists res, @run sample_env length_collator sample_options res /\ run_state res = sample_setup.
Proof. apply run_returns. vm_compute. reflexivity. Defined.

(** after [run]'s [forEach], [version_dir_map] maps exactly the
    versions, each to [path.join(inputDir, version, inputSubDir)]. *)
Theorem run_setup_dirs `{AppEnv} `{Collator} (o : options) (st : setup) :
  run_setup o = Some st ->
  forall v, version_dir_map st !! v =
    if decide (v ∈ versions st) then Some (path_join [inputDir o; v; inputSubDir o]) else None.
Proof.
  intros Hst v. destruct (run_setup_fields o st Hst) as (-> & _).
  rewrite set_version_dirs_lookup. by case_decide.
Qed.

Lemma run_setup_dirs_witness :
  version_dir_map sample_setup !! "2.0"%string = Some "input/2.0/src"%string.
Proof.
  rewrite (@run_setup_dirs sample_env length_collator sample_options sample_setup);
    [|vm_compute; reflexivity].
  vm_compute. reflexivity.
Defined.

(** [getVersions] returns the directory entries, without a first
    [.gitkeep], sorted for the collator: a sorted permutation. *)
Theorem getVersions_sorted `{CollatorLaws} (entries : list string) :
  StronglySorted coll_le (getVersions entries) /\
  getVersions entries ≡ₚ
    (if decide (head entries = Some ".gitkeep"%string) then tail entries else entries).
Proof.
  split; [apply js_sort_sorted|]. unfold getVersions. rewrite js_sort_Permutation.
  destruct entries as [|v rest]; [done|]. cbn [head tail].
  destruct (String.eqb_spec v ".gitkeep") as [->|Hne]; [by rewrite decide_True|].
  rewrite decide_False; [done|congruence].
Qed.

Lemma getVersions_sorted_witness :
  StronglySorted (@coll_le length_collator) (@getVersions length_collator ["2.0"; "1.0"; "10.0"]%string).
Proof. apply (@getVersions_sorted length_collator length_collator_laws). Defined.

(** Only a [.gitkeep] listed first is dropped: when [readdir] lists
    it later, it stays among the versions (and gets a directory, a row
    and a column). *)
Theorem getVersions_keeps_late_gitkeep `{Collator} (v : string) (rest : list string) :
  v <> ".gitkeep"%string -> ".gitkeep"%string ∈ rest -> ".gitkeep"%string ∈ getVersions (v :: rest).
Proof.
  intros Hv Hin. unfold getVersions. rewrite js_sort_Permutation.
  destruct (String.eqb_spec v ".gitkeep"); [done|]. by apply elem_of_cons; right.
Qed.

Lemma getVersions_keeps_late_gitkeep_witness :
  ".gitkeep"%string ∈ @getVersions length_collator ["1.0"; ".gitkeep"; "2.0"]%string.
Proof.
  apply getVersions_keeps_late_gitkeep; [discriminate|]. apply elem_of_cons. by left.
Defined.

(** the heatmap cache reproduces the run that wrote it: when the
    compared matrix has integer counts and [--heatmap-cache-file] holds
    the text [JSON.stringify] wrote for it, a second run with
    [--use-heatmap-cache] has the same setup and renders the same
    heatmap as the first. *)
Theorem cached_run_heatmap `{AppEnv} `{Collator} (o : options) (r1 r2 : run_result) (m : matrix) (text : string) :
  run o r1 -> heatmap_json r1 = Some m -> matrix_canonb m = true -> json_stringify m = Some text ->
  read_heatmap_cache text = Some (read_json_matrix (heatmapCacheFile o)) ->
  run (with_heatmap_cache o) r2 ->
  run_state r2 = run_state r1 /\ heatmap r2 = heatmap r1.
Proof.
  intros H1 Hj Hc Ht Hread H2.
  destruct H1 as [st Hst Hu|st s Hst Hu _ _]; [done|]. cbn in Hj |- *. injection Hj as <-.
  destruct H2 as [st' Hst' _|st' s' _ Hu' _ _]; [|done]. cbn.
  rewrite run_setup_with_heatmap_cache, Hst in Hst'. injection Hst' as <-. split; [done|].
  destruct (cache_roundtrip _ Hc) as (text' & Ht' & Hr'). rewrite Ht in Ht'. injection Ht' as <-.
  rewrite Hr' in Hread. injection Hread as <-. done.
Qed.

Lemma cached_run_heatmap_witness :
  run_state cache_second_run = run_state cache_first_run /\ heatmap cache_second_run = heatmap cache_first_run.
Proof.
  apply (@cached_run_heatmap cache_env length_collator sample_options cache_first_run cache_second_run
           (bmatrix cache_batch) (default "" (json_stringify (bmatrix cache_batch)))).
  - apply run_comparing; [vm_compute; reflexivity | reflexivity | apply run_sched_star | vm_compute; reflexivity].
  - reflexivity.
  - vm_compute. reflexivity.
  - vm_compute. reflexivity.
  - vm_compute. reflexivity.
  - apply run_from_cache; [vm_compute; reflexivity | reflexivity].
Defined.
