(* ===== verification/Importer.v ===== *)
(** * The tag importer (src/src/Importer.js, src/import.js)

    [node import.js <url>] clones tags of a Git repository: [run] lists
    the remote tags ([git ls-remote --tags <url>]) when [--list-tags] is
    given, and otherwise [import]s: [parseTags] reads the tags (the
    trimmed nonempty lines of [--tags-from-file], or the nonempty items
    of the comma-separated [--tags]), sorts them with the numeric
    collator, and [import] spawns [git clone --depth 1 --branch <tag>
    --single-branch <url> <tag>] for each, the command line split on
    spaces.  With neither option, [parseTags] throws.

    Here the spawned processes are the result (a list of [spawn]s), the
    file read is the class [ImporterEnv], and a thrown [Error] is [None].
    [String.prototype.split] on one character, [trim] (ASCII white space)
    and the truthiness of an option are written out.  Theorems: the
    configuration error, the tags read from a file (sorted, trimmed,
    nonempty), the exact [git clone] arguments for tags and URLs without
    spaces (from a split/join round trip), and the empty arguments an
    untrimmed [--tags] item produces. *)

From Stdlib Require Import ZArith String Ascii.
From stdpp Require Import base list sorting strings.
From S2P Require Import Prelude Parsers Collate.

(** [program.opts()] of [import.js] and the URL argument. *)
Record importer_options := mkImporterOptions {
  url : string;
  listTags : bool;
  outputDir : string;
  tags : option string;
  tagsFromFile : option string
}.

(** [fs.readFileSync(file, 'utf8')]. *)
Class ImporterEnv := read_file : string -> string.

(** A process [cp.spawn(cmd, args)]. *)
Record spawn := mkSpawn { cmd : string; args : list string }.

(** The truthiness of an option: [undefined] and [''] are falsy. *)
Definition str_truthy (o : option string) : bool :=
  match o with Some s => negb (String.eqb s "") | None => false end.

(** [s.split(c)] for a one-character separator: the pieces between the
    separators, [['']] for the empty string. *)
Fixpoint split_chars (c : ascii) (l : list ascii) : list (list ascii) :=
  match l with
  | [] => [[]]
  | x :: l' =>
      if Ascii.eqb x c then [] :: split_chars c l'
      else match split_chars c l' with
           | seg :: segs => (x :: seg) :: segs
           | [] => [[x]]
           end
  end.

Definition js_split (c : ascii) (s : string) : list string :=
  map string_of_list_ascii (split_chars c (list_ascii_of_string s)).

(** [s.trim()]: white space removed at both ends. *)
Definition js_trim (s : string) : string :=
  string_of_list_ascii
    (rev (ParseInt.trim_start (rev (ParseInt.trim_start (list_ascii_of_string s))))).

(** [filter(i => i)] on strings. *)
Definition nonempty (s : string) : bool := negb (String.eqb s "").

(** [parseTags]; [None] is the [Error] it throws. *)
Definition parseTags `{ImporterEnv} `{Collator} (o : importer_options) : option (list string) :=
  if str_truthy (tagsFromFile o) then
    Some (js_sort (filter (fun t => nonempty t = true)
                          (map js_trim (js_split "010"%char (read_file (default "" (tagsFromFile o)))))))
  else if str_truthy (tags o) then
    Some (js_sort (filter (fun t => nonempty t = true) (js_split ","%char (default "" (tags o)))))
  else None.

(** [`clone --depth 1 --branch ${tag} --single-branch ${url} ${tag}`.split(' ')]. *)
Definition clone_args (u tag : string) : list string :=
  js_split " "%char ("clone --depth 1 --branch " ++ tag ++ " --single-branch " ++ u ++ " " ++ tag).

(** [import]: one [git clone] per tag. *)
Definition import `{ImporterEnv} `{Collator} (o : importer_options) : option (list spawn) :=
  ts ← parseTags o;
  Some (map (fun t => mkSpawn "git" (clone_args (url o) t)) ts).

(** [listTags]: [`ls-remote --tags ${url}`.split(' ')]. *)
Definition listTags_spawn (o : importer_options) : spawn :=
  mkSpawn "git" (js_split " "%char ("ls-remote --tags " ++ url o)).

(** [run]. *)
Definition importer_run `{ImporterEnv} `{Collator} (o : importer_options) : option (list spawn) :=
  if listTags o then Some [listTags_spawn o] else import o.

(** [--tags "v1.0, v1.1"]: a space after the comma. *)
Definition spaced_options : importer_options :=
  mkImporterOptions "https://example.org/r.git" false "imported" (Some "v1.0, v1.1") None.

(** No white space at either end of a tag. *)
Definition trimmed (t : string) : Prop :=
  match list_ascii_of_string t with c :: _ => ParseInt.is_ws c = false | [] => True end /\
  match rev (list_ascii_of_string t) with c :: _ => ParseInt.is_ws c = false | [] => True end.

(** A tag file with a padded line and an empty line. *)
Definition sample_tag_file : ImporterEnv :=
  fun _ => String.concat (String "010" EmptyString) ["v1.0"; " v2.0 "; ""; "v1.1"]%string.

Definition file_options : importer_options :=
  mkImporterOptions "https://example.org/r.git" false "imported" None (Some "tags.txt").



Section SplitProps.

Lemma list_ascii_of_string_app s1 s2 :
  list_ascii_of_string (s1 ++ s2) = list_ascii_of_string s1 ++ list_ascii_of_string s2.
Proof. induction s1 as [|a s1 IH]; simpl; [done|]. by rewrite IH. Qed.

Lemma split_chars_app c seg l :
  c ∉ seg -> split_chars c (seg ++ c :: l) = seg :: split_chars c l.
Proof.
  induction seg as [|x seg IH]; intros Hc; cbn [app split_chars].
  - by rewrite Ascii.eqb_refl.
  - rewrite elem_of_cons in Hc. destruct (Ascii.eqb_spec x c) as [->|_]; [tauto|].
    rewrite IH; [done|]. intros ?; tauto.
Qed.

Lemma split_chars_single c seg : c ∉ seg -> split_chars c seg = [seg].
Proof.
  induction seg as [|x seg IH]; intros Hc; cbn [split_chars]; [done|].
  rewrite elem_of_cons in Hc. destruct (Ascii.eqb_spec x c) as [->|_]; [tauto|].
  rewrite IH; [done|]. intros ?; tauto.
Qed.

(** [segs.join(c).split(c)] gives back [segs] when no piece holds [c]. *)
Lemma js_split_join c (segs : list string) :
  segs <> [] -> Forall (fun s => c ∉ list_ascii_of_string s) segs ->
  js_split c (String.concat (String c EmptyString) segs) = segs.
Proof.
  intros Hne Hsegs. unfold js_split.
  induction Hsegs as [|s segs Hs Hsegs IH]; [done|].
  destruct segs as [|s' segs].
  - cbn [String.concat]. rewrite split_chars_single by done. cbn. by rewrite string_of_list_ascii_of_string.
  - change (String.concat (String c EmptyString) (s :: s' :: segs))
      with (s ++ String c EmptyString ++ String.concat (String c EmptyString) (s' :: segs))%string.
    rewrite !list_ascii_of_string_app. cbn [list_ascii_of_string app].
    rewrite split_chars_app by done. cbn [map]. rewrite string_of_list_ascii_of_string.
    f_equal. by apply IH.
Qed.

End SplitProps.

Section TrimProps.
Import ParseInt.

Lemma trim_start_lead l :
  match trim_start l with c :: _ => is_ws c = false | [] => True end.
Proof.
  induction l as [|c l IH]; cbn [trim_start]; [done|].
  destruct (is_ws c) eqn:E; [done|]. exact E.
Qed.

Lemma trim_start_suffix l : exists p, l = p ++ trim_start l.
Proof.
  induction l as [|c l (p & Hp)]; cbn [trim_start]; [by exists []|].
  destruct (is_ws c); [exists (c :: p); cbn; by f_equal|by exists []].
Qed.

(** [trim] leaves no white space at either end. *)
Lemma js_trim_trimmed s : trimmed (js_trim s).
Proof.
  unfold trimmed, js_trim. rewrite list_ascii_of_string_of_list_ascii, rev_involutive.
  split; [|apply trim_start_lead].
  destruct (trim_start_suffix (rev (trim_start (list_ascii_of_string s)))) as (p & Hp).
  apply (f_equal (@rev ascii)) in Hp. rewrite rev_involutive, rev_app_distr in Hp.
  pose proof (trim_start_lead (list_ascii_of_string s)) as Hl. rewrite Hp in Hl.
  destruct (rev (trim_start (rev (trim_start (list_ascii_of_string s))))); [done|exact Hl].
Qed.

End TrimProps.

(** the importer fails, before spawning anything, exactly when
    neither [--list-tags] nor a nonempty [--tags-from-file] or [--tags]
    is given: [parseTags] throws "You need to define the --tags or the
    --tags-from-file option.". *)
Theorem importer_run_error `{ImporterEnv} `{Collator} (o : importer_options) :
  importer_run o = None <->
  listTags o = false /\ str_truthy (tagsFromFile o) = false /\ str_truthy (tags o) = false.
Proof.
  unfold importer_run, import, parseTags.
  destruct (listTags o), (str_truthy (tagsFromFile o)), (str_truthy (tags o)); cbn;
    split; intros Hr; try done; by destruct Hr as (? & ? & ?).
Qed.

Lemma importer_run_error_witness :
  @importer_run sample_tag_file length_collator
    (mkImporterOptions "https://example.org/r.git" false "imported" (Some "") None) = None.
Proof. apply importer_run_error. split_and!; reflexivity. Defined.

(** with a tag file, the tags are its lines, trimmed, without the
    empty ones, sorted for the collator: every tag is nonempty and has
    no white space at either end. *)
Theorem parseTags_from_file `{ImporterEnv} `{CollatorLaws} (o : importer_options) (f : string) :
  tagsFromFile o = Some f -> f <> ""%string ->
  exists ts, parseTags o = Some ts /\ StronglySorted coll_le ts /\
    ts ≡ₚ filter (fun t => nonempty t = true) (map js_trim (js_split "010"%char (read_file f))) /\
    Forall (fun t => t <> ""%string /\ trimmed t) ts.
Proof.
  intros Hf Hne. unfold parseTags. rewrite Hf. cbn [str_truthy default].
  apply String.eqb_neq in Hne. rewrite Hne. cbn [negb].
  eexists. split_and!; [reflexivity|apply js_sort_sorted|apply js_sort_Permutation|].
  apply Forall_forall. intros t Ht. rewrite js_sort_Permutation in Ht.
  apply list_elem_of_filter in Ht as (Hnt & Hin). apply list_elem_of_fmap in Hin as (s & -> & _).
  split; [|apply js_trim_trimmed]. unfold nonempty in Hnt.
  intros Heq. rewrite Heq in Hnt. done.
Qed.

Lemma parseTags_from_file_witness :
  exists ts, @parseTags sample_tag_file length_collator file_options = Some ts /\
    StronglySorted (@coll_le length_collator) ts /\
    ts ≡ₚ filter (fun t => nonempty t = true)
            (map js_trim (js_split "010"%char (@read_file sample_tag_file "tags.txt"))) /\
    Forall (fun t => t <> ""%string /\ trimmed t) ts.
Proof.
  apply (@parseTags_from_file sample_tag_file length_collator length_collator_laws file_options "tags.txt");
    [reflexivity|discriminate].
Defined.

(** for a tag and a URL without spaces, [import] runs exactly
    [git clone --depth 1 --branch <tag> --single-branch <url> <tag>]:
    splitting the command line on spaces gives back its words. *)
Theorem clone_args_exact (u tag : string) :
  " "%char ∉ list_ascii_of_string u -> " "%char ∉ list_ascii_of_string tag ->
  clone_args u tag = ["clone"; "--depth"; "1"; "--branch"; tag; "--single-branch"; u; tag]%string.
Proof.
  intros Hu Ht. unfold clone_args.
  change ("clone --depth 1 --branch " ++ tag ++ " --single-branch " ++ u ++ " " ++ tag)%string
    with (String.concat (String " " EmptyString)
            ["clone"; "--depth"; "1"; "--branch"; tag; "--single-branch"; u; tag])%string.
  apply js_split_join; [done|].
  repeat constructor; try done; intros Hin; apply list_elem_of_In in Hin; cbn in Hin; intuition discriminate.
Qed.

Lemma clone_args_exact_witness :
  clone_args "https://example.org/r.git" "v1.0" =
  ["clone"; "--depth"; "1"; "--branch"; "v1.0"; "--single-branch"; "https://example.org/r.git"; "v1.0"]%string.
Proof.
  apply clone_args_exact; intros Hin; apply list_elem_of_In in Hin; cbn in Hin; intuition discriminate.
Defined.

(** An item of [--tags] is not trimmed: [--tags "v1.0, v1.1"] clones
    [v1.0], then runs [git clone] with an empty [--branch] argument and
    an empty directory argument for [" v1.1"]. *)
Example importer_spaced_tags :
  @importer_run (fun _ => ""%string) length_collator spaced_options =
  Some [mkSpawn "git" ["clone"; "--depth"; "1"; "--branch"; "v1.0"; "--single-branch";
                       "https://example.org/r.git"; "v1.0"];
        mkSpawn "git" ["clone"; "--depth"; "1"; "--branch"; ""; "v1.1"; "--single-branch";
                       "https://example.org/r.git"; ""; "v1.1"]]%string.
Proof. vm_compute. reflexivity. Qed.

