(* ===== verification/Icu.v ===== *)
(** * The collator of [getVersions] and [parseTags]: ICU at primary strength

    [new Intl.Collator(undefined, {numeric: true, sensitivity: 'base'})]
    (src/src/App.js, [getVersions]; src/src/Importer.js, [parseTags]) is
    the ICU collator of the runtime's default locale, whose rules for
    ASCII are those of the root collation (CLDR).  With [sensitivity:
    'base'] only the primary weights count, so case does not matter; with
    [numeric: true] a maximal run of decimal digits is one collation
    element weighted by its numeric value (leading zeros do not count).
    The primary order of the root collation puts white space,
    punctuation and symbols first (in the order [variable_order]), then
    the digits, then the letters; the control characters are ignorable.

    Here a string is mapped to its primary collation elements
    ([icu_keys], a left-to-right scan accumulating digit runs) and two
    strings compare as the lexicographic order of their elements
    ([icu_compare]); [icu_collator] is the [Collator] of [Collate].

    Theorems: [icu_collator] is a consistent comparator
    ([icu_collator_laws]); on dotted numeric versions it is the
    lexicographic order of their numbers ([icu_compare_versions]), so
    [getVersions] orders such versions numerically; a version sorts
    before every version that extends it with [-tag], the opposite of
    Semantic Versioning's pre-release order.

    Bytes above 127 are outside the ASCII table of the root collation:
    they get weights after the letters in byte order, which ICU does not
    use (non-ASCII text is UTF-16 in JavaScript).  ICU splits digit runs
    longer than 254 digits; that bound is not modelled. *)

From Stdlib Require Import ZArith NArith String Ascii.
From stdpp Require Import base list sorting.
From S2P Require Import Prelude Collate App Importer.

(** A primary collation element: its group (0 for white space,
    punctuation and symbols, 1 for a number, 2 for a letter, 3 for a byte
    outside ASCII) and its weight within the group. *)
Record ckey := CKey { ck_group : nat; ck_weight : N }.

Definition ckey_compare (x y : ckey) : comparison :=
  match Nat.compare (ck_group x) (ck_group y) with
  | Eq => N.compare (ck_weight x) (ck_weight y)
  | c => c
  end.

(** The lexicographic order of two lists of elements: a proper prefix
    comes first. *)
Fixpoint lex_compare {A} (cmp : A -> A -> comparison) (l1 l2 : list A) : comparison :=
  match l1, l2 with
  | [], [] => Eq
  | [], _ :: _ => Lt
  | _ :: _, [] => Gt
  | x :: l1', y :: l2' => match cmp x y with Eq => lex_compare cmp l1' l2' | c => c end
  end.

(** The white space, punctuation and symbols of ASCII in the primary
    order of the root collation. *)
Definition variable_order : list ascii :=
  ["009"; "010"; "011"; "012"; "013"; " "; "_"; "-"; ","; ";"; ":"; "!"; "?"; ".";
   "'"; "034"; "("; ")"; "["; "]"; "{"; "}"; "@"; "*"; "/"; "\"; "&"; "#"; "%";
   "`"; "^"; "+"; "<"; "="; ">"; "|"; "~"; "$"]%char.

Fixpoint index_of (c : ascii) (l : list ascii) : option nat :=
  match l with
  | [] => None
  | d :: l' => if Ascii.eqb c d then Some 0 else S <$> index_of c l'
  end.

Definition is_digit (c : ascii) : bool := (48 <=? nat_of_ascii c) && (nat_of_ascii c <=? 57).
Definition digit_value (c : ascii) : N := N.of_nat (nat_of_ascii c - 48).

(** The primary element of a character that is not a digit: none for an
    ignorable control character. *)
Definition char_key (c : ascii) : list ckey :=
  let n := nat_of_ascii c in
  match index_of c variable_order with
  | Some i => [CKey 0 (N.of_nat i)]
  | None =>
      if (65 <=? n) && (n <=? 90) then [CKey 2 (N.of_nat (n - 65))]
      else if (97 <=? n) && (n <=? 122) then [CKey 2 (N.of_nat (n - 97))]
      else if 128 <=? n then [CKey 3 (N.of_nat n)]
      else []
  end.

(** The number of the digit run read so far, if any. *)
Definition flush (acc : option N) : list ckey :=
  match acc with Some v => [CKey 1 v] | None => [] end.

Definition push_digit (acc : option N) (c : ascii) : option N :=
  Some (10 * default 0%N acc + digit_value c)%N.

(** The scan of a string: digits accumulate into a number, any other
    character ends the run. *)
Fixpoint keys_from (acc : option N) (cs : list ascii) : list ckey :=
  match cs with
  | [] => flush acc
  | c :: cs' =>
      if is_digit c then keys_from (push_digit acc c) cs'
      else flush acc ++ char_key c ++ keys_from None cs'
  end.

Definition icu_keys (s : string) : list ckey := keys_from None (list_ascii_of_string s).

Definition icu_compare (a b : string) : comparison := lex_compare ckey_compare (icu_keys a) (icu_keys b).

(** [collator.compare]: -1, 0 or 1. *)
Definition icu_collator : Collator := fun a b =>
  match icu_compare a b with Lt => (-1)%Z | Eq => 0%Z | Gt => 1%Z end.

(** ** The reference order of dotted numeric versions *)

(** The pieces of a text between its dots. *)
Fixpoint split_dots (cs : list ascii) : list (list ascii) :=
  match cs with
  | [] => [[]]
  | c :: cs' =>
      let r := split_dots cs' in
      if Ascii.eqb c "." then [] :: r
      else match r with p :: ps => (c :: p) :: ps | [] => [[c]] end
  end.

(** A nonempty run of decimal digits and its value. *)
Definition digits_num (p : list ascii) : option N :=
  if negb (bool_decide (p = [])) && forallb is_digit p
  then Some (fold_left (fun v c => 10 * v + digit_value c)%N p 0%N) else None.

(** ["1.10.2"] is [[1; 10; 2]]; [None] for anything else. *)
Definition version_nums (s : string) : option (list N) :=
  mapM digits_num (split_dots (list_ascii_of_string s)).

(** The text of its pieces joined by dots, and the collation elements of
    a dotted version: the inverses the proofs use. *)
Fixpoint join_dots (ps : list (list ascii)) : list ascii :=
  match ps with
  | [] => []
  | [p] => p
  | p :: ps' => p ++ "."%char :: join_dots ps'
  end.

Definition dot_key : ckey := CKey 0 13.

Definition version_keys (ns : list N) : list ckey :=
  match ns with
  | [] => []
  | n :: ns' => CKey 1 n :: mjoin (map (fun m => [dot_key; CKey 1 m]) ns')
  end.

(** ** The lexicographic order *)

Section LexCompare.
Context {A : Type} (cmp : A -> A -> comparison).
Hypothesis cmp_eq : forall x y, cmp x y = Eq -> x = y.
Hypothesis cmp_refl : forall x, cmp x x = Eq.
Hypothesis cmp_opp : forall x y, cmp y x = CompOpp (cmp x y).
Hypothesis cmp_lt_trans : forall x y z, cmp x y = Lt -> cmp y z = Lt -> cmp x z = Lt.

Lemma lex_compare_refl l : lex_compare cmp l l = Eq.
Proof. induction l as [|x l IH]; cbn; [done|]. by rewrite cmp_refl. Qed.

Lemma lex_compare_eq l1 l2 : lex_compare cmp l1 l2 = Eq -> l1 = l2.
Proof.
  revert l2. induction l1 as [|x l1 IH]; intros [|y l2]; cbn; try done.
  destruct (cmp x y) eqn:E; try done. intros ?%IH. f_equal; [by apply cmp_eq|done].
Qed.

Lemma lex_compare_opp l1 l2 : lex_compare cmp l2 l1 = CompOpp (lex_compare cmp l1 l2).
Proof.
  revert l2. induction l1 as [|x l1 IH]; intros [|y l2]; cbn; try done.
  rewrite (cmp_opp x y). destruct (cmp x y); cbn; auto.
Qed.

Lemma lex_compare_lt_trans l1 l2 l3 :
  lex_compare cmp l1 l2 = Lt -> lex_compare cmp l2 l3 = Lt -> lex_compare cmp l1 l3 = Lt.
Proof.
  revert l2 l3. induction l1 as [|x l1 IH]; intros [|y l2] [|z l3]; cbn; try done.
  intros H1 H2. destruct (cmp x y) eqn:Exy; try done.
  - apply cmp_eq in Exy as ->. destruct (cmp y z); try done. by apply (IH l2).
  - destruct (cmp y z) eqn:Eyz; try done.
    + apply cmp_eq in Eyz as ->. by rewrite Exy.
    + by rewrite (cmp_lt_trans x y z).
Qed.

(** A proper prefix comes first. *)
Lemma lex_compare_prefix l x r : lex_compare cmp l (l ++ x :: r) = Lt.
Proof. induction l as [|y l IH]; cbn; [done|]. by rewrite cmp_refl. Qed.

End LexCompare.

(** ** The primary elements *)

Section Keys.

Lemma ckey_compare_eq x y : ckey_compare x y = Eq -> x = y.
Proof.
  destruct x as [g v], y as [g' v']. unfold ckey_compare; cbn.
  destruct (Nat.compare_spec g g'); try done. subst. by intros ->%N.compare_eq.
Qed.

Lemma ckey_compare_refl x : ckey_compare x x = Eq.
Proof. destruct x. unfold ckey_compare; cbn. by rewrite Nat.compare_refl, N.compare_refl. Qed.

Lemma ckey_compare_opp x y : ckey_compare y x = CompOpp (ckey_compare x y).
Proof.
  destruct x as [g v], y as [g' v']. unfold ckey_compare; cbn.
  rewrite (Nat.compare_antisym g g'), (N.compare_antisym v v'). by destruct (g ?= g')%nat.
Qed.

Lemma ckey_compare_lt_trans x y z :
  ckey_compare x y = Lt -> ckey_compare y z = Lt -> ckey_compare x z = Lt.
Proof.
  destruct x as [g1 v1], y as [g2 v2], z as [g3 v3]. unfold ckey_compare; cbn.
  destruct (Nat.compare_spec g1 g2), (Nat.compare_spec g2 g3), (Nat.compare_spec g1 g3);
    try done; try lia; subst; rewrite ?N.compare_lt_iff; lia.
Qed.

Lemma icu_compare_refl a : icu_compare a a = Eq.
Proof. apply lex_compare_refl, ckey_compare_refl. Qed.

Lemma icu_compare_opp a b : icu_compare b a = CompOpp (icu_compare a b).
Proof. apply lex_compare_opp, ckey_compare_opp. Qed.

(** Strings with the same elements compare alike with every string. *)
Lemma icu_compare_eq_keys a b : icu_compare a b = Eq -> icu_keys a = icu_keys b.
Proof. apply lex_compare_eq, ckey_compare_eq. Qed.

Lemma icu_compare_lt_trans a b c : icu_compare a b = Lt -> icu_compare b c = Lt -> icu_compare a c = Lt.
Proof. apply lex_compare_lt_trans; [apply ckey_compare_eq|apply ckey_compare_lt_trans]. Qed.

Lemma icu_collator_le a b : (@collator_compare icu_collator a b <= 0)%Z <-> icu_compare a b <> Gt.
Proof. unfold collator_compare, icu_collator. destruct (icu_compare a b); split; done || lia. Qed.

End Keys.

(** [icu_collator] is a consistent comparator. *)
#[export] Instance icu_collator_laws : CollatorLaws (H := icu_collator).
Proof.
  split.
  - intros a. unfold collator_compare, icu_collator. by rewrite icu_compare_refl.
  - intros a b. unfold collator_compare, icu_collator. rewrite icu_compare_opp. by destruct (icu_compare a b).
  - intros a b c. rewrite !icu_collator_le. intros Hab Hbc.
    destruct (icu_compare a b) eqn:Eab; [| |done].
    + apply icu_compare_eq_keys in Eab. unfold icu_compare in *. by rewrite Eab.
    + destruct (icu_compare b c) eqn:Ebc; [| |done].
      * apply icu_compare_eq_keys in Ebc. unfold icu_compare in *. by rewrite <- Ebc, Eab.
      * by rewrite (icu_compare_lt_trans a b c).
Qed.

(** ** Dotted numeric versions *)

Section Versions.

Lemma split_dots_nonnil cs : split_dots cs <> [].
Proof. induction cs as [|c cs IH]; cbn; [done|]. case_match; [done|]. by case_match. Qed.

Lemma join_dots_cons c p ps : join_dots ((c :: p) :: ps) = c :: join_dots (p :: ps).
Proof. by destruct ps. Qed.

Lemma join_split_dots cs : join_dots (split_dots cs) = cs.
Proof.
  induction cs as [|c cs IH]; [done|]. cbn [split_dots].
  destruct (split_dots cs) as [|p ps] eqn:Es; [by apply split_dots_nonnil in Es|].
  destruct (Ascii.eqb c ".") eqn:E.
  - apply Ascii.eqb_eq in E as ->. cbv zeta iota.
    change (join_dots ([] :: p :: ps)) with ("."%char :: join_dots (p :: ps)). by rewrite IH.
  - cbv zeta iota. by rewrite join_dots_cons, IH.
Qed.

Lemma keys_digits acc p rest :
  forallb is_digit p = true -> keys_from acc (p ++ rest) = keys_from (fold_left push_digit p acc) rest.
Proof.
  revert acc. induction p as [|c p IH]; intros acc Hp; [done|].
  apply andb_true_iff in Hp as [Hc Hp]. cbn. rewrite Hc. by apply IH.
Qed.

Lemma fold_push_digit p v :
  fold_left push_digit p (Some v) = Some (fold_left (fun v c => 10 * v + digit_value c)%N p v).
Proof. revert v. induction p as [|c p IH]; intros v; [done|]. apply IH. Qed.

Lemma digits_num_keys p v rest : digits_num p = Some v -> keys_from None (p ++ rest) = keys_from (Some v) rest.
Proof.
  unfold digits_num. destruct p as [|c p]; [done|]. rewrite bool_decide_eq_false_2 by done.
  destruct (forallb is_digit (c :: p)) eqn:Hd; [|done]. intros [= <-].
  rewrite keys_digits by done. cbn [fold_left]. by rewrite <- fold_push_digit.
Qed.

Lemma keys_dot v rest : keys_from (Some v) ("."%char :: rest) = CKey 1 v :: dot_key :: keys_from None rest.
Proof. reflexivity. Qed.

Lemma keys_pieces ps ns :
  Forall2 (fun p n => digits_num p = Some n) ps ns -> keys_from None (join_dots ps) = version_keys ns.
Proof.
  induction 1 as [|p n ps ns Hp Hps IH]; [done|]. destruct Hps as [|q m ps' ns' Hq Hrest].
  - cbn [join_dots]. rewrite <- (app_nil_r p), (digits_num_keys p n) by done. done.
  - change (join_dots (p :: q :: ps')) with (p ++ "."%char :: join_dots (q :: ps')).
    by rewrite (digits_num_keys p n), keys_dot, IH.
Qed.

Lemma icu_keys_version s ns : version_nums s = Some ns -> icu_keys s = version_keys ns.
Proof.
  unfold version_nums, icu_keys. intros Hs%mapM_Some.
  rewrite <- (join_split_dots (list_ascii_of_string s)). by apply keys_pieces.
Qed.

Lemma lex_version_tail l1 l2 :
  lex_compare ckey_compare (mjoin (map (fun m => [dot_key; CKey 1 m]) l1))
    (mjoin (map (fun m => [dot_key; CKey 1 m]) l2)) = lex_compare N.compare l1 l2.
Proof.
  revert l2. induction l1 as [|a l1 IH]; intros [|b l2]; cbn; try done.
  destruct (N.compare a b); [apply IH|done|done].
Qed.

Lemma lex_version_keys l1 l2 :
  lex_compare ckey_compare (version_keys l1) (version_keys l2) = lex_compare N.compare l1 l2.
Proof.
  destruct l1 as [|a l1], l2 as [|b l2]; cbn; try done.
  destruct (N.compare a b); [apply lex_version_tail|done|done].
Qed.

Lemma icu_compare_version_nums a b ns1 ns2 :
  version_nums a = Some ns1 -> version_nums b = Some ns2 -> icu_compare a b = lex_compare N.compare ns1 ns2.
Proof. intros Ha Hb. unfold icu_compare. by rewrite (icu_keys_version a ns1), (icu_keys_version b ns2), lex_version_keys. Qed.

End Versions.

Section Sorting.

(** A character that is not a digit ends the scan of what precedes it. *)
Lemma keys_app_sep acc cs c rest :
  is_digit c = false -> keys_from acc (cs ++ c :: rest) = keys_from acc cs ++ char_key c ++ keys_from None rest.
Proof.
  revert acc. induction cs as [|d cs IH]; intros acc Hc; cbn; [by rewrite Hc|].
  destruct (is_digit d); [by apply IH|]. by rewrite IH, <- !app_assoc.
Qed.

Lemma StronglySorted_weaken_Forall {A} (R R' : relation A) (P : A -> Prop) l :
  (forall x y, P x -> P y -> R x y -> R' x y) -> Forall P l -> StronglySorted R l -> StronglySorted R' l.
Proof.
  intros HR HP HS. induction HS as [|x l HS IH Hx]; [constructor|].
  apply Forall_cons in HP as [Px Pl]. constructor; [by apply IH|].
  rewrite Forall_forall in Hx, Pl |- *. intros y Hy. apply HR; auto.
Qed.

(** No dotted version is [.gitkeep]: [getVersions] only sorts them. *)
Lemma getVersions_versions `{Collator} entries :
  Forall (fun e => is_Some (version_nums e)) entries -> getVersions entries = js_sort entries.
Proof.
  destruct entries as [|e rest]; [done|]. intros [He _]%Forall_cons. unfold getVersions.
  destruct (String.eqb e ".gitkeep") eqn:E; [|done]. apply String.eqb_eq in E as ->.
  destruct He as [? He]. discriminate He.
Qed.

End Sorting.

(** C19: On dotted numeric versions ([1.10.2]: runs of decimal digits
    joined by dots) the collator's [compare] is the lexicographic order
    of their lists of numbers: -1, 0 or 1 as that order says [<], [=] or
    [>]; so [1.2] sorts before [1.10], and [1.02] ties with [1.2]. *)
Theorem icu_compare_versions (a b : string) (ns1 ns2 : list N) :
  version_nums a = Some ns1 -> version_nums b = Some ns2 ->
  @collator_compare icu_collator a b =
    match lex_compare N.compare ns1 ns2 with Lt => (-1)%Z | Eq => 0%Z | Gt => 1%Z end.
Proof. intros Ha Hb. unfold collator_compare, icu_collator. by rewrite (icu_compare_version_nums a b ns1 ns2). Qed.

(** C20: [getVersions] with the runtime's collator returns the directory
    entries, when they are dotted numeric versions, as a permutation
    sorted by their lists of numbers: the numeric-aware order of the
    specification, not the lexical one. *)
Theorem getVersions_numeric_order (entries : list string) :
  Forall (fun e => is_Some (version_nums e)) entries ->
  @getVersions icu_collator entries ≡ₚ entries /\
  StronglySorted (fun a b => exists ns1 ns2, version_nums a = Some ns1 /\ version_nums b = Some ns2 /\
                               lex_compare N.compare ns1 ns2 <> Gt) (@getVersions icu_collator entries).
Proof.
  intros Hv. rewrite getVersions_versions by done. split; [apply js_sort_Permutation|].
  apply (StronglySorted_weaken_Forall (@coll_le icu_collator) _ (fun e => is_Some (version_nums e))).
  - intros a b [ns1 Ha] [ns2 Hb] Hab%icu_collator_le. exists ns1, ns2.
    by rewrite <- (icu_compare_version_nums a b ns1 ns2).
  - by rewrite js_sort_Permutation.
  - apply js_sort_sorted.
Qed.

(** C21: A version sorts before every version that extends it with
    [-tag]: [1.0.0] comes before [1.0.0-beta], where Semantic Versioning
    orders a pre-release before its release. *)
Theorem icu_release_before_prerelease (v t : string) : icu_compare v (v ++ String "-" t)%string = Lt.
Proof.
  unfold icu_compare, icu_keys. rewrite list_ascii_of_string_app. cbn [list_ascii_of_string].
  rewrite keys_app_sep by reflexivity. change (char_key "-") with [CKey 0 7].
  apply lex_compare_prefix, ckey_compare_refl.
Qed.

(** The specification's example, and a release with its pre-release. *)
Remark getVersions_spec_example :
  @getVersions icu_collator ["1.10"; "1.0"; "1.2"]%string = ["1.0"; "1.2"; "1.10"]%string /\
  @getVersions icu_collator ["1.0.0-beta"; "1.0.0"]%string = ["1.0.0"; "1.0.0-beta"]%string.
Proof. split; vm_compute; reflexivity. Qed.

Lemma icu_compare_versions_witness :
  version_nums "1.10" = Some [1%N; 10%N] /\ version_nums "1.2" = Some [1%N; 2%N] /\
  @collator_compare icu_collator "1.10" "1.2" = 1%Z.
Proof.
  refine (conj eq_refl (conj eq_refl _)).
  exact (icu_compare_versions "1.10" "1.2" [1%N; 10%N] [1%N; 2%N] eq_refl eq_refl).
Defined.

Lemma getVersions_numeric_order_witness :
  @getVersions icu_collator ["1.10"; "1.0"; "1.2"]%string ≡ₚ ["1.10"; "1.0"; "1.2"]%string /\
  StronglySorted (fun a b => exists ns1 ns2, version_nums a = Some ns1 /\ version_nums b = Some ns2 /\
                               lex_compare N.compare ns1 ns2 <> Gt)
    (@getVersions icu_collator ["1.10"; "1.0"; "1.2"]%string).
Proof. apply getVersions_numeric_order. repeat constructor; eexists; reflexivity. Defined.
