(* ===== verification/Phpcpd.v ===== *)
(** * The phpcpd comparator of [App.compareVersionsPHP] (src/src/App.js)

    [compareVersionsPHP] runs phpcpd on two directories and reads the
    number of duplicated lines from its text report:
    [content.match(/(.*?)% duplicated lines.*?(\d+)/)], then
    [Math.round(match[2] / 100 * match[1])], or 0 (after logging the
    report) when the regex does not match.  Both groups are strings, so
    the arithmetic applies ECMAScript's [ToNumber] to them
    ([StringToNumber]).

    This file holds [StringToNumber] on ASCII ([str_to_number]: white
    space trimmed at both ends, the empty string is 0, decimal literals
    with sign, fraction and exponent, [Infinity], [0x]/[0o]/[0b]
    integers, NaN otherwise), the leftmost-match semantics of the regex
    ([php_search]: [.] does not match a line terminator, both [.*?] are
    lazy, [\d+] is greedy), the count [php_count], and the two
    comparators of [App.js] as instances of [Batch.Comparator] built on
    the reports of the tools ([php_comparator], [js_comparator]).

    Theorems: the report line [P% duplicated lines out of N total lines
    of code.] after a header without [%] gives [Math.round(N / 100 * P)];
    a report without [%] gives 0; and a percentage preceded by other text
    on its line makes the count NaN instead of the 0 the failure policy
    promises. *)

From Stdlib Require Import QArith Lqa ZArith String Ascii.
From stdpp Require Import base list strings.
From S2P Require Import Prelude JsNum Batch Parsers.

Local Open Scope js_scope.

Module ToNumber.
Import ParseInt.

(** The longest prefix of radix-[R] digits and what follows it. *)
Fixpoint take_digits (R : nat) (l : list ascii) : list nat * list ascii :=
  match l with
  | c :: l' =>
      match radix_digit R c with
      | Some d => let '(ds, rest) := take_digits R l' in (d :: ds, rest)
      | None => ([], l)
      end
  | [] => ([], [])
  end.

(** [TrimString(S, start+end)]. *)
Definition trim (l : list ascii) : list ascii := rev (trim_start (rev (trim_start l))).

Definition chars (s : string) : list ascii := list_ascii_of_string s.

(** [StrNonDecimalIntegerLiteral]: [0x], [0o] or [0b] and at least one
    digit, the whole string. *)
Definition non_decimal (l : list ascii) : option number :=
  match l with
  | c0 :: c1 :: l' =>
      let R := if Ascii.eqb c0 "0" then
                 if Ascii.eqb c1 "x" || Ascii.eqb c1 "X" then 16
                 else if Ascii.eqb c1 "o" || Ascii.eqb c1 "O" then 8
                 else if Ascii.eqb c1 "b" || Ascii.eqb c1 "B" then 2 else 0
               else 0 in
      if R =? 0 then None
      else match take_digits R l' with
           | ((_ :: _) as ds, []) => Some (JFin (inject_Z (digits_value R ds)))
           | _ => None
           end
  | _ => None
  end.

(** [ExponentPart]: [e] or [E], an optional sign, at least one digit,
    the rest of the string. *)
Definition exponent (l : list ascii) : option Z :=
  match l with
  | [] => Some 0%Z
  | e :: l' =>
      if Ascii.eqb e "e" || Ascii.eqb e "E" then
        let '(neg, l'') := match l' with
                           | c :: l2 => if Ascii.eqb c "-" then (true, l2)
                                        else if Ascii.eqb c "+" then (false, l2) else (false, l')
                           | [] => (false, [])
                           end in
        match take_digits 10 l'' with
        | ((_ :: _) as ds, []) => Some ((if neg then -1 else 1) * digits_value 10 ds)%Z
        | _ => None
        end
      else None
  end.

(** [StrUnsignedDecimalLiteral]: [Infinity], or digits with an optional
    fraction (at least one digit in all) and an optional exponent. *)
Definition unsigned_decimal (l : list ascii) : option number :=
  if list_eq_dec l (chars "Infinity") then Some (JInf true)
  else
    let '(ds1, r1) := take_digits 10 l in
    let '(ds2, r2) := match r1 with
                      | c :: r => if Ascii.eqb c "." then take_digits 10 r else ([], r1)
                      | [] => ([], [])
                      end in
    if (length ds1 + length ds2 =? 0) then None
    else match exponent r2 with
         | Some e =>
             Some (JFin (inject_Z (digits_value 10 (ds1 ++ ds2)) /
                         inject_Z (10 ^ Z.of_nat (length ds2)) * Qpower (inject_Z 10) e))
         | None => None
         end.

(** [StringToNumber] on ASCII text. *)
Definition str_to_number (s : list ascii) : number :=
  let t := trim s in
  match t with
  | [] => JFin 0
  | c :: t' =>
      match non_decimal t with
      | Some v => v
      | None =>
          let '(neg, u) := if Ascii.eqb c "-" then (true, t')
                           else if Ascii.eqb c "+" then (false, t') else (false, t) in
          match unsigned_decimal u with
          | Some v => if neg then js_neg v else v
          | None => JNaN
          end
      end
  end.

End ToNumber.

Module PhpRegex.
Import ParseInt.

(** The line terminators [.] does not match (their ASCII part). *)
Definition is_lt (c : ascii) : bool := Ascii.eqb c "010" || Ascii.eqb c "013".

Definition is_digit (c : ascii) : bool :=
  match radix_digit 10 c with Some _ => true | None => false end.

Definition lit_dup : list ascii := list_ascii_of_string "% duplicated lines".

(** The longest prefix whose characters satisfy [p]. *)
Fixpoint take_while (p : ascii -> bool) (l : list ascii) : list ascii :=
  match l with c :: l' => if p c then c :: take_while p l' else [] | [] => [] end.

(** [.*?(\d+)]: the first digit on the line, then the longest run of
    digits. *)
Fixpoint after_dup (t : list ascii) : option (list ascii) :=
  match t with
  | [] => None
  | c :: t' =>
      if is_digit c then Some (c :: take_while is_digit t')
      else if is_lt c then None else after_dup t'
  end.

(** The match from one start position: [(.*?)] grows one character at a
    time (never past a line terminator) until [% duplicated lines]
    follows and the rest of the pattern matches after it; [acc] is group
    1 read so far, reversed. *)
Fixpoint try_at (acc : list ascii) (s : list ascii) : option (list ascii * list ascii) :=
  match s with
  | [] => None
  | c :: s' =>
      match (if list_eq_dec (firstn (length lit_dup) s) lit_dup
             then after_dup (skipn (length lit_dup) s) else None) with
      | Some g2 => Some (rev acc, g2)
      | None => if is_lt c then None else try_at (c :: acc) s'
      end
  end.

(** The leftmost start position that matches: groups 1 and 2. *)
Fixpoint php_search (s : list ascii) : option (list ascii * list ascii) :=
  match try_at [] s with
  | Some r => Some r
  | None => match s with [] => None | _ :: s' => php_search s' end
  end.

End PhpRegex.

(** The callback of [compareVersionsPHP] on the report [content]:
    [Math.round(match[2] / 100 * match[1])], or 0 without a match. *)
Definition php_count (content : string) : number :=
  match PhpRegex.php_search (list_ascii_of_string content) with
  | Some (g1, g2) =>
      of_int (math_round ((ToNumber.str_to_number g2 ⊘ JFin 100) ⊗ ToNumber.str_to_number g1))
  | None => JFin 0
  end.

(** [compareVersionsPHP] as the comparator of the batch runner, given the
    report phpcpd writes for two directories. *)
Definition php_comparator (phpcpd_report : option string -> option string -> string) : Comparator :=
  fun left right => php_count (phpcpd_report left right).

(** [compareVersionsJavaScript], given the decoded jsinspect report. *)
Definition js_comparator (jsinspect_report : option string -> option string -> list JsInspect.jmatch)
    : Comparator :=
  fun left right => JsInspect.jsinspect_count (jsinspect_report left right).

(** A phpcpd 6 report. *)
Definition sample_report_text : string :=
  String.concat (String "010" EmptyString)
    ["phpcpd 6.0.3 by Sebastian Bergmann."; "";
     "Found 2 clones with 48 duplicated lines in 2 files:"; "";
     "1.23% duplicated lines out of 3896 total lines of code.";
     "Average size of duplication is 24 lines, largest clone has 31 of lines"]%string.

(** A report whose percentage uses a decimal comma. *)
Definition comma_report_text : string :=
  String.concat (String "010" EmptyString)
    ["phpcpd 6.0.3 by Sebastian Bergmann."; "";
     "1,23% duplicated lines out of 3896 total lines of code."]%string.

Section RegexProps.
Import ParseInt PhpRegex.

Lemma lit_dup_head s : firstn (length lit_dup) s = lit_dup -> head s = Some "%"%char.
Proof. destruct s as [|c s]; [done|]. cbn. by intros [= -> _]. Qed.

(** Without [%], no match starts before the end of the line. *)
Lemma try_at_no_percent_line acc h X :
  "%"%char ∉ h -> try_at acc (h ++ "010"%char :: X) = None.
Proof.
  revert acc. induction h as [|c h IH]; intros acc Hh; cbn [app try_at].
  - destruct (list_eq_dec _ _) as [Hd|]; [by apply lit_dup_head in Hd|]. done.
  - rewrite elem_of_cons in Hh.
    destruct (list_eq_dec _ _) as [Hd|]; [apply lit_dup_head in Hd; cbn in Hd; injection Hd as ->; exfalso; apply HP || apply Hh; by left|].
    destruct (is_lt c); [done|]. apply IH. tauto.
Qed.

(** A header line without [%] is skipped by the search. *)
Lemma php_search_skip_line h X :
  "%"%char ∉ h -> php_search (h ++ "010"%char :: X) = php_search X.
Proof.
  induction h as [|c h IH]; intros Hh;
    pose proof (try_at_no_percent_line [] _ X Hh) as Ht; cbn [app php_search] in *; rewrite Ht; [done|].
  apply IH. intros ?; apply Hh, elem_of_cons; by right.
Qed.

(** On the percentage line, group 1 is everything before
    [% duplicated lines]. *)
Lemma try_at_line acc P Y g :
  "%"%char ∉ P -> Forall (fun c => is_lt c = false) P -> after_dup Y = Some g ->
  try_at acc (P ++ lit_dup ++ Y) = Some (rev acc ++ P, g).
Proof.
  revert acc. induction P as [|c P IH]; intros acc HP Hlt Hg; cbn [app].
  - assert (Hf : firstn (length lit_dup) (lit_dup ++ Y) = lit_dup)
      by (rewrite firstn_app, Nat.sub_diag, firstn_all; apply app_nil_r).
    assert (Hs : skipn (length lit_dup) (lit_dup ++ Y) = Y)
      by (rewrite skipn_app, Nat.sub_diag, skipn_all; reflexivity).
    change (lit_dup ++ Y) with ("%"%char :: (list_ascii_of_string " duplicated lines" ++ Y)).
    cbn [try_at].
    change ("%"%char :: (list_ascii_of_string " duplicated lines" ++ Y)) with (lit_dup ++ Y).
    rewrite Hf, Hs. destruct (list_eq_dec lit_dup lit_dup); [|done]. by rewrite Hg, app_nil_r.
  - cbn [try_at]. rewrite elem_of_cons in HP. apply Forall_cons in Hlt as (Hc & Hlt).
    destruct (list_eq_dec _ _) as [Hd|]; [apply lit_dup_head in Hd; cbn in Hd; injection Hd as ->; exfalso; apply HP || apply Hh; by left|].
    rewrite Hc, IH; [|intros ?; tauto|done|done]. cbn [rev]. by rewrite <- app_assoc.
Qed.

Lemma is_digit_char d : d < 10 -> is_digit (digit_char d) = true.
Proof. intros Hd. unfold is_digit, radix_digit. rewrite digit_val_char by done. destruct (Nat.ltb_spec d 10); [done|lia]. Qed.

Lemma take_while_digits ds rest :
  Forall (fun d => d < 10) ds -> (match rest with c :: _ => is_digit c = false | [] => True end) ->
  take_while is_digit (map digit_char ds ++ rest) = map digit_char ds.
Proof.
  intros Hds Hr. induction Hds as [|d ds Hd _ IH]; cbn [map app take_while].
  - destruct rest as [|c rest]; [done|]. cbn [take_while]. by rewrite Hr.
  - by rewrite is_digit_char, IH.
Qed.

End RegexProps.

Section ToNumberProps.
Import ParseInt ToNumber PhpRegex.

Lemma take_digits_app ds rest :
  Forall (fun d => d < 10) ds -> (match rest with c :: _ => radix_digit 10 c = None | [] => True end) ->
  take_digits 10 (map digit_char ds ++ rest) = (ds, rest).
Proof.
  intros Hds Hr. induction Hds as [|d ds Hd _ IH]; cbn [map app take_digits].
  - destruct rest as [|c rest]; [done|]. cbn [take_digits]. by rewrite Hr.
  - unfold radix_digit at 1. rewrite digit_val_char by done.
    destruct (Nat.ltb_spec d 10); [|lia]. by rewrite IH.
Qed.

Lemma trim_start_id l : Forall (fun c => is_ws c = false) l -> trim_start l = l.
Proof. intros Hl. destruct Hl as [|c l Hc _]; cbn [trim_start]; [done|]. by rewrite Hc. Qed.

Lemma trim_id l : Forall (fun c => is_ws c = false) l -> trim l = l.
Proof.
  intros Hl. unfold trim. rewrite (trim_start_id l Hl), trim_start_id; [apply rev_involutive|].
  by apply Forall_rev.
Qed.

Lemma digit_chars_ok ds :
  Forall (fun d => d < 10) ds ->
  Forall (fun c => is_ws c = false /\ is_lt c = false /\ c <> "%"%char /\ radix_digit 10 c <> None)
         (map digit_char ds).
Proof.
  intros Hds. apply Forall_map. eapply Forall_impl; [exact Hds|]. intros d Hd.
  do 10 (destruct d as [|d]; [vm_compute; split_and!; done|]). lia.
Qed.

(** The second character of a decimal literal rules out [0x], [0o], [0b]. *)
Lemma non_decimal_dec c0 c1 l :
  (digit_val c1 = None \/ exists d, digit_val c1 = Some d /\ d < 10) ->
  non_decimal (c0 :: c1 :: l) = None.
Proof.
  intros H. unfold non_decimal. destruct (Ascii.eqb c0 "0"); [|reflexivity].
  assert (Hne : forall k, digit_val k = Some 33 \/ digit_val k = Some 24 \/ digit_val k = Some 11 ->
                          Ascii.eqb c1 k = false).
  { intros k Hk. destruct (Ascii.eqb_spec c1 k) as [->|]; [|done]. exfalso.
    destruct H as [H|(d & H & Hd)]; rewrite H in Hk;
      destruct Hk as [Hk|[Hk|Hk]]; try discriminate; injection Hk; lia. }
  rewrite !Hne by (vm_compute; auto). reflexivity.
Qed.

Lemma Forall_chars_app {P : ascii -> Prop} l1 l2 : Forall P l1 -> Forall P l2 -> Forall P (l1 ++ l2).
Proof. intros. by apply Forall_app. Qed.

(** A literal that starts with a digit and is no [0x]/[0o]/[0b] literal
    is read by [unsigned_decimal]. *)
Lemma str_to_number_unsigned d0 l :
  d0 < 10 -> Forall (fun c => is_ws c = false) (digit_char d0 :: l) ->
  non_decimal (digit_char d0 :: l) = None ->
  str_to_number (digit_char d0 :: l) =
  match unsigned_decimal (digit_char d0 :: l) with Some v => v | None => JNaN end.
Proof.
  intros Hd0 Hws Hnd. destruct (digit_char_not_sign d0 Hd0) as (Hm & Hp & _).
  unfold str_to_number. rewrite trim_id by done. by rewrite Hnd, Hm, Hp.
Qed.

Lemma not_infinity d0 l : d0 < 10 -> digit_char d0 :: l <> chars "Infinity".
Proof.
  intros Hd0 E. injection E as E _. apply (f_equal digit_val) in E.
  rewrite digit_val_char in E by done. vm_compute in E. injection E. lia.
Qed.

(** The chars of a decimal literal that starts with a digit. *)
Lemma decimal_chars_ok ds1 rest :
  Forall (fun d => d < 10) ds1 -> Forall (fun c => is_ws c = false) rest ->
  Forall (fun c => is_ws c = false) (map digit_char ds1 ++ rest).
Proof.
  intros H1 Hr. apply Forall_app. split; [|done].
  eapply Forall_impl; [exact (digit_chars_ok ds1 H1)|]. naive_solver.
Qed.

Lemma non_decimal_digits d0 d1 l :
  d1 < 10 -> non_decimal (digit_char d0 :: digit_char d1 :: l) = None.
Proof. intros Hd1. apply non_decimal_dec. right. exists d1. by rewrite digit_val_char. Qed.

(** [ToNumber] of digits, a point and digits. *)
Lemma str_to_number_decimal ds1 ds2 :
  ds1 <> [] -> Forall (fun d => d < 10) ds1 -> Forall (fun d => d < 10) ds2 ->
  str_to_number (map digit_char ds1 ++ "."%char :: map digit_char ds2) ≐
  JFin (inject_Z (digits_value 10 (ds1 ++ ds2)) / inject_Z (10 ^ Z.of_nat (length ds2))).
Proof.
  intros Hne H1 H2.
  assert (Hws : Forall (fun c => is_ws c = false) (map digit_char ds1 ++ "."%char :: map digit_char ds2)).
  { apply decimal_chars_ok; [done|]. constructor; [reflexivity|].
    eapply Forall_impl; [exact (digit_chars_ok ds2 H2)|]. naive_solver. }
  destruct ds1 as [|d0 ds1']; [done|]. pose proof (Forall_inv H1) as Hd0. cbv beta in Hd0.
  cbn [map app] in Hws |- *. rewrite str_to_number_unsigned; [|done|done|].
  2:{ destruct ds1' as [|d1 ds1'']; cbn [map app]; [by apply non_decimal_dec; left|].
      apply non_decimal_digits. inversion H1 as [|? ? _ H1']. by inversion H1'. }
  unfold unsigned_decimal. destruct (list_eq_dec _ _) as [E|_]; [by apply not_infinity in E|].
  change (digit_char d0 :: map digit_char ds1' ++ "."%char :: map digit_char ds2)
    with (map digit_char (d0 :: ds1') ++ "."%char :: map digit_char ds2).
  rewrite take_digits_app by (done || reflexivity). rewrite Ascii.eqb_refl.
  rewrite <- (app_nil_r (map digit_char ds2)), take_digits_app by done. cbn [length].
  cbn [exponent Nat.eqb Nat.add]. cbn [jeq Qpower]. apply Qmult_1_r.
Qed.

(** [ToNumber] of decimal digits. *)
Lemma str_to_number_digits ns :
  ns <> [] -> Forall (fun d => d < 10) ns ->
  str_to_number (map digit_char ns) ≐ JFin (inject_Z (digits_value 10 ns)).
Proof.
  intros Hne Hns.
  assert (Hws : Forall (fun c => is_ws c = false) (map digit_char ns ++ [])) by (by apply decimal_chars_ok).
  rewrite app_nil_r in Hws.
  destruct ns as [|n0 ns']; [done|]. pose proof (Forall_inv Hns) as Hn0. cbv beta in Hn0.
  cbn [map] in Hws |- *. rewrite str_to_number_unsigned; [|done|done|].
  2:{ destruct ns' as [|n1 ns'']; cbn [map]; [reflexivity|].
      apply non_decimal_digits. inversion Hns as [|? ? _ Hns']. by inversion Hns'. }
  unfold unsigned_decimal. destruct (list_eq_dec _ _) as [E|_]; [by apply not_infinity in E|].
  change (digit_char n0 :: map digit_char ns') with (map digit_char (n0 :: ns')).
  rewrite <- (app_nil_r (map digit_char (n0 :: ns'))), take_digits_app by done.
  cbn [length Nat.add Nat.eqb exponent].
  cbn [jeq Qpower]. rewrite app_nil_r. change (inject_Z (10 ^ Z.of_nat 0)) with 1%Q. field.
Qed.

End ToNumberProps.

Section CountProps.
Import ParseInt ToNumber PhpRegex.

Lemma php_search_unfold s :
  php_search s = match try_at [] s with
                 | Some r => Some r
                 | None => match s with [] => None | _ :: s' => php_search s' end
                 end.
Proof. by destruct s. Qed.

Lemma try_at_no_percent acc s : "%"%char ∉ s -> try_at acc s = None.
Proof.
  revert acc. induction s as [|c s IH]; intros acc Hs; cbn [try_at]; [done|].
  destruct (list_eq_dec _ _) as [Hd|].
  { apply lit_dup_head in Hd. cbn in Hd. injection Hd as ->. exfalso. apply Hs. by left. }
  destruct (is_lt c); [done|]. apply IH. intros ?; apply Hs; by right.
Qed.

(** Text without digits or line terminators is skipped by [.*?]. *)
Lemma after_dup_skip l X :
  Forall (fun c => is_digit c = false /\ is_lt c = false) l -> after_dup (l ++ X) = after_dup X.
Proof. induction 1 as [|c l [Hd Hl] _ IH]; cbn [app after_dup]; [done|]. by rewrite Hd, Hl. Qed.

Lemma after_dup_count ns rest :
  ns <> [] -> Forall (fun d => d < 10) ns ->
  after_dup (chars " out of " ++ map digit_char ns ++ chars " total lines of code." ++ rest) =
  Some (map digit_char ns).
Proof.
  intros Hne Hns. rewrite after_dup_skip by (repeat constructor).
  destruct ns as [|n0 ns']; [done|]. inversion Hns as [|? ? Hn0 Hns']; subst.
  cbn [map app after_dup]. rewrite is_digit_char by done.
  by rewrite take_while_digits.
Qed.

End CountProps.

(** C26: on a phpcpd report whose percentage line [P% duplicated lines
    out of N total lines of code.] follows header lines without [%], with
    [P] a decimal [d.dd] and [N] an integer, [compareVersionsPHP]
    resolves to [Math.round(N / 100 * P)]. *)
Theorem php_count_report (header : list ascii) (ds1 ds2 ns : list nat) (rest : list ascii) :
  "%"%char ∉ header -> ds1 <> [] -> ns <> [] -> Forall (fun d => d < 10) (ds1 ++ ds2 ++ ns) ->
  php_count (string_of_list_ascii
    (header ++ "010"%char ::
       (map ParseInt.digit_char ds1 ++ "."%char :: map ParseInt.digit_char ds2) ++
       PhpRegex.lit_dup ++ ToNumber.chars " out of " ++ map ParseInt.digit_char ns ++
       ToNumber.chars " total lines of code." ++ rest)) =
  of_int (math_round (JFin (inject_Z (ParseInt.digits_value 10 ns) / 100 *
    (inject_Z (ParseInt.digits_value 10 (ds1 ++ ds2)) / inject_Z (10 ^ Z.of_nat (length ds2)))))).
Proof.
  intros Hh Hne1 Hne3 Hall. apply Forall_app in Hall as (H1 & Hall). apply Forall_app in Hall as (H2 & H3).
  unfold php_count. rewrite list_ascii_of_string_of_list_ascii, php_search_skip_line by done.
  rewrite php_search_unfold, (try_at_line [] _ _ (map ParseInt.digit_char ns)).
  3:{ apply Forall_app. split; [eapply Forall_impl; [exact (digit_chars_ok ds1 H1)|]; naive_solver|].
      constructor; [reflexivity|]. eapply Forall_impl; [exact (digit_chars_ok ds2 H2)|]. naive_solver. }
  2:{ rewrite elem_of_app, elem_of_cons. pose proof (digit_chars_ok ds1 H1) as C1.
      pose proof (digit_chars_ok ds2 H2) as C2. rewrite !Forall_forall in C1, C2.
      intros [Hin|[Hin|Hin]]; [by apply C1 in Hin as (_ & _ & ? & _)|discriminate|].
      by apply C2 in Hin as (_ & _ & ? & _). }
  2:{ by apply after_dup_count. }
  cbn [rev app]. f_equal. apply math_round_proper.
  rewrite (str_to_number_digits ns Hne3 H3), (str_to_number_decimal ds1 ds2 Hne1 H1 H2).
  rewrite js_div_fin by (unfold Qeq; cbn; lia). cbn [js_mul jeq].
  assert (~ inject_Z (10 ^ Z.of_nat (length ds2)) == 0).
  { assert (0 < 10 ^ Z.of_nat (length ds2))%Z by (apply Z.pow_pos_nonneg; lia).
    unfold Qeq. cbn [Qnum Qden inject_Z]. lia. }
  field. done.
Qed.

Lemma php_count_report_witness :
  php_count (string_of_list_ascii
    (ToNumber.chars "phpcpd 6.0.3 by Sebastian Bergmann." ++ "010"%char ::
       (map ParseInt.digit_char [1] ++ "."%char :: map ParseInt.digit_char [2; 3]) ++
       PhpRegex.lit_dup ++ ToNumber.chars " out of " ++ map ParseInt.digit_char [3; 8; 9; 6] ++
       ToNumber.chars " total lines of code." ++ [])) =
  of_int (math_round (JFin (inject_Z (ParseInt.digits_value 10 [3; 8; 9; 6]) / 100 *
    (inject_Z (ParseInt.digits_value 10 ([1] ++ [2; 3])) / inject_Z (10 ^ Z.of_nat (length [2; 3])))))).
Proof.
  apply php_count_report; [|discriminate|discriminate|repeat constructor; lia].
  apply (bool_decide_unpack _). vm_compute. reflexivity.
Defined.

(** A report without [%] (phpcpd found nothing to report, or failed)
    gives the count 0 of the [else] branch. *)
Theorem php_count_no_percent (content : string) :
  "%"%char ∉ list_ascii_of_string content -> php_count content = JFin 0.
Proof.
  intros Hc. unfold php_count.
  assert (PhpRegex.php_search (list_ascii_of_string content) = None) as ->; [|done].
  induction (list_ascii_of_string content) as [|c s IH]; cbn [PhpRegex.php_search];
    rewrite try_at_no_percent by done; [done|].
  apply IH. intros ?; apply Hc; by right.
Qed.

Lemma php_count_no_percent_witness :
  php_count "No clones found."%string = JFin 0.
Proof. apply php_count_no_percent. apply (bool_decide_unpack _). vm_compute. reflexivity. Defined.

(** A percentage with a decimal comma ([1,23%]) matches the regex but
    is no number: the count is NaN, not the 0 the failure policy gives
    to an output that does not parse. *)
Example php_count_decimal_comma : php_count comma_report_text = JNaN.
Proof. vm_compute. reflexivity. Qed.
