(* ===== verification/Compare.v ===== *)
(** * The comparison task of [compareVersions] and the tool command lines
    (src/src/App.js)

    [compareVersionsJavaScript] and [compareVersionsPHP] build the
    command line of jsinspect ([npx jsinspect ...]) or phpcpd
    ([php ... vendor/bin/phpcpd ...]), spawn it and hand the process to
    [compareVersions], which creates a temporary file
    ([tmp.fileSync()]), pipes the process's stdout into it
    ([spawn.stdout.pipe(fs.createWriteStream(tmpFile.name))]) and, on the
    process's ['exit'] event, runs the callback: read the file, compute
    the count, [tmpFile.removeCallback()], [resolve(count)].
    [calculateLinesOfCode] spawns cloc with [shell: true] and [debug]
    prints a padded title.

    The task is a small step relation [tstep] over [task]: the pipe moves
    the chunks the tool wrote into the temporary file one at a time
    ([tstep_flush]), and the ['exit'] event runs the callback on the file
    as it is at that moment ([tstep_exit]).  Node.js emits ['exit'] when
    the process ends, whether or not its stdout has been drained into
    the file: both steps are enabled until the pipe is empty.  The
    callback is a function of the file's text to its [outcome] and
    whether it reached [removeCallback]: [php_callback] (the count of
    [Phpcpd.php_count]) and [js_callback] ([JSON.parse] of [Json], then
    the loops over [match.instances] and [instance.lines] with the
    conversions and [TypeError]s of JavaScript, then
    [JsInspect.jsinspect_count]).

    The decoding of the parsed jsinspect report is [jsinspect_of_json],
    in the result type [jsres]: a value, a thrown [TypeError], or
    [JOutside] for a value whose conversion the model leaves out (an array
    inside [lines], a string or object used as [lines]). *)

From Stdlib Require Import QArith ZArith String Ascii.
From stdpp Require Import base list strings.
From S2P Require Import Prelude JsNum Matrix Batch Parsers Json Collate App Importer Phpcpd.

Local Open Scope js_scope.

(** ** Command lines *)

Definition dquote : string := String "034" EmptyString.

(** [args] of [compareVersionsJavaScript]. *)
Definition jsinspect_args (left right : string) : list string :=
  ["jsinspect"; "-r"; "json"; "-m"; "2"; "-t"; "30";
   "--ignore"; dquote ++ "test|dist" ++ dquote;
   "--no-identifiers"; "--no-literals"; "--truncate"; "0"; left; right]%string.

(** [/^win/.test(process.platform) ? 'npx.cmd' : 'npx']. *)
Definition npx_command (platform : string) : string :=
  if String.prefix "win" platform then "npx.cmd" else "npx".

Definition jsinspect_spawn (platform left right : string) : spawn :=
  mkSpawn (npx_command platform) (jsinspect_args left right).

(** [args] of [compareVersionsPHP]. *)
Definition phpcpd_args (left right : string) : list string :=
  ["-d"; "memory_limit=512M"; "vendor/bin/phpcpd"; "--min-lines"; "5"; "--min-tokens"; "70";
   left; right]%string.

Definition phpcpd_spawn (left right : string) : spawn := mkSpawn "php" (phpcpd_args left right).

(** [clocArgs] of [calculateLinesOfCode]. *)
Definition cloc_args `{AppEnv} (o : options) (directory : string) : list string :=
  [if String.eqb (language o) "php" then "--force-lang=PHP,php" else "--force-lang=Javascript,js";
   directory; "--skip-uniqueness"; "--csv"; "--out"; path_join [App.outputDir o; "cloc.csv"]; "--by-file"]%string.

(** With [shell: true], Node.js runs the command line [file] followed by
    the arguments, joined by spaces, through the shell. *)
Definition cloc_command_line `{AppEnv} (o : options) (directory : string) : string :=
  String.concat " " ("cloc" :: cloc_args o directory).

(** [str.padEnd(n, ' ')]. *)
Definition pad_end (s : string) (n : nat) : string :=
  s ++ string_of_list_ascii (repeat " "%char (n - String.length s)).

(** The line [debug(type, message)] prints. *)
Definition debug_line (type message : string) : string :=
  pad_end ("[" ++ type ++ "]") 16 ++ " " ++ message.

(** ** The jsinspect report as the callback reads it *)

Inductive jsres (A : Type) := JOk (a : A) | JThrow | JOutside.
Arguments JOk {A} a.
Arguments JThrow {A}.
Arguments JOutside {A}.

#[export] Instance jsres_ret : MRet jsres := fun A a => JOk a.
#[export] Instance jsres_bind : MBind jsres := fun A B f r =>
  match r with JOk a => f a | JThrow => JThrow | JOutside => JOutside end.
#[export] Instance jsres_fmap : FMap jsres := fun A B f r =>
  match r with JOk a => JOk (f a) | JThrow => JThrow | JOutside => JOutside end.

(** [ToNumber] of an element of [lines]. *)
Definition json_to_number (v : json) : jsres number :=
  match v with
  | JSNum q => JOk (JFin q)
  | JSNull => JOk (JFin 0)
  | JSBool b => JOk (JFin (if b then 1 else 0))
  | JSStr s => JOk (ToNumber.str_to_number (list_ascii_of_string s))
  | JSObj _ => JOk JNaN
  | JSArr _ => JOutside
  end.

(** [instance.lines]: [lines[0]] and [lines[1]] are read; a number or a
    boolean has no index ([undefined], NaN); [null] and [undefined] throw. *)
Definition instance_of_json (v : json) : jsres JsInspect.instance :=
  match v with
  | JSObj kvs =>
      match obj_get "lines" kvs with
      | Some (JSArr ls) => JsInspect.mkInstance <$> mapM json_to_number (take 2 ls)
      | Some (JSNum _) | Some (JSBool _) => JOk (JsInspect.mkInstance [])
      | Some JSNull | None => JThrow
      | Some _ => JOutside
      end
  | _ => JThrow
  end.

(** [match.instances.forEach]: only an array has [forEach]. *)
Definition match_of_json (v : json) : jsres JsInspect.jmatch :=
  match v with
  | JSObj kvs =>
      match obj_get "instances" kvs with
      | Some (JSArr ins) => JsInspect.mkMatch <$> mapM instance_of_json ins
      | _ => JThrow
      end
  | _ => JThrow
  end.

(** [parsed.forEach]. *)
Definition jsinspect_of_json (v : json) : jsres (list JsInspect.jmatch) :=
  match v with JSArr ms => mapM match_of_json ms | _ => JThrow end.

(** ** The task of [compareVersions] *)

(** How the callback ends: [resolve(count)], a thrown exception (the
    promise never settles), or a report outside the model. *)
Inductive outcome := Resolved (n : number) | Thrown | Unmodelled.

(** The callback on the text of the temporary file: its outcome, and
    whether it reached [tmpFile.removeCallback()]. *)
Definition callback := string -> outcome * bool.

(** The callback of [compareVersionsPHP]: the count or 0, then
    [removeCallback]. *)
Definition php_callback : callback := fun content => (Resolved (php_count content), true).

(** The callback of [compareVersionsJavaScript]: [JSON.parse] (a
    [SyntaxError] throws), the loops, then [removeCallback]. *)
Definition js_callback : callback := fun content =>
  match json_parse content with
  | None => (Thrown, false)
  | Some v =>
      match jsinspect_of_json v with
      | JOk parsed => (Resolved (JsInspect.jsinspect_count parsed), true)
      | JThrow => (Thrown, false)
      | JOutside => (Unmodelled, false)
      end
  end.

Record task := mkTask {
  pipe : list string;        (* chunks the tool wrote, not yet in the file *)
  tmp_text : string;         (* the temporary file's text *)
  tmp_exists : bool;         (* until [removeCallback] *)
  read_at_exit : option string;  (* what the callback read *)
  outcome_of : option outcome
}.

(** The process has written [chunks] to its stdout; the file is new. *)
Definition task_init (chunks : list string) : task := mkTask chunks "" true None None.

Inductive tstep (cb : callback) : task -> task -> Prop :=
(** The pipe writes the next chunk into the file. *)
| tstep_flush c cs text ex rd o :
    tstep cb (mkTask (c :: cs) text ex rd o) (mkTask cs (text ++ c) ex rd o)
(** ['exit']: the callback reads the file as it is. *)
| tstep_exit p text :
    tstep cb (mkTask p text true None None)
             (mkTask p text (negb (cb text).2) (Some text) (Some (cb text).1)).

(** The sample phpcpd report, as two writes: the banner line, then the
    rest. *)
Definition php_chunks : list string :=
  ["phpcpd 6.0.3 by Sebastian Bergmann." ++ String "010" EmptyString;
   String.concat (String "010" EmptyString)
     [""; "Found 2 clones with 48 duplicated lines in 2 files:"; "";
      "1.23% duplicated lines out of 3896 total lines of code.";
      "Average size of duplication is 24 lines, largest clone has 31 of lines"]]%string.

(** A jsinspect report, as two writes. *)
Definition js_chunks : list string :=
  ["[{" ++ dquote ++ "instances" ++ dquote ++ ":[{" ++ dquote ++ "lines" ++ dquote ++ ":[5,10]},";
   "{" ++ dquote ++ "lines" ++ dquote ++ ":[20,20]}]}]"]%string.

(** The text of a list of writes. *)
Definition text_of (chunks : list string) : string := foldr String.append "" chunks.

(** The sample task once both writes reached the file and ['exit']
    ran the callback. *)
Definition php_done : task :=
  mkTask [] (text_of php_chunks) false (Some (text_of php_chunks))
         (Some (Resolved (php_count (text_of php_chunks)))).

(** ** Views used by the statements *)


(** What holds along every run of a task: the file holds the first [k]
    writes and the pipe the others; before ['exit'] the callback has not
    run and the file exists; after it, the outcome and the file are
    what the callback made of the text it read, the first [k'] writes. *)
Definition task_inv (cb : callback) (chunks : list string) (s : task) : Prop :=
  (exists k, tmp_text s = text_of (take k chunks) /\ pipe s = drop k chunks) /\
  match read_at_exit s with
  | None => outcome_of s = None /\ tmp_exists s = true
  | Some text => (exists k, text = text_of (take k chunks)) /\
                 outcome_of s = Some (cb text).1 /\ tmp_exists s = negb (cb text).2
  end.

(** The writes still in the pipe, and 1 before ['exit']. *)
Definition task_measure (s : task) : nat :=
  length (pipe s) + match read_at_exit s with None => 1 | Some _ => 0 end.

Section TaskProps.
Context (cb : callback).

Lemma text_of_take_S (chunks : list string) k c cs :
  drop k chunks = c :: cs -> text_of (take (S k) chunks) = (text_of (take k chunks) ++ c)%string.
Proof.
  revert chunks. induction k as [|k IH]; intros [|x chunks] Hd; cbn in Hd; try done.
  - injection Hd as -> ->. cbn. apply append_nil_str.
  - unfold text_of in *. cbn. rewrite (IH chunks Hd). apply append_assoc_str.
Qed.
Lemma task_inv_init chunks : task_inv cb chunks (task_init chunks).
Proof. split; [by exists 0|done]. Qed.

Lemma task_inv_step chunks s s' : task_inv cb chunks s -> tstep cb s s' -> task_inv cb chunks s'.
Proof.
  intros [(k & Htext & Hpipe) Hread] Hstep. destruct Hstep as [c cs text ex rd o|p text]; cbn in *.
  - split; [|done]. exists (S k). split.
    + rewrite Htext. symmetry. by apply (text_of_take_S _ _ c cs).
    + replace (S k) with (k + 1) by lia. by rewrite <- drop_drop, <- Hpipe.
  - split; [by exists k|]. split_and!; [by exists k|done|done].
Qed.

Lemma task_reachable_inv chunks s : star (tstep cb) (task_init chunks) s -> task_inv cb chunks s.
Proof. intros Hs. eapply star_invariant; [apply task_inv_step|exact Hs|apply task_inv_init]. Qed.

(** The pipe can move the first [k] writes into the file before
    anything else happens. *)
Lemma task_flush_reach chunks k :
  star (tstep cb) (task_init chunks) (mkTask (drop k chunks) (text_of (take k chunks)) true None None).
Proof.
  induction k as [|k IH]; [rewrite drop_0; apply star_refl|].
  destruct (drop k chunks) as [|c cs] eqn:Hd.
  - apply drop_nil_inv in Hd. rewrite take_ge in IH by done.
    by rewrite drop_ge, take_ge by lia.
  - eapply star_trans; [exact IH|]. apply star_one.
    assert (drop (S k) chunks = cs) as ->.
    { replace (S k) with (k + 1) by lia. by rewrite <- drop_drop, Hd. }
    rewrite (text_of_take_S chunks k c cs Hd). apply tstep_flush.
Qed.

(** The outcomes a task can reach are exactly what the callback makes of
    the first [k] writes, for each [k] up to their number. *)
Lemma task_outcomes chunks o :
  (exists s, star (tstep cb) (task_init chunks) s /\ outcome_of s = Some o) <->
  (exists k, k <= length chunks /\ o = (cb (text_of (take k chunks))).1).
Proof.
  split.
  - intros (s & Hs & Ho). destruct (task_reachable_inv chunks s Hs) as [_ Hinv].
    destruct (read_at_exit s) as [text|]; [|destruct Hinv as [Hn _]; congruence].
    destruct Hinv as ((k & ->) & Ho' & _). rewrite Ho in Ho'. injection Ho' as ->.
    destruct (decide (k <= length chunks)); [by exists k|].
    exists (length chunks). by rewrite !take_ge by lia.
  - intros (k & _ & ->). eexists. split.
    + eapply star_trans; [apply (task_flush_reach chunks k)|]. apply star_one, tstep_exit.
    + reflexivity.
Qed.

(** ['exit'] before the first write reaches the file: the callback reads
    the empty text. *)
Lemma task_exit_empty chunks :
  star (tstep cb) (task_init chunks) (mkTask chunks "" (negb (cb "").2) (Some "") (Some (cb "").1)).
Proof. apply star_one, tstep_exit. Qed.

End TaskProps.

(** Whatever the interleaving of the pipe and the ['exit'] event,
    the callback of [compareVersions] reads the first [k] writes of the
    tool for some [k] (not necessarily all of them), and the task's
    outcome and temporary file are what the callback makes of that text. *)
Theorem task_reads_prefix (cb : callback) (chunks : list string) (s : task) (text : string) :
  star (tstep cb) (task_init chunks) s -> read_at_exit s = Some text ->
  (exists k, text = text_of (take k chunks)) /\ outcome_of s = Some (cb text).1 /\
  tmp_exists s = negb (cb text).2.
Proof.
  intros Hs Hr. destruct (task_reachable_inv cb chunks s Hs) as [_ Hinv]. by rewrite Hr in Hinv.
Qed.

Lemma task_reads_prefix_witness :
  (exists k, text_of php_chunks = text_of (take k php_chunks)) /\
  outcome_of php_done = Some (php_callback (text_of php_chunks)).1 /\
  tmp_exists php_done = negb (php_callback (text_of php_chunks)).2.
Proof.
  apply (task_reads_prefix php_callback php_chunks php_done); [|reflexivity].
  unfold task_init, php_chunks. eapply star_step; [apply tstep_flush|]. eapply star_step; [apply tstep_flush|].
  eapply star_step; [apply tstep_exit|]. apply star_refl.
Defined.

(** The count of [compareVersionsPHP] depends on when ['exit']
    fires: the same phpcpd report gives 48 when the pipe has drained
    into the temporary file first, and 0 (the failure value, after
    logging the partial report) when ['exit'] fires after the first
    write only. *)
Example php_task_exit_race_sample :
  exists s1 s2, star (tstep php_callback) (task_init php_chunks) s1 /\
    star (tstep php_callback) (task_init php_chunks) s2 /\
    outcome_of s1 = Some (Resolved (JFin 48)) /\ outcome_of s2 = Some (Resolved (JFin 0)).
Proof.
  eexists _, _. split_and!.
  - unfold task_init, php_chunks. eapply star_step; [apply tstep_flush|].
    eapply star_step; [apply tstep_flush|]. eapply star_step; [apply tstep_exit|]. apply star_refl.
  - unfold task_init, php_chunks. eapply star_step; [apply tstep_flush|].
    eapply star_step; [apply tstep_exit|]. apply star_refl.
  - cbn [outcome_of]. vm_compute. reflexivity.
  - cbn [outcome_of]. vm_compute. reflexivity.
Qed.

(** For [compareVersionsJavaScript] the race is worse: the same
    jsinspect report resolves with 7 when the pipe has drained, and when
    ['exit'] fires after the first write, [JSON.parse] throws a
    [SyntaxError] in the callback: the promise never settles and the
    temporary file is never removed. *)
Example js_task_exit_race_sample :
  exists s1 s2, star (tstep js_callback) (task_init js_chunks) s1 /\
    star (tstep js_callback) (task_init js_chunks) s2 /\
    outcome_of s1 = Some (Resolved (JFin 7)) /\ tmp_exists s1 = false /\
    outcome_of s2 = Some Thrown /\ tmp_exists s2 = true.
Proof.
  eexists _, _. split_and!.
  - unfold task_init, js_chunks. eapply star_step; [apply tstep_flush|].
    eapply star_step; [apply tstep_flush|]. eapply star_step; [apply tstep_exit|]. apply star_refl.
  - unfold task_init, js_chunks. eapply star_step; [apply tstep_flush|].
    eapply star_step; [apply tstep_exit|]. apply star_refl.
  - cbn [outcome_of]. vm_compute. reflexivity.
  - cbn [tmp_exists]. vm_compute. reflexivity.
  - cbn [outcome_of]. vm_compute. reflexivity.
  - cbn [tmp_exists]. vm_compute. reflexivity.
Qed.

(** C22: the count of [compareVersionsPHP] depends on when ['exit']
    fires (App.js, lines 215-219: the pipe to the temporary file and the
    ['exit'] handler are independent, and Node.js emits ['exit'] with the
    child's stdout possibly not yet drained): for every report the tool
    writes, the counts the promise can resolve with are exactly the counts
    of the first [k] writes, for each [k]; in particular 0, the failure
    value, whatever the report. *)
Theorem php_task_exit_race (chunks : list string) :
  (forall o, (exists s, star (tstep php_callback) (task_init chunks) s /\ outcome_of s = Some o) <->
             (exists k, k <= length chunks /\ o = Resolved (php_count (text_of (take k chunks))))) /\
  (exists s, star (tstep php_callback) (task_init chunks) s /\ outcome_of s = Some (Resolved (JFin 0))).
Proof.
  split; [intros o; apply task_outcomes|].
  eexists. split; [apply task_exit_empty|]. vm_compute. reflexivity.
Qed.

(** C23: for [compareVersionsJavaScript] the race is worse: for every
    report, the promise can settle with what the callback makes of the
    first [k] writes, for each [k] and only those, and whatever the
    report, ['exit'] before the first write reaches the file makes
    [JSON.parse] of the empty text throw a [SyntaxError] in the callback:
    the promise never settles and the temporary file is never removed. *)
Theorem js_task_exit_race (chunks : list string) :
  (forall o, (exists s, star (tstep js_callback) (task_init chunks) s /\ outcome_of s = Some o) <->
             (exists k, k <= length chunks /\ o = (js_callback (text_of (take k chunks))).1)) /\
  (exists s, star (tstep js_callback) (task_init chunks) s /\ outcome_of s = Some Thrown /\
             tmp_exists s = true).
Proof.
  split; [intros o; apply task_outcomes|].
  eexists. split; [apply task_exit_empty|]. split; vm_compute; reflexivity.
Qed.

(** [compareVersionsPHP] releases its temporary file: once ['exit']
    has run the callback, the file is removed, whatever the report and
    the interleaving. *)
Theorem php_task_removes_tmp (chunks : list string) (s : task) :
  star (tstep php_callback) (task_init chunks) s -> read_at_exit s <> None -> tmp_exists s = false.
Proof.
  intros Hs Hr. destruct (task_reachable_inv php_callback chunks s Hs) as [_ Hinv].
  destruct (read_at_exit s); [|done]. by destruct Hinv as (_ & _ & ->).
Qed.

Lemma php_task_removes_tmp_witness : tmp_exists php_done = false.
Proof.
  apply (php_task_removes_tmp php_chunks); [|discriminate].
  unfold task_init, php_chunks. eapply star_step; [apply tstep_flush|]. eapply star_step; [apply tstep_flush|].
  eapply star_step; [apply tstep_exit|]. apply star_refl.
Defined.

(** Every run of the task is finite, and a task stops only once
    ['exit'] has run the callback and the pipe has drained into the
    file. *)
Theorem task_terminates (cb : callback) (chunks : list string) :
  terminates (tstep cb) (task_init chunks) /\
  forall s, star (tstep cb) (task_init chunks) s -> (forall s', ~ tstep cb s s') ->
    pipe s = [] /\ read_at_exit s <> None.
Proof.
  split.
  - apply (measure_terminates (tstep cb) (fun _ => True) task_measure); [done| |done].
    intros s s' _ Hst. destruct Hst; cbn; lia.
  - intros s Hs Hfin. destruct (task_reachable_inv cb chunks s Hs) as [_ Hinv].
    destruct s as [[|c cs] text ex rd o]; cbn in *.
    + split; [done|]. destruct rd; [done|]. destruct Hinv as [-> ->].
      exfalso. eapply Hfin. apply tstep_exit.
    + exfalso. eapply Hfin. apply tstep_flush.
Qed.

(** The title [debug] prints is [[type]] padded with spaces to 16
    characters, or unpadded when longer, so the messages of the types
    the code uses ([app], [cloc], [jsinspect], [phpcpd], at most 14
    characters) start at column 18. *)
Theorem debug_title_width (type message : string) :
  String.length (pad_end ("[" ++ type ++ "]") 16) = Nat.max 16 (String.length type + 2) /\
  (String.length type <= 14 ->
   exists title, debug_line type message = (title ++ " " ++ message)%string /\ String.length title = 16).
Proof.
  assert (Hl : String.length (pad_end ("[" ++ type ++ "]") 16) = Nat.max 16 (String.length type + 2)).
  { unfold pad_end. rewrite !length_append_str, length_string_of_list_ascii, repeat_length.
    cbn [String.length]. lia. }
  split; [exact Hl|]. intros Ht. exists (pad_end ("[" ++ type ++ "]") 16). split; [reflexivity|]. lia.
Qed.

Lemma debug_title_width_witness :
  exists title, debug_line "jsinspect" "npx jsinspect" = (title ++ " " ++ "npx jsinspect")%string /\
                String.length title = 16.
Proof. apply (debug_title_width "jsinspect" "npx jsinspect"). cbn. lia. Defined.
