(* ===== verification/Fs.v ===== *)
(** * The file system and the working directory (Node.js [path], [fs], [process])

    Both programs move around the file system before they work:
    [App.js] runs [process.chdir(__dirname)] when it is loaded and
    [process.chdir(path.join(__dirname, '../'))] in the constructor,
    creates the output directory ([fs.existsSync], [fs.mkdirSync(dir,
    {recursive: true})]), reads its cache files and writes its reports;
    [Importer.js] changes to the project root, creates its output
    directory, reads the tag file and changes into the output directory
    before spawning [git clone].

    This file holds the POSIX path functions the code calls
    ([path.join] and the [path.normalize] it ends with, as [posix_join]
    and [posix_normalize]; the resolution of a relative path against
    [process.cwd()], as [resolve]), a file system [world] (directories,
    files with their text, the working directory, the processes spawned
    with their working directory), its well-formedness [world_wf], and
    the [fs] calls as operations of a state monad with errors [io]
    ([ENOENT], [ENOTDIR], [EISDIR], [EEXIST], a thrown [Error]); an
    error keeps the state reached, as in Node.js, where what a call did
    before it threw stays done.  Resolved paths are lists of segments
    from the root. *)

From Stdlib Require Import String Ascii.
From stdpp Require Import base list gmap strings.
From S2P Require Import Prelude Importer.

Create HintDb fs.

(** ** Paths *)

(** A resolved absolute path: its segments from the root. *)
Abbreviation abspath := (list string).

(** [path.split('/')] of the POSIX functions. *)
Definition seg_strings (p : string) : list string := js_split "/"%char p.

(** [path.isAbsolute] on POSIX: a leading ['/']. *)
Definition is_abs (p : string) : bool :=
  match p with String c _ => Ascii.eqb c "/" | EmptyString => false end.

Definition ends_slash (p : string) : bool :=
  match rev (list_ascii_of_string p) with c :: _ => Ascii.eqb c "/" | [] => false end.

(** One segment of [normalizeString(path, allowAboveRoot)], on the
    reversed list of the segments kept so far: [''] and ['.'] are
    skipped, ['..'] drops the last kept segment, or is kept when there is
    none (or only ['..']) and the path may go above its start. *)
Definition norm_step (allow_above : bool) (stack : list string) (seg : string) : list string :=
  if String.eqb seg "" || String.eqb seg "." then stack
  else if String.eqb seg ".." then
    match stack with
    | s :: stack' => if String.eqb s ".." then (if allow_above then ".." :: stack else stack) else stack'
    | [] => if allow_above then [".."] else []
    end
  else seg :: stack.

(** [normalizeString] from the segments [start]. *)
Definition norm_segs (allow_above : bool) (start : list string) (p : string) : list string :=
  rev (foldl (norm_step allow_above) (rev start) (seg_strings p)).

(** [path.posix.normalize(p)]. *)
Definition posix_normalize (p : string) : string :=
  if String.eqb p "" then "." else
  let body := String.concat "/" (norm_segs (negb (is_abs p)) [] p) in
  if String.eqb body "" then (if is_abs p then "/" else if ends_slash p then "./" else ".")
  else (if is_abs p then "/" else "") ++ body ++ (if ends_slash p then "/" else "").

(** [path.posix.join(...parts)]: the nonempty parts joined by ['/'], then
    normalized. *)
Definition posix_join (parts : list string) : string :=
  let joined := String.concat "/" (List.filter (fun s => negb (String.eqb s "")) parts) in
  if String.eqb joined "" then "." else posix_normalize joined.

(** [process.cwd()] as a string. *)
Definition path_string (q : abspath) : string := "/" ++ String.concat "/" q.

(** The absolute path an [fs] call or [process.chdir] opens for [p]:
    [path.resolve(process.cwd(), p)]. *)
Definition resolve (cwd : abspath) (p : string) : abspath :=
  norm_segs false (if is_abs p then [] else cwd) p.

(** A segment of a resolved path. *)
Definition seg_ok (s : string) : bool :=
  negb (String.eqb s "") && negb (String.eqb s ".") && negb (String.eqb s "..") &&
  negb (bool_decide ("/"%char ∈ list_ascii_of_string s)).

(** A segment [normalizeString] keeps as a name: not skipped, not [..]. *)
Definition name_seg (s : string) : Prop := s <> "" /\ s <> "." /\ s <> "..".

(** ** The world *)

(** The directories, the files with their text, [process.cwd()], and the
    processes spawned so far with the directory they were spawned in
    (the last one first). *)
Record world := mkWorld {
  w_dirs : gset abspath;
  w_files : gmap abspath string;
  w_cwd : abspath;
  w_spawned : list (abspath * spawn)
}.

(** The directory holding [q]. *)
Definition parent (q : abspath) : abspath := take (length q - 1) q.

(** A well-formed world: the root is a directory, every directory and
    file lies in a directory, no path is both, and the working directory
    is a directory named by proper segments. *)
Definition world_wf (w : world) : Prop :=
  [] ∈ w_dirs w /\
  set_Forall (fun q => parent q ∈ w_dirs w) (w_dirs w) /\
  map_Forall (fun q _ => parent q ∈ w_dirs w /\ q ∉ w_dirs w) (w_files w) /\
  w_cwd w ∈ w_dirs w /\ Forall (fun s => seg_ok s = true) (w_cwd w).

#[export] Instance world_wf_dec w : Decision (world_wf w).
Proof. unfold world_wf. apply _. Defined.

(** ** The [io] monad *)

(** The errors of the [fs] and [process] calls, and a thrown [Error]. *)
Inductive fs_error :=
| ENOENT (q : abspath)
| ENOTDIR (q : abspath)
| EISDIR (q : abspath)
| EEXIST (q : abspath)
| JsError (name message : string)
| Unmodelled.

Inductive ior (A : Type) := IOk (a : A) | IErr (e : fs_error).
Arguments IOk {A} a.
Arguments IErr {A} e.

(** A computation on the world; an error keeps the world it reached. *)
Definition io (A : Type) : Type := world -> world * ior A.

(** Sequencing: run [m], then [f] on its result; an error stops. *)
Definition bind_io {A B} (m : io A) (f : A -> io B) : io B := fun w =>
  match m w with
  | (w', IOk a) => f a w'
  | (w', IErr e) => (w', IErr e)
  end.

#[export] Instance io_ret : MRet io := fun A a w => (w, IOk a).
#[export] Instance io_bind : MBind io := fun A B f m => bind_io m f.

Declare Scope io_scope.
Delimit Scope io_scope with io.
Notation "'let*' x ':=' m 'in' k" := (bind_io m (fun x => k))
  (at level 200, x name, m at level 100, k at level 200,
   format "'[v' 'let*'  x  ':='  m  'in' '//' k ']'") : io_scope.

Definition throw {A} (e : fs_error) : io A := fun w => (w, IErr e).

(** [tags.forEach(t => ...)] with an effect per element. *)
Fixpoint io_iter {A} (f : A -> io unit) (l : list A) : io unit :=
  match l with [] => mret tt | x :: l' => f x ;; io_iter f l' end.

(** The world with another working directory, more directories, or
    more spawned processes. *)
Definition set_cwd (w : world) (q : abspath) : world := mkWorld (w_dirs w) (w_files w) q (w_spawned w).
Definition add_dirs (w : world) (qs : list abspath) : world :=
  mkWorld (w_dirs w ∪ list_to_set qs) (w_files w) (w_cwd w) (w_spawned w).

(** A computation keeps the world well formed. *)
Definition io_wf {A} (m : io A) : Prop := forall w, world_wf w -> world_wf (m w).1.

(** ** The calls *)

Definition is_dir (w : world) (q : abspath) : bool := bool_decide (q ∈ w_dirs w).
Definition is_file (w : world) (q : abspath) : bool := bool_decide (is_Some (w_files w !! q)).

(** [process.cwd()]. *)
Definition getcwd : io abspath := fun w => (w, IOk (w_cwd w)).

(** [fs.existsSync(p)]: false on the empty path. *)
Definition existsSync (p : string) : io bool := fun w =>
  (w, IOk (if String.eqb p "" then false
           else let q := resolve (w_cwd w) p in is_dir w q || is_file w q)).

(** [process.chdir(p)]. *)
Definition chdir (p : string) : io unit := fun w =>
  let q := resolve (w_cwd w) p in
  if String.eqb p "" then (w, IErr (ENOENT q))
  else if is_dir w q then (set_cwd w q, IOk tt)
  else if is_file w q then (w, IErr (ENOTDIR q))
  else (w, IErr (ENOENT q)).

(** The nonempty prefixes of a path. *)
Definition prefixes (q : abspath) : list abspath := (fun k => take k q) <$> seq 1 (length q).

(** [fs.mkdirSync(p, {recursive: true})]: every missing directory on the
    way is created; a file on the way is [ENOTDIR], a file at [p] is
    [EEXIST]. *)
Definition mkdirSync (p : string) : io unit := fun w =>
  let q := resolve (w_cwd w) p in
  if String.eqb p "" then (w, IErr (ENOENT q))
  else if is_file w q then (w, IErr (EEXIST q))
  else match list_find (fun r => is_file w r = true) (prefixes q) with
       | Some (_, r) => (w, IErr (ENOTDIR r))
       | None => (add_dirs w (prefixes q), IOk tt)
       end.

(** [fs.readFileSync(p)]. *)
Definition readFileSync (p : string) : io string := fun w =>
  let q := resolve (w_cwd w) p in
  if String.eqb p "" then (w, IErr (ENOENT q))
  else match w_files w !! q with
       | Some text => (w, IOk text)
       | None => (w, IErr (if is_dir w q then EISDIR q else ENOENT q))
       end.

(** [util.promisify(fs.readdir)(p)]: rejects with [ENOENT] when nothing
    is at [p] and with [ENOTDIR] on a file.  The entries it lists, in the
    file system's order, are the [readdir] of the program's environment. *)
Definition readdir_io (p : string) : io unit := fun w =>
  let q := resolve (w_cwd w) p in
  if String.eqb p "" then (w, IErr (ENOENT q))
  else if is_dir w q then (w, IOk tt)
  else (w, IErr (if is_file w q then ENOTDIR q else ENOENT q)).

(** [fs.writeFileSync(p, text)]: the directory holding [p] must exist. *)
Definition writeFileSync (p : string) (text : string) : io unit := fun w =>
  let q := resolve (w_cwd w) p in
  if String.eqb p "" then (w, IErr (ENOENT q))
  else if is_dir w q then (w, IErr (EISDIR q))
  else if is_dir w (parent q) then
    (mkWorld (w_dirs w) (<[q := text]> (w_files w)) (w_cwd w) (w_spawned w), IOk tt)
  else if is_file w (parent q) then (w, IErr (ENOTDIR (parent q)))
  else (w, IErr (ENOENT (parent q))).

(** [if (!fs.existsSync(dir)) fs.mkdirSync(dir, {recursive: true})]. *)
Definition mkdir_if_missing (dir : string) : io unit :=
  bind_io (existsSync dir) (fun b => if b then mret tt else mkdirSync dir).

(** The whole world, to read files the way a decoder of the code does. *)
Definition get_world : io world := fun w => (w, IOk w).

(** [path.join(__dirname, '../')] from [__dirname]. *)
Definition project_root (src_dir : abspath) : abspath := resolve src_dir "../".

(** [cp.spawn(cmd, args)] in the current directory. *)
Definition spawn_io (s : spawn) : io unit := fun w =>
  (mkWorld (w_dirs w) (w_files w) (w_cwd w) ((w_cwd w, s) :: w_spawned w), IOk tt).

(** ** Paths: lemmas *)

Section PathLemmas.

Lemma split_chars_nonnil c l : split_chars c l <> [].
Proof. destruct l as [|x l]; cbn; [done|]. destruct (Ascii.eqb x c); [done|]. by destruct (split_chars c l). Qed.

Lemma split_chars_app_sep c l1 l2 :
  split_chars c (l1 ++ c :: l2) = split_chars c l1 ++ split_chars c l2.
Proof.
  induction l1 as [|x l1 IH]; cbn [app split_chars].
  - by rewrite Ascii.eqb_refl.
  - destruct (Ascii.eqb x c); [by rewrite IH|]. rewrite IH.
    destruct (split_chars c l1) eqn:E; [by destruct (split_chars_nonnil c l1)|done].
Qed.

Lemma split_chars_no_sep c l : Forall (fun seg => c ∉ seg) (split_chars c l).
Proof.
  induction l as [|x l IH]; cbn [split_chars]; [by repeat constructor; set_solver|].
  destruct (Ascii.eqb_spec x c) as [->|Hx]; [by constructor; [set_solver|]|].
  destruct (split_chars c l) as [|seg segs]; [by repeat constructor; set_solver|].
  apply Forall_cons in IH as [Hseg Hsegs]. constructor; [|done]. set_solver.
Qed.

Lemma seg_strings_app a b : seg_strings (a ++ "/" ++ b) = seg_strings a ++ seg_strings b.
Proof.
  unfold seg_strings, js_split. rewrite !list_ascii_of_string_app. cbn [list_ascii_of_string app].
  by rewrite split_chars_app_sep, map_app.
Qed.

Lemma seg_strings_slash b : seg_strings ("/" ++ b) = "" :: seg_strings b.
Proof. unfold seg_strings, js_split. rewrite list_ascii_of_string_app. reflexivity. Qed.

Lemma seg_strings_no_slash p : Forall (fun s => "/"%char ∉ list_ascii_of_string s) (seg_strings p).
Proof.
  unfold seg_strings, js_split. apply Forall_map.
  eapply Forall_impl; [apply split_chars_no_sep|]. intros seg Hs. by rewrite list_ascii_of_string_of_list_ascii.
Qed.

Lemma seg_strings_concat (segs : list string) :
  segs <> [] -> Forall (fun s => "/"%char ∉ list_ascii_of_string s) segs ->
  seg_strings (String.concat "/" segs) = segs.
Proof. apply js_split_join. Qed.

Lemma seg_ok_name s : seg_ok s = true -> name_seg s.
Proof.
  unfold seg_ok. rewrite !andb_true_iff, !negb_true_iff, !String.eqb_neq. unfold name_seg. tauto.
Qed.

Lemma norm_step_name b st s : name_seg s -> norm_step b st s = s :: st.
Proof.
  intros (H1 & H2 & H3). unfold norm_step.
  by rewrite (proj2 (String.eqb_neq _ _) H1), (proj2 (String.eqb_neq _ _) H2), (proj2 (String.eqb_neq _ _) H3).
Qed.

Lemma foldl_norm_names b st segs : Forall name_seg segs -> foldl (norm_step b) st segs = rev segs ++ st.
Proof.
  induction segs as [|s segs IH] in st |- *; intros Hs; [done|].
  apply Forall_cons in Hs as [Hs Hsegs]. cbn [foldl]. rewrite norm_step_name by done.
  rewrite IH by done. cbn. by rewrite <- app_assoc.
Qed.

Lemma norm_step_keeps b st s :
  Forall (fun x => x <> "" /\ x <> ".") st -> Forall (fun x => x <> "" /\ x <> ".") (norm_step b st s).
Proof.
  intros Hst. unfold norm_step.
  destruct (String.eqb_spec s ""); [done|]. destruct (String.eqb_spec s "."); [done|]. cbn.
  destruct (String.eqb_spec s ".."); [|by constructor].
  destruct st as [|x st']; [destruct b; repeat constructor; done|].
  destruct (String.eqb x ".."); [|by apply Forall_cons in Hst as [_ ?]].
  destruct b; [|done]. by constructor.
Qed.

Lemma norm_step_skip b st s : s = "" \/ s = "." -> norm_step b st s = st.
Proof. by intros [-> | ->]. Qed.

Lemma norm_step_up b x st : x <> ".." -> norm_step b (x :: st) ".." = st.
Proof. intros Hx. unfold norm_step. cbn. by rewrite (proj2 (String.eqb_neq _ _) Hx). Qed.

Lemma norm_step_up_above st :
  match st with x :: _ => x = ".." | [] => True end -> norm_step true st ".." = ".." :: st.
Proof. destruct st as [|x st]; [done|]. intros ->. reflexivity. Qed.

Lemma norm_above_step st acc s :
  Forall (fun x => x <> "" /\ x <> ".") acc ->
  foldl (norm_step false) st (rev (norm_step true acc s)) =
  norm_step false (foldl (norm_step false) st (rev acc)) s.
Proof.
  intros Hacc.
  destruct (String.eqb_spec s ""); [by rewrite !norm_step_skip by auto|].
  destruct (String.eqb_spec s "."); [by rewrite !norm_step_skip by auto|].
  destruct (String.eqb_spec s ".."); [subst|].
  - destruct acc as [|x acc']; [reflexivity|].
    destruct (String.eqb_spec x "..") as [->|Hx].
    + rewrite norm_step_up_above by done. cbn [rev]. by rewrite foldl_app.
    + apply Forall_cons in Hacc as [[Hx1 Hx2] _]. rewrite norm_step_up by done.
      cbn [rev]. rewrite foldl_app. cbn [foldl]. rewrite (norm_step_name false _ x) by (repeat split; done).
      by rewrite norm_step_up.
  - assert (name_seg s) by (repeat split; done). rewrite (norm_step_name true _ s), (norm_step_name false _ s) by done.
    cbn [rev]. rewrite foldl_app. cbn [foldl]. by rewrite (norm_step_name false _ s).
Qed.

(** Reading the segments [normalizeString] keeps (going above the start
    allowed) from any directory lands where the original segments land. *)
Lemma foldl_norm_above st acc segs :
  Forall (fun x => x <> "" /\ x <> ".") acc ->
  foldl (norm_step false) st (rev (foldl (norm_step true) acc segs)) =
  foldl (norm_step false) (foldl (norm_step false) st (rev acc)) segs.
Proof.
  induction segs as [|s segs IH] in acc |- *; intros Hacc; [done|]. cbn [foldl].
  rewrite IH by (by apply norm_step_keeps). by rewrite norm_above_step.
Qed.

Lemma norm_step_false_ok st s :
  Forall (fun x => seg_ok x = true) st -> "/"%char ∉ list_ascii_of_string s ->
  Forall (fun x => seg_ok x = true) (norm_step false st s).
Proof.
  intros Hst Hs.
  destruct (String.eqb_spec s ""); [by rewrite norm_step_skip by auto|].
  destruct (String.eqb_spec s "."); [by rewrite norm_step_skip by auto|].
  destruct (String.eqb_spec s ".."); [subst|].
  - destruct st as [|x st']; [done|]. apply Forall_cons in Hst as [Hx Hst'].
    rewrite norm_step_up; [done|]. by apply seg_ok_name in Hx as (_ & _ & ?).
  - rewrite norm_step_name by (repeat split; done). constructor; [|done]. unfold seg_ok.
    rewrite (proj2 (String.eqb_neq _ _) n), (proj2 (String.eqb_neq _ _) n0), (proj2 (String.eqb_neq _ _) n1).
    by rewrite bool_decide_eq_false_2.
Qed.

(** The segments [normalizeString] keeps are nonempty, not [.], and
    hold no separator. *)
Lemma norm_step_kept b st s :
  Forall (fun x => x <> "" /\ x <> "." /\ "/"%char ∉ list_ascii_of_string x) st ->
  "/"%char ∉ list_ascii_of_string s ->
  Forall (fun x => x <> "" /\ x <> "." /\ "/"%char ∉ list_ascii_of_string x) (norm_step b st s).
Proof.
  intros Hst Hs.
  destruct (String.eqb_spec s ""); [by rewrite norm_step_skip by auto|].
  destruct (String.eqb_spec s "."); [by rewrite norm_step_skip by auto|].
  destruct (String.eqb_spec s ".."); [subst|].
  - destruct st as [|x st']; [destruct b; [|done]; repeat constructor; by cbn; set_solver|].
    destruct (String.eqb_spec x "..") as [->|Hx].
    + destruct b; [|done]. constructor; [|done]. repeat split; [done|done|cbn; set_solver].
    + rewrite norm_step_up by done. by apply Forall_cons in Hst as [_ ?].
  - rewrite norm_step_name by (repeat split; done). by constructor.
Qed.

Lemma norm_segs_kept b p :
  Forall (fun x => x <> "" /\ x <> "." /\ "/"%char ∉ list_ascii_of_string x) (norm_segs b [] p).
Proof.
  unfold norm_segs. apply Forall_rev. apply (foldl_Forall _ (fun s => "/"%char ∉ list_ascii_of_string s)).
  - intros st x. apply norm_step_kept.
  - constructor.
  - apply seg_strings_no_slash.
Qed.

Lemma resolve_ok c p : Forall (fun s => seg_ok s = true) c -> Forall (fun s => seg_ok s = true) (resolve c p).
Proof.
  intros Hc. unfold resolve, norm_segs. apply Forall_rev.
  apply (foldl_Forall _ (fun s => "/"%char ∉ list_ascii_of_string s)).
  - intros st x. apply norm_step_false_ok.
  - destruct (is_abs p); [constructor|by apply Forall_rev].
  - apply seg_strings_no_slash.
Qed.

Lemma seg_strings_trail x : seg_strings (x ++ "/") = seg_strings x ++ [""].
Proof.
  unfold seg_strings, js_split. rewrite list_ascii_of_string_app. cbn [list_ascii_of_string].
  by rewrite split_chars_app_sep, map_app.
Qed.

Lemma foldl_norm_blank b st segs : foldl (norm_step b) st (segs ++ [""]) = foldl (norm_step b) st segs.
Proof. by rewrite foldl_app. Qed.

Lemma concat_nonempty (segs : list string) :
  Forall (fun x => x <> "") segs -> String.concat "/" segs = "" -> segs = [].
Proof.
  intros Hs Hc. destruct segs as [|x segs]; [done|]. apply Forall_cons in Hs as [Hx _].
  destruct x as [|a x]; [done|]. by destruct segs.
Qed.

Lemma concat_head (x : string) (segs : list string) :
  exists r, String.concat "/" (x :: segs) = (x ++ r)%string.
Proof.
  destruct segs; cbn; [|by eexists]. exists "". by rewrite append_nil_str.
Qed.

Lemma norm_segs_root p : norm_segs false [] p = resolve [] p.
Proof. unfold resolve. by destruct (is_abs p). Qed.

(** Reading the result of [normalizeString] once more keeps it. *)
Lemma norm_names_again st p :
  foldl (norm_step false) st (norm_segs false [] p) = rev (norm_segs false [] p) ++ st.
Proof.
  apply foldl_norm_names. rewrite norm_segs_root.
  eapply Forall_impl; [apply resolve_ok; constructor|]. intros x Hx. by apply seg_ok_name.
Qed.

Lemma resolve_unfold c p :
  resolve c p = rev (foldl (norm_step false) (if is_abs p then [] else rev c) (seg_strings p)).
Proof. unfold resolve, norm_segs. by destruct (is_abs p). Qed.

(** What [normalizeString] keeps, read from the start, lands where the
    path does. *)
Lemma norm_segs_read c p :
  foldl (norm_step false) (if is_abs p then [] else rev c) (norm_segs (negb (is_abs p)) [] p) =
  foldl (norm_step false) (if is_abs p then [] else rev c) (seg_strings p).
Proof.
  destruct (is_abs p); cbn [negb].
  - rewrite norm_names_again, app_nil_r. unfold norm_segs. by rewrite rev_involutive.
  - unfold norm_segs. by rewrite foldl_norm_above by constructor.
Qed.

Lemma is_abs_concat (segs : list string) (post : string) :
  segs <> [] -> Forall (fun x => x <> "" /\ x <> "." /\ "/"%char ∉ list_ascii_of_string x) segs ->
  is_abs (String.concat "/" segs ++ post) = false.
Proof.
  intros Hne Hs. destruct segs as [|x segs]; [done|]. apply Forall_cons in Hs as [(Hx & _ & Hsl) _].
  destruct (concat_head x segs) as [r ->]. destruct x as [|ch x]; [done|].
  rewrite <- append_assoc_str, append_cons_str. cbn. apply Ascii.eqb_neq. intros ->. set_solver.
Qed.

Lemma seg_strings_post (t : string) (post : bool) :
  seg_strings (t ++ (if post then "/" else "")) = seg_strings t ++ (if post then [""] else []).
Proof. destruct post; [apply seg_strings_trail|]. by rewrite append_nil_str, app_nil_r. Qed.

Lemma foldl_norm_post b st segs (post : bool) :
  foldl (norm_step b) st (segs ++ (if post then [""] else [])) = foldl (norm_step b) st segs.
Proof. destruct post; [apply foldl_norm_blank|by rewrite app_nil_r]. Qed.

(** Resolving the normalized path opens what resolving the path opens:
    [path.normalize] does not change the file a call reaches. *)
Lemma resolve_normalize c p : p <> "" -> resolve c (posix_normalize p) = resolve c p.
Proof.
  intros Hp. unfold posix_normalize. rewrite (proj2 (String.eqb_neq _ _) Hp).
  pose proof (norm_segs_read c p) as K. pose proof (norm_segs_kept (negb (is_abs p)) p) as Hk.
  rewrite (resolve_unfold c p), <- K.
  destruct (String.eqb_spec (String.concat "/" (norm_segs (negb (is_abs p)) [] p)) "") as [He|Hne].
  - apply concat_nonempty in He; [|by eapply Forall_impl; [apply Hk|]; intros x (? & _)].
    rewrite He. destruct (is_abs p); [reflexivity|]. cbn [foldl].
    destruct (ends_slash p); rewrite resolve_unfold; cbn; by rewrite rev_involutive.
  - assert (norm_segs (negb (is_abs p)) [] p <> []) as Hn by (intros E; apply Hne; by rewrite E).
    rewrite resolve_unfold. destruct (is_abs p) eqn:Ha.
    + rewrite seg_strings_slash, seg_strings_post, seg_strings_concat; cycle 1; [done| |].
      * eapply Forall_impl; [apply Hk|]. by intros x (_ & _ & ?).
      * cbn [is_abs Ascii.eqb]. cbn [foldl]. rewrite foldl_norm_post. reflexivity.
    + change ("" ++ ?x)%string with x. rewrite is_abs_concat by done.
      rewrite seg_strings_post, seg_strings_concat, foldl_norm_post; [done|done|].
      eapply Forall_impl; [apply Hk|]. by intros x (_ & _ & ?).
Qed.
Lemma app_nonempty_str (a b : string) : a <> "" -> (a ++ b)%string <> "".
Proof. destruct a; [done|]. by rewrite append_cons_str. Qed.

Lemma is_abs_app (a b : string) : a <> "" -> is_abs (a ++ b) = is_abs a.
Proof. destruct a; [done|]. by rewrite append_cons_str. Qed.

Lemma posix_join_two a b : a <> "" -> b <> "" -> posix_join [a; b] = posix_normalize (a ++ "/" ++ b).
Proof.
  intros Ha Hb. unfold posix_join. cbn [List.filter].
  rewrite (proj2 (String.eqb_neq _ _) Ha), (proj2 (String.eqb_neq _ _) Hb). cbn [negb String.concat].
  by rewrite (proj2 (String.eqb_neq _ _) (app_nonempty_str _ _ Ha)).
Qed.

(** [path.join(a, b)] opens [b] from where [a] leads, whether [b] is
    relative or not: a leading ['/'] of [b] is only a separator. *)
Lemma resolve_join c a b :
  a <> "" -> b <> "" -> resolve c (posix_join [a; b]) = norm_segs false (resolve c a) b.
Proof.
  intros Ha Hb. rewrite posix_join_two, resolve_normalize by (done || by apply app_nonempty_str).
  unfold resolve, norm_segs.
  rewrite is_abs_app, seg_strings_app, foldl_app, rev_involutive by done. done.
Qed.

Lemma resolve_relative d b : is_abs b = false -> resolve d b = norm_segs false d b.
Proof. unfold resolve. by intros ->. Qed.

(** [process.cwd()] leads back to the working directory. *)
Lemma resolve_path_string c q : Forall (fun s => seg_ok s = true) q -> resolve c (path_string q) = q.
Proof.
  intros Hq. rewrite resolve_unfold. unfold path_string. rewrite is_abs_app by done. change (is_abs "/") with true.
  destruct q as [|x q']; [reflexivity|]. rewrite seg_strings_slash, seg_strings_concat; [|done|].
  - assert (Forall name_seg (x :: q')) as Hn by (eapply Forall_impl; [apply Hq|]; apply seg_ok_name).
    change ("" :: x :: q') with ([""] ++ x :: q'). rewrite foldl_app.
    change (foldl (norm_step false) [] [""]) with (@nil string).
    rewrite (foldl_norm_names false [] (x :: q')) by done. by rewrite app_nil_r, rev_involutive.
  - eapply Forall_impl; [apply Hq|]. intros s Hs. unfold seg_ok in Hs.
    apply andb_true_iff in Hs as [_ Hs]. apply negb_true_iff, bool_decide_eq_false in Hs. done.
Qed.

End PathLemmas.

(** ** Every call keeps the world well formed *)

Section WorldWf.

Lemma io_wf_ret {A} (a : A) : io_wf (mret a).
Proof. by intros w Hw. Qed.

Lemma io_wf_throw {A} e : io_wf (A:=A) (throw e).
Proof. by intros w Hw. Qed.

Lemma io_wf_bind {A B} (m : io A) (f : A -> io B) :
  io_wf m -> (forall a, io_wf (f a)) -> io_wf (bind_io m f).
Proof.
  intros Hm Hf w Hw. unfold bind_io. specialize (Hm w Hw).
  destruct (m w) as [w' [a|e]]; [by apply Hf|done].
Qed.

Lemma io_wf_seq {A B} (m : io A) (k : io B) : io_wf m -> io_wf k -> io_wf (m ;; k).
Proof. intros Hm Hk. by apply io_wf_bind. Qed.

Lemma io_wf_iter {A} (f : A -> io unit) l : (forall a, io_wf (f a)) -> io_wf (io_iter f l).
Proof. intros Hf. induction l; cbn; [apply io_wf_ret|]. apply io_wf_bind; auto. Qed.

Lemma io_wf_getcwd : io_wf getcwd.
Proof. by intros w Hw. Qed.

Lemma io_wf_existsSync p : io_wf (existsSync p).
Proof. by intros w Hw. Qed.

Lemma io_wf_readFileSync p : io_wf (readFileSync p).
Proof. intros w Hw. unfold readFileSync. by repeat case_match. Qed.

Lemma io_wf_readdir_io p : io_wf (readdir_io p).
Proof. intros w Hw. unfold readdir_io. by repeat case_match. Qed.

Lemma io_wf_chdir p : io_wf (chdir p).
Proof.
  intros w (Hr & Hd & Hf & Hc & Hok). unfold chdir.
  destruct (String.eqb p ""); [done|]. destruct (is_dir w _) eqn:Hq; [|by repeat case_match].
  apply bool_decide_eq_true in Hq. cbn. split_and!; try done. by apply resolve_ok.
Qed.

Lemma io_wf_spawn_io s : io_wf (spawn_io s).
Proof. by intros w Hw. Qed.

Lemma parent_prefix q r : r ∈ prefixes q -> parent r = [] \/ parent r ∈ prefixes q.
Proof.
  unfold prefixes, parent. intros (k & -> & Hk%elem_of_seq)%list_elem_of_fmap.
  rewrite length_take, take_take. replace (Nat.min (Nat.min k (length q) - 1) k) with (k - 1) by lia.
  destruct (decide (k = 1)) as [->|Hk1]; [by left|right].
  apply list_elem_of_fmap. exists (k - 1). split; [done|]. apply elem_of_seq. lia.
Qed.

Lemma io_wf_mkdirSync p : io_wf (mkdirSync p).
Proof.
  intros w (Hr & Hd & Hf & Hc & Hok). unfold mkdirSync.
  destruct (String.eqb p ""); [done|]. destruct (is_file w _); [done|].
  destruct (list_find _ _) as [[i r]|] eqn:Hfind; [done|].
  apply list_find_None in Hfind. cbn. split_and!.
  - set_solver.
  - intros d [Hdd|Hdp]%elem_of_union; [apply elem_of_union_l; by apply Hd|].
    apply elem_of_list_to_set in Hdp. destruct (parent_prefix _ _ Hdp) as [->|?]; [set_solver|].
    apply elem_of_union_r. by apply elem_of_list_to_set.
  - intros f t Hft. destruct (Hf f t Hft) as [Hpf Hfd]. split; [set_solver|].
    intros [?|Hfp%elem_of_list_to_set]%elem_of_union; [done|].
    rewrite Forall_forall in Hfind. apply (Hfind f Hfp). unfold is_file. apply bool_decide_eq_true. by eexists.
  - set_solver.
  - done.
Qed.

Lemma io_wf_writeFileSync p text : io_wf (writeFileSync p text).
Proof.
  intros w (Hr & Hd & Hf & Hc & Hok). unfold writeFileSync.
  destruct (String.eqb p ""); [done|]. destruct (is_dir w (resolve _ p)) eqn:Hq; [done|].
  destruct (is_dir w (parent _)) eqn:Hpq; [|by repeat case_match].
  apply bool_decide_eq_false in Hq. apply bool_decide_eq_true in Hpq. cbn. split_and!; try done.
  by apply map_Forall_insert_2.
Qed.

End WorldWf.

#[export] Hint Resolve io_wf_ret io_wf_throw io_wf_bind io_wf_seq io_wf_iter io_wf_getcwd io_wf_existsSync
  io_wf_readFileSync io_wf_readdir_io io_wf_chdir io_wf_spawn_io io_wf_mkdirSync io_wf_writeFileSync : fs.

(** Closes [io_wf] goals of programs built from the calls. *)
Ltac io_wf_auto :=
  repeat first [ progress (intros; cbn beta)
               | apply io_wf_bind
               | apply io_wf_iter
               | case_match
               | solve [eauto with fs] ].

(** ** Running the calls *)

Section IoEval.

Lemma bind_io_ok {A B} (m : io A) (f : A -> io B) w w' a :
  m w = (w', IOk a) -> bind_io m f w = f a w'.
Proof. unfold bind_io. by intros ->. Qed.

Lemma seq_io_ok {A B} (m : io A) (k : io B) w w' a : m w = (w', IOk a) -> (m ;; k) w = k w'.
Proof. apply bind_io_ok. Qed.

Lemma bind_io_err {A B} (m : io A) (f : A -> io B) w w' e :
  m w = (w', IErr e) -> bind_io m f w = (w', IErr e).
Proof. unfold bind_io. by intros ->. Qed.

Lemma seq_io_err {A B} (m : io A) (k : io B) w w' e : m w = (w', IErr e) -> (m ;; k) w = (w', IErr e).
Proof. apply bind_io_err. Qed.

Lemma chdir_ok w p : p <> "" -> resolve (w_cwd w) p ∈ w_dirs w -> chdir p w = (set_cwd w (resolve (w_cwd w) p), IOk tt).
Proof.
  intros Hp Hq. unfold chdir. rewrite (proj2 (String.eqb_neq _ _) Hp). unfold is_dir.
  by rewrite bool_decide_eq_true_2.
Qed.

Lemma chdir_missing w p :
  p <> "" -> is_dir w (resolve (w_cwd w) p) = false -> is_file w (resolve (w_cwd w) p) = false ->
  chdir p w = (w, IErr (ENOENT (resolve (w_cwd w) p))).
Proof. intros Hp Hd Hf. unfold chdir. by rewrite (proj2 (String.eqb_neq _ _) Hp), Hd, Hf. Qed.

Lemma mkdirSync_ok w p :
  p <> "" -> is_file w (resolve (w_cwd w) p) = false ->
  Forall (fun r => is_file w r = false) (prefixes (resolve (w_cwd w) p)) ->
  mkdirSync p w = (add_dirs w (prefixes (resolve (w_cwd w) p)), IOk tt).
Proof.
  intros Hp Hq Hpre. unfold mkdirSync. rewrite (proj2 (String.eqb_neq _ _) Hp), Hq.
  rewrite (proj2 (list_find_None _ _)); [done|]. eapply Forall_impl; [apply Hpre|]. intros r ->. done.
Qed.

Lemma readdir_io_ok w p :
  p <> "" -> resolve (w_cwd w) p ∈ w_dirs w -> readdir_io p w = (w, IOk tt).
Proof.
  intros Hp Hd. unfold readdir_io, is_dir.
  by rewrite (proj2 (String.eqb_neq _ _) Hp), bool_decide_eq_true_2 by done.
Qed.

Lemma readdir_io_missing w p :
  p <> "" -> resolve (w_cwd w) p ∉ w_dirs w -> is_file w (resolve (w_cwd w) p) = false ->
  readdir_io p w = (w, IErr (ENOENT (resolve (w_cwd w) p))).
Proof.
  intros Hp Hd Hf. unfold readdir_io, is_dir.
  by rewrite (proj2 (String.eqb_neq _ _) Hp), bool_decide_eq_false_2, Hf by done.
Qed.

Lemma readFileSync_ok w p text :
  p <> "" -> w_files w !! resolve (w_cwd w) p = Some text -> readFileSync p w = (w, IOk text).
Proof. intros Hp Ht. unfold readFileSync. by rewrite (proj2 (String.eqb_neq _ _) Hp), Ht. Qed.

(** [forEach] over spawns: one process per element, in order. *)
Lemma io_iter_spawn {A} (g : A -> spawn) l w :
  io_iter (fun x => spawn_io (g x)) l w =
  (mkWorld (w_dirs w) (w_files w) (w_cwd w) (rev (map (fun x => (w_cwd w, g x)) l) ++ w_spawned w), IOk tt).
Proof.
  induction l as [|x l IH] in w |- *; cbn [io_iter map rev]; [by destruct w|].
  rewrite (seq_io_ok _ _ w _ tt) by reflexivity. rewrite IH. cbn. by rewrite <- app_assoc.
Qed.

Lemma prefixes_last q : q <> [] -> q ∈ prefixes q.
Proof.
  intros Hq. apply list_elem_of_fmap. exists (length q). rewrite take_ge by lia. split; [done|].
  apply elem_of_seq. destruct q; [done|]. cbn. lia.
Qed.

Lemma existsSync_eval w p :
  p <> "" -> existsSync p w = (w, IOk (is_dir w (resolve (w_cwd w) p) || is_file w (resolve (w_cwd w) p))).
Proof. intros Hp. unfold existsSync. by rewrite (proj2 (String.eqb_neq _ _) Hp). Qed.

Lemma posix_normalize_nonempty p : posix_normalize p <> "".
Proof.
  unfold posix_normalize. destruct (String.eqb p ""); [done|].
  destruct (String.eqb_spec (String.concat "/" (norm_segs (negb (is_abs p)) [] p)) "") as [_|Hb].
  - by destruct (is_abs p), (ends_slash p).
  - intros E. apply (f_equal String.length) in E. rewrite !length_append_str in E.
    destruct (String.concat "/" _); [done|]. cbn in E. lia.
Qed.

Lemma posix_join_nonempty parts : posix_join parts <> "".
Proof. unfold posix_join. case_match; [done|]. apply posix_normalize_nonempty. Qed.

Lemma is_file_set_cwd w q r : is_file (set_cwd w q) r = is_file w r.
Proof. reflexivity. Qed.

Lemma is_dir_set_cwd w q r : is_dir (set_cwd w q) r = is_dir w r.
Proof. reflexivity. Qed.

Lemma resolve_project_root c src_dir :
  Forall (fun s => seg_ok s = true) src_dir ->
  resolve c (posix_join [path_string src_dir; "../"]) = project_root src_dir.
Proof.
  intros Hs. rewrite resolve_join by done. rewrite resolve_path_string by done.
  unfold project_root. by rewrite resolve_relative.
Qed.

(** The output directory exists afterwards; only directories on its way
    were added. *)
Lemma mkdir_if_missing_ok w d :
  world_wf w -> d <> "" -> is_file w (resolve (w_cwd w) d) = false ->
  Forall (fun r => is_file w r = false) (prefixes (resolve (w_cwd w) d)) ->
  exists w2, mkdir_if_missing d w = (w2, IOk tt) /\ w_cwd w2 = w_cwd w /\
    w_files w2 = w_files w /\ w_spawned w2 = w_spawned w /\
    resolve (w_cwd w) d ∈ w_dirs w2 /\ w_dirs w ⊆ w_dirs w2 /\
    w_dirs w2 ⊆ w_dirs w ∪ list_to_set (prefixes (resolve (w_cwd w) d)).
Proof.
  intros Hw Hd Hf Hpre. unfold mkdir_if_missing.
  rewrite (bind_io_ok _ _ _ _ _ (existsSync_eval _ _ Hd)), Hf, orb_false_r.
  destruct (is_dir w _) eqn:Hdir.
  - eexists. split; [reflexivity|]. apply bool_decide_eq_true in Hdir. split_and!; try done; set_solver.
  - assert (resolve (w_cwd w) d ∈ prefixes (resolve (w_cwd w) d)) as Hin.
    { apply prefixes_last. intros Hnil. apply bool_decide_eq_false in Hdir. apply Hdir. rewrite Hnil. by destruct Hw. }
    rewrite mkdirSync_ok by done. eexists. split; [reflexivity|]. cbn.
    split_and!; try done; set_solver.
Qed.

Lemma io_wf_mkdir_if_missing d : io_wf (mkdir_if_missing d).
Proof. unfold mkdir_if_missing. apply io_wf_bind; [apply io_wf_existsSync|]. intros []; auto with fs. Qed.

Lemma io_wf_get_world : io_wf get_world.
Proof. by intros w Hw. Qed.

Lemma writeFileSync_ok w p text :
  p <> "" -> resolve (w_cwd w) p ∉ w_dirs w -> parent (resolve (w_cwd w) p) ∈ w_dirs w ->
  writeFileSync p text w =
  (mkWorld (w_dirs w) (<[resolve (w_cwd w) p := text]> (w_files w)) (w_cwd w) (w_spawned w), IOk tt).
Proof.
  intros Hp Hq Hpar. unfold writeFileSync, is_dir. rewrite (proj2 (String.eqb_neq _ _) Hp).
  by rewrite bool_decide_eq_false_2, bool_decide_eq_true_2.
Qed.

(** [path.join(dir, name)] for a plain file name. *)
Lemma resolve_join_name c d name :
  d <> "" -> seg_ok name = true -> resolve c (posix_join [d; name]) = resolve c d ++ [name].
Proof.
  intros Hd Hn. pose proof (seg_ok_name _ Hn) as Hname.
  assert (name <> "") as Hne by (by destruct Hname).
  rewrite resolve_join by done. unfold norm_segs.
  unfold seg_ok in Hn. apply andb_true_iff in Hn as [_ Hsl]. apply negb_true_iff, bool_decide_eq_false in Hsl.
  assert (seg_strings name = [name]) as E by (apply (seg_strings_concat [name]); [done|by repeat constructor]).
  rewrite E.
  cbn [foldl]. rewrite norm_step_name by done. cbn. by rewrite rev_involutive.
Qed.

Lemma parent_snoc q name : parent (q ++ [name]) = q.
Proof. unfold parent. rewrite length_app. cbn. rewrite Nat.add_sub, take_app_length. done. Qed.

Lemma prefixes_length q r : r ∈ prefixes q -> length r <= length q.
Proof. unfold prefixes. intros (k & -> & Hk%elem_of_seq)%list_elem_of_fmap. rewrite length_take. lia. Qed.

Lemma snoc_not_prefix q name : q ++ [name] ∉ prefixes q.
Proof. intros Hin%prefixes_length. rewrite length_app in Hin. cbn in Hin. lia. Qed.

(** Writing [path.join(d, name)] into the existing directory [d]. *)
Lemma write_in_dir_ok w d name text :
  d <> "" -> seg_ok name = true -> resolve (w_cwd w) d ∈ w_dirs w ->
  resolve (w_cwd w) d ++ [name] ∉ w_dirs w ->
  writeFileSync (posix_join [d; name]) text w =
  (mkWorld (w_dirs w) (<[resolve (w_cwd w) d ++ [name] := text]> (w_files w)) (w_cwd w) (w_spawned w), IOk tt).
Proof.
  intros Hd Hn Hin Hnot. rewrite writeFileSync_ok; rewrite ?resolve_join_name, ?parent_snoc; try done.
  apply posix_join_nonempty.
Qed.

Lemma wf_set_cwd w q : world_wf w -> q ∈ w_dirs w -> Forall (fun s => seg_ok s = true) q -> world_wf (set_cwd w q).
Proof. intros (H1 & H2 & H3 & _ & _) Hq Hok. unfold world_wf. cbn. by split_and!. Qed.

Lemma project_root_ok src_dir :
  Forall (fun s => seg_ok s = true) src_dir -> Forall (fun s => seg_ok s = true) (project_root src_dir).
Proof. apply resolve_ok. Qed.

Lemma snoc_neq (q : abspath) a b : a <> b -> q ++ [a] <> q ++ [b].
Proof. intros Hab E. apply app_inv_head in E. congruence. Qed.

Lemma readFileSync_missing w p :
  p <> "" -> w_files w !! resolve (w_cwd w) p = None -> is_dir w (resolve (w_cwd w) p) = false ->
  readFileSync p w = (w, IErr (ENOENT (resolve (w_cwd w) p))).
Proof. intros Hp Hn Hd. unfold readFileSync. by rewrite (proj2 (String.eqb_neq _ _) Hp), Hn, Hd. Qed.

Lemma outputs_not_dirs (D0 D : gset abspath) q (outs : list string) n :
  Forall (fun n => q ++ [n] ∉ D0) outs -> D ⊆ D0 ∪ list_to_set (prefixes q) -> n ∈ outs -> q ++ [n] ∉ D.
Proof.
  intros Hnot Hsub Hn Hm. apply Hsub, elem_of_union in Hm as [Hm|Hm%elem_of_list_to_set].
  - rewrite Forall_forall in Hnot. by apply (Hnot n Hn).
  - by apply snoc_not_prefix in Hm.
Qed.

Lemma lookup_insert_longer {A} (m : gmap abspath A) q n v r :
  length r <= length q -> <[q ++ [n] := v]> m !! r = m !! r.
Proof. intros Hl. apply lookup_insert_ne. intros <-. rewrite length_app in Hl. cbn in Hl. lia. Qed.

Lemma lookup_insert_sibling {A} (m : gmap abspath A) q n n' v :
  n <> n' -> <[q ++ [n] := v]> m !! (q ++ [n']) = m !! (q ++ [n']).
Proof. intros Hn. by apply lookup_insert_ne, snoc_neq. Qed.

End IoEval.

#[export] Hint Resolve io_wf_mkdir_if_missing io_wf_get_world : fs.
