(* ===== verification/ImporterIo.v ===== *)
(** * The importer on the file system (src/src/Importer.js, src/import.js)

    [Importer] as the code runs it, with its effects on the [world] of
    [Fs]: the constructor changes to the project root
    ([process.chdir(path.join(__dirname, '../'))]) and creates the
    output directory when [fs.existsSync] does not see it; [parseTags]
    reads the tag file ([fs.readFileSync]) and changes back to the
    directory it was in; [import] changes into
    [path.join(process.cwd(), outputDir)] and spawns one [git clone] per
    tag there; [listTags] spawns [git ls-remote] where it is.

    [__dirname] of [Importer.js] is the section variable [src_dir].  The
    pure [Importer.parseTags] and [Importer.importer_run] give the tags
    and the command lines; the theorems of this file show that the
    effectful program spawns exactly those, in the output directory,
    what it does with an absolute [--output-dir], and that a missing
    [--tags] is reported only after the output directory exists. *)

From Stdlib Require Import String Ascii.
From stdpp Require Import base list gmap sorting strings.
From S2P Require Import Prelude Collate Importer Fs.

Local Open Scope io_scope.

Section ImporterProgram.
Context `{Collator}.

(** [__dirname] of [src/src/Importer.js]. *)
Variable src_dir : abspath.

(** [constructor(options)]. *)
Definition Importer_constructor (o : importer_options) : io unit :=
  chdir (posix_join [path_string src_dir; "../"]);;
  mkdir_if_missing (outputDir o).

(** [parseTags()]. *)
Definition parseTags_io (o : importer_options) : io (list string) :=
  let* cwd := getcwd in
  if str_truthy (tagsFromFile o) then
    let* data := readFileSync (default "" (tagsFromFile o)) in
    chdir (path_string cwd);;
    mret (js_sort (filter (fun t => nonempty t = true) (map js_trim (js_split "010"%char data))))
  else if str_truthy (tags o) then
    mret (js_sort (filter (fun t => nonempty t = true) (js_split ","%char (default "" (tags o)))))
  else throw (JsError "Error" "You need to define the --tags or the --tags-from-file option.").

(** [import()]. *)
Definition import_io (o : importer_options) : io unit :=
  let* ts := parseTags_io o in
  let* cwd := getcwd in
  chdir (posix_join [path_string cwd; outputDir o]);;
  io_iter (fun t => spawn_io (mkSpawn "git" (clone_args (url o) t))) ts.

(** [listTags()]. *)
Definition listTags_io (o : importer_options) : io unit := spawn_io (listTags_spawn o).

(** [run()]. *)
Definition importer_run_io (o : importer_options) : io unit :=
  if listTags o then listTags_io o else import_io o.

(** [(new Importer(opts)).run()] of [import.js]. *)
Definition importer_main (o : importer_options) : io unit :=
  Importer_constructor o;; importer_run_io o.

End ImporterProgram.

(** The tag file as [Importer.parseTags] reads it from the directory
    [dir]: the text of the file the path opens, [''] when there is none. *)
Definition world_reader (w : world) (dir : abspath) : ImporterEnv :=
  fun f => default "" (w_files w !! resolve dir f).


(** A checkout in [/home/u/heatmap] ([src/src] holds [Importer.js]), a
    [/tmp] directory, and the shell in [/home/u]. *)
Definition sample_src_dir : abspath := ["home"; "u"; "heatmap"; "src"; "src"].

Definition sample_world : world :=
  mkWorld (list_to_set ([] :: ["tmp"] :: prefixes sample_src_dir)) ∅ ["home"; "u"] [].

Definition catalyst_url : string := "https://github.com/github/catalyst.git".

(** [node import.js <url> --tags v1.0,v1.1], with the default
    [--output-dir imported] or with [--output-dir /tmp/imported]. *)
Definition rel_options : importer_options := mkImporterOptions catalyst_url false "imported" (Some "v1.0,v1.1") None.
Definition abs_options : importer_options := mkImporterOptions catalyst_url false "/tmp/imported" (Some "v1.0,v1.1") None.
Definition notags_options : importer_options := mkImporterOptions catalyst_url false "imported" None None.

Section ImporterEval.
Context `{Collator}.

(** The constructor ends in the project root with the output directory
    created, the files and the processes untouched. *)
Lemma Importer_constructor_ok src_dir o w :
  world_wf w -> Forall (fun s => seg_ok s = true) src_dir -> project_root src_dir ∈ w_dirs w ->
  outputDir o <> "" ->
  is_file w (resolve (project_root src_dir) (outputDir o)) = false ->
  Forall (fun r => is_file w r = false) (prefixes (resolve (project_root src_dir) (outputDir o))) ->
  exists w2, Importer_constructor src_dir o w = (w2, IOk tt) /\ w_cwd w2 = project_root src_dir /\
    w_files w2 = w_files w /\ w_spawned w2 = w_spawned w /\
    resolve (project_root src_dir) (outputDir o) ∈ w_dirs w2 /\
    w_dirs w2 ⊆ w_dirs w ∪ list_to_set (prefixes (resolve (project_root src_dir) (outputDir o))).
Proof.
  intros Hw Hs Hroot Ho Hout Hpre. unfold Importer_constructor.
  rewrite (seq_io_ok _ _ w (set_cwd w (project_root src_dir)) tt);
    [|by rewrite chdir_ok, resolve_project_root by (done || apply posix_join_nonempty || by rewrite resolve_project_root)].
  destruct (mkdir_if_missing_ok (set_cwd w (project_root src_dir)) (outputDir o))
    as (w2 & Hm & Hc & Hf & Hsp & Hin & _ & Hsub); try done.
  - destruct Hw as (? & ? & ? & _). split_and!; try done. by apply resolve_ok.
  - exists w2. split_and!; done.
Qed.

(** [parseTags] on the world is [Importer.parseTags] reading the tag
    file from the working directory: it leaves the world as it was. *)
Lemma parseTags_io_spec o w :
  world_wf w ->
  (str_truthy (tagsFromFile o) = true -> is_Some (w_files w !! resolve (w_cwd w) (default "" (tagsFromFile o)))) ->
  parseTags_io o w =
  (w, match parseTags (H := world_reader w (w_cwd w)) o with
      | Some ts => IOk ts
      | None => IErr (JsError "Error" "You need to define the --tags or the --tags-from-file option.")
      end).
Proof.
  intros Hw Hf. unfold parseTags_io, parseTags. rewrite (bind_io_ok _ _ w w (w_cwd w)) by reflexivity.
  destruct (str_truthy (tagsFromFile o)) eqn:Ht.
  - destruct (Hf eq_refl) as [text Htext].
    assert (default "" (tagsFromFile o) <> "") as Hne
      by (destruct (tagsFromFile o); cbn in Ht; [by apply negb_true_iff, String.eqb_neq in Ht|done]).
    rewrite (bind_io_ok _ _ w w text) by (by apply readFileSync_ok).
    destruct Hw as (_ & _ & _ & Hc & Hok).
    rewrite (seq_io_ok _ _ w w tt); [cbv [read_file world_reader]; by rewrite Htext|].
    assert (resolve (w_cwd w) (path_string (w_cwd w)) = w_cwd w) as Hcw by (by apply resolve_path_string).
    rewrite chdir_ok, Hcw; [by destruct w|unfold path_string; by apply app_nonempty_str|by rewrite Hcw].
  - by destruct (str_truthy (tags o)).
Qed.

Lemma Importer_constructor_wf src_dir o : io_wf (Importer_constructor src_dir o).
Proof. unfold Importer_constructor. io_wf_auto. Qed.

Lemma importer_main_wf_lemma src_dir o : io_wf (importer_main src_dir o).
Proof.
  unfold importer_main, importer_run_io, import_io, listTags_io, parseTags_io.
  apply io_wf_seq; [apply Importer_constructor_wf|]. io_wf_auto.
Qed.

Lemma world_reader_files w w' d : w_files w = w_files w' -> world_reader w d = world_reader w' d.
Proof. unfold world_reader. by intros ->. Qed.

(** [import()] in the world the constructor left: one [git clone] per
    tag, spawned in the output directory. *)
Lemma import_io_ok o w2 ts :
  world_wf w2 -> resolve (w_cwd w2) (outputDir o) ∈ w_dirs w2 ->
  is_abs (outputDir o) = false -> outputDir o <> "" ->
  (str_truthy (tagsFromFile o) = true -> is_Some (w_files w2 !! resolve (w_cwd w2) (default "" (tagsFromFile o)))) ->
  parseTags (H := world_reader w2 (w_cwd w2)) o = Some ts ->
  import_io o w2 =
  (mkWorld (w_dirs w2) (w_files w2) (resolve (w_cwd w2) (outputDir o))
     (rev (map (fun t => (resolve (w_cwd w2) (outputDir o), mkSpawn "git" (clone_args (url o) t))) ts)
      ++ w_spawned w2), IOk tt).
Proof.
  intros Hw Hout Habs Hne Hf Hts. unfold import_io.
  rewrite (bind_io_ok _ _ w2 w2 ts) by (by rewrite parseTags_io_spec, Hts).
  rewrite (bind_io_ok _ _ w2 w2 (w_cwd w2)) by reflexivity.
  destruct Hw as (_ & _ & _ & Hc & Hok).
  assert (resolve (w_cwd w2) (posix_join [path_string (w_cwd w2); outputDir o]) = resolve (w_cwd w2) (outputDir o))
    as Hj by (rewrite resolve_join, resolve_path_string, resolve_relative by (done || unfold path_string; by apply app_nonempty_str); done).
  rewrite (seq_io_ok _ _ w2 (set_cwd w2 (resolve (w_cwd w2) (outputDir o))) tt)
    by (rewrite chdir_ok, Hj; [done|apply posix_join_nonempty|by rewrite Hj]).
  by rewrite io_iter_spawn.
Qed.

End ImporterEval.

(** ** The importer's effects *)

(** C14: The importer as it runs on the file system spawns
    exactly the processes of [Importer.importer_run], reading the tag
    file from the project root: [git ls-remote] in the project root, or
    one [git clone] per tag in the output directory, which it has
    created; this holds for a relative, non-empty [--output-dir] whose
    way holds no file, a tag file that exists when [--tags-from-file] is
    given, and options for which [Importer.importer_run] succeeds. *)
Theorem importer_main_spawns `{Collator} (src_dir : abspath) (o : importer_options) (w : world)
    (spawns : list spawn) :
  world_wf w -> Forall (fun s => seg_ok s = true) src_dir -> project_root src_dir ∈ w_dirs w ->
  is_abs (outputDir o) = false -> outputDir o <> "" ->
  is_file w (resolve (project_root src_dir) (outputDir o)) = false ->
  Forall (fun r => is_file w r = false) (prefixes (resolve (project_root src_dir) (outputDir o))) ->
  (str_truthy (tagsFromFile o) = true ->
   is_Some (w_files w !! resolve (project_root src_dir) (default "" (tagsFromFile o)))) ->
  importer_run (H := world_reader w (project_root src_dir)) o = Some spawns ->
  exists w', importer_main src_dir o w = (w', IOk tt) /\
    resolve (project_root src_dir) (outputDir o) ∈ w_dirs w' /\
    w_spawned w' = rev (map (pair (if listTags o then project_root src_dir
                                   else resolve (project_root src_dir) (outputDir o))) spawns)
                   ++ w_spawned w.
Proof.
  intros Hw Hs Hroot Habs Hne Hfile Hpre Htf Hrun.
  destruct (Importer_constructor_ok src_dir o w) as (w2 & Hc & Hcwd & Hfiles & Hsp & Hout & _); try done.
  pose proof (Importer_constructor_wf src_dir o w Hw) as Hw2. rewrite Hc in Hw2.
  unfold importer_main. rewrite (seq_io_ok _ _ w w2 tt Hc). unfold importer_run_io.
  unfold importer_run in Hrun. destruct (listTags o).
  - injection Hrun as <-. eexists. split; [reflexivity|]. cbn. by rewrite Hcwd, Hsp.
  - unfold import in Hrun. destruct (parseTags o) as [ts|] eqn:Hts; [|done]. injection Hrun as <-.
    rewrite (world_reader_files w w2) in Hts by done. rewrite <- Hcwd in Hts, Htf, Hout.
    rewrite <- Hfiles in Htf. rewrite (import_io_ok o w2 ts) by done.
    eexists. split; [reflexivity|]. cbn [w_dirs w_spawned]. rewrite Hsp, map_map, <- Hcwd. by split.
Qed.

(** C16: With an absolute [--output-dir] the importer creates that
    directory, then changes to [path.join(process.cwd(), outputDir)],
    which is the path under the project root, and throws [ENOENT] there
    when it does not exist: no tag is cloned. *)
Theorem importer_absolute_output_dir `{Collator} (src_dir : abspath) (o : importer_options) (w : world)
    (ts : list string) :
  world_wf w -> Forall (fun s => seg_ok s = true) src_dir -> project_root src_dir ∈ w_dirs w ->
  listTags o = false -> is_abs (outputDir o) = true ->
  is_file w (resolve (project_root src_dir) (outputDir o)) = false ->
  Forall (fun r => is_file w r = false) (prefixes (resolve (project_root src_dir) (outputDir o))) ->
  (str_truthy (tagsFromFile o) = true ->
   is_Some (w_files w !! resolve (project_root src_dir) (default "" (tagsFromFile o)))) ->
  parseTags (H := world_reader w (project_root src_dir)) o = Some ts ->
  norm_segs false (project_root src_dir) (outputDir o) ∉
    w_dirs w ∪ list_to_set (prefixes (resolve (project_root src_dir) (outputDir o))) ->
  is_file w (norm_segs false (project_root src_dir) (outputDir o)) = false ->
  exists w', importer_main src_dir o w = (w', IErr (ENOENT (norm_segs false (project_root src_dir) (outputDir o)))) /\
    resolve [] (outputDir o) ∈ w_dirs w' /\ w_spawned w' = w_spawned w.
Proof.
  intros Hw Hs Hroot Hl Habs Hfile Hpre Htf Hts Hnd Hnf.
  assert (outputDir o <> "") as Hne by (intros E; by rewrite E in Habs).
  destruct (Importer_constructor_ok src_dir o w) as (w2 & Hc & Hcwd & Hfiles & Hsp & Hout & Hsub); try done.
  pose proof (Importer_constructor_wf src_dir o w Hw) as Hw2. rewrite Hc in Hw2.
  unfold importer_main. rewrite (seq_io_ok _ _ w w2 tt Hc). unfold importer_run_io. rewrite Hl.
  unfold import_io. rewrite (world_reader_files w w2) in Hts by done. rewrite <- Hcwd in Hts.
  rewrite (bind_io_ok _ _ w2 w2 ts) by (rewrite parseTags_io_spec, Hts; [done|done|by rewrite Hfiles, Hcwd]).
  rewrite (bind_io_ok _ _ w2 w2 (w_cwd w2)) by reflexivity.
  assert (resolve (w_cwd w2) (posix_join [path_string (w_cwd w2); outputDir o]) =
          norm_segs false (project_root src_dir) (outputDir o)) as Hj.
  { destruct Hw2 as (_ & _ & _ & _ & Hok).
    rewrite resolve_join, resolve_path_string, Hcwd by (done || unfold path_string; by apply app_nonempty_str).
    done. }
  rewrite (seq_io_err _ _ w2 w2 (ENOENT (norm_segs false (project_root src_dir) (outputDir o)))).
  - eexists. split; [reflexivity|]. split; [|done].
    unfold resolve in Hout |- *. by rewrite Habs in Hout |- *.
  - rewrite chdir_missing, Hj; [done|apply posix_join_nonempty| |].
    + rewrite Hj. apply bool_decide_eq_false. set_solver.
    + rewrite Hj. unfold is_file. by rewrite Hfiles.
Qed.

(** C17: Without [--list-tags], [--tags] and [--tags-from-file],
    for a non-empty [--output-dir] with no file on its way, the importer
    throws its configuration [Error], but only after the constructor has
    created the output directory: the failure is not before any work. *)
Theorem importer_config_error_after_mkdir `{Collator} (src_dir : abspath) (o : importer_options) (w : world) :
  world_wf w -> Forall (fun s => seg_ok s = true) src_dir -> project_root src_dir ∈ w_dirs w ->
  listTags o = false -> outputDir o <> "" ->
  str_truthy (tagsFromFile o) = false -> str_truthy (tags o) = false ->
  is_file w (resolve (project_root src_dir) (outputDir o)) = false ->
  Forall (fun r => is_file w r = false) (prefixes (resolve (project_root src_dir) (outputDir o))) ->
  exists w', importer_main src_dir o w =
      (w', IErr (JsError "Error" "You need to define the --tags or the --tags-from-file option.")) /\
    resolve (project_root src_dir) (outputDir o) ∈ w_dirs w' /\
    w_files w' = w_files w /\ w_spawned w' = w_spawned w.
Proof.
  intros Hw Hs Hroot Hl Hne Htf Ht Hfile Hpre.
  destruct (Importer_constructor_ok src_dir o w) as (w2 & Hc & Hcwd & Hfiles & Hsp & Hout & Hsub); try done.
  pose proof (Importer_constructor_wf src_dir o w Hw) as Hw2. rewrite Hc in Hw2.
  exists w2. split_and!; try done.
  unfold importer_main. rewrite (seq_io_ok _ _ w w2 tt Hc). unfold importer_run_io. rewrite Hl.
  unfold import_io. apply bind_io_err. rewrite parseTags_io_spec by (done || by rewrite Htf).
  unfold parseTags. by rewrite Htf, Ht.
Qed.


Lemma importer_main_spawns_witness :
  exists w', @importer_main length_collator sample_src_dir rel_options sample_world = (w', IOk tt) /\
    ["home"; "u"; "heatmap"; "src"; "imported"] ∈ w_dirs w' /\
    w_spawned w' = rev (map (pair ["home"; "u"; "heatmap"; "src"; "imported"])
                         [mkSpawn "git" (clone_args catalyst_url "v1.0"); mkSpawn "git" (clone_args catalyst_url "v1.1")]).
Proof.
  refine (@importer_main_spawns length_collator sample_src_dir rel_options sample_world
            [mkSpawn "git" (clone_args catalyst_url "v1.0"); mkSpawn "git" (clone_args catalyst_url "v1.1")]
            _ _ _ _ _ _ _ _ _).
  - apply (bool_decide_unpack _). vm_compute. reflexivity.
  - repeat constructor.
  - apply (bool_decide_unpack _). vm_compute. reflexivity.
  - reflexivity.
  - discriminate.
  - vm_compute. reflexivity.
  - vm_compute. repeat constructor.
  - vm_compute. discriminate.
  - vm_compute. reflexivity.
Defined.

Lemma importer_absolute_output_dir_witness :
  exists w', @importer_main length_collator sample_src_dir abs_options sample_world =
             (w', IErr (ENOENT ["home"; "u"; "heatmap"; "src"; "tmp"; "imported"])) /\
    ["tmp"; "imported"] ∈ w_dirs w' /\ w_spawned w' = [].
Proof.
  refine (@importer_absolute_output_dir length_collator sample_src_dir abs_options sample_world
            ["v1.0"; "v1.1"] _ _ _ _ _ _ _ _ _ _ _).
  - apply (bool_decide_unpack _). vm_compute. reflexivity.
  - repeat constructor.
  - apply (bool_decide_unpack _). vm_compute. reflexivity.
  - reflexivity.
  - reflexivity.
  - vm_compute. reflexivity.
  - vm_compute. repeat constructor.
  - vm_compute. discriminate.
  - vm_compute. reflexivity.
  - apply (bool_decide_unpack _). vm_compute. reflexivity.
  - vm_compute. reflexivity.
Defined.

Lemma importer_config_error_after_mkdir_witness :
  exists w', @importer_main length_collator sample_src_dir notags_options sample_world =
      (w', IErr (JsError "Error" "You need to define the --tags or the --tags-from-file option.")) /\
    ["home"; "u"; "heatmap"; "src"; "imported"] ∈ w_dirs w' /\ w_files w' = ∅ /\ w_spawned w' = [].
Proof.
  apply (@importer_config_error_after_mkdir length_collator sample_src_dir notags_options sample_world);
    first [ apply (bool_decide_unpack _); vm_compute; reflexivity | reflexivity | discriminate ].
Defined.
