(* ===== verification/AppIo.v ===== *)
(** * [App.run] on the file system (src/src/App.js, src/main.js)

    [node main.js] loads [App.js], which changes to its own directory
    ([process.chdir(__dirname)]); the constructor changes to the project
    root; [run] creates the output directory when it is missing, lists
    the input directory ([getVersions]), reads the line counts (the CSV of [--cloc-cache-file], or the CSV that
    [cloc --out <outputDir>/cloc.csv] writes), writes
    [<outputDir>/barchart.html], reads the comparison matrix from
    [--heatmap-cache-file] or computes it and writes
    [<outputDir>/heatmap.json], and writes [<outputDir>/heatmap.html].

    Here these effects are an [io] program on the [world] of [Fs].  The
    pure pipeline of [App] ([run_setup], [augmentHeatmapMatrix]) runs on
    the [AppEnv] that reads the world ([io_env]): the CSV decoder, the
    report cloc writes and the pug templates are the class [IoEnv]; the
    matrix the batch runner computes is a parameter ([compared]), since
    the comparisons write only temporary files outside the project.
    The theorems: a run without caches writes exactly the four output
    files ([app_first_run], [app_run_writes_outputs]); a second run from
    the cache the first run wrote leaves every file as it was
    ([app_rerun_cached], [cache_rerun_same_files]); the default cache
    path does not follow [--output-dir] and the cached run then throws
    [ENOENT] ([cache_misses_output_dir]); a missing input directory
    stops the run at [readdir] ([run_missing_input_dir]); every program
    keeps the world
    well formed ([programs_keep_world_wf]).  The witnesses run on the
    sample checkout [/home/u/heatmap] with the sample environment of
    [App]. *)

From Stdlib Require Import QArith ZArith String Ascii.
From stdpp Require Import base list gmap strings.
From S2P Require Import Prelude JsNum Matrix Batch Parsers Json Collate App Importer Compare Fs ImporterIo.

Local Open Scope io_scope.

(** The data handed to [pug.compileFile(pugFile)]: [{chart: {data,
    options: {height: 400}}}] or [{matrix, versions}]. *)
Inductive pug_locals :=
| BarchartLocals (data : list chart_row) (height : Z)
| HeatmapLocals (m : matrix) (vs : list string).

(** The libraries and tools [run] hands its files to. *)
Class IoEnv := {
  csv_parse : string -> list Cloc.csv_row;        (* parse(text, {columns: true, ...}) of csv-parse *)
  cloc_report : string -> string;                 (* the CSV cloc writes for a source path *)
  pug_render : string -> pug_locals -> string     (* pug.compileFile(pugFile)(locals) *)
}.

(** The text of the file [f] opens, [''] when there is none. *)
Definition file_text (w : world) (f : string) : string := default "" (w_files w !! resolve (w_cwd w) f).

(** The environment of the pure pipeline in the world [w]: [path.join]
    is POSIX, the CSV files and [heatmap.json] are read from [w]. *)
Definition io_env `{base : AppEnv} `{IoEnv} (o : options) (w : world) : AppEnv := {|
  platform := @platform base;
  readdir := @readdir base;
  path_join := posix_join;
  read_csv := fun f => csv_parse (file_text w f);
  cloc_rows := fun _ => csv_parse (file_text w (posix_join [App.outputDir o; "cloc.csv"]));
  read_json_matrix := fun f => default [] (read_heatmap_cache (file_text w f));
  compare_php := @compare_php base;
  compare_js := @compare_js base
|}.

(** The files [run] writes into the output directory. *)
Definition app_outputs : list string := ["cloc.csv"; "barchart.html"; "heatmap.json"; "heatmap.html"].

(** A sample checkout: the program in [/home/u/heatmap/src] with the
    input directory [/home/u/heatmap/input], run from [/home/u]; [cloc] reports one text, [csv-parse] gives the sample rows
    of [Parsers], and the templates render to their own names. *)
Definition sample_app_dir : abspath := ["home"; "u"; "heatmap"; "src"].

Definition sample_app_world : world :=
  mkWorld (list_to_set ([] :: ["home"; "u"; "heatmap"; "input"] :: prefixes sample_app_dir)) ∅ ["home"; "u"] [].

(** The same checkout before an input directory was made. *)
Definition bare_app_world : world :=
  mkWorld (list_to_set ([] :: prefixes sample_app_dir)) ∅ ["home"; "u"] [].

Definition sample_io : IoEnv := {|
  csv_parse := fun _ => sample_rows;
  cloc_report := fun _ => "cloc report";
  pug_render := fun tpl _ => tpl
|}.

(** [main.js --output-dir out2], the cache files left at their defaults. *)
Definition out2_options : options :=
  mkOptions "php" "input" "input" "out2" false "output/cloc.csv" false "output/heatmap.json".

Section AppProgram.
Context `{AppEnv} `{IoEnv} `{Collator}.

(** The [fs.readFileSync(file)] of [parseClocCsv]; the rows are decoded
    from the world by [io_env]. *)
Definition parseClocCsv_io (file : string) : io unit :=
  let* _text := readFileSync file in mret tt.

(** cloc writing its report: a failure of the tool is its own, it does
    not throw in [run]. *)
Definition cloc_process (o : options) (directory : string) : io unit := fun w =>
  match writeFileSync (posix_join [App.outputDir o; "cloc.csv"]) (cloc_report directory) w with
  | (w', IOk _) => (w', IOk tt)
  | (_, IErr _) => (w, IOk tt)
  end.

(** [calculateLinesOfCode(directory)]: spawn cloc, and once it exits
    parse [path.join(outputDir, 'cloc.csv')]. *)
Definition calculateLinesOfCode_io (o : options) (directory : string) : io unit :=
  let* w := get_world in
  spawn_io (mkSpawn "cloc" (cloc_args (H := io_env o w) o directory));;
  cloc_process o directory;;
  parseClocCsv_io (posix_join [App.outputDir o; "cloc.csv"]).

(** The comparison matrix of [run]: [JSON.parse] of the cache file, or
    the computed matrix written to [heatmap.json]. *)
Definition heatmap_matrix_io (o : options) (compared : matrix) : io matrix :=
  if useHeatmapCache o then
    let* text := readFileSync (heatmapCacheFile o) in
    match json_parse text with
    | None => throw (JsError "SyntaxError" "Unexpected token in JSON")
    | Some v => match matrix_of_json v with Some m => mret m | None => throw Unmodelled end
    end
  else
    match json_stringify compared with
    | Some text => writeFileSync (posix_join [App.outputDir o; "heatmap.json"]) text;; mret compared
    | None => throw Unmodelled
    end.

(** [run()]. *)
Definition app_run_io (o : options) (compared : matrix) : io unit :=
  mkdir_if_missing (App.outputDir o);;
  readdir_io (posix_join ["./"; inputDir o]);;
  (if useClocCache o then parseClocCsv_io (clocCacheFile o)
   else calculateLinesOfCode_io o (srcPath o));;
  let* w := get_world in
  match run_setup (H := io_env o w) o with
  | None => throw (JsError "TypeError" "Cannot read properties of undefined (reading 'match')")
  | Some st =>
      writeFileSync (posix_join [App.outputDir o; "barchart.html"])
                    (pug_render "src/barchart.pug" (BarchartLocals (chart st) 400));;
      let* m := heatmap_matrix_io o compared in
      writeFileSync (posix_join [App.outputDir o; "heatmap.html"])
                    (pug_render "src/heatmap.pug" (HeatmapLocals (augmentHeatmapMatrix m) (versions st)))
  end.

(** [(new (require('./src/App'))(opts)).run()] of [main.js]: loading
    [App.js] changes to its directory [app_dir], the constructor to the
    project root. *)
Definition app_main (app_dir : abspath) (o : options) (compared : matrix) : io unit :=
  chdir (path_string app_dir);;
  chdir (posix_join [path_string app_dir; "../"]);;
  app_run_io o compared.

End AppProgram.

Section AppEval.
Context `{AppEnv} `{IoEnv} `{Collator}.

(** Loading [App.js] and constructing [App] end in the project root. *)
Lemma app_chdirs_ok {A} app_dir (k : io A) w :
  Forall (fun s => seg_ok s = true) app_dir -> app_dir ∈ w_dirs w -> project_root app_dir ∈ w_dirs w ->
  (chdir (path_string app_dir);; chdir (posix_join [path_string app_dir; "../"]);; k) w =
  k (set_cwd w (project_root app_dir)).
Proof.
  intros Hs Hd Hr.
  assert (resolve (w_cwd w) (path_string app_dir) = app_dir) as Ha by (by apply resolve_path_string).
  rewrite (seq_io_ok _ _ w (set_cwd w app_dir) tt)
    by (rewrite chdir_ok, Ha; [done|unfold path_string; by apply app_nonempty_str|by rewrite Ha]).
  rewrite (seq_io_ok _ _ _ (set_cwd w (project_root app_dir)) tt); [done|].
  rewrite chdir_ok; rewrite ?resolve_project_root; try done. apply posix_join_nonempty.
Qed.

(** cloc runs in the working directory and its report lands in
    [<outputDir>/cloc.csv], which [parseClocCsv] then reads. *)
Lemma calculateLinesOfCode_ok o directory w :
  App.outputDir o <> "" -> resolve (w_cwd w) (App.outputDir o) ∈ w_dirs w ->
  resolve (w_cwd w) (App.outputDir o) ++ ["cloc.csv"] ∉ w_dirs w ->
  calculateLinesOfCode_io o directory w =
  (mkWorld (w_dirs w) (<[resolve (w_cwd w) (App.outputDir o) ++ ["cloc.csv"] := cloc_report directory]> (w_files w))
     (w_cwd w) ((w_cwd w, mkSpawn "cloc" (cloc_args (H := io_env o w) o directory)) :: w_spawned w), IOk tt).
Proof.
  intros Hd Hin Hnot. unfold calculateLinesOfCode_io.
  rewrite (bind_io_ok _ _ w w w) by reflexivity.
  set (w1 := mkWorld (w_dirs w) (w_files w) (w_cwd w)
               ((w_cwd w, mkSpawn "cloc" (cloc_args (H := io_env o w) o directory)) :: w_spawned w)).
  set (w2 := mkWorld (w_dirs w) (<[resolve (w_cwd w) (App.outputDir o) ++ ["cloc.csv"] := cloc_report directory]>
               (w_files w)) (w_cwd w) (w_spawned w1)).
  rewrite (seq_io_ok _ _ w w1 tt) by reflexivity.
  rewrite (seq_io_ok _ _ w1 w2 tt).
  - unfold parseClocCsv_io. rewrite (bind_io_ok _ _ w2 w2 (cloc_report directory)); [reflexivity|].
    apply readFileSync_ok; [apply posix_join_nonempty|]. cbn. rewrite resolve_join_name by done.
    by simplify_map_eq.
  - unfold cloc_process. by rewrite write_in_dir_ok.
Qed.

(** The setup reads only the report cloc wrote. *)
Lemma run_setup_report o w w' :
  useClocCache o = false ->
  file_text w (posix_join [App.outputDir o; "cloc.csv"]) = file_text w' (posix_join [App.outputDir o; "cloc.csv"]) ->
  run_setup (H := io_env o w) o = run_setup (H := io_env o w') o.
Proof. intros Hc Ht. unfold run_setup. rewrite Hc. cbn [cloc_rows io_env]. by rewrite Ht. Qed.

(** [heatmap.json] written from the computed matrix. *)
Lemma heatmap_matrix_write_ok o compared text w :
  useHeatmapCache o = false -> json_stringify compared = Some text -> App.outputDir o <> "" ->
  resolve (w_cwd w) (App.outputDir o) ∈ w_dirs w ->
  resolve (w_cwd w) (App.outputDir o) ++ ["heatmap.json"] ∉ w_dirs w ->
  heatmap_matrix_io o compared w =
  (mkWorld (w_dirs w) (<[resolve (w_cwd w) (App.outputDir o) ++ ["heatmap.json"] := text]> (w_files w))
     (w_cwd w) (w_spawned w), IOk compared).
Proof.
  intros Hu Hs Hd Hin Hnot. unfold heatmap_matrix_io. rewrite Hu, Hs.
  by rewrite (seq_io_ok _ _ _ _ tt) by (by rewrite write_in_dir_ok).
Qed.

(** The matrix read back from the cache file. *)
Lemma heatmap_matrix_read_ok o compared text m w :
  useHeatmapCache o = true -> heatmapCacheFile o <> "" ->
  w_files w !! resolve (w_cwd w) (heatmapCacheFile o) = Some text -> read_heatmap_cache text = Some m ->
  heatmap_matrix_io o compared w = (w, IOk m).
Proof.
  intros Hu Hne Ht Hm. unfold heatmap_matrix_io. rewrite Hu.
  rewrite (bind_io_ok _ _ w w text) by (by apply readFileSync_ok).
  unfold read_heatmap_cache in Hm. destruct (json_parse text) as [v|]; [|done]. cbn in Hm. by rewrite Hm.
Qed.

Lemma io_wf_cloc_process o d : io_wf (cloc_process o d).
Proof.
  intros w Hw. unfold cloc_process.
  pose proof (io_wf_writeFileSync (posix_join [App.outputDir o; "cloc.csv"]) (cloc_report d) w Hw) as Hw'.
  by destruct (writeFileSync _ _ w) as [w' []].
Qed.

Lemma app_main_wf app_dir o compared : io_wf (app_main app_dir o compared).
Proof.
  pose proof io_wf_cloc_process.
  unfold app_main, app_run_io, calculateLinesOfCode_io, heatmap_matrix_io, parseClocCsv_io. io_wf_auto.
Qed.

Lemma run_setup_cloc o w :
  useClocCache o = false -> file_text w (posix_join [App.outputDir o; "cloc.csv"]) = cloc_report (srcPath o) ->
  run_setup (H := io_env o w) o =
  (loc ← Cloc.parseClocCsv platform (csv_parse (cloc_report (srcPath o)));
   let vs := getVersions (readdir (posix_join ["./"; inputDir o])) in
   Some (mkSetup vs (set_version_dirs (H := io_env o w) o ∅ vs) (total_of (length vs)) loc (viewBarchart_data vs loc))).
Proof. intros Hc Ht. unfold run_setup. rewrite Hc. cbn [cloc_rows io_env platform readdir path_join]. by rewrite Ht. Qed.
Lemma app_first_run app_dir o compared w0 text :
  world_wf w0 -> Forall (fun s => seg_ok s = true) app_dir -> app_dir ∈ w_dirs w0 ->
  project_root app_dir ∈ w_dirs w0 ->
  resolve (project_root app_dir) (posix_join ["./"; inputDir o]) ∈ w_dirs w0 ->
  App.outputDir o <> "" -> useClocCache o = false ->
  useHeatmapCache o = false ->
  is_file w0 (resolve (project_root app_dir) (App.outputDir o)) = false ->
  Forall (fun r => is_file w0 r = false) (prefixes (resolve (project_root app_dir) (App.outputDir o))) ->
  Forall (fun n => resolve (project_root app_dir) (App.outputDir o) ++ [n] ∉ w_dirs w0) app_outputs ->
  is_Some (Cloc.parseClocCsv platform (csv_parse (cloc_report (srcPath o)))) ->
  json_stringify compared = Some text ->
  exists w1 st, app_main app_dir o compared w0 = (w1, IOk tt) /\ world_wf w1 /\
    w_cwd w1 = project_root app_dir /\
    resolve (project_root app_dir) (App.outputDir o) ∈ w_dirs w1 /\
    w_dirs w0 ⊆ w_dirs w1 /\
    w_dirs w1 ⊆ w_dirs w0 ∪ list_to_set (prefixes (resolve (project_root app_dir) (App.outputDir o))) /\
    (forall w', file_text w' (posix_join [App.outputDir o; "cloc.csv"]) = cloc_report (srcPath o) ->
                run_setup (H := io_env o w') o = Some st) /\
    w_files w1 =
      <[resolve (project_root app_dir) (App.outputDir o) ++ ["heatmap.html"] :=
          pug_render "src/heatmap.pug" (HeatmapLocals (augmentHeatmapMatrix compared) (versions st))]>
      (<[resolve (project_root app_dir) (App.outputDir o) ++ ["heatmap.json"] := text]>
      (<[resolve (project_root app_dir) (App.outputDir o) ++ ["barchart.html"] :=
          pug_render "src/barchart.pug" (BarchartLocals (chart st) 400)]>
      (<[resolve (project_root app_dir) (App.outputDir o) ++ ["cloc.csv"] := cloc_report (srcPath o)]>
         (w_files w0)))).
Proof.
  intros Hw Hs Hd Hr Hinp Hne Hcl Hhc Hf Hpre Hnot [loc Hloc] Htext.
  set (root := project_root app_dir) in *. set (out := resolve root (App.outputDir o)) in *.
  assert (world_wf (set_cwd w0 root)) as Hwr by (apply wf_set_cwd; [done|done|by apply project_root_ok]).
  destruct (mkdir_if_missing_ok (set_cwd w0 root) (App.outputDir o) Hwr Hne Hf Hpre)
    as (wm & Hm & Hcm & Hfm & Hsm & Hin & Hsup & Hsub).
  cbn [w_cwd set_cwd] in Hcm, Hin, Hsub, Hsup.
  assert (forall n, n ∈ app_outputs -> out ++ [n] ∉ w_dirs wm) as Hnm.
  { intros n Hn Hmem. apply Hsub in Hmem. rewrite Forall_forall in Hnot.
    apply elem_of_union in Hmem as [Hmem|Hmem%elem_of_list_to_set]; [by apply (Hnot n Hn)|].
    by apply snoc_not_prefix in Hmem. }
  set (wc := mkWorld (w_dirs wm) (<[out ++ ["cloc.csv"] := cloc_report (srcPath o)]> (w_files w0)) root
               ((root, mkSpawn "cloc" (cloc_args (H := io_env o wm) o (srcPath o))) :: w_spawned w0)).
  assert (file_text wc (posix_join [App.outputDir o; "cloc.csv"]) = cloc_report (srcPath o)) as Hct.
  { unfold file_text. cbn [w_cwd w_files wc]. rewrite resolve_join_name by done. by simplify_map_eq. }
  destruct (run_setup (H := io_env o wc) o) as [st|] eqn:Hst; [|by rewrite run_setup_cloc, Hloc in Hst].
  set (wb := mkWorld (w_dirs wm) (<[out ++ ["barchart.html"] := pug_render "src/barchart.pug" (BarchartLocals (chart st) 400)]>
               (w_files wc)) root (w_spawned wc)).
  set (wj := mkWorld (w_dirs wm) (<[out ++ ["heatmap.json"] := text]> (w_files wb)) root (w_spawned wc)).
  evar (w1 : world).
  assert (app_main app_dir o compared w0 = (w1, IOk tt)) as E.
  { unfold app_main. rewrite app_chdirs_ok by done. unfold app_run_io.
    rewrite (seq_io_ok _ _ _ wm tt Hm).
    rewrite (seq_io_ok _ _ wm wm tt) by (apply readdir_io_ok; [apply posix_join_nonempty|rewrite Hcm; by apply Hsup]).
    rewrite Hcl.
    rewrite (seq_io_ok _ _ wm _ tt (calculateLinesOfCode_ok o (srcPath o) wm Hne ltac:(by rewrite Hcm)
               ltac:(rewrite Hcm; apply Hnm; set_solver))).
    rewrite Hcm, Hfm, Hsm. cbn [w_files w_spawned set_cwd].
    rewrite (bind_io_ok _ _ wc wc wc), Hst by reflexivity.
    rewrite (seq_io_ok _ _ wc wb tt) by (rewrite write_in_dir_ok; [done|done|done|done|apply Hnm; set_solver]).
    rewrite (bind_io_ok _ _ wb wj compared)
      by (rewrite (heatmap_matrix_write_ok o compared text); [done|done|done|done|done|apply Hnm; set_solver]).
    rewrite write_in_dir_ok; [|done|done|done|apply Hnm; set_solver]. subst w1. reflexivity. }
  pose proof (app_main_wf app_dir o compared w0 Hw) as Hw1. rewrite E in Hw1.
  exists w1, st. subst w1. split_and!; try done.
  intros w' Hw'. rewrite <- Hst. apply run_setup_report; [done|]. by rewrite Hw', Hct.
Qed.

Lemma app_rerun_cached app_dir o compared compared' w0 text :
  world_wf w0 -> Forall (fun s => seg_ok s = true) app_dir -> app_dir ∈ w_dirs w0 ->
  project_root app_dir ∈ w_dirs w0 ->
  resolve (project_root app_dir) (posix_join ["./"; inputDir o]) ∈ w_dirs w0 ->
  App.outputDir o <> "" -> useClocCache o = false ->
  useHeatmapCache o = false ->
  is_file w0 (resolve (project_root app_dir) (App.outputDir o)) = false ->
  Forall (fun r => is_file w0 r = false) (prefixes (resolve (project_root app_dir) (App.outputDir o))) ->
  Forall (fun n => resolve (project_root app_dir) (App.outputDir o) ++ [n] ∉ w_dirs w0) app_outputs ->
  is_Some (Cloc.parseClocCsv platform (csv_parse (cloc_report (srcPath o)))) ->
  json_stringify compared = Some text ->
  exists w1 st wc, app_main app_dir o compared w0 = (w1, IOk tt) /\ w_files wc = w_files w1 /\
    w_cwd wc = project_root app_dir /\ resolve (project_root app_dir) (App.outputDir o) ∈ w_dirs wc /\
    w_dirs wc ⊆ w_dirs w0 ∪ list_to_set (prefixes (resolve (project_root app_dir) (App.outputDir o))) /\
    w_files w1 !! (resolve (project_root app_dir) (App.outputDir o) ++ ["heatmap.json"]) = Some text /\
    app_main app_dir (with_heatmap_cache o) compared' w1 =
    (let* m := heatmap_matrix_io (with_heatmap_cache o) compared' in
     writeFileSync (posix_join [App.outputDir o; "heatmap.html"])
       (pug_render "src/heatmap.pug" (HeatmapLocals (augmentHeatmapMatrix m) (versions st)))) wc /\
    w_files w1 !! (resolve (project_root app_dir) (App.outputDir o) ++ ["heatmap.html"]) =
      Some (pug_render "src/heatmap.pug" (HeatmapLocals (augmentHeatmapMatrix compared) (versions st))).
Proof.
  intros Hw Hs Hd Hr Hinp Hne Hcl Hhc Hf Hpre Hnot Hloc Htext.
  destruct (app_first_run app_dir o compared w0 text) as (w1 & st & E1 & Hw1 & Hc1 & Hin1 & Hsup1 & Hsub1 & Hst & Hf1);
    try done.
  set (root := project_root app_dir) in *. set (out := resolve root (App.outputDir o)) in *.
  assert (world_wf (set_cwd w1 root)) as Hwr by (apply wf_set_cwd; [done|set_solver|by apply project_root_ok]).
  assert (forall r, length r <= length out -> w_files w1 !! r = w_files w0 !! r) as Hshort.
  { intros r Hl. rewrite Hf1. by rewrite !lookup_insert_longer by done. }
  destruct (mkdir_if_missing_ok (set_cwd w1 root) (App.outputDir o)) as (wm & Hm & Hcm & Hfm & Hsm & Hin & Hsup & Hsub);
    [done|done| | |].
  { unfold is_file. cbn [w_cwd set_cwd w_files]. rewrite Hshort by done. exact Hf. }
  { cbn [w_cwd set_cwd]. apply Forall_forall. intros r Hr'. rewrite Forall_forall in Hpre.
    unfold is_file. cbn [set_cwd w_files]. rewrite Hshort by (by apply prefixes_length). exact (Hpre r Hr'). }
  cbn [w_cwd set_cwd] in Hcm, Hin, Hsub, Hsup.
  assert (forall n, n ∈ app_outputs -> out ++ [n] ∉ w_dirs wm) as Hnm.
  { intros n Hn Hmem. rewrite Forall_forall in Hnot. apply Hsub in Hmem.
    apply elem_of_union in Hmem as [Hmem|Hmem%elem_of_list_to_set]; [|by apply snoc_not_prefix in Hmem].
    apply Hsub1 in Hmem.
    apply elem_of_union in Hmem as [Hmem|Hmem%elem_of_list_to_set]; [by apply (Hnot n Hn)|by apply snoc_not_prefix in Hmem]. }
  assert (w_files w1 !! (out ++ ["cloc.csv"]) = Some (cloc_report (srcPath o))) as Lc
    by (rewrite Hf1, !lookup_insert_sibling by done; apply lookup_insert_eq).
  assert (w_files w1 !! (out ++ ["barchart.html"]) = Some (pug_render "src/barchart.pug" (BarchartLocals (chart st) 400)))
    as Lb by (rewrite Hf1, !lookup_insert_sibling by done; apply lookup_insert_eq).
  assert (w_files w1 !! (out ++ ["heatmap.json"]) = Some text) as Lj
    by (rewrite Hf1, !lookup_insert_sibling by done; apply lookup_insert_eq).
  assert (w_files w1 !! (out ++ ["heatmap.html"]) =
          Some (pug_render "src/heatmap.pug" (HeatmapLocals (augmentHeatmapMatrix compared) (versions st))))
    as Lh by (rewrite Hf1; apply lookup_insert_eq).
  set (o2 := with_heatmap_cache o).
  set (spawned2 := (root, mkSpawn "cloc" (cloc_args (H := io_env o2 wm) o2 (srcPath o2))) :: w_spawned wm).
  set (wc := mkWorld (w_dirs wm) (w_files w1) root spawned2).
  assert (app_main app_dir o2 compared' w1 =
          (let* m := heatmap_matrix_io o2 compared' in
           writeFileSync (posix_join [App.outputDir o; "heatmap.html"])
             (pug_render "src/heatmap.pug" (HeatmapLocals (augmentHeatmapMatrix m) (versions st)))) wc) as E2.
  { unfold app_main. rewrite app_chdirs_ok by (done || set_solver). unfold app_run_io.
    rewrite (seq_io_ok _ _ _ wm tt Hm).
    rewrite (seq_io_ok _ _ wm wm tt) by (apply readdir_io_ok; [apply posix_join_nonempty|rewrite Hcm; by apply Hsup, Hsup1]).
    change (useClocCache o2) with (useClocCache o). rewrite Hcl.
    rewrite (seq_io_ok _ _ wm wc tt).
    2:{ rewrite (calculateLinesOfCode_ok o2 (srcPath o2) wm); [|exact Hne|by rewrite Hcm|rewrite Hcm; apply Hnm; set_solver].
        rewrite Hcm, Hfm. change (App.outputDir o2) with (App.outputDir o). change (srcPath o2) with (srcPath o).
        cbn [w_files set_cwd]. by rewrite insert_id. }
    rewrite (bind_io_ok _ _ wc wc wc) by reflexivity.
    assert (run_setup (H := io_env o2 wc) o2 = Some st) as Hst2.
    { apply (Hst wc). unfold file_text. cbn [w_cwd w_files wc]. rewrite resolve_join_name by done. fold out. by rewrite Lc. }
    rewrite Hst2.
    rewrite (seq_io_ok _ _ wc wc tt).
    2:{ rewrite write_in_dir_ok; [|exact Hne|done|done|apply Hnm; set_solver]. cbn [w_files w_cwd wc].
        by rewrite insert_id. }
    reflexivity. }
  exists w1, st, wc. split_and!; try done.
  intros d Hd'. apply Hsub, elem_of_union in Hd' as [Hd'|Hd']; [by apply Hsub1|set_solver].
Qed.

End AppEval.

(** ** A run without caches *)

(** C13: A run of [node main.js] without caches, from a
    well-formed world where the project root and the input directory
    exist, no file lies on the way to the output directory, none of the
    four outputs is a directory, cloc's report parses and the matrix can
    be stringified, succeeds, ends in the
    project root, creates the output directory and writes exactly four
    files there: [cloc.csv] (the cloc report), [barchart.html] (the
    barchart of the line counts, height 400), [heatmap.json]
    ([JSON.stringify] of the compared matrix) and [heatmap.html] (the
    augmented matrix with the versions); no other file changes. *)
Theorem app_run_writes_outputs `{AppEnv} `{IoEnv} `{Collator} (app_dir : abspath) (o : options)
    (compared : matrix) (w0 : world) :
  world_wf w0 -> Forall (fun s => seg_ok s = true) app_dir -> app_dir ∈ w_dirs w0 ->
  project_root app_dir ∈ w_dirs w0 ->
  resolve (project_root app_dir) (posix_join ["./"; inputDir o]) ∈ w_dirs w0 ->
  App.outputDir o <> "" -> useClocCache o = false ->
  useHeatmapCache o = false ->
  is_file w0 (resolve (project_root app_dir) (App.outputDir o)) = false ->
  Forall (fun r => is_file w0 r = false) (prefixes (resolve (project_root app_dir) (App.outputDir o))) ->
  Forall (fun n => resolve (project_root app_dir) (App.outputDir o) ++ [n] ∉ w_dirs w0) app_outputs ->
  is_Some (Cloc.parseClocCsv platform (csv_parse (cloc_report (srcPath o)))) ->
  is_Some (json_stringify compared) ->
  exists w1 st text, app_main app_dir o compared w0 = (w1, IOk tt) /\
    json_stringify compared = Some text /\
    w_cwd w1 = project_root app_dir /\
    resolve (project_root app_dir) (App.outputDir o) ∈ w_dirs w1 /\
    (forall w', file_text w' (posix_join [App.outputDir o; "cloc.csv"]) = cloc_report (srcPath o) ->
                run_setup (H := io_env o w') o = Some st) /\
    w_files w1 =
      <[resolve (project_root app_dir) (App.outputDir o) ++ ["heatmap.html"] :=
          pug_render "src/heatmap.pug" (HeatmapLocals (augmentHeatmapMatrix compared) (versions st))]>
      (<[resolve (project_root app_dir) (App.outputDir o) ++ ["heatmap.json"] := text]>
      (<[resolve (project_root app_dir) (App.outputDir o) ++ ["barchart.html"] :=
          pug_render "src/barchart.pug" (BarchartLocals (chart st) 400)]>
      (<[resolve (project_root app_dir) (App.outputDir o) ++ ["cloc.csv"] := cloc_report (srcPath o)]>
         (w_files w0)))).
Proof.
  intros Hw Hs Hd Hr Hinp Hne Hcl Hhc Hf Hpre Hnot Hloc [text Htext].
  destruct (app_first_run app_dir o compared w0 text) as (w1 & st & E1 & _ & Hc & Hin & _ & _ & Hst & Hf1);
    try done.
  by exists w1, st, text.
Qed.

(** ** The heatmap cache across two runs *)

(** C10: A second run with [--use-heatmap-cache], after a
    first run without caches whose matrix has integral counts, whatever
    matrix the comparators would now give, succeeds and leaves every file
    as the first run wrote it, when the cache file is the first run's
    [heatmap.json]. *)
Theorem cache_rerun_same_files `{AppEnv} `{IoEnv} `{Collator} (app_dir : abspath) (o : options)
    (compared compared' : matrix) (w0 : world) :
  world_wf w0 -> Forall (fun s => seg_ok s = true) app_dir -> app_dir ∈ w_dirs w0 ->
  project_root app_dir ∈ w_dirs w0 ->
  resolve (project_root app_dir) (posix_join ["./"; inputDir o]) ∈ w_dirs w0 ->
  App.outputDir o <> "" -> useClocCache o = false ->
  useHeatmapCache o = false ->
  is_file w0 (resolve (project_root app_dir) (App.outputDir o)) = false ->
  Forall (fun r => is_file w0 r = false) (prefixes (resolve (project_root app_dir) (App.outputDir o))) ->
  Forall (fun n => resolve (project_root app_dir) (App.outputDir o) ++ [n] ∉ w_dirs w0) app_outputs ->
  heatmapCacheFile o <> "" ->
  resolve (project_root app_dir) (heatmapCacheFile o) = resolve (project_root app_dir) (App.outputDir o) ++ ["heatmap.json"] ->
  is_Some (Cloc.parseClocCsv platform (csv_parse (cloc_report (srcPath o)))) ->
  matrix_canonb compared = true ->
  exists w1 w2, app_main app_dir o compared w0 = (w1, IOk tt) /\
    app_main app_dir (with_heatmap_cache o) compared' w1 = (w2, IOk tt) /\ w_files w2 = w_files w1.
Proof.
  intros Hw Hs Hd Hr Hinp Hne Hcl Hhc Hf Hpre Hnot Hcne Hcache Hloc Hcanon.
  destruct (cache_roundtrip compared Hcanon) as (text & Htext & Hread).
  destruct (app_rerun_cached app_dir o compared compared' w0 text)
    as (w1 & st & wc & E1 & Hfc & Hcc & Hin & Hsub & Lj & E2 & Lh); try done.
  exists w1. rewrite E2.
  rewrite (bind_io_ok _ _ wc wc compared).
  2:{ apply (heatmap_matrix_read_ok _ compared' text compared wc); [done|exact Hcne| |done].
      rewrite Hcc, Hfc. change (heatmapCacheFile (with_heatmap_cache o)) with (heatmapCacheFile o). by rewrite Hcache. }
  rewrite write_in_dir_ok; [|exact Hne|done|by rewrite Hcc|rewrite Hcc; apply (outputs_not_dirs (w_dirs w0) _ _ app_outputs); [done|done|set_solver]].
  eexists. split_and!; [done|reflexivity|]. cbn. rewrite Hfc, Hcc. by apply insert_id.
Qed.

(** C15: When [--heatmap-cache-file] does not name the
    [heatmap.json] the first run wrote (its default [output/heatmap.json]
    with another [--output-dir]), and nothing exists at that path before
    the first run (which runs under the preconditions of
    [app_run_writes_outputs]), the cached second run throws [ENOENT] on
    that path, the files left as the first run wrote them. *)
Theorem cache_misses_output_dir `{AppEnv} `{IoEnv} `{Collator} (app_dir : abspath) (o : options)
    (compared compared' : matrix) (w0 : world) :
  world_wf w0 -> Forall (fun s => seg_ok s = true) app_dir -> app_dir ∈ w_dirs w0 ->
  project_root app_dir ∈ w_dirs w0 ->
  resolve (project_root app_dir) (posix_join ["./"; inputDir o]) ∈ w_dirs w0 ->
  App.outputDir o <> "" -> useClocCache o = false ->
  useHeatmapCache o = false ->
  is_file w0 (resolve (project_root app_dir) (App.outputDir o)) = false ->
  Forall (fun r => is_file w0 r = false) (prefixes (resolve (project_root app_dir) (App.outputDir o))) ->
  Forall (fun n => resolve (project_root app_dir) (App.outputDir o) ++ [n] ∉ w_dirs w0) app_outputs ->
  is_Some (Cloc.parseClocCsv platform (csv_parse (cloc_report (srcPath o)))) ->
  is_Some (json_stringify compared) ->
  heatmapCacheFile o <> "" ->
  Forall (fun n => resolve (project_root app_dir) (App.outputDir o) ++ [n] <>
                   resolve (project_root app_dir) (heatmapCacheFile o)) app_outputs ->
  w_files w0 !! resolve (project_root app_dir) (heatmapCacheFile o) = None ->
  resolve (project_root app_dir) (heatmapCacheFile o) ∉
    w_dirs w0 ∪ list_to_set (prefixes (resolve (project_root app_dir) (App.outputDir o))) ->
  exists w1 w2, app_main app_dir o compared w0 = (w1, IOk tt) /\
    app_main app_dir (with_heatmap_cache o) compared' w1 =
      (w2, IErr (ENOENT (resolve (project_root app_dir) (heatmapCacheFile o)))) /\
    w_files w2 = w_files w1.
Proof.
  intros Hw Hs Hd Hr Hinp Hne Hcl Hhc Hf Hpre Hnot Hloc [text Htext] Hcne Hdiff Hnone Hndir.
  destruct (app_first_run app_dir o compared w0 text) as (w1' & st' & E1' & _ & _ & _ & _ & _ & _ & Hf1);
    try done.
  destruct (app_rerun_cached app_dir o compared compared' w0 text)
    as (w1 & st & wc & E1 & Hfc & Hcc & Hin & Hsub & Lj & E2 & Lh); try done.
  rewrite E1 in E1'. simplify_eq E1'. intros <-.
  exists w1, wc. split_and!; [done| |done]. rewrite E2.
  apply bind_io_err. unfold heatmap_matrix_io. cbn [useHeatmapCache with_heatmap_cache heatmapCacheFile].
  apply bind_io_err. rewrite <- Hcc. apply readFileSync_missing; [done| |].
  - rewrite Hfc, Hf1, Hcc. rewrite Forall_forall in Hdiff.
    rewrite !lookup_insert_ne by (apply Hdiff; set_solver). exact Hnone.
  - unfold is_dir. rewrite Hcc. apply bool_decide_eq_false_2. intros Hm. by apply Hndir, Hsub.
Qed.

(** ** A missing input directory *)

(** C18: When the input directory does not exist, [run] rejects with
    [ENOENT] at the [fs.readdir] of [getVersions], after creating the
    output directory and before cloc is spawned or any file is written:
    a file-system error is fatal, as the specification's error taxonomy
    says. *)
Theorem run_missing_input_dir `{AppEnv} `{IoEnv} `{Collator} (app_dir : abspath) (o : options)
    (compared : matrix) (w0 : world) :
  world_wf w0 -> Forall (fun s => seg_ok s = true) app_dir -> app_dir ∈ w_dirs w0 ->
  project_root app_dir ∈ w_dirs w0 -> App.outputDir o <> "" ->
  is_file w0 (resolve (project_root app_dir) (App.outputDir o)) = false ->
  Forall (fun r => is_file w0 r = false) (prefixes (resolve (project_root app_dir) (App.outputDir o))) ->
  resolve (project_root app_dir) (posix_join ["./"; inputDir o]) ∉
    w_dirs w0 ∪ list_to_set (prefixes (resolve (project_root app_dir) (App.outputDir o))) ->
  is_file w0 (resolve (project_root app_dir) (posix_join ["./"; inputDir o])) = false ->
  exists w1, app_main app_dir o compared w0 =
      (w1, IErr (ENOENT (resolve (project_root app_dir) (posix_join ["./"; inputDir o])))) /\
    resolve (project_root app_dir) (App.outputDir o) ∈ w_dirs w1 /\
    w_files w1 = w_files w0 /\ w_spawned w1 = w_spawned w0.
Proof.
  intros Hw Hs Hd Hr Hne Hf Hpre Hnd Hnf.
  set (root := project_root app_dir) in *.
  assert (world_wf (set_cwd w0 root)) as Hwr by (apply wf_set_cwd; [done|done|by apply project_root_ok]).
  destruct (mkdir_if_missing_ok (set_cwd w0 root) (App.outputDir o) Hwr Hne Hf Hpre)
    as (wm & Hm & Hcm & Hfm & Hsm & Hin & _ & Hsub).
  cbn [w_cwd set_cwd w_files w_spawned] in Hcm, Hin, Hsub, Hfm, Hsm.
  exists wm. split_and!; try done.
  unfold app_main. rewrite app_chdirs_ok by done. unfold app_run_io.
  rewrite (seq_io_ok _ _ _ wm tt Hm). apply seq_io_err. rewrite <- Hcm.
  apply readdir_io_missing; [apply posix_join_nonempty| |].
  - rewrite Hcm. intros Hm'. by apply Hnd, Hsub.
  - unfold is_file. by rewrite Hfm, Hcm.
Qed.

(** ** Every program keeps the file system well formed *)

(** [node import.js] and [node main.js] keep the file system
    well formed (the root exists, every directory's and file's parent is
    a directory, no path is both, the working directory exists), whether
    they return or throw. *)
Theorem programs_keep_world_wf `{Collator} `{AppEnv} `{IoEnv} (src_dir app_dir : abspath)
    (io : importer_options) (o : options) (compared : matrix) (w : world) :
  world_wf w ->
  world_wf (importer_main src_dir io w).1 /\ world_wf (app_main app_dir o compared w).1.
Proof. intros Hw. split; [by apply importer_main_wf_lemma|by apply app_main_wf]. Qed.

(** ** Witnesses on the sample checkout *)

Ltac sample_decide :=
  first [ apply (bool_decide_unpack _); vm_compute; reflexivity | vm_compute; reflexivity | discriminate
        | vm_compute; eexists; reflexivity ].

Lemma app_run_writes_outputs_witness :
  exists w1 st text,
    @app_main sample_env sample_io length_collator sample_app_dir main_defaults (bmatrix sample_batch)
      sample_app_world = (w1, IOk tt) /\
    @json_stringify (bmatrix sample_batch) = Some text /\
    w_cwd w1 = ["home"; "u"; "heatmap"] /\ ["home"; "u"; "heatmap"; "output"] ∈ w_dirs w1 /\
    (forall w', file_text w' "output/cloc.csv" = "cloc report" ->
                @run_setup (@io_env sample_env sample_io main_defaults w') length_collator main_defaults = Some st) /\
    w_files w1 =
      <[["home"; "u"; "heatmap"; "output"; "heatmap.html"] := "src/heatmap.pug"]>
      (<[["home"; "u"; "heatmap"; "output"; "heatmap.json"] := text]>
      (<[["home"; "u"; "heatmap"; "output"; "barchart.html"] := "src/barchart.pug"]>
      (<[["home"; "u"; "heatmap"; "output"; "cloc.csv"] := "cloc report"]> ∅))).
Proof.
  apply (@app_run_writes_outputs sample_env sample_io length_collator); sample_decide.
Defined.

Lemma cache_rerun_same_files_witness :
  exists w1 w2,
    @app_main sample_env sample_io length_collator sample_app_dir main_defaults (bmatrix sample_batch)
      sample_app_world = (w1, IOk tt) /\
    @app_main sample_env sample_io length_collator sample_app_dir (with_heatmap_cache main_defaults) []
      w1 = (w2, IOk tt) /\ w_files w2 = w_files w1.
Proof.
  apply (@cache_rerun_same_files sample_env sample_io length_collator); sample_decide.
Defined.

Lemma cache_misses_output_dir_witness :
  exists w1 w2,
    @app_main sample_env sample_io length_collator sample_app_dir out2_options (bmatrix sample_batch)
      sample_app_world = (w1, IOk tt) /\
    @app_main sample_env sample_io length_collator sample_app_dir (with_heatmap_cache out2_options) []
      w1 = (w2, IErr (ENOENT ["home"; "u"; "heatmap"; "output"; "heatmap.json"])) /\ w_files w2 = w_files w1.
Proof.
  apply (@cache_misses_output_dir sample_env sample_io length_collator); sample_decide.
Defined.

Lemma programs_keep_world_wf_witness :
  world_wf (@importer_main length_collator sample_app_dir rel_options sample_app_world).1 /\
  world_wf (@app_main sample_env sample_io length_collator sample_app_dir main_defaults []
              sample_app_world).1.
Proof. apply programs_keep_world_wf. sample_decide. Defined.

Lemma run_missing_input_dir_witness :
  exists w1, @app_main sample_env sample_io length_collator sample_app_dir main_defaults [] bare_app_world =
      (w1, IErr (ENOENT ["home"; "u"; "heatmap"; "input"])) /\
    ["home"; "u"; "heatmap"; "output"] ∈ w_dirs w1 /\ w_files w1 = ∅ /\ w_spawned w1 = [].
Proof. apply (@run_missing_input_dir sample_env sample_io length_collator); sample_decide. Defined.
